(* ===== verification/_CoqProject ===== *)
-Q . S2P
Prelude.v
PyFloat.v
PyStr.v
PyNum.v
MergeHdr.v
PyJson.v
SafePlan.v
PyCsv.v
ChartData.v
Svg.v
KneeCharts.v
RoundTrips.v
Mkcharts.v
MultiCharts.v
FleetCharts.v
PySum.v
Palette.v
