(* ===== verification/Prelude.v ===== *)
(** * The Python tools of the Raft benchmark

    The repository measures replicated state machines (braft, openraft, Aeron
    and a sequencer built on braft) with load generators written in C++, Rust
    and Java, driven by shell scripts.  Its Python code is what stands between
    those measurements and their reader, and what guards the machines they run
    on.  It is six scripts, all modelled here:

    - [deploy/assert-safe-plan.py] reads the JSON of a terraform plan on stdin
      and refuses it when anything would be destroyed or replaced;
    - [sweep/merge-hdr.py] merges the raw latency histograms of several load
      generators and prints the percentiles of the union;
    - [sweep/mkcharts.py] reads the CSV rows of the sweeps, averages repeated
      runs and draws the knee charts, the round-trip comparison and, on
      request, the overlay of all round trips;
    - [sweep/mkcharts-multi.py] draws one input gateway against five;
    - [sweep/mkcharts-fleets.py] draws the same product on different machines;
    - [sweep/validate_palette.py] checks that the chart colours can be told
      apart, by normal and by colour-blind vision.

    The scripts do not call each other: they meet in files.  The CSV rows of
    the sweeps are read by the three chart scripts, the SVG files are written
    by them, and the palette check holds a copy of the colours of
    [mkcharts.py].  Within the model they share the language and its library
    (first group of files) and, for the two smaller chart scripts, one
    drawing body.

    ** Files

    The language and its standard library, as far as the scripts use them:

    - [Prelude]: exceptions and [result], the state and error monad [M] over a
      [world] of files, standard output and standard error, insertion-ordered
      dicts, [only_prints] / [only_writes] and their hints, list lemmas;
    - [PyFloat]: [float], IEEE-754 binary64 with one rounding per operation;
    - [PyStr]: strings, number formatting, f-string templates;
    - [PyNum]: mixed arithmetic of ints and floats;
    - [PyJson]: [json.load] from bytes, its four ways to fail, and dynamic
      access to the values;
    - [PyCsv]: the [csv] module's reader as its state machine, [DictReader];
    - [PySum]: [sum] on floats, before and since CPython 3.12.

    The scripts:

    - [SafePlan]: [assert-safe-plan.py] ([script] is the program, the loop over
      [resource_changes] is [classify]);
    - [MergeHdr]: [merge-hdr.py] ([load], [percentile], [summarise], [main]);
    - [ChartData]: [mkcharts.py] up to the dataset: arguments ([CSVS], [OUT],
      [COMBINED]), [read_rows], the grouping and averaging ([_acc], [average],
      [D]) and [sat];
    - [Svg]: its drawing helpers ([head], [axes], [series], [legend_rows],
      [legend], [wrap_sub] and the coordinate maps);
    - [KneeCharts]: [knee-curves.svg] (module [Combined]) and one chart per
      entry of [CFG] (module [Product]);
    - [RoundTrips]: [RT], the colour guard, the panels and the overlay;
    - [Mkcharts]: the script as a whole, effects in their order;
    - [MultiCharts]: [mkcharts-multi.py], with the drawing body [plot_body] as
      a function of the canvas;
    - [FleetCharts]: [mkcharts-fleets.py], its loaders and its three charts on
      the same body;
    - [Palette]: [validate_palette.py], from hexadecimal text to exit status.

    A module-level name of a script is a definition of the same name; a
    function that appends to the list [o] of SVG lines returns the lines it
    appends; a function that can raise returns [result]; code that reads,
    writes or prints lives in [M], whose effects survive an exception.  Where a
    script is straight-line module code, its paragraphs have names of ours.

    ** What the theorems show

    - The plan gate: status 0 without [--allow-destroy] means that no change
      of the plan contains a delete ([safe_plan_sound]), what is printed on
      every well-typed plan ([script_proper]), and a plan that was cut short
      is never approved ([truncated_plan_refused]).
    - The percentiles: [percentile] against its mathematical definition,
      floats notwithstanding ([percentile_exact]); ordered percentiles, the
      merged one between the clients' own, independence of the order of the
      files, termination with the documented status, and the round trip of
      the histogram format.
    - The dataset: refinement of an abstract specification by the grouping and
      averaging code ([dataset_refines_spec]) and independence of row order,
      both for repeats with the same numeric columns ([mixed_repeats] shows
      what other repeats lead to), increasing rates, the saturation test against rational arithmetic
      ([sat_exact]), reading back what the sweeps write ([read_rows_sheets]).
    - The geometry: coordinates stay in the plot and keep their order, loops
      over ticks end and draw each tick once, paths visit the points in order,
      legends fit their canvas, labels and panels do not overlap, wrapped
      subtitles lose no word.
    - The runs: which files a run may change and when ([overlay_opt_in]),
      completion on every dataset in range ([run_completes],
      [multi_run_completes], [fleet_run_completes]), and the two ways a run of
      [mkcharts.py] stops half way ([clash_stops], [unmeasured_label_stops]).
    - The smaller loaders: [load_refines] (the floor of the mean per rate),
      [paired_together] (two latencies of the same runs).
    - The palette: the exit status is exactly what the thresholds say of the
      computed distances, which are always finite ([status_exact]); it does
      not depend on the order of the colours ([status_order]), bit for bit;
      a repeated colour always fails ([duplicate_fails]).

    ** Parameters

    Three functions are not Python code and are arguments of the model:
    [math.log10] (class [Libm] of [Svg]), the float power [pow] (class [Pow] of
    [Palette]), and the text of a JSON decoding error.  How deep JSON may nest
    and how many digits an integer may have are settings of the interpreter
    (class [Limits] of [PyJson]); the theorems hold for all of them.  [LibmLaws] and
    [PowLaws] state what the theorems use of the first two, and each has an
    instance computed in the kernel, at which the witnesses run.  [sum] is a
    class too, because it changed between versions of the language; there the
    laws are proved for both versions.

    ** Bounds and fuel

    Integers are unbounded, as in Python.  Floats are exact binary64 with
    overflow to infinity; the theorems that compare float code with
    mathematics name the range in which they hold (for instance
    [total * p <= 2^52] in [percentile_exact], below the 2^53 up to which
    every integer is a float).  Two kinds of recursion carry fuel: the JSON
    decoder, whose fuel grows with the text and never runs out
    ([loads_total]), and the loops [while v <= xmax], whose fuel [tick_fuel]
    is one more than their number of rounds when the step is positive
    ([while_ticks_from]), so [OutOfFuel] occurs in no completed run; a step
    of zero would loop in Python as well.  Decimal printing recurses at most
    [log2 n + 1] times ([dec_fuel_bound]), shortest float printing tries at
    most the 17 digits that always suffice for binary64.

    ** Not modelled

    - The load generators and servers (C++, Rust, Java), the vendored stores,
      the shell scripts, Makefiles and terraform files: other languages, other
      tools.
    - [os.makedirs] and permissions: the output directory is taken to exist.
    - White space and digits outside ASCII in the input files, and files that
      are not UTF-8 (standard input of the plan gate is modelled as bytes).
    - What [repr] makes of characters outside ASCII that are not printable,
      other than surrogates; it matters only for plans whose addresses are not
      strings. *)

From stdpp Require Export base option list strings gmap sorting.
From Stdlib Require Export ZArith Lia.

Open Scope Z_scope.

(** ** Exceptions and results *)

Inductive exn :=
| ValueError
| TypeError
| AttributeError
| KeyError (k : string)
| IndexError
| ZeroDivisionError
| OverflowError
| StopIteration
| CsvError
| UnicodeDecodeError
| UnicodeEncodeError
| JSONDecodeError
| RecursionError
| FileNotFoundError (path : string)
| SystemExit (code : Z)
| SystemExitMsg (msg : string)
| OutOfFuel.   (* no Python exception: a loop that was cut off; see the termination theorems *)

Inductive result (A : Type) :=
| Ok (a : A)
| Err (e : exn).
Arguments Ok {A} a.
Arguments Err {A} e.

#[export] Instance exn_eq_dec : EqDecision exn.
Proof. solve_decision. Defined.

#[export] Instance result_ret : MRet result := @Ok.
#[export] Instance result_bind : MBind result :=
  λ A B f m, match m with Ok a => f a | Err e => Err e end.
#[export] Instance result_fmap : FMap result :=
  λ A B f m, match m with Ok a => Ok (f a) | Err e => Err e end.

Lemma Ok_inj {A} (a b : A) : Ok a = Ok b → a = b.
Proof. by intros [= ->]. Qed.

(** A value that may be absent, and the exception its absence raises. *)
Definition require {A} (e : exn) (o : option A) : result A :=
  match o with Some a => Ok a | None => Err e end.

Fixpoint mapR {A B} (f : A → result B) (l : list A) : result (list B) :=
  match l with
  | [] => Ok []
  | x :: l => y ← f x; ys ← mapR f l; Ok (y :: ys)
  end.

Fixpoint foldR {A S} (f : S → A → result S) (s : S) (l : list A) : result S :=
  match l with
  | [] => Ok s
  | x :: l => s' ← f s x; foldR f s' l
  end.

Lemma bind_Ok {A B} (m : result A) (f : A → result B) b :
  (m ≫= f) = Ok b ↔ ∃ a, m = Ok a ∧ f a = Ok b.
Proof. destruct m; cbn; naive_solver. Qed.

Lemma fmap_Ok {A B} (m : result A) (f : A → B) b :
  (f <$> m) = Ok b ↔ ∃ a, m = Ok a ∧ f a = b.
Proof. destruct m; cbn; naive_solver. Qed.

Lemma require_Ok {A} e (o : option A) a : require e o = Ok a ↔ o = Some a.
Proof. destruct o; cbn; naive_solver. Qed.

Lemma mapR_Ok {A B} (f : A → result B) l ys :
  mapR f l = Ok ys ↔ Forall2 (λ x y, f x = Ok y) l ys.
Proof.
  revert ys. induction l as [|x l IH]; intros ys; cbn.
  - split; [intros [= <-]; constructor | by inversion 1].
  - rewrite bind_Ok. setoid_rewrite bind_Ok. split.
    + intros (y & Hy & ys' & Hys & [= <-]). constructor; [done|]. by apply IH.
    + inversion 1; subst. eexists. split; [done|]. eexists. split; [by apply IH|done].
Qed.

Lemma mapR_pure {A B} (f : A → B) l : mapR (λ x, Ok (f x)) l = Ok (f <$> l).
Proof. apply mapR_Ok. induction l; constructor; auto. Qed.

Lemma foldR_app {A S} (f : S → A → result S) s l k :
  foldR f s (l ++ k) = (foldR f s l ≫= λ s', foldR f s' k).
Proof. revert s. induction l as [|x l IH]; intros s; cbn; [done|]. by destruct (f s x); cbn. Qed.

Lemma mapR_app {A B} (f : A → result B) l k :
  mapR f (l ++ k) = (ys ← mapR f l; zs ← mapR f k; Ok (ys ++ zs)).
Proof.
  induction l as [|x l IH]; cbn; [by destruct (mapR f k)|].
  rewrite IH. destruct (f x), (mapR f l), (mapR f k); done.
Qed.

(** Splits every hypothesis that says a chain of binds returned a value. *)
Ltac inv_ok :=
  repeat match goal with
  | H : (_ ≫= _) = Ok _ |- _ => apply bind_Ok in H as (? & ? & H)
  | H : (_ <$> _) = Ok _ |- _ => apply fmap_Ok in H as (? & ? & H)
  | H : require _ _ = Ok _ |- _ => apply require_Ok in H
  | H : Ok _ = Ok _ |- _ => injection H as H; try subst
  | H : Err _ = Ok _ |- _ => discriminate H
  | H : Ok _ = Err _ |- _ => discriminate H
  end.

(** ** The world a script runs in: files, standard output, standard error *)

Record world := World {
  files : gmap string string;
  out : list string;   (* one entry per print to stdout, in order *)
  err : list string;   (* one entry per print to stderr, in order *)
}.

(** A script step changes the world even when it then raises. *)
Definition M (A : Type) : Type := world → result A * world.

#[export] Instance M_ret : MRet M := λ A a w, (Ok a, w).
#[export] Instance M_bind : MBind M :=
  λ A B f m w, match m w with (Ok a, w') => f a w' | (Err e, w') => (Err e, w') end.

Definition lift {A} (r : result A) : M A := λ w, (r, w).
Definition raise {A} (e : exn) : M A := λ w, (Err e, w).
Definition print (s : string) : M unit := λ w, (Ok tt, World (files w) (out w ++ [s]) (err w)).
Definition eprint (s : string) : M unit := λ w, (Ok tt, World (files w) (out w) (err w ++ [s])).

(** [open(path).read()] and [open(path, "w").write(text)]. *)
Definition read_file (path : string) : M string :=
  λ w, (require (FileNotFoundError path) (files w !! path), w).
Definition write_file (path text : string) : M unit :=
  λ w, (Ok tt, World (<[path := text]> (files w)) (out w) (err w)).
Definition exists_file (path : string) : M bool :=
  λ w, (Ok (bool_decide (is_Some (files w !! path))), w).

Fixpoint mapM_ {A} (f : A → M unit) (l : list A) : M unit :=
  match l with
  | [] => mret tt
  | x :: l => f x;; mapM_ f l
  end.

Fixpoint mapMM {A B} (f : A → M B) (l : list A) : M (list B) :=
  match l with
  | [] => mret []
  | x :: l => y ← f x; ys ← mapMM f l; mret (y :: ys)
  end.

(** The process's exit status. *)
Definition exit_status {A} (r : result A) : Z :=
  match r with
  | Ok _ => 0
  | Err (SystemExit n) => n
  | Err _ => 1
  end.

Lemma M_bind_Ok {A B} (m : M A) (f : A → M B) w a w' :
  m w = (Ok a, w') → (m ≫= f) w = f a w'.
Proof. intros H. unfold mbind, M_bind. by rewrite H. Qed.

Lemma M_bind_Err {A B} (m : M A) (f : A → M B) w e w' :
  m w = (Err e, w') → (m ≫= f) w = (Err e, w').
Proof. intros H. unfold mbind, M_bind. by rewrite H. Qed.

(** Printing a list of lines appends them in order. *)
Lemma mapM_print {A} (g : A → string) l w :
  mapM_ (λ x, print (g x)) l w = (Ok tt, World (files w) (out w ++ (g <$> l)) (err w)).
Proof.
  revert w. induction l as [|x l IH]; intros [fs o e]; cbn.
  - by rewrite app_nil_r.
  - unfold mbind, M_bind. cbn. rewrite IH. cbn. by rewrite <- app_assoc.
Qed.

(** ** Dictionaries

    A [dict] keeps its keys in the order they were first inserted, and the
    scripts iterate over it, so it is an association list with distinct keys.
    [dappend d k x] is [d.setdefault(k, []).append(x)]. *)

Section Dict.
Context {K V : Type} `{EqDecision K}.

Fixpoint dget (d : list (K * V)) (k : K) : option V :=
  match d with
  | [] => None
  | (k', v) :: d => if decide (k = k') then Some v else dget d k
  end.

Fixpoint dset (d : list (K * V)) (k : K) (v : V) : list (K * V) :=
  match d with
  | [] => [(k, v)]
  | (k', v') :: d => if decide (k = k') then (k', v) :: d else (k', v') :: dset d k v
  end.

Fixpoint dappend (d : list (K * list V)) (k : K) (x : V) : list (K * list V) :=
  match d with
  | [] => [(k, [x])]
  | (k', l) :: d => if decide (k = k') then (k', l ++ [x]) :: d else (k', l) :: dappend d k x
  end.

(** Everything filed under one key, in order. *)
Definition dgroup (kvs : list (K * V)) : list (K * list V) :=
  foldl (λ d kv, dappend d kv.1 kv.2) [] kvs.

Definition values (k : K) (kvs : list (K * V)) : list V :=
  snd <$> filter (λ kv, kv.1 = k) kvs.

Lemma dget_In d k v : dget d k = Some v → (k, v) ∈ d.
Proof.
  induction d as [|[k' v'] d IH]; cbn; [done|]. case_decide; subst.
  - intros [= ->]. by left.
  - intros. right. auto.
Qed.

Lemma dget_None d k : dget d k = None ↔ k ∉ d.*1.
Proof.
  induction d as [|[k' v'] d IH]; cbn; [set_solver|]. case_decide; set_solver.
Qed.

Lemma In_dget d k v : NoDup d.*1 → (k, v) ∈ d → dget d k = Some v.
Proof.
  induction d as [|[k' v'] d IH]; cbn; [set_solver|].
  rewrite NoDup_cons, elem_of_cons. intros [Hn Hd] [[= -> ->]|Hin]; case_decide; subst; try done.
  - destruct Hn. apply list_elem_of_fmap. by exists (k', v).
  - auto.
Qed.

Lemma dget_dset d k v k' : dget (dset d k v) k' = if decide (k' = k) then Some v else dget d k'.
Proof.
  induction d as [|[k0 v0] d IH]; cbn; [done|].
  destruct (decide (k = k0)) as [->|Hne]; cbn; repeat case_decide; subst; congruence.
Qed.

Lemma elem_of_dset_keys d k v k' : k' ∈ (dset d k v).*1 ↔ k' = k ∨ k' ∈ d.*1.
Proof.
  induction d as [|[k0 v0] d IH]; cbn; [set_solver|]. case_decide; set_solver.
Qed.

Lemma dset_NoDup d k v : NoDup d.*1 → NoDup (dset d k v).*1.
Proof.
  induction d as [|[k0 v0] d IH]; cbn; [intros; apply NoDup_singleton|].
  rewrite NoDup_cons. intros [Hn Hd]. case_decide; subst; cbn; rewrite NoDup_cons; [done|].
  split; [|auto]. rewrite elem_of_dset_keys. intros [->|]; done.
Qed.
End Dict.

Section Group.
Context {K V : Type} `{EqDecision K}.
Implicit Types (d : list (K * list V)) (kvs : list (K * V)).

Lemma dget_dappend d k x k' :
  dget (dappend d k x) k' = if decide (k' = k) then Some (default [] (dget d k) ++ [x]) else dget d k'.
Proof.
  induction d as [|[k0 v0] d IH]; cbn; [done|].
  destruct (decide (k = k0)) as [->|Hne]; cbn; repeat case_decide; subst; congruence.
Qed.

Lemma dappend_keys d k x :
  (dappend d k x).*1 = if decide (k ∈ d.*1) then d.*1 else d.*1 ++ [k].
Proof.
  induction d as [|[k0 v0] d IH]; cbn; [done|].
  destruct (decide (k = k0)) as [->|Hne]; cbn.
  - rewrite decide_True by set_solver. done.
  - rewrite IH. repeat case_decide; set_solver.
Qed.

Lemma dappend_NoDup d k x : NoDup d.*1 → NoDup (dappend d k x).*1.
Proof.
  intros H. rewrite dappend_keys. case_decide; [done|]. apply NoDup_app. split; [done|].
  split; [|apply NoDup_singleton]. set_solver.
Qed.

Lemma dgroup_snoc kvs kv : dgroup (kvs ++ [kv]) = dappend (dgroup kvs) kv.1 kv.2.
Proof. unfold dgroup. by rewrite foldl_app. Qed.

Lemma dgroup_NoDup kvs : NoDup (dgroup kvs).*1.
Proof.
  induction kvs as [|kv kvs IH] using rev_ind; [constructor|].
  rewrite dgroup_snoc. by apply dappend_NoDup.
Qed.

Lemma dget_dgroup kvs k :
  dget (dgroup kvs) k = match values k kvs with [] => None | l => Some l end.
Proof.
  induction kvs as [|[k0 x] kvs IH] using rev_ind; [done|].
  rewrite dgroup_snoc, dget_dappend. unfold values. rewrite filter_app, fmap_app. cbn [fst snd].
  rewrite filter_cons, filter_nil. cbn [fst]. destruct (decide (k = k0)) as [->|Hne].
  - rewrite decide_True by done. rewrite IH. unfold values. cbn.
    destruct (snd <$> filter _ kvs); done.
  - rewrite decide_False by congruence. cbn. by rewrite app_nil_r.
Qed.

(** A group holds exactly the values filed under its key. *)
Lemma dgroup_In kvs k l : (k, l) ∈ dgroup kvs ↔ l = values k kvs ∧ l ≠ [].
Proof.
  split.
  - intros H. apply In_dget in H; [|apply dgroup_NoDup]. rewrite dget_dgroup in H.
    destruct (values k kvs); naive_solver.
  - intros [-> H]. apply dget_In. rewrite dget_dgroup. by destruct (values k kvs).
Qed.

Lemma values_In kvs k x : x ∈ values k kvs ↔ (k, x) ∈ kvs.
Proof.
  unfold values. rewrite list_elem_of_fmap. setoid_rewrite list_elem_of_filter. split.
  - intros ([k' x'] & E & [E' H]). cbn in *. by subst.
  - intros H. by exists (k, x).
Qed.

Lemma dgroup_keys kvs k : k ∈ (dgroup kvs).*1 ↔ k ∈ kvs.*1.
Proof.
  rewrite !list_elem_of_fmap. split.
  - intros ([k' l] & -> & H). apply dgroup_In in H as [-> H].
    destruct (values k' kvs) as [|x l] eqn:E; [done|]. exists (k', x). split; [done|].
    apply values_In. rewrite E. by left.
  - intros ([k' x] & -> & H). exists (k', values k' kvs). split; [done|].
    apply dgroup_In. split; [done|]. intros E. apply values_In in H. rewrite E in H. set_solver.
Qed.
End Group.

(** The abstract view of a dictionary is a finite map. *)
Section DictMap.
Context {K V : Type} `{Countable K}.
Implicit Types d : list (K * V).

Definition dmap d : gmap K V := list_to_map d.

Lemma dmap_lookup d k : dmap d !! k = dget d k.
Proof.
  induction d as [|[k' v] d IH]; unfold dmap in *; cbn; [apply lookup_empty|].
  rewrite lookup_insert. repeat case_decide; congruence.
Qed.

Lemma dmap_dset d k v : dmap (dset d k v) = <[k := v]> (dmap d).
Proof.
  apply map_eq. intros i. rewrite dmap_lookup, dget_dset, lookup_insert, dmap_lookup.
  repeat case_decide; congruence.
Qed.
End DictMap.

(** ** Sums of integers *)

Definition zsum (l : list Z) : Z := foldr Z.add 0 l.

Lemma zsum_app l k : zsum (l ++ k) = zsum l + zsum k.
Proof. induction l; cbn; unfold zsum in *; lia. Qed.

Lemma zsum_perm l k : l ≡ₚ k → zsum l = zsum k.
Proof. induction 1; unfold zsum in *; cbn; lia. Qed.

Lemma zsum_nonneg l : Forall (λ x, 0 <= x) l → 0 <= zsum l.
Proof. induction 1; unfold zsum in *; cbn; lia. Qed.

Lemma zsum_bounds lo hi l :
  Forall (λ x, lo <= x <= hi) l → lo * Z.of_nat (length l) <= zsum l <= hi * Z.of_nat (length l).
Proof. induction 1; unfold zsum in *; cbn [foldr length]; lia. Qed.

Create HintDb py.
#[export] Hint Resolve dgroup_NoDup dset_NoDup dappend_NoDup zsum_nonneg : py.

(** ** Steps that only print

    [says m r l e]: whatever the world, [m] ends with [r] after printing [l]
    to stdout and [e] to stderr, and touches no file. *)

Definition says {A} (m : M A) (r : result A) (l e : list string) : Prop :=
  ∀ w, m w = (r, World (files w) (out w ++ l) (err w ++ e)).

Lemma says_ret {A} (a : A) : says (mret a) (Ok a) [] [].
Proof. intros [fs o e]. cbn. by rewrite !app_nil_r. Qed.

Lemma says_lift {A} (r : result A) : says (lift r) r [] [].
Proof. intros [fs o e]. cbn. by rewrite !app_nil_r. Qed.

Lemma says_print s : says (print s) (Ok tt) [s] [].
Proof. intros [fs o e]. cbn. by rewrite !app_nil_r. Qed.

Lemma says_eprint s : says (eprint s) (Ok tt) [] [s].
Proof. intros [fs o e]. cbn. by rewrite !app_nil_r. Qed.

Lemma says_bind {A B} (m : M A) (f : A → M B) a r l1 e1 l2 e2 :
  says m (Ok a) l1 e1 → says (f a) r l2 e2 → says (m ≫= f) r (l1 ++ l2) (e1 ++ e2).
Proof.
  intros Hm Hf w. rewrite (M_bind_Ok _ _ _ _ _ (Hm w)), Hf. cbn. by rewrite <- !app_assoc.
Qed.

Lemma says_bind_err {A B} (m : M A) (f : A → M B) ex l e :
  says m (Err ex) l e → says (m ≫= f) (Err ex) l e.
Proof. intros Hm w. by rewrite (M_bind_Err _ _ _ _ _ (Hm w)). Qed.

(** Runs a step whose printed lines and result are to be computed. *)
Ltac prints :=
  lazymatch goal with
  | |- says (mbind _ _) _ _ _ => eapply says_bind; [prints | prints]
  | |- says (mret _) _ _ _ => apply says_ret
  | |- says (lift _) _ _ _ => apply says_lift
  | |- says (print _) _ _ _ => apply says_print
  | |- says (eprint _) _ _ _ => apply says_eprint
  | _ => idtac
  end.

(** Executes the first step of a run in hypothesis [H]. *)
Ltac step_in H :=
  lazymatch type of H with
  | @mbind _ _ _ _ ?f (lift (Ok ?a)) ?w = ?r => change (f a w = r) in H; cbv beta in H
  | @mbind _ _ _ _ ?f (print ?s) ?w = ?r =>
      change (f tt (World (files w) (out w ++ [s]) (err w)) = r) in H; cbv beta in H
  end.

(** [m] only prints: what it prints and returns is fixed. *)
Definition only_prints {A} (m : M A) : Prop := ∃ r l e, says m r l e.

Lemma only_prints_ret {A} (a : A) : only_prints (mret a).
Proof. do 3 eexists. apply says_ret. Qed.
Lemma only_prints_lift {A} (r : result A) : only_prints (lift r).
Proof. do 3 eexists. apply says_lift. Qed.
Lemma only_prints_print s : only_prints (print s).
Proof. do 3 eexists. apply says_print. Qed.
Lemma only_prints_eprint s : only_prints (eprint s).
Proof. do 3 eexists. apply says_eprint. Qed.
Lemma only_prints_bind {A B} (m : M A) (f : A → M B) :
  only_prints m → (∀ a, only_prints (f a)) → only_prints (m ≫= f).
Proof.
  intros ([a|ex] & l & e & Hm) Hf.
  - destruct (Hf a) as (r & l' & e' & Ha). do 3 eexists. by eapply says_bind.
  - do 3 eexists. by eapply says_bind_err.
Qed.
Lemma only_prints_mapM {A} (f : A → M unit) l :
  (∀ a, only_prints (f a)) → only_prints (mapM_ f l).
Proof.
  intros Hf. induction l; cbn; [apply only_prints_ret|]. by apply only_prints_bind.
Qed.

#[export] Hint Resolve only_prints_ret only_prints_lift only_prints_print only_prints_eprint
  only_prints_bind only_prints_mapM : py.

(** Permuting the input of a map that returns permutes what it returns. *)
Lemma mapR_perm {A B} (f : A → result B) l l' ys :
  l ≡ₚ l' → mapR f l = Ok ys → ∃ ys', mapR f l' = Ok ys' ∧ ys ≡ₚ ys'.
Proof.
  intros P. rewrite mapR_Ok. setoid_rewrite mapR_Ok. revert ys.
  induction P as [|x l l' P IH|x y l|l l' l'' P1 IH1 P2 IH2]; intros ys H.
  - inversion H; subst. by exists [].
  - inversion H as [|? b ? bs Hb Hbs]; subst. destruct (IH bs Hbs) as (bs' & E & Q).
    exists (b :: bs'). split; [by constructor | by constructor].
  - inversion H as [|? b ? bs Hb Hbs]; subst. inversion Hbs as [|? c ? cs Hc Hcs]; subst.
    exists (c :: b :: cs). split; [by repeat constructor | by constructor].
  - destruct (IH1 _ H) as (ys' & E & Q). destruct (IH2 _ E) as (ys'' & E' & Q').
    exists ys''. split; [done|]. by etrans.
Qed.

Lemma Forall2_and_l {A B} (P : A → Prop) (R : A → B → Prop) l k :
  Forall P l → Forall2 R l k → Forall2 (λ x y, P x ∧ R x y) l k.
Proof. intros HP HR. induction HR; inversion HP; subst; constructor; auto. Qed.

Lemma Forall2_ex_r {A B} (R : A → B → Prop) (Q : B → Prop) l k :
  Forall2 R l k → Forall Q k → Forall (λ x, ∃ y, R x y ∧ Q y) l.
Proof. intros HR HQ. induction HR; inversion HQ; subst; constructor; eauto. Qed.

(** ** Which files a step may write *)

(** [m] writes no file but those that satisfy [P]. *)
Definition only_writes {A} (P : string → Prop) (m : M A) : Prop :=
  ∀ w path, ¬ P path → files (m w).2 !! path = files w !! path.

Lemma only_writes_quiet {A} P (m : M A) : (∀ w, files (m w).2 = files w) → only_writes P m.
Proof. intros H w path _. by rewrite H. Qed.

Lemma only_writes_ret {A} P (a : A) : only_writes P (mret a).
Proof. by apply only_writes_quiet. Qed.
Lemma only_writes_lift {A} P (r : result A) : only_writes P (lift r).
Proof. by apply only_writes_quiet. Qed.
Lemma only_writes_raise {A} P e : only_writes P (raise (A := A) e).
Proof. by apply only_writes_quiet. Qed.
Lemma only_writes_print P s : only_writes P (print s).
Proof. by apply only_writes_quiet. Qed.
Lemma only_writes_read P path : only_writes P (read_file path).
Proof. by apply only_writes_quiet. Qed.
Lemma only_writes_write (P : string → Prop) path text : P path → only_writes P (write_file path text).
Proof. intros HP w q Hq. cbn. rewrite lookup_insert_ne; [done|]. by intros ->. Qed.
Lemma only_writes_bind {A B} P (m : M A) (f : A → M B) :
  only_writes P m → (∀ a, only_writes P (f a)) → only_writes P (m ≫= f).
Proof.
  intros Hm Hf w path Hp. specialize (Hm w path Hp). unfold mbind, M_bind.
  destruct (m w) as [[a|e] w']; [|done]. cbn in Hm. by rewrite (Hf a w' path Hp).
Qed.
Lemma only_writes_mapM {A} P (f : A → M unit) l : Forall (λ x, only_writes P (f x)) l → only_writes P (mapM_ f l).
Proof. induction 1; cbn; [apply only_writes_ret|]. by apply only_writes_bind. Qed.
Lemma only_writes_mapMM {A B} P (f : A → M B) l : (∀ x, only_writes P (f x)) → only_writes P (mapMM f l).
Proof.
  intros Hf. induction l; cbn; [apply only_writes_ret|].
  apply only_writes_bind; [done|]. intros b. apply only_writes_bind; [done|]. intros. apply only_writes_ret.
Qed.
Lemma only_writes_impl {A} (P Q : string → Prop) (m : M A) :
  (∀ path, P path → Q path) → only_writes P m → only_writes Q m.
Proof. intros HPQ Hm w path Hq. apply Hm. auto. Qed.

#[export] Hint Resolve only_writes_ret only_writes_lift only_writes_raise only_writes_print only_writes_read
  only_writes_write only_writes_bind only_writes_mapMM : py.
