(* ===== verification/PyFloat.v ===== *)
(** Python's [float]: IEEE-754 binary64 with round-half-to-even.

    A finite float is a signed integer mantissa and an exponent; its value is
    the rational [fval].  Every operation of the language the charts and the
    histogram tool use ([+], [-], [*], [/], [<], [int / int], [float(int)],
    [round], [math.ceil]) is the exact rational operation followed by one
    rounding [frnd], which is how IEEE-754 defines it.  Infinities, NaN and
    signed zeros are carried.

    The lemmas are the three facts every later numeric proof rests on:
    rounding is monotone ([rnd_mono]), exact on representable values
    ([rnd_exact]) and within half a unit in the last place
    ([rnd_error]). *)

From Stdlib Require Import QArith Qpower Qround Qabs Lqa ZArith Lia Bool.

Open Scope Q_scope.

(** ** Powers of two over the rationals *)

Definition pow2 (e : Z) : Q := (2 # 1) ^ e.

Lemma pow2_pos e : 0 < pow2 e.
Proof. apply Qpower_0_lt. reflexivity. Qed.

Lemma pow2_add a b : pow2 (a + b) == pow2 a * pow2 b.
Proof. apply Qpower_plus. discriminate. Qed.

Lemma pow2_opp a : pow2 (- a) * pow2 a == 1.
Proof. rewrite <- pow2_add, Z.add_opp_diag_l. reflexivity. Qed.

Lemma pow2_le a b : (a <= b)%Z -> pow2 a <= pow2 b.
Proof. intros H. apply Qpower_le_compat_l; [exact H | discriminate]. Qed.

Lemma pow2_lt a b : (a < b)%Z -> pow2 a < pow2 b.
Proof. intros H. apply Qpower_lt_compat_l; [exact H | reflexivity]. Qed.

Lemma pow2_lt_inv a b : pow2 a < pow2 b -> (a < b)%Z.
Proof. intros H. eapply Qpower_lt_compat_l_inv; [exact H | reflexivity]. Qed.

Lemma pow2_Z k : (0 <= k)%Z -> pow2 k == inject_Z (2 ^ k).
Proof. intros H. unfold pow2. rewrite Zpower_Qpower by exact H. reflexivity. Qed.

Lemma pow2_succ k : pow2 (k + 1) == 2 * pow2 k.
Proof. rewrite pow2_add. unfold pow2 at 2. cbn. ring. Qed.

Lemma scale_unscale q e : q * pow2 (- e) * pow2 e == q.
Proof. rewrite <- Qmult_assoc, pow2_opp. ring. Qed.

Lemma Qmult_pow2_le x y e : x <= y -> x * pow2 e <= y * pow2 e.
Proof. intros H. apply Qmult_le_compat_r; [exact H | apply Qlt_le_weak, pow2_pos]. Qed.

(** ** Rounding to an integer, ties to even *)

Definition rne (q : Q) : Z :=
  let f := Qfloor q in
  match Qcompare (q - inject_Z f) (1 # 2) with
  | Lt => f
  | Gt => f + 1
  | Eq => if Z.even f then f else f + 1
  end%Z.

#[export] Instance rne_proper : Proper (Qeq ==> eq) rne.
Proof. intros x y H. unfold rne. rewrite (Qfloor_comp _ _ H), H. reflexivity. Qed.

Lemma rne_spec q : inject_Z (rne q) - (1 # 2) <= q <= inject_Z (rne q) + (1 # 2).
Proof.
  unfold rne. pose proof (Qfloor_le q) as H1. pose proof (Qlt_floor q) as H2.
  rewrite inject_Z_plus in H2.
  destruct (Qcompare_spec (q - inject_Z (Qfloor q)) (1 # 2)) as [H|H|H];
    [destruct (Z.even _)|..]; rewrite ?inject_Z_plus; change (inject_Z 1) with 1 in *; lra.
Qed.

Lemma inject_Z_lt_1 a b : (a < b)%Z -> inject_Z a + 1 <= inject_Z b.
Proof. intros H. change 1 with (inject_Z 1). rewrite <- inject_Z_plus, <- Zle_Qle. lia. Qed.

Lemma rne_mono x y : x <= y -> (rne x <= rne y)%Z.
Proof.
  intros H. destruct (Z_le_gt_dec (rne x) (rne y)) as [|Hgt]; [assumption|exfalso].
  pose proof (rne_spec x). pose proof (rne_spec y).
  pose proof (inject_Z_lt_1 (rne y) (rne x) ltac:(lia)).
  assert (x == y) as E by lra. rewrite E in Hgt. lia.
Qed.

Lemma rne_Z z : rne (inject_Z z) = z.
Proof.
  unfold rne. rewrite Qfloor_Z.
  assert (inject_Z z - inject_Z z == 0) as -> by ring. reflexivity.
Qed.

Lemma rne_le_Z q z : q <= inject_Z z -> (rne q <= z)%Z.
Proof. intros H. rewrite <- (rne_Z z). apply rne_mono, H. Qed.

Lemma rne_ge_Z q z : inject_Z z <= q -> (z <= rne q)%Z.
Proof. intros H. rewrite <- (rne_Z z). apply rne_mono, H. Qed.

Lemma rne_0 : rne 0 = 0%Z.
Proof. reflexivity. Qed.

(** ** The binary exponent of a positive rational *)

Definition ilog2 (q : Q) : Z :=
  let k := (Z.log2 (Qnum q) - Z.log2 (Zpos (Qden q)))%Z in
  if Qle_bool (pow2 k) q then k else (k - 1)%Z.

Lemma inject_Z_log2 n : (0 < n)%Z -> pow2 (Z.log2 n) <= inject_Z n < pow2 (Z.log2 n + 1).
Proof.
  intros H. pose proof (Z.log2_spec n H). pose proof (Z.log2_nonneg n).
  rewrite !pow2_Z by lia. rewrite <- Zle_Qle, <- Zlt_Qlt. lia.
Qed.

Lemma ilog2_spec q : 0 < q -> pow2 (ilog2 q) <= q < pow2 (ilog2 q + 1).
Proof.
  intros Hq. destruct q as [n d]. assert (0 < n)%Z as Hn.
  { unfold Qlt in Hq. cbn in Hq. lia. }
  pose proof (inject_Z_log2 n Hn) as [N1 N2].
  pose proof (inject_Z_log2 (Zpos d) ltac:(lia)) as [D1 D2].
  assert ((n # d) * inject_Z (Zpos d) == inject_Z n) as E.
  { unfold Qeq. cbn. lia. }
  assert (0 < inject_Z (Zpos d)) as Dp by reflexivity.
  set (k := (Z.log2 n - Z.log2 (Zpos d))%Z).
  assert (n # d < pow2 (k + 1)) as U.
  { apply (Qmult_lt_r _ _ _ Dp). rewrite E. eapply Qlt_le_trans; [exact N2|].
    replace (Z.log2 n + 1)%Z with ((k + 1) + Z.log2 (Zpos d))%Z by lia.
    rewrite pow2_add, !(Qmult_comm (pow2 (k + 1))).
    apply Qmult_pow2_le, D1. }
  assert (pow2 (k - 1) <= n # d) as L.
  { apply (Qmult_le_r _ _ _ Dp). rewrite E. eapply Qle_trans; [|exact N1].
    replace (Z.log2 n) with ((k - 1) + (Z.log2 (Zpos d) + 1))%Z by lia.
    rewrite pow2_add, !(Qmult_comm (pow2 (k - 1))).
    apply Qmult_pow2_le, Qlt_le_weak, D2. }
  unfold ilog2. cbn [Qnum Qden]. fold k. destruct (Qle_bool (pow2 k) (n # d)) eqn:B.
  - apply Qle_bool_iff in B. split; assumption.
  - split; [exact L|]. rewrite Z.sub_add. apply Qnot_le_lt. intros C.
    apply Qle_bool_iff in C. congruence.
Qed.

Lemma ilog2_mono x y : 0 < x -> x <= y -> (ilog2 x <= ilog2 y)%Z.
Proof.
  intros Hx H. pose proof (ilog2_spec x Hx). pose proof (ilog2_spec y ltac:(lra)).
  enough (ilog2 x < ilog2 y + 1)%Z by lia. apply pow2_lt_inv. lra.
Qed.

Lemma ilog2_unique q k : pow2 k <= q -> q < pow2 (k + 1) -> ilog2 q = k.
Proof.
  intros H1 H2. pose proof (pow2_pos k). pose proof (ilog2_spec q ltac:(lra)).
  enough (ilog2 q < k + 1 /\ k < ilog2 q + 1)%Z by lia.
  split; apply pow2_lt_inv; lra.
Qed.

(** ** Rounding to 53 bits with the exponent bounded below *)

Definition cexp (q : Q) : Z := Z.max (ilog2 q - 52) (-1074).
Definition mant (q : Q) : Z := rne (q * pow2 (- cexp q)).
Definition rndpos (q : Q) : Q := inject_Z (mant q) * pow2 (cexp q).

Lemma mant_nonneg q : 0 < q -> (0 <= mant q)%Z.
Proof.
  intros H. apply rne_ge_Z. change (inject_Z 0) with 0.
  rewrite <- (Qmult_0_l (pow2 (- cexp q))). apply Qmult_pow2_le. lra.
Qed.

Lemma mant_le q : 0 < q -> (mant q <= 2 ^ 53)%Z.
Proof.
  intros H. pose proof (ilog2_spec q H) as [_ U]. apply rne_le_Z.
  rewrite <- pow2_Z by lia.
  eapply Qle_trans; [apply Qmult_pow2_le, Qlt_le_weak, U|].
  rewrite <- pow2_add. apply pow2_le. unfold cexp. lia.
Qed.

Lemma mant_ge q : 0 < q -> cexp q = (ilog2 q - 52)%Z -> (2 ^ 52 <= mant q)%Z.
Proof.
  intros H E. pose proof (ilog2_spec q H) as [L _]. apply rne_ge_Z.
  rewrite <- pow2_Z by lia.
  eapply Qle_trans; [|apply Qmult_pow2_le, L].
  rewrite <- pow2_add. apply pow2_le. lia.
Qed.

Lemma cexp_mono x y : 0 < x -> x <= y -> (cexp x <= cexp y)%Z.
Proof. intros Hx H. pose proof (ilog2_mono x y Hx H). unfold cexp. lia. Qed.

Lemma cexp_comp x y : 0 < x -> x == y -> cexp x = cexp y.
Proof.
  intros Hx H. unfold cexp. f_equal. f_equal. symmetry.
  pose proof (ilog2_spec x Hx). apply ilog2_unique; rewrite <- H; tauto.
Qed.

Lemma rndpos_comp x y : 0 < x -> x == y -> rndpos x == rndpos y.
Proof.
  intros Hx H. unfold rndpos, mant. rewrite (cexp_comp x y Hx H).
  rewrite (rne_proper (x * _) (y * pow2 (- cexp y))); [reflexivity | rewrite H; reflexivity].
Qed.

Lemma rndpos_nonneg q : 0 < q -> 0 <= rndpos q.
Proof.
  intros H. unfold rndpos. rewrite <- (Qmult_0_l (pow2 (cexp q))).
  apply Qmult_pow2_le. change 0 with (inject_Z 0). rewrite <- Zle_Qle. apply mant_nonneg, H.
Qed.

Lemma rndpos_mono x y : 0 < x -> x <= y -> rndpos x <= rndpos y.
Proof.
  intros Hx H. assert (0 < y) as Hy by lra.
  destruct (Z.eq_dec (cexp x) (cexp y)) as [E|E].
  - unfold rndpos, mant. rewrite E. apply Qmult_pow2_le. rewrite <- Zle_Qle.
    apply rne_mono, Qmult_pow2_le, H.
  - pose proof (cexp_mono x y Hx H).
    assert (cexp y = ilog2 y - 52)%Z as Ey by (unfold cexp in *; lia).
    unfold rndpos. apply Qle_trans with (pow2 53 * pow2 (cexp x)).
    + apply Qmult_pow2_le. rewrite pow2_Z, <- Zle_Qle by lia. apply mant_le, Hx.
    + apply Qle_trans with (pow2 52 * pow2 (cexp y)).
      * rewrite <- !pow2_add. apply pow2_le. lia.
      * apply Qmult_pow2_le. rewrite pow2_Z, <- Zle_Qle by lia. apply mant_ge; assumption.
Qed.

Lemma rndpos_ulp q : 0 < q -> Qabs (rndpos q - q) <= pow2 (cexp q - 1).
Proof.
  intros Hq. pose proof (rne_spec (q * pow2 (- cexp q))) as [L U]. fold (mant q) in L, U.
  apply (Qmult_pow2_le _ _ (cexp q)) in L, U. rewrite scale_unscale in L, U.
  assert (pow2 (cexp q - 1) == (1 # 2) * pow2 (cexp q)) as ->.
  { unfold Z.sub. rewrite pow2_add. unfold pow2 at 2. cbn. ring. }
  unfold rndpos. apply Qabs_Qle_condition. lra.
Qed.

Lemma rndpos_error q :
  0 < q -> Qabs (rndpos q - q) <= q * pow2 (-53) + pow2 (-1075).
Proof.
  intros Hq. eapply Qle_trans; [apply rndpos_ulp, Hq|].
  pose proof (ilog2_spec q Hq) as [L _].
  apply (Qmult_pow2_le _ _ (-53)) in L. rewrite <- pow2_add in L.
  pose proof (pow2_pos (ilog2 q + -53)). pose proof (pow2_pos (-1075)).
  destruct (Z.max_spec (ilog2 q - 52) (-1074)) as [[_ E]|[_ E]]; unfold cexp; rewrite E.
  - change (-1074 - 1)%Z with (-1075)%Z. lra.
  - replace (ilog2 q - 52 - 1)%Z with (ilog2 q + -53)%Z by lia. lra.
Qed.

Lemma rne_scaled_Z q k : q == inject_Z k -> inject_Z (rne q) == q.
Proof. intros H. rewrite (rne_proper _ _ H), rne_Z. symmetry. exact H. Qed.

Lemma rndpos_grid q m e :
  0 < q -> (cexp q <= e)%Z -> q == inject_Z m * pow2 e -> rndpos q == q.
Proof.
  intros Hq He E. unfold rndpos, mant. generalize dependent (cexp q). intros c He.
  rewrite (rne_scaled_Z _ (m * 2 ^ (e - c))).
  - apply scale_unscale.
  - rewrite inject_Z_mult, <- pow2_Z by lia. rewrite E, <- Qmult_assoc, <- pow2_add.
    reflexivity.
Qed.

Lemma rndpos_exact q m e :
  0 < q -> q == inject_Z m * pow2 e -> (m <= 2 ^ 53)%Z -> (-1074 <= e)%Z -> rndpos q == q.
Proof.
  intros Hq E Hm He.
  destruct (Z.eq_dec m (2 ^ 53)) as [->|Hne].
  - apply (rndpos_grid q (2 ^ 52) (e + 1)); [exact Hq| |].
    + unfold cexp. rewrite (ilog2_unique q (53 + e)%Z); [lia|..].
      * rewrite E, <- (pow2_Z 53), <- pow2_add by lia. apply Qle_refl.
      * rewrite E, <- (pow2_Z 53), <- pow2_add by lia. apply pow2_lt. lia.
    + rewrite E, <- (pow2_Z 53), <- (pow2_Z 52), <- !pow2_add by lia.
      replace (53 + e)%Z with (52 + (e + 1))%Z by lia. reflexivity.
  - apply (rndpos_grid q m e); [exact Hq| |exact E].
    assert (q < pow2 (53 + e)) as U.
    { rewrite E, pow2_add, (pow2_Z 53) by lia.
      apply Qmult_lt_r; [apply pow2_pos|]. rewrite <- Zlt_Qlt. lia. }
    pose proof (ilog2_spec q Hq) as [L _].
    assert (ilog2 q < 53 + e)%Z by (apply pow2_lt_inv; lra).
    unfold cexp. lia.
Qed.

Lemma rndpos_pos_ge q k :
  0 < q -> (-1074 <= k)%Z -> pow2 k <= q -> pow2 k <= rndpos q.
Proof.
  intros Hq Hk H. rewrite <- (rndpos_exact (pow2 k) 1 k); try lia.
  - apply rndpos_mono; [apply pow2_pos | exact H].
  - apply pow2_pos.
  - ring.
Qed.

(** ** Signed rounding *)

Definition rndQ (q : Q) : Q :=
  match Qcompare q 0 with
  | Eq => 0
  | Gt => rndpos q
  | Lt => - rndpos (- q)
  end.

#[export] Instance rndQ_proper : Proper (Qeq ==> Qeq) rndQ.
Proof.
  intros x y H. unfold rndQ. rewrite <- H.
  destruct (Qcompare_spec x 0) as [E|E|E]; [reflexivity| |].
  - apply Qopp_comp, rndpos_comp; [lra | rewrite H; reflexivity].
  - apply rndpos_comp; assumption.
Qed.

Lemma rndQ_pos q : 0 < q -> rndQ q = rndpos q.
Proof. intros H. unfold rndQ. destruct (Qcompare_spec q 0); try lra. reflexivity. Qed.

Lemma rndQ_neg q : q < 0 -> rndQ q = - rndpos (- q).
Proof. intros H. unfold rndQ. destruct (Qcompare_spec q 0); try lra. reflexivity. Qed.

Lemma rndQ_0 q : q == 0 -> rndQ q == 0.
Proof. intros ->. reflexivity. Qed.

Lemma rndQ_nonneg q : 0 <= q -> 0 <= rndQ q.
Proof.
  intros H. destruct (Qcompare_spec 0 q) as [E|E|E]; [|rewrite rndQ_pos by exact E|lra].
  - rewrite rndQ_0; lra.
  - apply rndpos_nonneg, E.
Qed.

Lemma rnd_opp q : rndQ (- q) == - rndQ q.
Proof.
  destruct (Qcompare_spec q 0) as [E|E|E].
  - rewrite E. reflexivity.
  - rewrite (rndQ_pos (- q)), rndQ_neg by lra. ring.
  - rewrite (rndQ_neg (- q)), rndQ_pos by lra. apply Qopp_comp, rndpos_comp; lra.
Qed.

(** Rounding never reverses an order. *)
Lemma rnd_mono x y : x <= y -> rndQ x <= rndQ y.
Proof.
  intros H. destruct (Qlt_le_dec 0 x) as [Hx|Hx]; [|destruct (Qlt_le_dec y 0) as [Hy|Hy]].
  - rewrite !rndQ_pos by lra. apply rndpos_mono; assumption.
  - rewrite !rndQ_neg by lra. apply Qopp_le_compat, rndpos_mono; lra.
  - apply Qle_trans with 0; [|apply rndQ_nonneg, Hy].
    assert (0 <= - x) as Hx' by lra. apply rndQ_nonneg in Hx'. rewrite rnd_opp in Hx'. lra.
Qed.

(** A value with at most 53 significant bits is not changed. *)
Lemma rnd_exact q m e :
  q == inject_Z m * pow2 e -> (Z.abs m <= 2 ^ 53)%Z -> (-1074 <= e)%Z -> rndQ q == q.
Proof.
  intros E Hm He. destruct (Qcompare_spec q 0) as [H|H|H].
  - rewrite H. reflexivity.
  - rewrite rndQ_neg by exact H. rewrite (rndpos_exact (- q) (- m) e); [ring|lra| |lia|exact He].
    rewrite E, inject_Z_opp. ring.
  - rewrite rndQ_pos by exact H. apply (rndpos_exact q m e); [exact H|exact E|lia|exact He].
Qed.

Lemma rnd_Z z : (Z.abs z <= 2 ^ 53)%Z -> rndQ (inject_Z z) == inject_Z z.
Proof.
  intros H. apply (rnd_exact _ z 0); [|exact H|lia]. change (pow2 0) with 1. ring.
Qed.

(** The rounding error is at most half a unit in the last place. *)
Lemma rnd_error q : Qabs (rndQ q - q) <= Qabs q * pow2 (-53) + pow2 (-1075).
Proof.
  destruct (Qcompare_spec q 0) as [H|H|H].
  - rewrite H. discriminate.
  - rewrite rndQ_neg, (Qabs_neg q) by lra.
    assert (- rndpos (- q) - q == - (rndpos (- q) - - q)) as -> by ring.
    rewrite Qabs_opp. apply rndpos_error. lra.
  - rewrite rndQ_pos, (Qabs_pos q) by lra. apply rndpos_error, H.
Qed.

(** An upper or lower bound that is itself representable survives rounding. *)
Lemma rnd_le_Z q z : (Z.abs z <= 2 ^ 53)%Z -> q <= inject_Z z -> rndQ q <= inject_Z z.
Proof. intros Hz H. rewrite <- (rnd_Z z Hz). apply rnd_mono, H. Qed.

Lemma rnd_ge_Z q z : (Z.abs z <= 2 ^ 53)%Z -> inject_Z z <= q -> inject_Z z <= rndQ q.
Proof. intros Hz H. rewrite <- (rnd_Z z Hz). apply rnd_mono, H. Qed.

(** ** Floats *)

Inductive float :=
| Fin (s : bool) (m e : Z)
| Inf (s : bool)
| NaN.

Definition is_fin (f : float) : bool := match f with Fin _ _ _ => true | _ => false end.

Definition fval (f : float) : Q :=
  match f with
  | Fin s m e => inject_Z (if s then - m else m)%Z * pow2 e
  | _ => 0
  end.

Definition fzero (s : bool) : float := Fin s 0 (-1074).

(** The float nearest to the magnitude [q >= 0], with sign [s]; infinity
    past the largest finite float. *)
Definition frnd (s : bool) (q : Q) : float :=
  if Qeq_bool q 0 then fzero s
  else
    let m := mant q in
    let e := cexp q in
    let '(m, e) := if (m =? 2 ^ 53)%Z then (2 ^ 52, e + 1)%Z else (m, e) in
    if (971 <? e)%Z then Inf s else Fin s m e.

Definition signed (s : bool) (q : Q) : Q := if s then - q else q.

#[export] Instance signed_proper s : Proper (Qeq ==> Qeq) (signed s).
Proof. intros x y H. destruct s; cbn; rewrite H; reflexivity. Qed.

Definition Qneg (q : Q) : bool := negb (Qle_bool 0 q).
Definition of_Q (q : Q) : float := frnd (Qneg q) (Qabs q).

Lemma fval_Fin s m e : fval (Fin s m e) == signed s (inject_Z m * pow2 e).
Proof. destruct s; cbn [fval signed]; rewrite ?inject_Z_opp; ring. Qed.

Lemma frnd_fin s q :
  0 <= q -> q < pow2 1023 -> is_fin (frnd s q) = true /\ fval (frnd s q) == rndQ (signed s q).
Proof.
  intros H0 HU. unfold frnd. destruct (Qeq_bool q 0) eqn:Z0.
  - apply Qeq_bool_eq in Z0. split; [reflexivity|]. unfold fzero. rewrite fval_Fin, Z0.
    destruct s; reflexivity.
  - apply Qeq_bool_neq in Z0. assert (0 < q) as Hq by lra.
    assert (signed s (rndpos q) == rndQ (signed s q)) as <-.
    { destruct s; cbn [signed]; rewrite ?rnd_opp, rndQ_pos by exact Hq; reflexivity. }
    pose proof (ilog2_spec q Hq) as [L _].
    assert (ilog2 q < 1023)%Z by (apply pow2_lt_inv; lra).
    assert (cexp q <= 970)%Z by (unfold cexp; lia).
    destruct (Z.eqb_spec (mant q) (2 ^ 53)) as [E|E];
      destruct (Z.ltb_spec 971 (cexp q + 1)); destruct (Z.ltb_spec 971 (cexp q)); try lia.
    + split; [reflexivity|]. rewrite fval_Fin. unfold rndpos. rewrite E, pow2_succ.
      change (inject_Z (2 ^ 53)) with (inject_Z 2 * inject_Z (2 ^ 52)).
      destruct s; cbn [signed]; ring.
    + split; [reflexivity|]. rewrite fval_Fin. reflexivity.
Qed.

Lemma of_Q_fin q :
  Qabs q < pow2 1023 -> is_fin (of_Q q) = true /\ fval (of_Q q) == rndQ q.
Proof.
  intros H. unfold of_Q. destruct (frnd_fin (Qneg q) (Qabs q)) as [A B];
    [apply Qabs_nonneg | exact H |].
  split; [exact A|]. rewrite B. unfold Qneg. destruct (Qle_bool 0 q) eqn:E; cbn [negb signed].
  - apply Qle_bool_iff in E. rewrite Qabs_pos by exact E. reflexivity.
  - rewrite Qabs_neg; [rewrite Qopp_involutive; reflexivity|].
    apply Qnot_lt_le. intros C. assert (0 <= q) as D by lra. apply Qle_bool_iff in D. congruence.
Qed.

(** ** Arithmetic *)

Definition fneg (x : float) : float :=
  match x with
  | Fin s m e => Fin (negb s) m e
  | Inf s => Inf (negb s)
  | NaN => NaN
  end.

Definition fadd (x y : float) : float :=
  match x, y with
  | NaN, _ | _, NaN => NaN
  | Inf s, Inf t => if Bool.eqb s t then Inf s else NaN
  | Inf s, _ | _, Inf s => Inf s
  | Fin s _ _, Fin t _ _ =>
      let q := fval x + fval y in
      if Qeq_bool q 0 then fzero (s && t) else of_Q q
  end.

Definition fsub (x y : float) : float := fadd x (fneg y).

Definition is_zero (x : float) : bool := match x with Fin _ m _ => (m =? 0)%Z | _ => false end.
Definition fsign (x : float) : bool := match x with Fin s _ _ | Inf s => s | NaN => false end.

Definition fmul (x y : float) : float :=
  match x, y with
  | NaN, _ | _, NaN => NaN
  | Fin s _ _, Fin t _ _ => frnd (xorb s t) (Qabs (fval x * fval y))
  | _, _ => if is_zero x || is_zero y then NaN else Inf (xorb (fsign x) (fsign y))
  end.

(** IEEE division; the language raises ZeroDivisionError before a zero
    divisor reaches it. *)
Definition fdiv (x y : float) : float :=
  match x, y with
  | NaN, _ | _, NaN => NaN
  | Inf _, Inf _ => NaN
  | Inf s, Fin t _ _ => Inf (xorb s t)
  | Fin s _ _, Inf t => fzero (xorb s t)
  | Fin s _ _, Fin t _ _ =>
      if is_zero y then (if is_zero x then NaN else Inf (xorb s t))
      else frnd (xorb s t) (Qabs (fval x / fval y))
  end.

(** Ordering; [None] when a NaN is involved. *)
Definition fcmp (x y : float) : option comparison :=
  match x, y with
  | NaN, _ | _, NaN => None
  | Inf true, Inf true | Inf false, Inf false => Some Eq
  | Inf true, _ | _, Inf false => Some Lt
  | Inf false, _ | _, Inf true => Some Gt
  | Fin _ _ _, Fin _ _ _ => Some (Qcompare (fval x) (fval y))
  end.

Definition flt (x y : float) : bool := match fcmp x y with Some Lt => true | _ => false end.
Definition fle (x y : float) : bool :=
  match fcmp x y with Some Lt | Some Eq => true | _ => false end.

(** An int and a float are compared exactly, without converting the int. *)
Definition zcmp_f (z : Z) (y : float) : option comparison :=
  match y with
  | NaN => None
  | Inf true => Some Gt
  | Inf false => Some Lt
  | Fin _ _ _ => Some (Qcompare (inject_Z z) (fval y))
  end.

(** [z >= y] and [z < y] for an int [z]. *)
Definition zge_f (z : Z) (y : float) : bool :=
  match zcmp_f z y with Some Gt | Some Eq => true | _ => false end.
Definition zlt_f (z : Z) (y : float) : bool :=
  match zcmp_f z y with Some Lt => true | _ => false end.

(** [float(z)]; [None] is OverflowError. *)
Definition f_of_Z (z : Z) : option float :=
  match of_Q (inject_Z z) with Fin s m e => Some (Fin s m e) | _ => None end.

(** [n / d] for ints with [d <> 0]: the exact quotient rounded once; [None]
    is OverflowError. *)
Definition zdiv_f (n d : Z) : option float :=
  match of_Q (inject_Z n / inject_Z d) with Fin s m e => Some (Fin s m e) | _ => None end.

(** [round(x)] and [math.ceil(x)] of a finite float. *)
Definition fround (x : float) : option Z := if is_fin x then Some (rne (fval x)) else None.
Definition fceil (x : float) : option Z := if is_fin x then Some (Qceiling (fval x)) else None.

Definition fmax (x y : float) : float := if flt x y then y else x.
Definition fmin (x y : float) : float := if flt y x then y else x.

(** ** What the operations return, as one rounding of the exact result *)

Lemma fval_sign s m e : (0 <= m)%Z -> signed s (Qabs (fval (Fin s m e))) == fval (Fin s m e).
Proof.
  intros H. pose proof (pow2_pos e) as P. rewrite fval_Fin.
  assert (0 <= inject_Z m * pow2 e) as N.
  { rewrite <- (Qmult_0_l (pow2 e)). apply Qmult_pow2_le.
    change 0 with (inject_Z 0). rewrite <- Zle_Qle. exact H. }
  destruct s; cbn [signed]; [rewrite Qabs_opp|]; rewrite Qabs_pos by exact N; reflexivity.
Qed.

(** Mantissas are magnitudes: the invariant of the representation. *)
Definition wf (f : float) : Prop := match f with Fin _ m _ => (0 <= m)%Z | _ => True end.

Lemma frnd_wf s q : 0 <= q -> wf (frnd s q).
Proof.
  intros H. unfold frnd. destruct (Qeq_bool q 0) eqn:E; [cbn; lia|].
  apply Qeq_bool_neq in E. pose proof (mant_nonneg q ltac:(lra)).
  destruct (_ =? _)%Z; destruct (_ <? _)%Z; cbn; lia.
Qed.

Lemma of_Q_wf q : wf (of_Q q).
Proof. apply frnd_wf, Qabs_nonneg. Qed.

Lemma f_of_Z_spec z :
  (Z.abs z < 2 ^ 1023)%Z ->
  exists f, f_of_Z z = Some f /\ is_fin f = true /\ wf f /\ fval f == rndQ (inject_Z z).
Proof.
  intros H. destruct (of_Q_fin (inject_Z z)) as [A B].
  { rewrite pow2_Z by lia. change (Qabs (inject_Z z)) with (inject_Z (Z.abs z)).
    rewrite <- Zlt_Qlt. exact H. }
  pose proof (of_Q_wf (inject_Z z)) as W.
  unfold f_of_Z. destruct (of_Q (inject_Z z)) as [s m e| |]; try discriminate.
  eexists. repeat split; assumption.
Qed.

Lemma zdiv_f_spec n d :
  Qabs (inject_Z n / inject_Z d) < pow2 1023 ->
  exists f, zdiv_f n d = Some f /\ is_fin f = true /\ wf f
            /\ fval f == rndQ (inject_Z n / inject_Z d).
Proof.
  intros H. destruct (of_Q_fin _ H) as [A B]. pose proof (of_Q_wf (inject_Z n / inject_Z d)) as W.
  unfold zdiv_f. destruct (of_Q _) as [s m e| |]; try discriminate.
  eexists. repeat split; assumption.
Qed.

Lemma fadd_spec x y :
  is_fin x = true -> is_fin y = true -> Qabs (fval x + fval y) < pow2 1023 ->
  is_fin (fadd x y) = true /\ fval (fadd x y) == rndQ (fval x + fval y).
Proof.
  intros Hx Hy H. destruct x as [s m e| |], y as [t n k| |]; try discriminate.
  cbn [fadd]. destruct (Qeq_bool _ 0) eqn:E.
  - apply Qeq_bool_eq in E. split; [reflexivity|]. rewrite (rndQ_0 _ E).
    unfold fzero. rewrite fval_Fin. destruct (s && t); reflexivity.
  - apply of_Q_fin, H.
Qed.

Lemma fval_mul_sign s m e t n k :
  (0 <= m)%Z -> (0 <= n)%Z ->
  signed (xorb s t) (Qabs (fval (Fin s m e) * fval (Fin t n k)))
  == fval (Fin s m e) * fval (Fin t n k).
Proof.
  intros Hm Hn. pose proof (fval_sign s m e Hm) as A. pose proof (fval_sign t n k Hn) as B.
  rewrite Qabs_Qmult. rewrite <- A, <- B at 2. destruct s, t; cbn [xorb signed]; ring.
Qed.

Lemma fmul_spec x y :
  is_fin x = true -> is_fin y = true -> wf x -> wf y ->
  Qabs (fval x * fval y) < pow2 1023 ->
  is_fin (fmul x y) = true /\ fval (fmul x y) == rndQ (fval x * fval y).
Proof.
  intros Hx Hy Wx Wy H. destruct x as [s m e| |], y as [t n k| |]; try discriminate.
  unfold fmul. destruct (frnd_fin (xorb s t) _ (Qabs_nonneg _) H) as [A B].
  split; [exact A|]. rewrite B, fval_mul_sign by assumption. reflexivity.
Qed.

Lemma fval_nonzero t n k : (n <> 0)%Z -> ~ fval (Fin t n k) == 0.
Proof.
  intros Hn E. rewrite fval_Fin in E. pose proof (pow2_pos k).
  assert (inject_Z n * pow2 k == 0) as E' by (destruct t; cbn [signed] in E; lra).
  apply Qmult_integral in E'. destruct E' as [C|C]; [|lra].
  change 0 with (inject_Z 0) in C. unfold Qeq in C; cbn in C; lia.
Qed.

Lemma fdiv_spec x y :
  is_fin x = true -> is_fin y = true -> wf x -> wf y -> is_zero y = false ->
  Qabs (fval x / fval y) < pow2 1023 ->
  is_fin (fdiv x y) = true /\ fval (fdiv x y) == rndQ (fval x / fval y).
Proof.
  intros Hx Hy Wx Wy Z0 H. destruct x as [s m e| |], y as [t n k| |]; try discriminate.
  unfold fdiv. rewrite Z0. destruct (frnd_fin (xorb s t) _ (Qabs_nonneg _) H) as [A B].
  split; [exact A|]. rewrite B. apply rndQ_proper.
  assert (~ fval (Fin t n k) == 0) as NZ.
  { apply fval_nonzero. cbn in Z0. apply Z.eqb_neq, Z0. }
  pose proof (fval_sign s m e Wx) as A'. pose proof (fval_sign t n k Wy) as B'.
  unfold Qdiv. rewrite Qabs_Qmult, Qabs_Qinv.
  rewrite <- A' at 2. rewrite <- B' at 2.
  assert (~ Qabs (fval (Fin t n k)) == 0) as NA.
  { intros C. apply NZ. rewrite <- B', C. destruct t; reflexivity. }
  destruct s, t; cbn [xorb signed]; field; lra.
Qed.

(** ** Floats by value

    [isf f q]: [f] is a finite, well-formed float of value [q].  The proofs
    about a float expression compose these lemmas, one per operation. *)

Definition isf (f : float) (q : Q) : Prop := is_fin f = true /\ wf f /\ fval f == q.

#[export] Instance isf_proper f : Proper (Qeq ==> iff) (isf f).
Proof. intros x y H. unfold isf. rewrite H. reflexivity. Qed.

Lemma isf_of_Q q : Qabs q < pow2 1023 -> isf (of_Q q) (rndQ q).
Proof. intros H. destruct (of_Q_fin q H). split; [assumption|split; [apply of_Q_wf|assumption]]. Qed.

Lemma isf_Z z : (Z.abs z < 2 ^ 1023)%Z -> exists f, f_of_Z z = Some f /\ isf f (rndQ (inject_Z z)).
Proof. intros H. destruct (f_of_Z_spec z H) as (f & E & A & B & C). exists f. now repeat split. Qed.

Lemma isf_zdiv n d :
  Qabs (inject_Z n / inject_Z d) < pow2 1023 ->
  exists f, zdiv_f n d = Some f /\ isf f (rndQ (inject_Z n / inject_Z d)).
Proof.
  intros H. destruct (zdiv_f_spec n d H) as (f & E & A & B & C). exists f. now repeat split.
Qed.

Lemma fneg_isf x a : isf x a -> isf (fneg x) (- a).
Proof.
  intros (F & W & V). destruct x as [s m e| |]; try discriminate. split; [reflexivity|].
  split; [exact W|]. rewrite <- V. cbn [fneg]. rewrite !fval_Fin. destruct s; cbn; ring.
Qed.

Lemma isf_add x y a b :
  isf x a -> isf y b -> Qabs (a + b) < pow2 1023 -> isf (fadd x y) (rndQ (a + b)).
Proof.
  intros (Fx & Wx & Vx) (Fy & Wy & Vy) H.
  assert (Qabs (fval x + fval y) < pow2 1023) as H' by (rewrite Vx, Vy; exact H).
  destruct (fadd_spec x y Fx Fy H') as [A B]. split; [exact A|]. split.
  - destruct x, y; try discriminate. cbn [fadd].
    destruct (Qeq_bool _ 0); [cbn; lia | apply of_Q_wf].
  - rewrite B, Vx, Vy. reflexivity.
Qed.

Lemma isf_sub x y a b :
  isf x a -> isf y b -> Qabs (a - b) < pow2 1023 -> isf (fsub x y) (rndQ (a - b)).
Proof. intros Hx Hy H. apply isf_add; [exact Hx | apply fneg_isf, Hy | exact H]. Qed.

Lemma isf_mul x y a b :
  isf x a -> isf y b -> Qabs (a * b) < pow2 1023 -> isf (fmul x y) (rndQ (a * b)).
Proof.
  intros (Fx & Wx & Vx) (Fy & Wy & Vy) H.
  assert (Qabs (fval x * fval y) < pow2 1023) as H' by (rewrite Vx, Vy; exact H).
  destruct (fmul_spec x y Fx Fy Wx Wy H') as [A B]. split; [exact A|]. split.
  - destruct x, y; try discriminate. apply frnd_wf, Qabs_nonneg.
  - rewrite B, Vx, Vy. reflexivity.
Qed.

Lemma isf_div x y a b :
  isf x a -> isf y b -> ~ b == 0 -> Qabs (a / b) < pow2 1023 -> isf (fdiv x y) (rndQ (a / b)).
Proof.
  intros (Fx & Wx & Vx) (Fy & Wy & Vy) NZ H.
  assert (Qabs (fval x / fval y) < pow2 1023) as H' by (rewrite Vx, Vy; exact H).
  assert (is_zero y = false) as Z0.
  { destruct y as [t n k| |]; try discriminate. cbn. apply Z.eqb_neq. intros ->.
    apply NZ. rewrite <- Vy, fval_Fin. destruct t; cbn [signed]; ring. }
  destruct (fdiv_spec x y Fx Fy Wx Wy Z0 H') as [A B]. split; [exact A|]. split.
  - destruct x, y; try discriminate. unfold fdiv. rewrite Z0. apply frnd_wf, Qabs_nonneg.
  - rewrite B, Vx, Vy. reflexivity.
Qed.

Lemma zge_f_isf z f q : isf f q -> (zge_f z f = true <-> q <= inject_Z z).
Proof.
  intros (F & _ & V). destruct f; try discriminate. unfold zge_f, zcmp_f. rewrite <- V.
  destruct (Qcompare_spec (inject_Z z) (fval (Fin s m e))); split; intros; try discriminate;
    try reflexivity; lra.
Qed.

Lemma zlt_f_isf z f q : isf f q -> (zlt_f z f = true <-> inject_Z z < q).
Proof.
  intros (F & _ & V). destruct f; try discriminate. unfold zlt_f, zcmp_f. rewrite <- V.
  destruct (Qcompare_spec (inject_Z z) (fval (Fin s m e))); split; intros; try discriminate;
    try reflexivity; lra.
Qed.

Lemma flt_isf x y a b : isf x a -> isf y b -> (flt x y = true <-> a < b).
Proof.
  intros (F & _ & V) (G & _ & W). destruct x, y; try discriminate.
  unfold flt, fcmp. rewrite <- V, <- W.
  destruct (Qcompare_spec (fval (Fin s m e)) (fval (Fin s0 m0 e0))); split; intros;
    try discriminate; try reflexivity; lra.
Qed.

Lemma fround_isf f q : isf f q -> fround f = Some (rne q).
Proof. intros (F & _ & V). unfold fround. rewrite F, V. reflexivity. Qed.

(** Values up to 2^53 in size never overflow. *)
Lemma small_lt_pow q : Qabs q <= inject_Z (2 ^ 64) -> Qabs q < pow2 1023.
Proof.
  intros H. eapply Qle_lt_trans; [exact H|]. rewrite <- (pow2_Z 64) by lia. apply pow2_lt. lia.
Qed.

(** A decimal literal is the nearest float; used to pin a literal's exact value. *)
Lemma isf_lit q f : Qabs q < pow2 1023 -> of_Q q = f -> isf f (rndQ q).
Proof. intros H <-. apply isf_of_Q, H. Qed.

Create HintDb pyfloat.
#[export] Hint Resolve isf_of_Q isf_add isf_sub isf_mul isf_div fneg_isf pow2_pos : pyfloat.

(** ** Relative error, for values away from zero *)

Lemma pow2_neg52 : pow2 (-52) == 1 # (Z.to_pos (2 ^ 52)).
Proof. reflexivity. Qed.

Lemma rnd_rel q :
  pow2 (-1000) <= q ->
  q * (1 - pow2 (-52)) <= rndQ q /\ rndQ q <= q * (1 + pow2 (-52)).
Proof.
  intros H. pose proof (pow2_pos (-1000)). pose proof (rnd_error q) as E.
  rewrite (Qabs_pos q) in E by lra. apply Qabs_Qle_condition in E.
  assert (pow2 (-1075) <= q * pow2 (-53)).
  { apply Qle_trans with (pow2 (-1000) * pow2 (-53)).
    - rewrite <- pow2_add. apply pow2_le. lia.
    - apply Qmult_pow2_le, H. }
  assert (pow2 (-52) == 2 * pow2 (-53)) as -> by reflexivity. lra.
Qed.

(** The rank computation of a percentile and similar tests: a quotient by a
    small integer is compared with an integer.  Rounding does not change the
    outcome as long as the dividend stays below 2^52. *)
Lemma rnd_div_le_Z n d s :
  (0 <= n <= 2 ^ 52)%Z -> (0 < d <= 2 ^ 20)%Z ->
  (rndQ (inject_Z n / inject_Z d) <= inject_Z s <-> (n <= s * d)%Z).
Proof.
  intros Hn Hd.
  assert (1 <= inject_Z d) as D1 by (change 1 with (inject_Z 1); rewrite <- Zle_Qle; lia).
  assert (inject_Z d <= pow2 20) as Du by (rewrite pow2_Z, <- Zle_Qle by lia; lia).
  assert (inject_Z n <= pow2 52) as Nu by (rewrite pow2_Z, <- Zle_Qle by lia; lia).
  assert (0 <= inject_Z n) as N0 by (change 0 with (inject_Z 0); rewrite <- Zle_Qle; lia).
  set (q := inject_Z n / inject_Z d) in *.
  assert (q * inject_Z d == inject_Z n) as Eq by (unfold q; field; lra).
  assert (0 <= q) as Q0 by (apply (Qmult_le_r _ _ (inject_Z d)); lra).
  split; intros H.
  - pose proof (rnd_error q) as E. rewrite (Qabs_pos q Q0) in E.
    apply Qabs_Qle_condition in E as [E _].
    assert (q * pow2 (-53) * inject_Z d <= 1 # 2) as S.
    { assert (q * pow2 (-53) * inject_Z d == inject_Z n * pow2 (-53)) as -> by (rewrite <- Eq; ring).
      apply Qle_trans with (pow2 52 * pow2 (-53)); [apply Qmult_pow2_le, Nu | discriminate]. }
    assert (pow2 (-1075) * inject_Z d <= 1 # 4) as T.
    { rewrite Qmult_comm. apply Qle_trans with (pow2 20 * pow2 (-1075));
        [apply Qmult_pow2_le, Du | discriminate]. }
    assert (q <= inject_Z s + q * pow2 (-53) + pow2 (-1075)) as F by lra.
    apply (Qmult_le_compat_r _ _ (inject_Z d)) in F; [|lra].
    assert (inject_Z n <= inject_Z s * inject_Z d + (3 # 4)) as G by lra.
    rewrite <- inject_Z_mult in G. destruct (Z_le_gt_dec n (s * d)) as [|C]; [assumption|].
    pose proof (inject_Z_lt_1 (s * d) n ltac:(lia)). lra.
  - assert (q <= inject_Z s) as Qs.
    { apply (Qmult_le_r _ _ (inject_Z d)); [lra|]. rewrite Eq, <- inject_Z_mult, <- Zle_Qle. exact H. }
    destruct (Z_le_gt_dec s (2 ^ 53)) as [Hs|Hs].
    + apply rnd_le_Z; [nia | exact Qs].
    + apply Qle_trans with (inject_Z (2 ^ 53)); [apply rnd_le_Z; [lia|]|rewrite <- Zle_Qle; lia].
      apply Qle_trans with (inject_Z n); [|rewrite <- Zle_Qle; lia].
      rewrite <- Eq, <- (Qmult_1_r q) at 1. rewrite !(Qmult_comm q).
      apply Qmult_le_compat_r; assumption.
Qed.

(** ** Rounding a quotient to the nearest integer *)

Lemma rne_unique x m : inject_Z m - (1 # 2) < x -> x < inject_Z m + (1 # 2) -> rne x = m.
Proof.
  intros H1 H2. pose proof (rne_spec x) as [S1 S2].
  destruct (Z.lt_trichotomy (rne x) m) as [C|[C|C]]; [|exact C|];
    pose proof (inject_Z_lt_1 _ _ C); lra.
Qed.

Lemma inject_Z_minus a b : inject_Z (a - b) == inject_Z a - inject_Z b.
Proof. unfold Z.sub. now rewrite inject_Z_plus, inject_Z_opp. Qed.

(** Half-integers are representable. *)
Lemma rnd_half q k :
  q == inject_Z k * (1 # 2) -> (Z.abs k <= 2 ^ 53)%Z -> rndQ q == q.
Proof. intros E Hk. apply (rnd_exact _ k (-1)); [exact E|exact Hk|lia]. Qed.

Section RoundDiv.
Variables n d : Z.
Hypothesis Hn : (Z.abs n <= 2 ^ 51)%Z.
Hypothesis Hd : (0 < d <= 2 ^ 20)%Z.

Let q := inject_Z n / inject_Z d.

Lemma div_d1 : 1 <= inject_Z d.
Proof. change 1 with (inject_Z 1). rewrite <- Zle_Qle. lia. Qed.

Lemma div_mul : q * inject_Z d == inject_Z n.
Proof. unfold q. field. pose proof div_d1. lra. Qed.

Lemma div_abs : Qabs q * inject_Z d <= pow2 51.
Proof.
  pose proof div_d1. rewrite <- (Qabs_pos (inject_Z d)) by lra.
  rewrite <- Qabs_Qmult, div_mul, pow2_Z by lia.
  change (Qabs (inject_Z n)) with (inject_Z (Z.abs n)). rewrite <- Zle_Qle. exact Hn.
Qed.

Lemma rne_div_bound : (Z.abs (rne q) <= 2 ^ 51)%Z.
Proof.
  assert (Qabs q <= pow2 51) as U.
  { eapply Qle_trans; [|exact div_abs]. rewrite <- (Qmult_1_r (Qabs q)) at 1.
    rewrite !(Qmult_comm (Qabs q)). apply Qmult_le_compat_r; [exact div_d1|apply Qabs_nonneg]. }
  apply Qabs_Qle_condition in U as [U1 U2]. rewrite pow2_Z in U1, U2 by lia.
  assert (rne q <= 2 ^ 51)%Z by (apply rne_le_Z, U2).
  assert (- 2 ^ 51 <= rne q)%Z by (apply rne_ge_Z; rewrite inject_Z_opp; exact U1). lia.
Qed.

(** The float quotient is off by less than half of [1/d]. *)
Lemma rnd_div_error : Qabs (rndQ q - q) * inject_Z d <= 3 # 8.
Proof.
  pose proof div_d1. pose proof (rnd_error q) as E.
  apply (Qmult_le_compat_r _ _ (inject_Z d)) in E; [|lra].
  assert (inject_Z d <= pow2 20) as Du by (rewrite pow2_Z, <- Zle_Qle by lia; lia).
  assert (Qabs q * inject_Z d * pow2 (-53) <= 1 # 4) as Se.
  { apply Qle_trans with (pow2 51 * pow2 (-53)); [apply Qmult_pow2_le, div_abs | discriminate]. }
  assert (inject_Z d * pow2 (-1075) <= 1 # 8) as Te.
  { apply Qle_trans with (pow2 20 * pow2 (-1075)); [apply Qmult_pow2_le, Du | discriminate]. }
  lra.
Qed.

(** Twice the dividend keeps its distance from an odd multiple of [d]. *)
Lemma div_gap_up k : q < inject_Z k * (1 # 2) -> 2 * inject_Z n + 1 <= inject_Z k * inject_Z d.
Proof.
  intros U. pose proof div_d1. apply (Qmult_lt_r _ _ (inject_Z d)) in U; [|lra].
  rewrite div_mul in U. change 2 with (inject_Z 2). rewrite <- !inject_Z_mult.
  apply inject_Z_lt_1. rewrite Zlt_Qlt, !inject_Z_mult. change (inject_Z 2) with 2. lra.
Qed.

Lemma div_gap_down k : inject_Z k * (1 # 2) < q -> inject_Z k * inject_Z d + 1 <= 2 * inject_Z n.
Proof.
  intros U. pose proof div_d1. apply (Qmult_lt_r _ _ (inject_Z d)) in U; [|lra].
  rewrite div_mul in U. change 2 with (inject_Z 2). rewrite <- !inject_Z_mult.
  apply inject_Z_lt_1. rewrite Zlt_Qlt, !inject_Z_mult. change (inject_Z 2) with 2. lra.
Qed.

(** [round(n / d)]: the division is rounded to a float first, and that does
    not change the integer as long as the dividend stays below 2^51. *)
Lemma rne_rnd_div : rne (rndQ q) = rne q.
Proof.
  pose proof div_d1 as D1. pose proof div_mul as Eq. pose proof rne_div_bound as Mb.
  set (m := rne q) in *. pose proof (rne_spec q) as [S1 S2]. fold m in S1, S2.
  assert (inject_Z (2 * m + 1) == 2 * inject_Z m + 1) as Ep by (rewrite inject_Z_plus, inject_Z_mult; reflexivity).
  assert (inject_Z (2 * m - 1) == 2 * inject_Z m - 1) as Em by (rewrite inject_Z_minus, inject_Z_mult; reflexivity).
  destruct (Qlt_le_dec q (inject_Z (2 * m + 1) * (1 # 2))) as [U|U].
  2:{ unfold m. now rewrite (rnd_half q (2 * m + 1)) by (lra || lia). }
  destruct (Qlt_le_dec (inject_Z (2 * m - 1) * (1 # 2)) q) as [L|L].
  2:{ unfold m. now rewrite (rnd_half q (2 * m - 1)) by (lra || lia). }
  apply div_gap_up in U. apply div_gap_down in L. rewrite Ep in U. rewrite Em in L.
  pose proof rnd_div_error as E. rewrite <- (Qabs_pos (inject_Z d)) in E by lra.
  rewrite <- Qabs_Qmult in E. apply Qabs_Qle_condition in E as [E1 E2].
  apply rne_unique; apply (Qmult_lt_r _ _ (inject_Z d)); lra.
Qed.
End RoundDiv.

(** *** Bounds on chains of operations *)

Lemma inject_Z_le a b : (a <= b)%Z -> inject_Z a <= inject_Z b.
Proof. now rewrite <- Zle_Qle. Qed.

Lemma rnd_abs_le q z : (0 <= z <= 2 ^ 53)%Z -> Qabs q <= inject_Z z -> Qabs (rndQ q) <= inject_Z z.
Proof.
  intros Hz H. apply Qabs_Qle_condition in H as [H1 H2]. apply Qabs_Qle_condition.
  rewrite <- inject_Z_opp in *. split; [apply rnd_ge_Z|apply rnd_le_Z]; try assumption; lia.
Qed.

Lemma f_small z : (Z.abs z <= 2 ^ 53)%Z -> exists f, f_of_Z z = Some f /\ isf f (inject_Z z).
Proof.
  intros H. destruct (isf_Z z) as (f & E & I).
  { apply Z.le_lt_trans with (2 ^ 53)%Z; [exact H|]. apply Z.pow_lt_mono_r; lia. }
  exists f. split; [exact E|]. now rewrite rnd_Z in I.
Qed.

Lemma Qabs_div_pos a b : 0 < b -> Qabs (a / b) == Qabs a / b.
Proof.
  intros H. unfold Qdiv. rewrite Qabs_Qmult. rewrite (Qabs_pos (/ b)); [reflexivity|].
  apply Qinv_le_0_compat. lra.
Qed.
