(* ===== verification/PyStr.v ===== *)
(** Python strings and number formatting, as far as the scripts use them.

    A [str] is its UTF-8 encoding, so literals such as [µs] are written as
    they are and [len] counts code points ([py_len]).  White space and digits
    are the ASCII ones: that is what [str.strip], [str.split] and [int] see
    in the sweep files, histograms and plans.

    [tmpl] plays the f-strings: it fills each hole [{}] of a template with the
    next argument and reads a backtick as a double quote. *)

From Stdlib Require Import Ascii.
From S2P Require Import Prelude PyFloat.
From Stdlib Require Import QArith Qround Qabs.

Open Scope Z_scope.

(** ** Characters *)

Definition dquote : Ascii.ascii := Ascii.ascii_of_nat 34.
Definition newline : Ascii.ascii := Ascii.ascii_of_nat 10.
Definition creturn : Ascii.ascii := Ascii.ascii_of_nat 13.
Definition code (c : Ascii.ascii) : Z := Z.of_nat (Ascii.nat_of_ascii c).

(** What [str.strip] removes, and what [int] skips at both ends. *)
Definition is_space (c : Ascii.ascii) : bool :=
  let n := code c in ((9 <=? n) && (n <=? 13)) || ((28 <=? n) && (n <=? 32)).
Definition is_space_int (c : Ascii.ascii) : bool :=
  let n := code c in ((9 <=? n) && (n <=? 13)) || (n =? 32).

Definition digit_val (c : Ascii.ascii) : option Z :=
  let n := code c in if (48 <=? n) && (n <=? 57) then Some (n - 48) else None.
Definition digit_char (d : Z) : Ascii.ascii := Ascii.ascii_of_nat (Z.to_nat (48 + d)).

(** ** Basic operations *)

Fixpoint tmpl (t : string) (args : list string) : string :=
  match t with
  | EmptyString => EmptyString
  | String c t' =>
      if Ascii.eqb c "`"%char then String dquote (tmpl t' args)
      else if Ascii.eqb c "{"%char then
        match t' with
        | String c2 t2 =>
            if Ascii.eqb c2 "}"%char then
              match args with
              | a :: args' => a +:+ tmpl t2 args'
              | [] => tmpl t2 []
              end
            else String c (tmpl t' args)
        | EmptyString => String c EmptyString
        end
      else String c (tmpl t' args)
  end.

(** Code points: every byte that is not a UTF-8 continuation byte. *)
Definition is_cont (c : Ascii.ascii) : bool := let n := code c in (128 <=? n) && (n <? 192).
Fixpoint py_len (s : string) : Z :=
  match s with
  | EmptyString => 0
  | String c s => (if is_cont c then 0 else 1) + py_len s
  end.

Fixpoint join (sep : string) (l : list string) : string :=
  match l with
  | [] => EmptyString
  | [s] => s
  | s :: l => s +:+ sep +:+ join sep l
  end.

(** [s.split(c)] for a one-character separator. *)
Fixpoint split_on (c : Ascii.ascii) (s : string) : list string :=
  match s with
  | EmptyString => [EmptyString]
  | String a s =>
      if Ascii.eqb a c then EmptyString :: split_on c s
      else match split_on c s with
           | w :: ws => String a w :: ws
           | [] => [String a EmptyString]
           end
  end.

Fixpoint lstrip (p : Ascii.ascii → bool) (s : string) : string :=
  match s with
  | EmptyString => EmptyString
  | String c s' => if p c then lstrip p s' else s
  end.
Fixpoint rstrip (p : Ascii.ascii → bool) (s : string) : string :=
  match s with
  | EmptyString => EmptyString
  | String c s' =>
      match rstrip p s' with
      | EmptyString => if p c then EmptyString else String c EmptyString
      | t => String c t
      end
  end.
Definition strip (s : string) : string := rstrip is_space (lstrip is_space s).

Fixpoint startswith (p s : string) : bool :=
  match p, s with
  | EmptyString, _ => true
  | String a p, String b s => Ascii.eqb a b && startswith p s
  | _, _ => false
  end.
Fixpoint endswith (p s : string) : bool :=
  String.eqb p s || match s with EmptyString => false | String _ s => endswith p s end.

(** [p in s] for strings. *)
Fixpoint substring_in (p s : string) : bool :=
  startswith p s || match s with EmptyString => false | String _ s => substring_in p s end.

Definition is_empty (s : string) : bool := match s with EmptyString => true | _ => false end.

(** [s.rsplit("/", 1)[-1]]. *)
Definition after_slash (s : string) : string := List.last (split_on "/"%char s) EmptyString.

(** [os.path.dirname] and [os.path.join] on POSIX. *)
Definition is_slash (c : Ascii.ascii) : bool := Ascii.eqb c "/"%char.
Fixpoint upto_slash (s : string) : string :=
  match s with
  | EmptyString => EmptyString
  | String c s' =>
      match upto_slash s' with
      | EmptyString => if is_slash c then String c EmptyString else EmptyString
      | t => String c t
      end
  end.
Definition dirname (p : string) : string :=
  match rstrip is_slash (upto_slash p) with EmptyString => upto_slash p | h => h end.
Definition path_join (a b : string) : string :=
  if startswith "/" b then b
  else if is_empty a || endswith "/" a then a +:+ b
  else a +:+ "/" +:+ b.

(** The lines of a text file opened in text mode: [\r\n] and [\r] are read
    as [\n]; the last line may lack its terminator. *)
Fixpoint universal_newlines (s : string) : string :=
  match s with
  | EmptyString => EmptyString
  | String c s' =>
      if Ascii.eqb c creturn then
        match s' with
        | String d s2 =>
            if Ascii.eqb d newline then String newline (universal_newlines s2)
            else String newline (universal_newlines s')
        | EmptyString => String newline EmptyString
        end
      else String c (universal_newlines s')
  end.
Definition text_lines (s : string) : list string :=
  let ls := split_on newline (universal_newlines s) in
  match List.last ls EmptyString with
  | EmptyString => List.removelast ls
  | _ => ls
  end.

(** ** Integers *)

(** Decimal digits, single underscores allowed between digits. *)
Fixpoint int_digits (s : string) (acc : Z) (after_digit : bool) : option Z :=
  match s with
  | EmptyString => if after_digit then Some acc else None
  | String c s =>
      match digit_val c with
      | Some d => int_digits s (10 * acc + d) true
      | None => if Ascii.eqb c "_"%char && after_digit then int_digits s acc false else None
      end
  end.

(** [int(s)]; [None] is ValueError. *)
Definition int_of_str (s : string) : option Z :=
  match rstrip is_space_int (lstrip is_space_int s) with
  | String c s' =>
      if Ascii.eqb c "-"%char then Z.opp <$> int_digits s' 0 false
      else if Ascii.eqb c "+"%char then int_digits s' 0 false
      else int_digits (String c s') 0 false
  | EmptyString => None
  end.

Fixpoint dec_fuel (fuel : nat) (n : Z) (acc : string) : string :=
  match fuel with
  | O => acc
  | S fuel =>
      if n <? 10 then String (digit_char n) acc
      else dec_fuel fuel (n / 10) (String (digit_char (n mod 10)) acc)
  end.
Definition dec (n : Z) : string := dec_fuel (S (Z.to_nat (Z.log2 n))) n EmptyString.

(** [str(z)]. *)
Definition str_Z (z : Z) : string :=
  if z <? 0 then "-" +:+ dec (- z) else dec z.

Fixpoint zeros (n : nat) : string :=
  match n with O => EmptyString | S n => String "0"%char (zeros n) end.
(** At least [n] digits, filled with zeros on the left. *)
Definition dec_pad (n : nat) (z : Z) : string :=
  let s := dec z in zeros (n - String.length s) +:+ s.

(** [f"{z:,}"]: groups of three digits. *)
Fixpoint comma_fuel (fuel : nat) (n : Z) : string :=
  match fuel with
  | O => dec n
  | S fuel =>
      if n <? 1000 then dec n
      else comma_fuel fuel (n / 1000) +:+ "," +:+ dec_pad 3 (n mod 1000)
  end.
Definition comma (z : Z) : string :=
  let body := comma_fuel (S (Z.to_nat (Z.log2 (Z.abs z)))) (Z.abs z) in
  if z <? 0 then "-" +:+ body else body.

(** [f"{s:<n}"] and [f"{s:>n}"]. *)
Fixpoint spaces (n : nat) : string :=
  match n with O => EmptyString | S n => String " "%char (spaces n) end.
Definition ljust (n : Z) (s : string) : string := s +:+ spaces (Z.to_nat (n - py_len s)).
Definition rjust (n : Z) (s : string) : string := spaces (Z.to_nat (n - py_len s)) +:+ s.

(** ** Floats *)

Definition sign_str (s : bool) (t : string) : string := if s then "-" +:+ t else t.

(** [f"{x:.df}"]: the exact value rounded half to even at [d] decimals. *)
Definition fixed (d : nat) (x : float) : string :=
  match x with
  | NaN => "nan"
  | Inf s => sign_str s "inf"
  | Fin s _ _ =>
      let p := 10 ^ Z.of_nat d in
      let n := rne (Qabs (fval x) * inject_Z p) in
      sign_str s
        (dec (n / p) +:+ match d with O => EmptyString | _ => "." +:+ dec_pad d (n mod p) end)
  end.

Definition pow10 (k : Z) : Q := ((10 # 1) ^ k)%Q.

(** [k] with [10^k <= q < 10^(k+1)]. *)
Definition ilog10 (q : Q) : Z :=
  let k := (ilog2 q * 30103) / 100000 in
  if Qle_bool (pow10 (k + 1)) q then k + 1
  else if Qle_bool (pow10 k) q then k else k - 1.

(** The [n]-digit decimals next to [q], as digits and exponent of the last
    digit, and the closest of those that read back as [x]. *)
Definition short_candidate (x : float) (q : Q) (n : Z) : option (Z * Z) :=
  let e := ilog10 q - n + 1 in
  let t := (q * pow10 (- e))%Q in
  let lo := Qfloor t in
  let back m := match of_Q (inject_Z m * pow10 e) with
                | Fin _ m' e' =>
                    match x with Fin _ m0 e0 => (m' =? m0) && (e' =? e0) | _ => false end
                | _ => false end in
  let nearest := rne t in
  let other := if nearest =? lo then lo + 1 else lo in
  if back nearest then Some (nearest, e)
  else if back other then Some (other, e) else None.

Fixpoint shortest (fuel : nat) (x : float) (q : Q) (n : Z) : option (Z * Z) :=
  match fuel with
  | O => None
  | S fuel =>
      match short_candidate x q n with
      | Some r => Some r
      | None => shortest fuel x q (n + 1)
      end
  end.

(** Digits [m * 10^e] without trailing zeros. *)
Fixpoint trim_zeros (fuel : nat) (m e : Z) : Z * Z :=
  match fuel with
  | O => (m, e)
  | S fuel => if (m mod 10 =? 0) && negb (m =? 0) then trim_zeros fuel (m / 10) (e + 1) else (m, e)
  end.

(** [m * 10^e] in positional notation, with [.0] when it is whole. *)
Definition positional (m e : Z) (point_zero : bool) : string :=
  if 0 <=? e then dec (m * 10 ^ e) +:+ (if point_zero then ".0" else EmptyString)
  else let p := 10 ^ (- e) in dec (m / p) +:+ "." +:+ dec_pad (Z.to_nat (- e)) (m mod p).

(** [d.ddde+XX]. *)
Definition scientific (m e : Z) : string :=
  let n := Z.of_nat (String.length (dec m)) in
  let x := e + n - 1 in
  let p := 10 ^ (n - 1) in
  dec (m / p) +:+ (if n =? 1 then EmptyString else "." +:+ dec_pad (Z.to_nat (n - 1)) (m mod p))
  +:+ "e" +:+ (if x <? 0 then "-" else "+") +:+ dec_pad 2 (Z.abs x).

(** [str(x)]: the shortest decimal that reads back as [x]. *)
Definition repr (x : float) : string :=
  match x with
  | NaN => "nan"
  | Inf s => sign_str s "inf"
  | Fin s _ _ =>
      let q := Qabs (fval x) in
      if Qeq_bool q 0 then sign_str s "0.0"
      else
        match shortest 17 x q 1 with
        | Some (m, e) =>
            let '(m, e) := trim_zeros 20 m e in
            let x10 := e + Z.of_nat (String.length (dec m)) - 1 in
            sign_str s (if (-4 <=? x10) && (x10 <? 16) then positional m e true else scientific m e)
        | None => "?"
        end
  end.

(** [f"{x:g}"]: six significant digits, trailing zeros dropped. *)
Definition fmt_g (x : float) : string :=
  match x with
  | NaN => "nan"
  | Inf s => sign_str s "inf"
  | Fin s _ _ =>
      let q := Qabs (fval x) in
      if Qeq_bool q 0 then sign_str s "0"
      else
        let e := ilog10 q - 5 in
        let m := rne (q * pow10 (- e))%Q in
        let '(m, e) := trim_zeros 20 m e in
        let x10 := e + Z.of_nat (String.length (dec m)) - 1 in
        sign_str s (if (-4 <=? x10) && (x10 <? 6) then positional m e false else scientific m e)
  end.

(** ** Lemmas *)

Lemma app_str_cons c a b : String c a +:+ b = String c (a +:+ b).
Proof. done. Qed.

Lemma app_str_assoc a b c : (a +:+ b) +:+ c = a +:+ (b +:+ c).
Proof. induction a as [|x a IH]; [done|]. by rewrite !app_str_cons, IH. Qed.

Lemma app_str_nil_r a : a +:+ EmptyString = a.
Proof. induction a as [|x a IH]; [done|]. by rewrite app_str_cons, IH. Qed.

Lemma py_len_app a b : py_len (a +:+ b) = py_len a + py_len b.
Proof. induction a as [|c a IH]; [done|]. rewrite app_str_cons. cbn. rewrite IH. lia. Qed.

Lemma py_len_nonneg s : 0 <= py_len s.
Proof. induction s as [|c s IH]; cbn; [done|]. destruct (is_cont c); lia. Qed.

Lemma startswith_refl_app p s : startswith p (p +:+ s) = true.
Proof. induction p as [|c p IH]; [done|]. rewrite app_str_cons. cbn. by rewrite Ascii.eqb_refl. Qed.

(** The digits [dec] prints are read back by [int_digits]. *)
Lemma digit_val_char d : 0 <= d < 10 → digit_val (digit_char d) = Some d.
Proof.
  intros H. unfold digit_val, digit_char, code. rewrite nat_ascii_embedding by lia.
  rewrite Z2Nat.id by lia. destruct (Z.leb_spec 48 (48 + d)), (Z.leb_spec (48 + d) 57); try lia.
  cbn. f_equal. lia.
Qed.

Lemma int_digits_dec_fuel fuel n acc b :
  (0 < fuel)%nat → 0 <= n < 2 ^ Z.of_nat fuel →
  int_digits (dec_fuel fuel n acc) 0 b = int_digits acc n true.
Proof.
  revert n acc. induction fuel as [|fuel IH]; intros n acc Hf Hn; [lia|]. cbn [dec_fuel].
  rewrite Nat2Z.inj_succ, Z.pow_succ_r in Hn by lia.
  destruct (Z.ltb_spec n 10) as [Hlt|Hge].
  - cbn [int_digits]. rewrite digit_val_char by lia. f_equal.
  - rewrite IH; [..|split].
    + cbn [int_digits]. rewrite digit_val_char by (apply Z.mod_pos_bound; lia). f_equal.
      pose proof (Z.div_mod n 10 ltac:(lia)). lia.
    + destruct fuel; [cbn in Hn|]; lia.
    + apply Z.div_pos; lia.
    + apply Z.div_lt_upper_bound; lia.
Qed.

Lemma dec_fuel_bound n : 0 <= n → n < 2 ^ Z.of_nat (S (Z.to_nat (Z.log2 n))).
Proof.
  intros H. rewrite Nat2Z.inj_succ, Z2Nat.id by apply Z.log2_nonneg.
  destruct (Z.eq_dec n 0) as [->|]; [done|]. apply Z.log2_spec. lia.
Qed.

Lemma int_digits_dec n b : 0 <= n → int_digits (dec n) 0 b = Some n.
Proof.
  intros H. unfold dec. rewrite int_digits_dec_fuel; [done|lia|].
  split; [done|]. by apply dec_fuel_bound.
Qed.

(** A string of digits: what [dec] prints. *)
Fixpoint all_chars (p : ascii → bool) (s : string) : bool :=
  match s with EmptyString => true | String c s => p c && all_chars p s end.

Definition is_digit (c : ascii) : bool := bool_decide (is_Some (digit_val c)).

Lemma all_chars_app p a b : all_chars p (a +:+ b) = all_chars p a && all_chars p b.
Proof.
  induction a as [|c a IH]; [done|]. rewrite app_str_cons. cbn. by rewrite IH, andb_assoc.
Qed.

Lemma dec_fuel_digits fuel n acc :
  0 <= n → all_chars is_digit acc = true → all_chars is_digit (dec_fuel fuel n acc) = true.
Proof.
  revert n acc. induction fuel as [|fuel IH]; intros n acc Hn Ha; cbn; [done|].
  assert (∀ d, 0 <= d < 10 → is_digit (digit_char d) = true) as D.
  { intros d Hd. apply bool_decide_eq_true. rewrite digit_val_char by done. by eexists. }
  destruct (Z.ltb_spec n 10); cbn.
  - rewrite D by lia. done.
  - apply IH; [apply Z.div_pos; lia|]. cbn. rewrite D; [done|]. apply Z.mod_pos_bound. lia.
Qed.

Lemma dec_digits n : 0 <= n → all_chars is_digit (dec n) = true.
Proof. intros H. by apply dec_fuel_digits. Qed.

Lemma dec_fuel_nonempty fuel n acc : acc ≠ EmptyString → dec_fuel fuel n acc ≠ EmptyString.
Proof. revert n acc. induction fuel; intros n acc H; cbn; [done|]. destruct (n <? 10); auto. Qed.

Lemma dec_nonempty n : dec n ≠ EmptyString.
Proof. unfold dec. cbn. destruct (n <? 10); [done|]. by apply dec_fuel_nonempty. Qed.

Lemma is_digit_not_space c : is_digit c = true → is_space_int c = false ∧ is_space c = false.
Proof.
  unfold is_digit, digit_val, is_space_int, is_space. intros H%bool_decide_eq_true.
  destruct H as [d H]. destruct (Z.leb_spec 48 (code c)), (Z.leb_spec (code c) 57); try done. lia.
Qed.

Lemma lstrip_id p s : (∀ c s', s = String c s' → p c = false) → lstrip p s = s.
Proof. destruct s as [|c s]; intros H; cbn; [done|]. by rewrite (H c s). Qed.

Lemma rstrip_id p s : all_chars (λ c, negb (p c)) s = true → rstrip p s = s.
Proof.
  induction s as [|c s IH]; cbn; [done|]. intros [Hc Hs]%andb_true_iff. rewrite IH by done.
  destruct s; [|done]. by apply negb_true_iff in Hc as ->.
Qed.

Lemma all_chars_impl (p q : ascii → bool) s :
  (∀ c, p c = true → q c = true) → all_chars p s = true → all_chars q s = true.
Proof.
  intros H. induction s as [|c s IH]; cbn; [done|]. intros [Hc Hs]%andb_true_iff.
  apply andb_true_iff. auto.
Qed.

(** Text without white space is not changed by stripping. *)
Lemma strip_clean p s :
  all_chars (λ c, negb (p c)) s = true → rstrip p (lstrip p s) = s.
Proof.
  intros H. rewrite lstrip_id; [by apply rstrip_id|].
  intros c s' ->. cbn in H. apply andb_true_iff in H as [H _]. by apply negb_true_iff in H.
Qed.

Lemma digits_clean s : all_chars is_digit s = true → all_chars (λ c, negb (is_space_int c)) s = true.
Proof.
  apply all_chars_impl. intros c Hc. apply is_digit_not_space in Hc as [-> _]. done.
Qed.

Lemma int_of_str_dec n : 0 <= n → int_of_str (dec n) = Some n.
Proof.
  intros H. unfold int_of_str. rewrite strip_clean by by apply digits_clean, dec_digits.
  pose proof (dec_digits n H) as D. pose proof (dec_nonempty n) as N.
  pose proof (int_digits_dec n false H) as R.
  destruct (dec n) as [|c s] eqn:E; [done|]. cbn in D. apply andb_true_iff in D as [D _].
  assert (∀ a, is_digit a = false → Ascii.eqb c a = false) as K.
  { intros a Ha. apply Ascii.eqb_neq. intros ->. congruence. }
  rewrite !K by done. done.
Qed.

(** [int(str(z)) == z]. *)
Lemma int_of_str_str_Z z : int_of_str (str_Z z) = Some z.
Proof.
  unfold str_Z. destruct (Z.ltb_spec z 0) as [H|H]; [|by apply int_of_str_dec].
  unfold int_of_str.
  rewrite strip_clean.
  - change ("-" +:+ dec (- z)) with (String "-"%char (dec (- z))).
    cbv match. rewrite Ascii.eqb_refl, int_digits_dec by lia. cbn. f_equal. lia.
  - change ("-" +:+ dec (- z)) with (String "-"%char (dec (- z))). cbn.
    apply digits_clean, dec_digits. lia.
Qed.

(** *** Splitting and lines *)

Definition no_char (c : ascii) (s : string) : bool := all_chars (λ a, negb (Ascii.eqb a c)) s.

Lemma split_on_clean c s : no_char c s = true → split_on c s = [s].
Proof.
  unfold no_char. induction s as [|a s IH]; cbn; [done|].
  intros [Ha Hs]%andb_true_iff. apply negb_true_iff in Ha as ->. by rewrite IH.
Qed.

Lemma split_on_app c a b :
  no_char c a = true → split_on c (a +:+ String c b) = a :: split_on c b.
Proof.
  unfold no_char. induction a as [|x a IH]; intros H.
  - change (EmptyString +:+ String c b) with (String c b). cbn. by rewrite Ascii.eqb_refl.
  - cbn in H. apply andb_true_iff in H as [Hx Ha]. rewrite app_str_cons. cbn.
    apply negb_true_iff in Hx as ->. by rewrite IH.
Qed.

(** The text of a file whose lines are [ls]. *)
Fixpoint unlines (ls : list string) : string :=
  match ls with
  | [] => EmptyString
  | l :: ls => l +:+ String newline (unlines ls)
  end.

Definition is_line (s : string) : bool := no_char newline s && no_char creturn s.

Lemma universal_newlines_clean s : no_char creturn s = true → universal_newlines s = s.
Proof.
  unfold no_char. induction s as [|c s IH]; cbn; [done|].
  intros [Hc Hs]%andb_true_iff. apply negb_true_iff in Hc as ->. by rewrite IH.
Qed.

Lemma no_char_unlines ls : Forall (λ l, is_line l = true) ls → no_char creturn (unlines ls) = true.
Proof.
  induction 1 as [|l ls Hl Hls IH]; [done|]. cbn [unlines]. unfold no_char in *.
  rewrite all_chars_app. unfold is_line, no_char in Hl. apply andb_true_iff in Hl as [_ ->].
  cbn. exact IH.
Qed.

Lemma split_unlines ls :
  Forall (λ l, is_line l = true) ls → split_on newline (unlines ls) = ls ++ [EmptyString].
Proof.
  induction 1 as [|l ls Hl Hls IH]; [done|]. cbn [unlines].
  apply andb_true_iff in Hl as [Hl _]. by rewrite split_on_app, IH.
Qed.

(** Reading a file back line by line. *)
Lemma text_lines_unlines ls : Forall (λ l, is_line l = true) ls → text_lines (unlines ls) = ls.
Proof.
  intros H. unfold text_lines. rewrite universal_newlines_clean by by apply no_char_unlines.
  rewrite split_unlines by done. by rewrite last_last, removelast_last.
Qed.

(** The characters of a printed integer. *)
Definition is_int_char (c : ascii) : bool := is_digit c || Ascii.eqb c "-"%char.

Lemma str_Z_chars z : all_chars is_int_char (str_Z z) = true.
Proof.
  assert (∀ n, 0 <= n → all_chars is_int_char (dec n) = true) as D.
  { intros n Hn. eapply all_chars_impl; [|by apply dec_digits].
    intros c Hc. unfold is_int_char. by rewrite Hc. }
  unfold str_Z. destruct (Z.ltb_spec z 0); [|by apply D].
  change ("-" +:+ dec (- z)) with (String "-"%char (dec (- z))).
  cbn [all_chars]. rewrite D by lia. done.
Qed.

Lemma str_Z_no_char c z : is_int_char c = false → no_char c (str_Z z) = true.
Proof.
  intros H. eapply all_chars_impl; [|apply str_Z_chars]. intros a Ha. cbn.
  destruct (Ascii.eqb_spec a c) as [->|]; [congruence|done].
Qed.

Lemma str_Z_nonempty z : str_Z z ≠ EmptyString.
Proof. unfold str_Z. destruct (z <? 0); [done|]. apply dec_nonempty. Qed.

Lemma int_char_not_space c : is_int_char c = true → is_space c = false.
Proof.
  unfold is_int_char. intros [H|H]%orb_true_iff.
  - by apply is_digit_not_space in H as [_ ->].
  - by apply Ascii.eqb_eq in H as ->.
Qed.
