(* ===== verification/PyNum.v ===== *)
(** Python numbers: an [int] of any size or a [float], with the language's
    mixed arithmetic.  An int operand of a mixed operation is converted first
    (OverflowError when it does not fit), a division by zero raises, and an
    int is compared with a float exactly. *)

From S2P Require Import Prelude PyFloat PyStr.
From Stdlib Require Import QArith.

Open Scope Z_scope.

Inductive pynum :=
| PInt (z : Z)
| PFlt (x : float).

Definition to_float (a : pynum) : result float :=
  match a with
  | PInt z => require OverflowError (f_of_Z z)
  | PFlt x => Ok x
  end.

Definition arith (iop : Z → Z → Z) (fop : float → float → float) (a b : pynum) : result pynum :=
  match a, b with
  | PInt m, PInt n => Ok (PInt (iop m n))
  | _, _ => x ← to_float a; y ← to_float b; Ok (PFlt (fop x y))
  end.

Definition nadd : pynum → pynum → result pynum := arith Z.add fadd.
Definition nsub : pynum → pynum → result pynum := arith Z.sub fsub.
Definition nmul : pynum → pynum → result pynum := arith Z.mul fmul.

(** [a / b]. *)
Definition ndiv (a b : pynum) : result float :=
  match a, b with
  | PInt m, PInt n =>
      if n =? 0 then Err ZeroDivisionError else require OverflowError (zdiv_f m n)
  | _, _ =>
      x ← to_float a;
      y ← to_float b;
      if is_zero y then Err ZeroDivisionError else Ok (fdiv x y)
  end.

Definition ncmp (a b : pynum) : option comparison :=
  match a, b with
  | PInt m, PInt n => Some (Z.compare m n)
  | PInt m, PFlt y => zcmp_f m y
  | PFlt x, PInt n => CompOpp <$> zcmp_f n x
  | PFlt x, PFlt y => fcmp x y
  end.

Definition ngt (a b : pynum) : bool := match ncmp a b with Some Gt => true | _ => false end.
Definition nge (a b : pynum) : bool := match ncmp a b with Some Gt | Some Eq => true | _ => false end.
Definition nlt (a b : pynum) : bool := match ncmp a b with Some Lt => true | _ => false end.

Definition nle (a b : pynum) : bool := match ncmp a b with Some Lt | Some Eq => true | _ => false end.

(** [abs], and [max] and [min] of two arguments (the first wins a tie). *)
Definition fabs (x : float) : float :=
  match x with Fin _ m e => Fin false m e | Inf _ => Inf false | NaN => NaN end.
Definition nabs (a : pynum) : pynum := match a with PInt z => PInt (Z.abs z) | PFlt x => PFlt (fabs x) end.
Definition nmax (a b : pynum) : pynum := if ngt b a then b else a.
Definition nmin (a b : pynum) : pynum := if nlt b a then b else a.

(** [str(a)]. *)
Definition str_num (a : pynum) : string :=
  match a with PInt z => str_Z z | PFlt x => repr x end.

(** A decimal literal of the source. *)
Definition lit (q : Q) : pynum := PFlt (of_Q q).

Lemma nge_int_float z x : nge (PInt z) (PFlt x) = zge_f z x.
Proof. done. Qed.

(** ** Finite numbers by value

    [nis a q]: [a] is an int or a finite float of value [q].  [small q] keeps
    everything far from overflow. *)

From Stdlib Require Import Qabs Lqa.

Definition nis (a : pynum) (q : Q) : Prop :=
  match a with PInt z => (q == inject_Z z)%Q | PFlt x => isf x q end.

Definition small (q : Q) : Prop := (Qabs q <= inject_Z (2 ^ 30))%Q.

Lemma ncmp_nis a b q r : nis a q → nis b r → ncmp a b = Some (q ?= r)%Q.
Proof.
  destruct a as [m|x], b as [n|y]; cbn [nis ncmp].
  - intros -> ->. f_equal. unfold Qcompare. cbn. by rewrite !Z.mul_1_r.
  - intros -> (F & _ & V). unfold zcmp_f. destruct y; try done. by rewrite <- V.
  - intros (F & _ & V) ->. unfold zcmp_f. destruct x; try done. cbn [option_fmap fmap option_map].
    rewrite <- V. f_equal. apply Qcompare_antisym.
  - intros (F & _ & V) (G & _ & W). destruct x, y; try done. cbn [fcmp]. by rewrite <- V, <- W.
Qed.

Lemma nlt_nis a b q r : nis a q → nis b r → nlt a b = true ↔ (q < r)%Q.
Proof.
  intros Ha Hb. unfold nlt. rewrite (ncmp_nis a b q r Ha Hb), Qlt_alt.
  destruct (q ?= r)%Q; split; done.
Qed.
Lemma ngt_nis a b q r : nis a q → nis b r → ngt a b = true ↔ (r < q)%Q.
Proof.
  intros Ha Hb. unfold ngt. rewrite (ncmp_nis a b q r Ha Hb), Qgt_alt.
  destruct (q ?= r)%Q; split; done.
Qed.
Lemma nle_nis a b q r : nis a q → nis b r → nle a b = true ↔ (q <= r)%Q.
Proof.
  intros Ha Hb. unfold nle. rewrite (ncmp_nis a b q r Ha Hb), Qle_alt.
  destruct (q ?= r)%Q; split; done.
Qed.

Lemma inject_small z q : small q → (q == inject_Z z)%Q → (Z.abs z <= 2 ^ 30)%Z.
Proof. unfold small. intros H E. rewrite E in H. change (Qabs (inject_Z z)) with (inject_Z (Z.abs z)) in H. by rewrite <- Zle_Qle in H. Qed.

Lemma to_float_nis a q : small q → nis a q → ∃ x, to_float a = Ok x ∧ isf x q.
Proof.
  intros S. destruct a as [z|x]; cbn; [|by eexists]. intros E.
  destruct (f_small z) as (f & -> & I); [pose proof (inject_small z q S E); lia|].
  exists f. split; [done|]. by rewrite E.
Qed.

Lemma small_sum q r : small q → small r → (Qabs (q + r) < pow2 1023)%Q ∧ (Qabs (q - r) < pow2 1023)%Q.
Proof.
  unfold small. intros Hq Hr. assert (inject_Z (2 ^ 30) + inject_Z (2 ^ 30) <= inject_Z (2 ^ 64))%Q by (by vm_compute).
  split; apply small_lt_pow.
  - eapply Qle_trans; [apply Qabs_triangle|]. lra.
  - eapply Qle_trans; [apply Qabs_triangle|]. rewrite Qabs_opp. lra.
Qed.

(** Sums and differences of small numbers are rounded once. *)
Lemma nadd_nis a b q r :
  nis a q → nis b r → small q → small r → ∃ c, nadd a b = Ok c ∧ nis c (rndQ (q + r)).
Proof.
  intros Ha Hb Sq Sr.
  destruct (to_float_nis a q Sq Ha) as (x & Ex & Ix). destruct (to_float_nis b r Sr Hb) as (y & Ey & Iy).
  pose proof (small_sum q r Sq Sr) as [B _].
  assert (nis (PFlt (fadd x y)) (rndQ (q + r))) as If by (by apply isf_add).
  destruct a as [m|x0], b as [n|y0]; unfold nadd, arith; try (rewrite Ex, Ey; by eexists).
  exists (PInt (m + n)). split; [done|]. cbn in *. pose proof (inject_small m q Sq Ha).
  pose proof (inject_small n r Sr Hb). rewrite Ha, Hb, <- inject_Z_plus. apply rnd_Z. lia.
Qed.

Lemma nsub_nis a b q r :
  nis a q → nis b r → small q → small r → ∃ c, nsub a b = Ok c ∧ nis c (rndQ (q - r)).
Proof.
  intros Ha Hb Sq Sr.
  destruct (to_float_nis a q Sq Ha) as (x & Ex & Ix). destruct (to_float_nis b r Sr Hb) as (y & Ey & Iy).
  pose proof (small_sum q r Sq Sr) as [_ B].
  assert (nis (PFlt (fsub x y)) (rndQ (q - r))) as If by (by apply isf_sub).
  destruct a as [m|x0], b as [n|y0]; unfold nsub, arith; try (rewrite Ex, Ey; by eexists).
  exists (PInt (m - n)). split; [done|]. cbn in *. pose proof (inject_small m q Sq Ha).
  pose proof (inject_small n r Sr Hb). rewrite Ha, Hb, <- inject_Z_minus. apply rnd_Z. lia.
Qed.

Lemma nabs_nis a q : nis a q → nis (nabs a) (Qabs q).
Proof.
  destruct a as [z|x]; cbn [nis nabs].
  - intros ->. done.
  - intros (F & W & V). destruct x as [s m e| |]; try done. split; [done|]. split; [done|].
    cbn [fabs]. rewrite <- V, !fval_Fin. cbn [signed].
    assert (0 <= inject_Z m * pow2 e)%Q.
    { apply Qmult_le_0_compat; [change 0%Q with (inject_Z 0); by apply inject_Z_le|].
      pose proof (pow2_pos e). lra. }
    destruct s; cbn [signed]; [rewrite Qabs_opp|]; symmetry; by apply Qabs_pos.
Qed.

(** The rounding error of a small result. *)
Lemma rnd_small q : small q → (Qabs (rndQ q - q) <= 1 # 1000000)%Q.
Proof.
  unfold small. intros S. eapply Qle_trans; [apply rnd_error|].
  pose proof (Qmult_pow2_le _ _ (-53) S).
  assert (inject_Z (2 ^ 30) * pow2 (-53) + pow2 (-1075) <= 1 # 1000000)%Q
    by (apply Qle_bool_iff; vm_compute; reflexivity). lra.
Qed.
