(* ===== verification/MergeHdr.v ===== *)
(** [sweep/merge-hdr.py]: merges the raw histograms of several load
    generators and reports percentiles of the union.

    [load], [percentile], [summarise] and [main] are the script's functions;
    a bucket is a (value, count) pair.  The theorems: a percentile is the
    lowest recorded value whose cumulative count reaches the requested share
    of the total, in spite of the float arithmetic that computes the rank;
    the reported percentiles are ordered; the merged percentile lies between
    the clients' own; the report does not depend on the order of the files;
    merging a single file reproduces that client's numbers. *)

From Stdlib Require Import Ascii.
From S2P Require Import Prelude PyFloat PyStr PyNum.
From Stdlib Require Import QArith Qabs Lqa.

Open Scope Z_scope.

Abbreviation bucket := (Z * Z)%type.

(** ** The functions of the script *)

Definition parse_line (line : string) : result bucket :=
  match split_on ","%char line with
  | [value; count] =>
      v ← require ValueError (int_of_str value);
      c ← require ValueError (int_of_str count);
      Ok (v, c)
  | _ => Err ValueError
  end.

Fixpoint load_lines (ls : list string) : result (list bucket) :=
  match ls with
  | [] => Ok []
  | l :: ls =>
      let line := strip l in
      if is_empty line || startswith "value" line then load_lines ls
      else b ← parse_line line; bs ← load_lines ls; Ok (b :: bs)
  end.

Definition load (path : string) : M (list bucket) :=
  text ← read_file path; lift (load_lines (text_lines text)).

Fixpoint percentile_loop (sorted_buckets l : list bucket) (seen : Z) (target : pynum) : result Z :=
  match l with
  | [] => fst <$> require IndexError (last sorted_buckets)
  | (value, count) :: l =>
      let seen := seen + count in
      if nge (PInt seen) target then Ok value
      else percentile_loop sorted_buckets l seen target
  end.

Definition percentile (sorted_buckets : list bucket) (total : Z) (pct : pynum) : result Z :=
  if total =? 0 then Ok 0
  else
    t ← nmul (PInt total) pct;
    target ← ndiv t (lit 100);
    percentile_loop sorted_buckets sorted_buckets 0 (PFlt target).

(** Tuples are ordered lexicographically. *)
Definition bucket_le (a b : bucket) : Prop := a.1 < b.1 ∨ (a.1 = b.1 ∧ a.2 <= b.2).

#[export] Instance bucket_le_dec : RelDecision bucket_le.
Proof. intros a b. unfold bucket_le. apply _. Defined.

Definition sorted (bs : list bucket) : list bucket := merge_sort bucket_le bs.

Definition summarise (bs : list bucket) : list bucket * Z :=
  let bs := sorted bs in (bs, zsum (snd <$> bs)).

Definition nl : string := String newline EmptyString.

Definition __doc__ : string :=
  tmpl "Merge several clients' raw histograms and report aggregate percentiles.

    python3 sweep/merge-hdr.py client0.csv client1.csv ...

Each input is what sequencer's load generator writes with
--hdr_raw_out: a `value,count` line per recorded bucket. Merging is a
sum over buckets, and percentiles come off the merged distribution.

This exists because you cannot average percentiles. With load split
across N clients, the mean of their p50s is not the p50 of the union —
it is only equal when every client saw an identical distribution, which
is exactly what a split-load test is trying to find out. A straggler
client is invisible in an average and obvious in a merge, so the
per-client numbers are printed alongside.

Accuracy is bounded by the histogram's own precision (3 significant
figures), the same bound the load generator's own reported percentiles
carry, so a single-file merge reproduces that client's reported values.
" [].

(** One row of the table: a name, a count, p50 and p99. *)
Definition table_row (name : string) (total p50 p99 : Z) : string :=
  ljust 44 name +:+ rjust 12 (comma total) +:+ rjust 9 (str_Z p50) +:+ rjust 10 (str_Z p99).

Fixpoint main_files (paths : list string) (merged : list bucket) : M (list bucket) :=
  match paths with
  | [] => mret merged
  | path :: paths =>
      bs ← load path;
      let '(buckets, total) := summarise bs in
      let merged := merged ++ buckets in
      let name := after_slash path in
      p50 ← lift (percentile buckets total (PInt 50));
      p99 ← lift (percentile buckets total (PInt 99));
      print (table_row name total p50 p99);;
      main_files paths merged
  end.

Definition pct_99_9 : pynum := lit (999 # 10).

(** The percentile lines [p50], [p90], [p99], [p99.9] in microseconds. *)
Definition report_pcts (buckets : list bucket) (total : Z) : M unit :=
  mapM_ (λ pct, v ← lift (percentile buckets total (PFlt pct));
                print ("  p" +:+ ljust 6 (fmt_g pct) +:+ " " +:+ rjust 8 (str_Z v) +:+ " us"))
    [of_Q 50; of_Q 90; of_Q 99; of_Q (999 # 10)].

(** What [main] prints about the union of the [n] files, and its status. *)
Definition report (n : nat) (merged : list bucket) : M Z :=
  let '(buckets, total) := summarise merged in
  if total =? 0 then eprint (nl +:+ "no samples");; mret 1
  else
    p50 ← lift (percentile buckets total (PInt 50));
    p99 ← lift (percentile buckets total (PInt 99));
    print (nl +:+ table_row ("MERGED (" +:+ str_Z (Z.of_nat n) +:+ " clients)")
                    total p50 p99);;
    report_pcts buckets total;;
    mx ← lift (fst <$> require IndexError (last buckets));
    print ("  max     " +:+ rjust 8 (str_Z mx) +:+ " us");;
    print ("merged_count=" +:+ str_Z total);;
    p50 ← lift (percentile buckets total (PInt 50));
    print ("merged_p50_us=" +:+ str_Z p50);;
    p90 ← lift (percentile buckets total (PInt 90));
    print ("merged_p90_us=" +:+ str_Z p90);;
    p99 ← lift (percentile buckets total (PInt 99));
    print ("merged_p99_us=" +:+ str_Z p99);;
    p999 ← lift (percentile buckets total pct_99_9);
    print ("merged_p99_9_us=" +:+ str_Z p999);;
    print ("merged_max_us=" +:+ str_Z mx);;
    mret 0.

Definition main (paths : list string) : M Z :=
  match paths with
  | [] => eprint __doc__;; mret 2
  | _ =>
      print (ljust 44 "file" +:+ rjust 12 "count" +:+ rjust 9 "p50" +:+ rjust 10 "p99");;
      merged ← main_files paths [];
      report (length paths) merged
  end.

(** [sys.exit(main(sys.argv[1:]))]. *)
Definition script (argv : list string) : M unit :=
  code ← main argv; raise (SystemExit code).

(** ** Reference definitions *)

(** Samples at or below [v]. *)
Definition cum (bs : list bucket) (v : Z) : Z := zsum (snd <$> filter (λ b, b.1 <= v) bs).
Definition total_count (bs : list bucket) : Z := zsum (snd <$> bs).
Definition counts_ok (bs : list bucket) : Prop := Forall (λ b, 0 <= b.2) bs.

(** [v] is the lowest value whose cumulative count reaches rank [q]. *)
Definition at_rank (bs : list bucket) (q : Q) (v : Z) : Prop :=
  (q <= inject_Z (cum bs v))%Q ∧ ∀ v', v' < v → (inject_Z (cum bs v') < q)%Q.

(** ** Lemmas *)

Section BucketOrder.
#[export] Instance bucket_le_trans : Transitive bucket_le.
Proof. intros [a1 a2] [b1 b2] [c1 c2]. unfold bucket_le. cbn. lia. Qed.
#[export] Instance bucket_le_total : Total bucket_le.
Proof. intros [a1 a2] [b1 b2]. unfold bucket_le. cbn. lia. Qed.
#[export] Instance bucket_le_antisym : AntiSymm (=) bucket_le.
Proof. intros [a1 a2] [b1 b2]. unfold bucket_le. cbn. intros. f_equal; lia. Qed.
End BucketOrder.

Lemma sorted_perm bs : sorted bs ≡ₚ bs.
Proof. apply merge_sort_Permutation. Qed.

Lemma sorted_sorted bs : StronglySorted bucket_le (sorted bs).
Proof. apply StronglySorted_merge_sort; apply _. Qed.

Lemma sorted_unique bs bs' : bs ≡ₚ bs' → sorted bs = sorted bs'.
Proof.
  intros H. apply (StronglySorted_unique bucket_le); [apply sorted_sorted..|].
  by rewrite !sorted_perm.
Qed.

Lemma sorted_idemp bs : sorted (sorted bs) = sorted bs.
Proof. apply sorted_unique, sorted_perm. Qed.

Lemma cum_perm bs bs' v : bs ≡ₚ bs' → cum bs v = cum bs' v.
Proof. intros H. apply zsum_perm. by rewrite H. Qed.

Lemma total_perm bs bs' : bs ≡ₚ bs' → total_count bs = total_count bs'.
Proof. intros H. apply zsum_perm. by rewrite H. Qed.

Lemma counts_perm bs bs' : bs ≡ₚ bs' → counts_ok bs → counts_ok bs'.
Proof. intros H. unfold counts_ok. by rewrite H. Qed.

Lemma cum_app a b v : cum (a ++ b) v = cum a v + cum b v.
Proof. unfold cum. by rewrite filter_app, fmap_app, zsum_app. Qed.

Lemma total_app a b : total_count (a ++ b) = total_count a + total_count b.
Proof. unfold total_count. by rewrite fmap_app, zsum_app. Qed.

Lemma cum_cons b bs v : cum (b :: bs) v = (if decide (b.1 <= v) then b.2 else 0) + cum bs v.
Proof. unfold cum. rewrite filter_cons. case_decide; done. Qed.

Lemma cum_all bs v : Forall (λ b, b.1 <= v) bs → cum bs v = total_count bs.
Proof.
  induction 1; [done|]. rewrite cum_cons, decide_True by done.
  unfold total_count, zsum in *. cbn. lia.
Qed.

Lemma cum_none bs v : Forall (λ b, v < b.1) bs → cum bs v = 0.
Proof. induction 1; [done|]. rewrite cum_cons, decide_False by lia. lia. Qed.

Lemma cum_nonneg bs v : counts_ok bs → 0 <= cum bs v.
Proof. induction 1; [done|]. rewrite cum_cons. case_decide; lia. Qed.

Lemma cum_mono bs v v' : counts_ok bs → v <= v' → cum bs v <= cum bs v'.
Proof. intros H Hv. induction H; [done|]. rewrite !cum_cons. repeat case_decide; lia. Qed.

Lemma total_nonneg bs : counts_ok bs → 0 <= total_count bs.
Proof. intros H. apply zsum_nonneg, Forall_fmap, H. Qed.

(** Where the cumulative count grows there is a recorded bucket. *)
Lemma cum_jump bs v : cum bs (v - 1) < cum bs v → v ∈ bs.*1.
Proof.
  induction bs as [|b bs IH]; [done|]. rewrite !cum_cons. intros L. cbn.
  destruct (decide (b.1 = v)) as [->|]; [by left|]. right. apply IH. repeat case_decide; lia.
Qed.

Lemma at_rank_mono bs q q' v v' : (q <= q')%Q → at_rank bs q v → at_rank bs q' v' → v <= v'.
Proof.
  intros Hq [_ H] [H' _]. destruct (Z_le_gt_dec v v') as [|C]; [done|].
  specialize (H v' ltac:(lia)). lra.
Qed.

Lemma at_rank_unique bs q v v' : at_rank bs q v → at_rank bs q v' → v = v'.
Proof. intros H H'. apply Z.le_antisymm; eapply at_rank_mono; eauto; lra. Qed.

Lemma at_rank_perm bs bs' q v : bs ≡ₚ bs' → at_rank bs q v → at_rank bs' q v.
Proof.
  intros H [A B]. split; [by rewrite <- (cum_perm _ _ v H)|].
  intros v' Hv. rewrite <- (cum_perm _ _ v' H). auto.
Qed.

Lemma cum_le_total bs v : counts_ok bs → cum bs v <= total_count bs.
Proof.
  induction 1 as [|b bs Hb Hbs IH]; [done|]. rewrite cum_cons.
  unfold total_count, zsum in *. cbn. case_decide; lia.
Qed.

(** In a sorted list, the bucket at which the running total first reaches
    [q] is the one at rank [q]. *)
Lemma at_rank_split pre v c l q :
  StronglySorted bucket_le (pre ++ (v, c) :: l) → counts_ok (pre ++ (v, c) :: l) →
  (inject_Z (total_count pre) < q)%Q → (q <= inject_Z (total_count pre + c))%Q →
  at_rank (pre ++ (v, c) :: l) q v.
Proof.
  intros Hs [Hc Hc']%Forall_app Hlt Hle. inversion Hc' as [|? ? _ Hl]; subst. split.
  - eapply Qle_trans; [exact Hle|]. rewrite <- Zle_Qle, cum_app, cum_cons, decide_True by done.
    pose proof (cum_nonneg l v Hl). rewrite cum_all; [cbn; lia|].
    apply Forall_forall. intros b Hb.
    apply (StronglySorted_app_1_elem_of _ _ _ b (v, c) Hs) in Hb; [|by left].
    unfold bucket_le in Hb. cbn in Hb. lia.
  - intros v' Hv. eapply Qle_lt_trans; [|exact Hlt]. rewrite <- Zle_Qle, cum_app, (cum_none (_ :: l)).
    + pose proof (cum_le_total pre v' Hc). lia.
    + apply StronglySorted_app_1_r in Hs. inversion Hs as [|? ? _ Hf]; subst.
      constructor; [done|]. eapply Forall_impl; [exact Hf|].
      intros [a b] Hab. unfold bucket_le in Hab. cbn in *. lia.
Qed.

(** The loop stops at the rank its target denotes. *)
Lemma percentile_loop_rank pre l target q :
  StronglySorted bucket_le (pre ++ l) → counts_ok (pre ++ l) → isf target q →
  (inject_Z (total_count pre) < q)%Q → (q <= inject_Z (total_count (pre ++ l)))%Q →
  ∃ v, percentile_loop (pre ++ l) l (total_count pre) (PFlt target) = Ok v ∧ at_rank (pre ++ l) q v.
Proof.
  intros Hs Hc Ht. revert pre Hs Hc. induction l as [|[v c] l IH]; intros pre Hs Hc Hpre Hq.
  { rewrite app_nil_r in Hq. lra. }
  cbn [percentile_loop]. rewrite nge_int_float. destruct (zge_f _ _) eqn:E.
  - exists v. split; [done|]. apply at_rank_split; [done..|]. by apply (zge_f_isf _ _ _ Ht) in E.
  - assert (total_count pre + c = total_count (pre ++ [(v, c)])) as Et.
    { rewrite total_app. unfold total_count, zsum. cbn. lia. }
    assert (pre ++ (v, c) :: l = (pre ++ [(v, c)]) ++ l) as Ea by by rewrite <- app_assoc.
    rewrite Ea in Hs, Hc, Hq |- *. rewrite Et in E |- *. apply IH; [done..| |done].
    apply Qnot_le_lt. intros C. apply (zge_f_isf _ _ _ Ht) in C. congruence.
Qed.

(** What [percentile] computes, given the value of its float target. *)
Lemma percentile_rank raw pct target q :
  counts_ok raw → 0 < total_count raw →
  (t ← nmul (PInt (total_count raw)) pct; ndiv t (lit 100)) = Ok target →
  isf target q → (0 < q)%Q → (q <= inject_Z (total_count raw))%Q →
  ∃ v, percentile (sorted raw) (total_count raw) pct = Ok v ∧ at_rank raw q v.
Proof.
  intros Hc Hpos Ht Hq H0 Hle. unfold percentile.
  destruct (Z.eqb_spec (total_count raw) 0) as [|_]; [lia|].
  apply bind_Ok in Ht as (t & -> & Ht). cbn. rewrite Ht. cbn.
  pose proof (sorted_perm raw) as P.
  destruct (percentile_loop_rank [] (sorted raw) target q) as (v & E & R); cbn [app] in *.
  - apply sorted_sorted.
  - by eapply counts_perm.
  - done.
  - done.
  - by rewrite (total_perm _ _ P).
  - exists v. split; [exact E|]. by eapply at_rank_perm.
Qed.

Lemma isf_100 : isf (of_Q 100) 100.
Proof. rewrite <- (rnd_Z 100) at 2 by lia. apply isf_of_Q. reflexivity. Qed.

Lemma Qabs_pos_lt q e : (0 <= q)%Q → (q < pow2 e)%Q → (Qabs q < pow2 e)%Q.
Proof. intros H. by rewrite Qabs_pos. Qed.

Lemma div_100_isf x a :
  isf x a → (0 <= a)%Q → (a < pow2 1023)%Q → is_zero (of_Q 100) = false ∧
  isf (fdiv x (of_Q 100)) (rndQ (a / 100)).
Proof.
  intros Hx H0 Hu. split; [done|]. apply isf_div; [done|apply isf_100|discriminate|].
  assert (a / 100 == a * (1 # 100))%Q as -> by reflexivity.
  apply Qabs_pos_lt; lra.
Qed.

(** The float target for an integer percentage. *)
Lemma target_int total p :
  0 < total * p < 2 ^ 1022 →
  ∃ target, (t ← nmul (PInt total) (PInt p); ndiv t (lit 100)) = Ok target ∧
            isf target (rndQ (rndQ (inject_Z (total * p)) / 100)).
Proof.
  intros H. destruct (isf_Z (total * p)) as (x & Ex & Hx); [lia|].
  destruct (div_100_isf x _ Hx) as [Z0 D].
  - apply rndQ_nonneg. change 0%Q with (inject_Z 0). rewrite <- Zle_Qle. lia.
  - eapply Qle_lt_trans; [|apply (pow2_lt 1022); lia].
    rewrite <- (rnd_exact (pow2 1022) 1 1022) by (try lia; ring). apply rnd_mono.
    rewrite pow2_Z, <- Zle_Qle by lia. lia.
  - exists (fdiv x (of_Q 100)). split; [|done].
    unfold nmul, arith, ndiv, lit, to_float. cbn. rewrite Ex. cbn. done.
Qed.

(** The specification of a percentile, in integers: the lowest value whose
    cumulative count reaches [p] percent of the total. *)
Definition pct_value (bs : list bucket) (p v : Z) : Prop :=
  p * total_count bs <= 100 * cum bs v ∧ ∀ v', v' < v → 100 * cum bs v' < p * total_count bs.

(** The rank [percentile] walks to for an integer percentage. *)
Definition rank_int (total p : Z) : Q := rndQ (rndQ (inject_Z (total * p)) / 100).

Lemma rank_int_le total p s : 0 <= total * p <= 2 ^ 52 →
  ((rank_int total p <= inject_Z s)%Q ↔ total * p <= s * 100).
Proof.
  intros H. unfold rank_int. rewrite rnd_Z by lia. by apply (rnd_div_le_Z (total * p) 100 s).
Qed.

Lemma rank_int_gt total p s : 0 <= total * p <= 2 ^ 52 →
  ((inject_Z s < rank_int total p)%Q ↔ s * 100 < total * p).
Proof.
  intros H. pose proof (rank_int_le total p s H) as E. split; intros L.
  - destruct (Z_lt_le_dec (s * 100) (total * p)) as [|C]; [done|]. apply E in C. lra.
  - apply Qnot_le_lt. rewrite E. lia.
Qed.

Lemma at_rank_int bs p v : 0 <= total_count bs * p <= 2 ^ 52 →
  (at_rank bs (rank_int (total_count bs) p) v ↔ pct_value bs p v).
Proof.
  intros H. unfold at_rank, pct_value. rewrite rank_int_le by done.
  setoid_rewrite rank_int_gt; [|done]. split; intros [A B]; (split; [lia|]); intros v' Hv;
    specialize (B v' Hv); lia.
Qed.

Lemma percentile_int raw p :
  counts_ok raw → 0 < total_count raw → 0 < p <= 100 → total_count raw * p <= 2 ^ 52 →
  ∃ v, percentile (sorted raw) (total_count raw) (PInt p) = Ok v ∧ pct_value raw p v.
Proof.
  intros Hc Ht Hp Hb. destruct (target_int (total_count raw) p) as (target & E & T); [nia|].
  fold (rank_int (total_count raw) p) in T.
  destruct (percentile_rank raw (PInt p) target _ Hc Ht E T) as (v & Ev & R).
  - apply (rank_int_gt _ _ 0); nia.
  - apply rank_int_le; nia.
  - exists v. split; [done|]. apply at_rank_int in R; [done|nia].
Qed.

Lemma pct_value_unique bs p v v' : pct_value bs p v → pct_value bs p v' → v = v'.
Proof.
  intros [A B] [A' B']. destruct (Z.lt_trichotomy v v') as [C|[|C]]; [|done|].
  - apply B' in C. lia.
  - apply B in C. lia.
Qed.

(** A percentage is first reached at a recorded value. *)
Lemma pct_value_elem bs p v : pct_value bs p v → v ∈ bs.*1.
Proof. intros [A B]. specialize (B (v - 1) ltac:(lia)). apply cum_jump. lia. Qed.

Lemma summarise_eq raw : summarise raw = (sorted raw, total_count raw).
Proof. unfold summarise. f_equal. apply total_perm, sorted_perm. Qed.

(** *** Ranks of float percentages *)

(** The rank [percentile] walks to for a float percentage of value [a]. *)
Definition rank_flt (total : Z) (a : Q) : Q := rndQ (rndQ (rndQ (inject_Z total) * a) / 100).

Lemma rnd_near q : (pow2 (-1000) <= q)%Q →
  (q * (9999 # 10000) <= rndQ q)%Q ∧ (rndQ q <= q * (10001 # 10000))%Q.
Proof.
  intros H. destruct (rnd_rel q H) as [A B]. pose proof (pow2_pos (-1000)).
  assert (pow2 (-52) <= 1 # 10000)%Q as U by discriminate.
  split; [eapply Qle_trans; [|exact A] | eapply Qle_trans; [exact B|]];
    rewrite !(Qmult_comm q); apply Qmult_le_compat_r; lra.
Qed.

Lemma one_small : (pow2 (-1000) <= 1 # 1000)%Q.
Proof. discriminate. Qed.

Section Rank.
Variables (total : Z) (a : Q).
Hypothesis Ht : 0 < total.
Hypothesis Ha : (1 <= a)%Q ∧ (a <= 9995 # 100)%Q.

Lemma total_ge_1 : (1 <= inject_Z total)%Q.
Proof. change 1%Q with (inject_Z 1). rewrite <- Zle_Qle. lia. Qed.

Lemma rank_flt_steps :
  let T := inject_Z total in let x := rndQ T in let y := rndQ (x * a) in
  (T * (9999 # 10000) <= x)%Q ∧ (x <= T * (10001 # 10000))%Q ∧
  (x * a * (9999 # 10000) <= y)%Q ∧ (y <= x * a * (10001 # 10000))%Q ∧
  (y / 100 * (9999 # 10000) <= rank_flt total a)%Q ∧
  (rank_flt total a <= y / 100 * (10001 # 10000))%Q.
Proof.
  pose proof total_ge_1 as T1. pose proof one_small as S. cbn zeta.
  destruct (rnd_near (inject_Z total)) as [A B]; [lra|]. split; [done|]. split; [done|].
  assert (9 # 10 <= rndQ (inject_Z total))%Q as X by lra.
  assert (9 # 10 <= rndQ (inject_Z total) * a)%Q as XA by nra.
  destruct (rnd_near (rndQ (inject_Z total) * a)) as [C D]; [lra|]. split; [done|]. split; [done|].
  apply rnd_near. unfold Qdiv. change (/ 100)%Q with (1 # 100). lra.
Qed.

Lemma rank_flt_pos : (0 < rank_flt total a)%Q.
Proof.
  destruct rank_flt_steps as (A & B & C & D & E & F). pose proof total_ge_1.
  eapply Qlt_le_trans; [|exact E]. unfold Qdiv. change (/ 100)%Q with (1 # 100).
  assert (1 # 2 <= rndQ (inject_Z total))%Q as X by lra. nra.
Qed.

Lemma rank_flt_le_total : (rank_flt total a <= inject_Z total)%Q.
Proof.
  destruct rank_flt_steps as (A & B & C & D & E & F). pose proof total_ge_1.
  eapply Qle_trans; [exact F|]. unfold Qdiv. change (/ 100)%Q with (1 # 100).
  assert (0 <= rndQ (inject_Z total))%Q as X by lra.
  assert (rndQ (inject_Z total) * a <= rndQ (inject_Z total) * (9995 # 100))%Q as XA.
  { rewrite !(Qmult_comm (rndQ _)). apply Qmult_le_compat_r; lra. }
  lra.
Qed.
End Rank.

Lemma rank_flt_mono total a b : 0 < total → (a <= b)%Q → (rank_flt total a <= rank_flt total b)%Q.
Proof.
  intros Ht H. unfold rank_flt, Qdiv. apply rnd_mono. apply Qmult_le_compat_r; [|discriminate].
  apply rnd_mono. rewrite !(Qmult_comm (rndQ _)). apply Qmult_le_compat_r; [done|].
  apply rndQ_nonneg. change 0%Q with (inject_Z 0). rewrite <- Zle_Qle. lia.
Qed.

Lemma rank_int_mono total p p' : 0 < total → p <= p' → (rank_int total p <= rank_int total p')%Q.
Proof.
  intros Ht H. unfold rank_int, Qdiv. apply rnd_mono, Qmult_le_compat_r; [|discriminate].
  apply rnd_mono. rewrite <- Zle_Qle. nia.
Qed.

Lemma rank_int_flt total p a :
  0 < total → 0 < p → (inject_Z p * (1001 # 1000) <= a)%Q → (rank_int total p <= rank_flt total a)%Q.
Proof.
  intros Ht Hp H. unfold rank_int, rank_flt, Qdiv. apply rnd_mono, Qmult_le_compat_r; [|discriminate].
  apply rnd_mono. rewrite inject_Z_mult. pose proof (total_ge_1 total Ht). pose proof one_small.
  destruct (rnd_near (inject_Z total)) as [A _]; [lra|].
  assert (0 <= inject_Z p)%Q by (change 0%Q with (inject_Z 0); rewrite <- Zle_Qle; lia).
  apply Qle_trans with (inject_Z total * (9999 # 10000) * (inject_Z p * (1001 # 1000)))%Q; [nra|].
  apply Qmult_le_compat_nonneg; split; nra.
Qed.

(** The float nearest to 99.9. *)
Lemma isf_99_9 : ∃ a, isf (of_Q (999 # 10)) a ∧ (998 # 10 <= a)%Q ∧ (a <= 9991 # 100)%Q.
Proof.
  exists (rndQ (999 # 10)). split; [apply isf_of_Q; reflexivity|].
  split; apply Qle_bool_iff; vm_compute; reflexivity.
Qed.

Lemma target_flt total x a :
  0 < total < 2 ^ 1000 → isf x a → (1 <= a)%Q → (a <= 9995 # 100)%Q →
  ∃ target, (t ← nmul (PInt total) (PFlt x); ndiv t (lit 100)) = Ok target ∧
            isf target (rank_flt total a).
Proof.
  intros Ht Hx H1 H2. destruct (isf_Z total) as (f & Ef & Hf); [lia|].
  destruct (rank_flt_steps total a ltac:(lia) (conj H1 H2)) as (A & B & C & D & E & F).
  pose proof (total_ge_1 total ltac:(lia)) as T1.
  assert (inject_Z total < pow2 1000)%Q as Tu by (rewrite pow2_Z, <- Zlt_Qlt by lia; lia).
  assert (pow2 1023 == 8388608 * pow2 1000)%Q as E23 by reflexivity.
  assert (0 < rndQ (inject_Z total))%Q as X0 by lra.
  assert (rndQ (inject_Z total) * a <= rndQ (inject_Z total) * (9995 # 100))%Q as XA.
  { rewrite !(Qmult_comm (rndQ _)). apply Qmult_le_compat_r; lra. }
  assert (0 <= rndQ (inject_Z total) * a)%Q as XA0 by nra.
  destruct (div_100_isf (fmul f x) (rndQ (rndQ (inject_Z total) * a))) as [_ T].
  - apply isf_mul; [done..|]. apply Qabs_pos_lt; [done|]. lra.
  - apply rndQ_nonneg. lra.
  - lra.
  - exists (fdiv (fmul f x) (of_Q 100)). split; [|exact T].
    unfold nmul, arith, ndiv, lit, to_float. cbn. rewrite Ef. done.
Qed.

Lemma percentile_flt raw x a :
  counts_ok raw → 0 < total_count raw < 2 ^ 1000 → isf x a → (1 <= a)%Q → (a <= 9995 # 100)%Q →
  ∃ v, percentile (sorted raw) (total_count raw) (PFlt x) = Ok v ∧
       at_rank raw (rank_flt (total_count raw) a) v.
Proof.
  intros Hc Ht Hx H1 H2. destruct (target_flt _ x a Ht Hx H1 H2) as (target & E & T).
  eapply percentile_rank; [done|lia|exact E|exact T|apply rank_flt_pos; [lia|done]|].
  apply rank_flt_le_total; [lia|done].
Qed.

(** Integer percentages for totals past the exact range. *)
Lemma percentile_int_large raw p :
  counts_ok raw → 0 < total_count raw < 2 ^ 1000 → 0 < p <= 99 →
  ∃ v, percentile (sorted raw) (total_count raw) (PInt p) = Ok v ∧
       at_rank raw (rank_int (total_count raw) p) v.
Proof.
  intros Hc Ht Hp. destruct (target_int (total_count raw) p) as (target & E & T); [nia|].
  eapply percentile_rank; [done|lia|exact E|exact T|..].
  - apply Qlt_le_trans with (rank_int (total_count raw) 1); [|apply rank_int_mono; lia].
    unfold rank_int. rewrite Z.mul_1_r. pose proof (total_ge_1 (total_count raw) ltac:(lia)).
    pose proof one_small. destruct (rnd_near (inject_Z (total_count raw))) as [A _]; [lra|].
    destruct (rnd_near (rndQ (inject_Z (total_count raw)) / 100)) as [B _];
      unfold Qdiv in *; change (/ 100)%Q with (1 # 100) in *; lra.
  - apply Qle_trans with (rank_flt (total_count raw) (9991 # 100)).
    + apply rank_int_flt; [lia..|]. apply Qle_trans with (99 * (1001 # 1000))%Q; [|discriminate].
      apply Qmult_le_compat_r; [|discriminate]. change 99%Q with (inject_Z 99).
      rewrite <- Zle_Qle. lia.
    + apply rank_flt_le_total; [lia|]. split; discriminate.
Qed.

(** The last bucket of a sorted histogram holds its largest value. *)
Lemma last_is_max bs v c :
  StronglySorted bucket_le bs → last bs = Some (v, c) → Forall (λ b, b.1 <= v) bs.
Proof.
  intros Hs Hl. apply last_Some in Hl as [l ->]. apply Forall_app. split; [|by repeat constructor].
  apply Forall_forall. intros b Hb.
  apply (StronglySorted_app_1_elem_of _ _ _ b (v, c) Hs) in Hb; [|by left].
  unfold bucket_le in Hb. cbn in Hb. lia.
Qed.

Lemma last_sorted raw : 0 < total_count raw → ∃ v c, last (sorted raw) = Some (v, c).
Proof.
  intros H. destruct (last (sorted raw)) as [[v c]|] eqn:E; [by eexists _, _|].
  apply last_None in E. pose proof (sorted_perm raw) as P. rewrite E in P.
  apply Permutation_nil_l in P. subst raw. done.
Qed.

(** *** Unions of histograms *)

Lemma cum_concat cs v : cum (concat cs) v = zsum ((λ c, cum c v) <$> cs).
Proof. induction cs as [|c cs IH]; [done|]. cbn [concat]. rewrite cum_app, IH. done. Qed.

Lemma total_concat cs : total_count (concat cs) = zsum (total_count <$> cs).
Proof. induction cs as [|c cs IH]; [done|]. cbn [concat]. rewrite total_app, IH. done. Qed.

Lemma counts_concat cs : Forall counts_ok cs → counts_ok (concat cs).
Proof. induction 1; cbn; [constructor|]. by apply Forall_app. Qed.

Lemma total_le_concat cs c : Forall counts_ok cs → c ∈ cs → total_count c <= total_count (concat cs).
Proof.
  intros H. induction H as [|d cs Hd Hcs IH]; [set_solver|]. cbn [concat]. rewrite total_app.
  pose proof (total_nonneg _ Hd). pose proof (total_nonneg _ (counts_concat _ Hcs)).
  intros [->|Hin]%elem_of_cons; [lia|]. specialize (IH Hin). lia.
Qed.

(** Comparing a sum over clients term by term. *)
Lemma zsum_fmap_le {A} (f g : A → Z) l : Forall (λ x, f x <= g x) l → zsum (f <$> l) <= zsum (g <$> l).
Proof. induction 1; unfold zsum in *; cbn; lia. Qed.

Lemma zsum_fmap_scale {A} (k : Z) (f : A → Z) l : k * zsum (f <$> l) = zsum ((λ x, k * f x) <$> l).
Proof. induction l; unfold zsum in *; cbn; lia. Qed.

(** A value below every client's percentile has not reached the union's. *)
Lemma union_below cs p v :
  cs ≠ [] → Forall (λ c, ∃ vi, pct_value c p vi ∧ v < vi) cs →
  100 * cum (concat cs) v < p * total_count (concat cs).
Proof.
  intros Hne H. destruct H as [|c cs (vi & [_ B] & L) H]; [done|]. clear Hne. cbn [concat].
  rewrite cum_app, total_app. specialize (B v L).
  assert (100 * cum (concat cs) v <= p * total_count (concat cs)); [|lia].
  rewrite cum_concat, total_concat, !zsum_fmap_scale. apply zsum_fmap_le.
  eapply Forall_impl; [exact H|]. intros d (vj & [_ B'] & L'). specialize (B' v L'). lia.
Qed.

(** A value at or above every client's percentile has reached the union's. *)
Lemma union_above cs p v :
  Forall (λ c, counts_ok c ∧ ∃ vi, pct_value c p vi ∧ vi <= v) cs →
  p * total_count (concat cs) <= 100 * cum (concat cs) v.
Proof.
  intros H. rewrite cum_concat, total_concat, !zsum_fmap_scale. apply zsum_fmap_le.
  eapply Forall_impl; [exact H|]. intros c (Hc & vi & [A _] & L).
  pose proof (cum_mono c vi v Hc L). lia.
Qed.

(** *** The script, file by file *)

(** What one file contributes: its buckets and its row of the table. *)
Definition file_row (fs : gmap string string) (path : string) : result (list bucket * string) :=
  text ← require (FileNotFoundError path) (fs !! path);
  bs ← load_lines (text_lines text);
  let '(buckets, total) := summarise bs in
  p50 ← percentile buckets total (PInt 50);
  p99 ← percentile buckets total (PInt 99);
  Ok (buckets, table_row (after_slash path) total p50 p99).

Definition with_out (w : world) (l : list string) : world := World (files w) (out w ++ l) (err w).

Lemma main_files_cons path paths acc w :
  main_files (path :: paths) acc w =
  match file_row (files w) path with
  | Ok (bs, row) => main_files paths (acc ++ bs) (with_out w [row])
  | Err e => (Err e, w)
  end.
Proof.
  cbn [main_files]. unfold load, read_file, lift, file_row, mbind, M_bind, result_bind.
  destruct (files w !! path) as [text|]; cbn [require]; [|done].
  destruct (load_lines (text_lines text)) as [bs|]; [|done].
  destruct (summarise bs) as [buckets total].
  destruct (percentile buckets total (PInt 50)); [|done].
  destruct (percentile buckets total (PInt 99)); done.
Qed.

Lemma main_files_Ok paths acc w rs :
  mapR (file_row (files w)) paths = Ok rs →
  main_files paths acc w = (Ok (acc ++ concat rs.*1), with_out w rs.*2).
Proof.
  revert acc w rs. induction paths as [|path paths IH]; intros acc w rs H.
  - cbn in H. inv_ok. unfold with_out. destruct w. cbn. by rewrite !app_nil_r.
  - rewrite main_files_cons. cbn in H. apply bind_Ok in H as ([bs row] & -> & H).
    apply bind_Ok in H as (rs' & E & H). inv_ok. rewrite (IH _ _ rs') by done.
    unfold with_out. cbn. by rewrite <- !app_assoc.
Qed.

Lemma main_files_Err paths acc w e :
  mapR (file_row (files w)) paths = Err e → (main_files paths acc w).1 = Err e.
Proof.
  revert acc w. induction paths as [|path paths IH]; intros acc w H; [done|].
  rewrite main_files_cons. cbn in H. destruct (file_row (files w) path) as [[bs row]|]; cbn in H.
  - apply IH. cbn. by destruct (mapR _ paths).
  - by injection H as ->.
Qed.

Lemma report_prints n merged : only_prints (report n merged).
Proof.
  unfold report, report_pcts. destruct (summarise merged) as [bs total].
  destruct (total =? 0); eauto 30 with py.
Qed.

Lemma report_perm n m m' : m ≡ₚ m' → report n m = report n m'.
Proof.
  intros P. unfold report. by rewrite !summarise_eq, (sorted_unique _ _ P), (total_perm _ _ P).
Qed.

Definition header_row : string :=
  ljust 44 "file" +:+ rjust 12 "count" +:+ rjust 9 "p50" +:+ rjust 10 "p99".

(** A run of [main] on files that all load: the header, one row per file,
    then the report on the union. *)
Lemma main_run paths w rs :
  paths ≠ [] → mapR (file_row (files w)) paths = Ok rs →
  main paths w = report (length paths) (concat rs.*1) (with_out w (header_row :: rs.*2)).
Proof.
  intros Hne H. destruct paths as [|path paths]; [done|]. unfold main.
  rewrite (M_bind_Ok _ _ w tt (with_out w [header_row])) by done.
  rewrite (M_bind_Ok _ _ _ _ _ (main_files_Ok (path :: paths) [] (with_out w [header_row]) rs H)).
  f_equal. unfold with_out. cbn. by rewrite <- app_assoc.
Qed.

Lemma main_Ok_inv paths w code w1 :
  paths ≠ [] → main paths w = (Ok code, w1) → ∃ rs, mapR (file_row (files w)) paths = Ok rs.
Proof.
  intros Hne H. destruct (mapR (file_row (files w)) paths) as [rs|e] eqn:E; [by exists rs|].
  destruct paths as [|path paths]; [done|]. unfold main in H.
  rewrite (M_bind_Ok _ _ w tt (with_out w [header_row])) in H by done.
  pose proof (main_files_Err (path :: paths) [] (with_out w [header_row]) e E) as F.
  destruct (main_files _ _ _) as [r w'] eqn:E' in F. cbn in F. subst r.
  rewrite (M_bind_Err _ _ _ _ _ E') in H. done.
Qed.

(** [percentile] returns on every histogram a run of the script can build. *)
Lemma percentile_int_total raw p :
  counts_ok raw → total_count raw < 2 ^ 1000 → 0 < p <= 99 →
  ∃ v, percentile (sorted raw) (total_count raw) (PInt p) = Ok v.
Proof.
  intros Hc Ht Hp. pose proof (total_nonneg raw Hc).
  destruct (Z.eq_dec (total_count raw) 0) as [E|].
  - exists 0. unfold percentile. by rewrite E.
  - destruct (percentile_int_large raw p) as (v & E & _); [done|lia|done|]. by exists v.
Qed.

Lemma file_row_Ok fs path text bs :
  fs !! path = Some text → load_lines (text_lines text) = Ok bs →
  counts_ok bs → total_count bs < 2 ^ 1000 →
  ∃ row, file_row fs path = Ok (sorted bs, row).
Proof.
  intros Hf Hl Hc Ht. unfold file_row. rewrite Hf. cbn [require mbind result_bind]. rewrite Hl.
  cbn [mbind result_bind]. rewrite summarise_eq.
  destruct (percentile_int_total bs 50 Hc Ht) as (p50 & ->); [lia|].
  destruct (percentile_int_total bs 99 Hc Ht) as (p99 & ->); [lia|]. by eexists.
Qed.

(** The report on a non-empty union ends with status 0. *)
Lemma report_Ok n merged :
  counts_ok merged → 0 < total_count merged < 2 ^ 1000 → ∃ l e, says (report n merged) (Ok 0) l e.
Proof.
  intros Hc Ht. unfold report. rewrite summarise_eq.
  destruct (Z.eqb_spec (total_count merged) 0) as [|_]; [lia|].
  destruct (percentile_int_total merged 50 Hc) as (p50 & ->); [lia..|].
  destruct (percentile_int_total merged 90 Hc) as (p90 & ->); [lia..|].
  destruct (percentile_int_total merged 99 Hc) as (p99 & ->); [lia..|].
  destruct isf_99_9 as (a & Ha & L & U).
  destruct (percentile_flt merged _ a Hc Ht Ha) as (p999 & E999 & _); [lra..|].
  assert (∀ z, 1 <= z <= 99 → ∃ v,
    percentile (sorted merged) (total_count merged) (PFlt (of_Q (inject_Z z))) = Ok v) as P.
  { intros z Hz. destruct (percentile_flt merged (of_Q (inject_Z z)) (inject_Z z) Hc Ht)
      as (v & E & _); [| | |by exists v].
    - rewrite <- (rnd_Z z) at 2 by lia. apply isf_of_Q, small_lt_pow.
      change (Qabs (inject_Z z)) with (inject_Z (Z.abs z)). rewrite <- Zle_Qle. lia.
    - change 1%Q with (inject_Z 1). rewrite <- Zle_Qle. lia.
    - apply Qle_trans with (inject_Z 99); [rewrite <- Zle_Qle; lia|discriminate]. }
  destruct (P 50 ltac:(lia)) as (q50 & E50), (P 90 ltac:(lia)) as (q90 & E90),
    (P 99 ltac:(lia)) as (q99 & E99).
  destruct (last_sorted merged) as (mx & c & El); [lia|].
  unfold report_pcts, pct_99_9, lit. cbn [mapM_].
  change 50%Q with (inject_Z 50). change 90%Q with (inject_Z 90). change 99%Q with (inject_Z 99).
  rewrite E50, E90, E99, E999, El. cbn [require fmap result_fmap].
  do 2 eexists. prints.
Qed.

(** ** Theorems *)

(** C2 On a histogram with non-negative counts, [percentile] returns the
    lowest recorded value whose cumulative count reaches [p] percent of the
    total, exactly, although the rank is computed in floating point: the
    rounding never moves the result while total * p is at most 2^52. *)
Theorem percentile_exact raw p :
  counts_ok raw → 0 < total_count raw → 0 < p <= 100 → total_count raw * p <= 2 ^ 52 →
  ∃ v, percentile (summarise raw).1 (summarise raw).2 (PInt p) = Ok v ∧ v ∈ raw.*1 ∧
       p * total_count raw <= 100 * cum raw v ∧
       ∀ v', v' < v → 100 * cum raw v' < p * total_count raw.
Proof.
  intros Hc Ht Hp Hb. rewrite summarise_eq. destruct (percentile_int raw p Hc Ht Hp Hb) as (v & E & R).
  exists v. split; [exact E|]. split; [by eapply pct_value_elem|exact R].
Qed.

Lemma percentile_exact_witness :
  percentile [(100, 5); (200, 3); (300, 2)] 10 (PInt 90) = Ok 300 ∧
  ∃ v, percentile (summarise [(300, 2); (100, 5); (200, 3)]).1
                  (summarise [(300, 2); (100, 5); (200, 3)]).2 (PInt 90) = Ok v ∧
       v ∈ [(300, 2); (100, 5); (200, 3)].*1 ∧
       90 * 10 <= 100 * cum [(300, 2); (100, 5); (200, 3)] v ∧
       ∀ v', v' < v → 100 * cum [(300, 2); (100, 5); (200, 3)] v' < 90 * 10.
Proof.
  split; [reflexivity|]. apply (percentile_exact [(300, 2); (100, 5); (200, 3)] 90).
  - repeat constructor; cbn; lia.
  - reflexivity.
  - lia.
  - cbv; discriminate.
Defined.

(** C14 The percentiles the report prints are ordered, p50 <= p90 <= p99 <=
    p99.9 <= max, and every one of them is computed without an exception, for
    any histogram with non-negative counts and fewer than 2^1000 samples. *)
Theorem percentiles_ordered raw :
  counts_ok raw → 0 < total_count raw < 2 ^ 1000 →
  let '(bs, total) := summarise raw in
  ∃ p50 p90 p99 p999 mx c,
    percentile bs total (PInt 50) = Ok p50 ∧ percentile bs total (PInt 90) = Ok p90 ∧
    percentile bs total (PInt 99) = Ok p99 ∧ percentile bs total pct_99_9 = Ok p999 ∧
    last bs = Some (mx, c) ∧ p50 <= p90 <= p99 ∧ p99 <= p999 <= mx.
Proof.
  intros Hc Ht. rewrite summarise_eq. destruct isf_99_9 as (a & Ha & L & U).
  destruct (percentile_int_large raw 50 Hc Ht) as (p50 & E50 & R50); [lia|].
  destruct (percentile_int_large raw 90 Hc Ht) as (p90 & E90 & R90); [lia|].
  destruct (percentile_int_large raw 99 Hc Ht) as (p99 & E99 & R99); [lia|].
  destruct (percentile_flt raw _ a Hc Ht Ha) as (p999 & E999 & R999); [lra..|].
  destruct (last_sorted raw) as (mx & c & El); [lia|].
  exists p50, p90, p99, p999, mx, c. repeat split; [done..| | | |].
  - eapply at_rank_mono; [|exact R50|exact R90]. apply rank_int_mono; lia.
  - eapply at_rank_mono; [|exact R90|exact R99]. apply rank_int_mono; lia.
  - eapply at_rank_mono; [|exact R99|exact R999]. apply rank_int_flt; [lia..|].
    apply Qle_trans with (998 # 10); [discriminate|done].
  - apply last_is_max in El; [|apply sorted_sorted]. rewrite sorted_perm in El.
    destruct (Z_le_gt_dec p999 mx) as [|C]; [done|]. destruct R999 as [_ R].
    specialize (R mx ltac:(lia)). rewrite cum_all in R by done.
    pose proof (rank_flt_le_total (total_count raw) a ltac:(lia) ltac:(lra)). lra.
Qed.

Lemma percentiles_ordered_witness :
  let '(bs, total) := summarise [(300, 2); (100, 5); (200, 3)] in
  ∃ p50 p90 p99 p999 mx c,
    percentile bs total (PInt 50) = Ok p50 ∧ percentile bs total (PInt 90) = Ok p90 ∧
    percentile bs total (PInt 99) = Ok p99 ∧ percentile bs total pct_99_9 = Ok p999 ∧
    last bs = Some (mx, c) ∧ p50 <= p90 <= p99 ∧ p99 <= p999 <= mx.
Proof.
  apply (percentiles_ordered [(300, 2); (100, 5); (200, 3)]).
  - repeat constructor; cbn; lia.
  - split; [reflexivity|]. change (total_count _) with 10. lia.
Defined.

Lemma percentile_pct_value raw p v :
  counts_ok raw → 0 < total_count raw → 0 < p <= 100 → total_count raw * p <= 2 ^ 52 →
  percentile (summarise raw).1 (summarise raw).2 (PInt p) = Ok v → pct_value raw p v.
Proof.
  intros Hc Ht Hp Hb E. rewrite summarise_eq in E. cbn in E.
  destruct (percentile_int raw p Hc Ht Hp Hb) as (v' & E' & R). congruence.
Qed.

(** What the clients' reported percentiles are. *)
Lemma client_percentiles clients p vs :
  Forall (λ c, counts_ok c ∧ 0 < total_count c) clients →
  0 < p <= 100 → total_count (concat clients) * p <= 2 ^ 52 →
  mapR (λ c, percentile (summarise c).1 (summarise c).2 (PInt p)) clients = Ok vs →
  Forall2 (λ c vi, counts_ok c ∧ pct_value c p vi) clients vs.
Proof.
  intros Hall Hp Hb Hvs%mapR_Ok.
  assert (Forall counts_ok clients) as Hc by (eapply Forall_impl; [exact Hall|]; naive_solver).
  assert (Forall (λ c, (counts_ok c ∧ 0 < total_count c) ∧
                       total_count c <= total_count (concat clients)) clients) as Hall'.
  { rewrite Forall_forall in Hall |- *. intros c Hin. split; [auto|]. by apply total_le_concat. }
  eapply Forall2_impl; [apply (Forall2_and_l _ _ _ _ Hall' Hvs)|].
  intros c vi [[[Cc Ct] Cl] E]. split; [done|]. apply percentile_pct_value; try done. nia.
Qed.

Lemma total_concat_pos clients :
  clients ≠ [] → Forall (λ c, counts_ok c ∧ 0 < total_count c) clients →
  0 < total_count (concat clients).
Proof.
  intros Hne Hall. destruct Hall as [|c cs [_ Hpos] Hcs]; [done|]. cbn [concat].
  rewrite total_app. assert (counts_ok (concat cs)) as Hc.
  { apply counts_concat. eapply Forall_impl; [exact Hcs|]. naive_solver. }
  apply total_nonneg in Hc. lia.
Qed.

(** C7 Merging is sound where averaging is not: the percentile of the union
    of the clients' histograms lies between the smallest and the largest of
    the clients' own percentiles. *)
Theorem merged_between clients p vs v :
  clients ≠ [] → Forall (λ c, counts_ok c ∧ 0 < total_count c) clients →
  0 < p <= 100 → total_count (concat clients) * p <= 2 ^ 52 →
  mapR (λ c, percentile (summarise c).1 (summarise c).2 (PInt p)) clients = Ok vs →
  percentile (summarise (concat clients)).1 (summarise (concat clients)).2 (PInt p) = Ok v →
  Exists (λ lo, lo <= v) vs ∧ Exists (λ hi, v <= hi) vs.
Proof.
  intros Hne Hall Hp Hb Hvs Hv. pose proof (client_percentiles _ _ _ Hall Hp Hb Hvs) as F.
  apply percentile_pct_value in Hv as [Vr Vm];
    [|apply counts_concat; eapply Forall_impl; [exact Hall|]; naive_solver
     |by apply total_concat_pos|done..].
  split; apply dec_stable; intros C; (apply not_Exists_Forall in C; [|intros; apply _]);
    pose proof (Forall2_ex_r _ _ _ _ F C) as K.
  - assert (100 * cum (concat clients) v < p * total_count (concat clients)); [|lia].
    apply union_below; [done|]. eapply Forall_impl; [exact K|].
    intros c (vi & [_ R] & L). cbn in L. exists vi. split; [done|lia].
  - specialize (Vm (v - 1) ltac:(lia)).
    assert (p * total_count (concat clients) <= 100 * cum (concat clients) (v - 1)); [|lia].
    apply union_above. eapply Forall_impl; [exact K|].
    intros c (vi & [Cc R] & L). cbn in L. split; [done|]. exists vi. split; [done|lia].
Qed.

Lemma merged_between_witness :
  let a := [(100, 5); (200, 3)] in let b := [(900, 4)] in
  percentile (summarise (a ++ b)).1 (summarise (a ++ b)).2 (PInt 90) = Ok 900 ∧
  Exists (λ lo, lo <= 900) [200; 900] ∧ Exists (λ hi, 900 <= hi) [200; 900].
Proof.
  split; [reflexivity|].
  apply (merged_between [[(100, 5); (200, 3)]; [(900, 4)]] 90 [200; 900] 900).
  - discriminate.
  - repeat constructor; cbn; lia.
  - lia.
  - cbv; discriminate.
  - reflexivity.
  - reflexivity.
Defined.

(** C15 The report does not depend on the order in which the files are named:
    permuting the arguments permutes the per-file rows and changes no other
    line, and the exit status is the same. *)
Theorem main_order_independent paths paths' w code w1 :
  paths ≡ₚ paths' → main paths w = (Ok code, w1) →
  ∃ w2 hdr rows rows' tail,
    main paths' w = (Ok code, w2) ∧ rows ≡ₚ rows' ∧ length rows = length paths ∧
    out w1 = out w ++ hdr ++ rows ++ tail ∧ out w2 = out w ++ hdr ++ rows' ++ tail ∧
    err w2 = err w1 ∧ files w1 = files w ∧ files w2 = files w.
Proof.
  intros P H. destruct (decide (paths = [])) as [->|Hne].
  { apply Permutation_nil in P. subst paths'. injection H as <- <-.
    eexists _, [], [], [], []. repeat split; cbn; by rewrite ?app_nil_r. }
  assert (paths' ≠ []) as Hne' by (intros ->; by apply Hne, Permutation_nil_r).
  destruct (main_Ok_inv _ _ _ _ Hne H) as (rs & E). rewrite (main_run _ _ _ Hne E) in H.
  destruct (mapR_perm _ _ _ _ P E) as (rs' & E' & Q).
  destruct (report_prints (length paths) (concat rs.*1)) as (r & l & e & S).
  rewrite S in H. injection H as -> <-.
  rewrite (main_run _ _ _ Hne' E'), <- (Permutation_length P).
  rewrite (report_perm _ (concat rs'.*1) (concat rs.*1)) by by rewrite Q.
  rewrite S. eexists _, [header_row], rs.*2, rs'.*2, l. split; [done|]. split; [by rewrite Q|].
  split. { apply mapR_Ok, Forall2_length in E. by rewrite length_fmap. }
  repeat split; cbn; by rewrite <- !app_assoc.
Qed.

(** C16 Merging one file reproduces that client's own numbers: its row and the
    merged row carry the same count, p50 and p99. *)
Theorem single_file_reproduces path w w1 :
  main [path] w = (Ok 0, w1) →
  ∃ total p50 p99,
    table_row (after_slash path) total p50 p99 ∈ out w1 ∧
    nl +:+ table_row "MERGED (1 clients)" total p50 p99 ∈ out w1.
Proof.
  intros H. assert ([path] ≠ []) as Hne by done.
  destruct (main_Ok_inv _ w _ _ Hne H) as (rs & E). rewrite (main_run _ _ _ Hne E) in H. cbn [mapR] in E.
  apply bind_Ok in E as ([bs row] & E & Ers). cbn in Ers. inv_ok.
  unfold file_row in E. apply bind_Ok in E as (text & Et & E).
  apply bind_Ok in E as (raw & Er & E). rewrite summarise_eq in E.
  apply bind_Ok in E as (p50 & E50 & E). apply bind_Ok in E as (p99 & E99 & E). inv_ok.
  exists (total_count raw), p50, p99. cbn [fmap list_fmap fst snd concat length] in H.
  rewrite app_nil_r in H. unfold report in H. rewrite summarise_eq, sorted_idemp in H.
  rewrite (total_perm _ _ (sorted_perm raw)) in H.
  destruct (total_count raw =? 0); [apply (f_equal fst) in H; discriminate H|]. rewrite E50, E99 in H.
  do 3 step_in H.
  match type of H with ?m ?w' = _ => assert (only_prints m) as (r & l & e & S) end.
  { unfold report_pcts. eauto 30 with py. }
  rewrite S in H. injection H as _ <-. cbn. split; set_solver.
Qed.

(** One line of the load generator's raw output. *)
Definition raw_line (b : bucket) : string := str_Z b.1 +:+ "," +:+ str_Z b.2.

Lemma parse_raw_line b : parse_line (raw_line b) = Ok b.
Proof.
  unfold parse_line, raw_line. change ("," +:+ str_Z b.2) with (String ","%char (str_Z b.2)).
  rewrite split_on_app by by apply str_Z_no_char.
  rewrite split_on_clean by by apply str_Z_no_char. rewrite !int_of_str_str_Z. by destruct b.
Qed.

Lemma raw_line_chars b : all_chars (λ c, is_int_char c || Ascii.eqb c ","%char) (raw_line b) = true.
Proof.
  unfold raw_line. rewrite !all_chars_app. cbn.
  assert (∀ z, all_chars (λ c, is_int_char c || Ascii.eqb c ","%char) (str_Z z) = true) as ->.
  { intros z. eapply all_chars_impl; [|apply str_Z_chars]. intros c Hc. by rewrite Hc. }
  rewrite andb_true_r. eapply all_chars_impl; [|apply str_Z_chars]. intros c Hc. by rewrite Hc.
Qed.

Lemma raw_line_strip b : strip (raw_line b) = raw_line b.
Proof.
  apply strip_clean. eapply all_chars_impl; [|apply raw_line_chars]. intros c.
  rewrite orb_true_iff. intros [H| ->%Ascii.eqb_eq]; [|done]. by rewrite int_char_not_space.
Qed.

Lemma raw_line_kept b : is_empty (raw_line b) || startswith "value" (raw_line b) = false.
Proof.
  unfold raw_line. pose proof (str_Z_chars b.1) as C. pose proof (str_Z_nonempty b.1).
  destruct (str_Z b.1) as [|c s]; [done|]. rewrite app_str_cons.
  cbn [is_empty orb startswith]. apply andb_true_iff in C as [C _].
  destruct (Ascii.eqb_spec "v"%char c) as [<-|]; [by vm_compute in C|done].
Qed.

Lemma load_raw_lines bs : load_lines ("value,count" :: (raw_line <$> bs)) = Ok bs.
Proof.
  change (load_lines (raw_line <$> bs) = Ok bs). induction bs as [|b bs IH]; [done|].
  cbn [fmap list_fmap load_lines]. rewrite raw_line_strip, raw_line_kept, parse_raw_line.
  cbn [mbind result_bind]. by rewrite IH.
Qed.

(** C18 Loading is the inverse of the load generator's raw dump: the header
    line is skipped and every [value,count] line comes back as the bucket it
    was printed from. *)
Theorem load_roundtrip path bs w :
  files w !! path = Some (unlines ("value,count" :: (raw_line <$> bs))) →
  load path w = (Ok bs, w).
Proof.
  intros H. unfold load, read_file, lift, mbind, M_bind. rewrite H. cbn [require]. f_equal.
  rewrite text_lines_unlines.
  - apply load_raw_lines.
  - constructor; [done|]. apply Forall_fmap, Forall_true. intros b. cbn. apply andb_true_iff.
    split; (eapply all_chars_impl; [|apply raw_line_chars]); intros c;
      rewrite orb_true_iff; (intros [Hc| ->%Ascii.eqb_eq]; [|done]);
      apply int_char_not_space in Hc; apply negb_true_iff, Ascii.eqb_neq; intros ->; done.
Qed.

(** C17 [main] always finishes on histograms that load: status 0 when the
    files hold at least one sample, 1 when they hold none, and no exception
    in between. *)
Theorem main_status paths bss w :
  paths ≠ [] →
  Forall2 (λ path bs, ∃ text, files w !! path = Some text ∧
                              load_lines (text_lines text) = Ok bs ∧ counts_ok bs) paths bss →
  total_count (concat bss) < 2 ^ 1000 →
  (main paths w).1 = Ok (if total_count (concat bss) =? 0 then 1 else 0).
Proof.
  intros Hne F Ht.
  assert (Forall counts_ok bss) as Hc by (clear -F; induction F; constructor; naive_solver).
  assert (∃ rs, mapR (file_row (files w)) paths = Ok rs ∧ concat rs.*1 ≡ₚ concat bss)
    as (rs & E & P).
  { clear Hne. induction F as [|path bs paths bss (text & Hf & Hl & Hb) F IH]; [by exists []|].
    inversion Hc; subst. cbn [concat] in *. rewrite total_app in Ht.
    pose proof (total_nonneg bs Hb). pose proof (total_nonneg _ (counts_concat bss ltac:(done))).
    destruct (file_row_Ok _ _ _ _ Hf Hl Hb) as (row & Er); [lia|].
    destruct IH as (rs & Ers & P); [lia|done|]. exists ((sorted bs, row) :: rs). split.
    - cbn. rewrite Er. cbn. by rewrite Ers.
    - cbn. by rewrite sorted_perm, P. }
  rewrite (main_run _ _ _ Hne E), (report_perm _ _ _ P).
  pose proof (total_nonneg _ (counts_concat _ Hc)).
  destruct (Z.eqb_spec (total_count (concat bss)) 0) as [Z0|].
  - unfold report. by rewrite summarise_eq, Z0.
  - destruct (report_Ok (length paths) (concat bss)) as (l & e & S); [by apply counts_concat|lia|].
    by rewrite S.
Qed.

(** *** Witnesses *)

(** Two clients, one of them a straggler. *)
Definition example_world : world :=
  World (<["run/client0.csv" := unlines ["value,count"; "100,5"; "200,3"]]>
        (<["client1.csv" := unlines ["value,count"; "900,4"]]> ∅)) [] [].

Lemma main_order_independent_witness :
  let ab := ["run/client0.csv"; "client1.csv"] in
  let ba := ["client1.csv"; "run/client0.csv"] in
  ∃ w2 hdr rows rows' tail,
    main ba example_world = (Ok 0, w2) ∧ rows ≡ₚ rows' ∧ length rows = 2%nat ∧
    out (main ab example_world).2 = [] ++ hdr ++ rows ++ tail ∧
    out w2 = [] ++ hdr ++ rows' ++ tail ∧
    err w2 = err (main ab example_world).2 ∧
    files (main ab example_world).2 = files example_world ∧ files w2 = files example_world.
Proof.
  apply (main_order_independent ["run/client0.csv"; "client1.csv"]
           ["client1.csv"; "run/client0.csv"] example_world 0 _).
  - apply perm_swap.
  - vm_compute. reflexivity.
Defined.

Lemma single_file_reproduces_witness :
  ∃ total p50 p99,
    table_row "client0.csv" total p50 p99 ∈ out (main ["run/client0.csv"] example_world).2 ∧
    nl +:+ table_row "MERGED (1 clients)" total p50 p99
      ∈ out (main ["run/client0.csv"] example_world).2.
Proof.
  apply (single_file_reproduces "run/client0.csv" example_world _). vm_compute. reflexivity.
Defined.

Lemma load_roundtrip_witness :
  load "client1.csv" example_world = (Ok [(900, 4)], example_world).
Proof. apply (load_roundtrip "client1.csv" [(900, 4)]). vm_compute. reflexivity. Defined.

Lemma main_status_witness :
  (main ["run/client0.csv"; "client1.csv"] example_world).1 = Ok 0.
Proof.
  apply (main_status ["run/client0.csv"; "client1.csv"] [[(100, 5); (200, 3)]; [(900, 4)]]).
  - discriminate.
  - repeat constructor; eexists; (split; [vm_compute; reflexivity|]);
      (split; [vm_compute; reflexivity|]); repeat constructor; cbn; lia.
  - change (total_count _) with 12. lia.
Defined.
