(* ===== verification/PyJson.v ===== *)
(** [json.load] and what the plan check does with the values it returns.

    A JSON value is a tree; an object is a dict, so a repeated key keeps its
    first position and its last value; a number keeps its lexeme.  [loads] is
    the decoder: white space, literals ([NaN] and the infinities included),
    numbers, strings with escapes (strict: a raw control character is an
    error), arrays and objects without trailing commas, and nothing but white
    space after the value.  It recurses with fuel; [loads_total] shows that
    the fuel it is given is enough for every text.

    Decoding fails in four ways, which the caller tells apart: the bytes are
    not UTF-8, the text is not JSON, the arrays and objects are nested too
    deep for the interpreter, or an integer has too many digits for it.  The
    last two are settings of the interpreter ([Limits]).

    A text that was decoded is decoded to the same value when it is continued
    ([value_extends]); so a document that was cut short is never taken for a
    complete one ([cut_text]). *)

From Stdlib Require Import Ascii.
From S2P Require Import Prelude PyFloat PyStr.
From Stdlib Require Import QArith.

Open Scope Z_scope.

Inductive json :=
| JNull
| JBool (b : bool)
| JNum (lexeme : string)
| JStr (s : string)
| JList (l : list json)
| JObj (kvs : list (string * json)).

(** Why a document is not decoded, and the exception that says so. *)
Inductive failure :=
| NotUtf8
| NotJson
| TooDeep
| TooLong.

Definition raised (f : failure) : exn :=
  match f with
  | NotUtf8 => UnicodeDecodeError
  | NotJson => JSONDecodeError
  | TooDeep => RecursionError
  | TooLong => ValueError
  end.

(** What the interpreter allows: how many arrays and objects may be open at
    once, and how many digits a decimal integer may have (0: any number). *)
Class Limits := { max_nesting : nat; max_digits : Z }.

(** The outcome of one parsing step on the rest of the text. *)
Inductive parsed (A : Type) :=
| POk (a : A) (rest : string)
| PErr (f : failure)
| PFuel.
Arguments POk {A} a rest.
Arguments PErr {A} f.
Arguments PFuel {A}.

(** ** Lexical level *)

Definition json_space (c : ascii) : bool :=
  let n := code c in (n =? 32) || (n =? 9) || (n =? 10) || (n =? 13).
Definition skip_ws : string → string := lstrip json_space.

Definition backslash : ascii := ascii_of_nat 92.
Definition chr (n : Z) : ascii := ascii_of_nat (Z.to_nat n).

(** Strict UTF-8: no overlong form, no surrogate, nothing above U+10FFFF. *)
Definition between (lo hi : Z) (c : ascii) : bool := (lo <=? code c) && (code c <=? hi).
Definition tail_byte : ascii → bool := between 128 191.

Fixpoint utf8_ok (s : string) : bool :=
  match s with
  | EmptyString => true
  | String a s1 =>
      if code a <? 128 then utf8_ok s1
      else
        match s1 with
        | EmptyString => false
        | String b s2 =>
            if between 194 223 a then tail_byte b && utf8_ok s2
            else
              match s2 with
              | EmptyString => false
              | String c s3 =>
                  if between 224 239 a then
                    between (if code a =? 224 then 160 else 128) (if code a =? 237 then 159 else 191) b
                    && tail_byte c && utf8_ok s3
                  else
                    match s3 with
                    | EmptyString => false
                    | String d s4 =>
                        between 240 244 a
                        && between (if code a =? 240 then 144 else 128) (if code a =? 244 then 143 else 191) b
                        && tail_byte c && tail_byte d && utf8_ok s4
                    end
              end
        end
  end.

(** UTF-8 encoding of a code point; a lone surrogate keeps its three bytes. *)
Definition utf8 (n : Z) : string :=
  if n <? 128 then String (chr n) EmptyString
  else if n <? 2048 then
    String (chr (192 + n / 64)) (String (chr (128 + n mod 64)) EmptyString)
  else if n <? 65536 then
    String (chr (224 + n / 4096))
      (String (chr (128 + (n / 64) mod 64)) (String (chr (128 + n mod 64)) EmptyString))
  else
    String (chr (240 + n / 262144)) (String (chr (128 + (n / 4096) mod 64))
      (String (chr (128 + (n / 64) mod 64)) (String (chr (128 + n mod 64)) EmptyString))).

Definition hex_val (c : ascii) : option Z :=
  let n := code c in
  if (48 <=? n) && (n <=? 57) then Some (n - 48)
  else if (97 <=? n) && (n <=? 102) then Some (n - 87)
  else if (65 <=? n) && (n <=? 70) then Some (n - 55)
  else None.
Definition hex4 (a b c d : ascii) : option Z :=
  x ← hex_val a; y ← hex_val b; z ← hex_val c; t ← hex_val d;
  Some (((x * 16 + y) * 16 + z) * 16 + t).

Definition simple_escape (c : ascii) : option ascii :=
  if Ascii.eqb c dquote then Some dquote
  else if Ascii.eqb c backslash then Some backslash
  else if Ascii.eqb c "/"%char then Some "/"%char
  else if Ascii.eqb c "b"%char then Some (chr 8)
  else if Ascii.eqb c "f"%char then Some (chr 12)
  else if Ascii.eqb c "n"%char then Some newline
  else if Ascii.eqb c "r"%char then Some creturn
  else if Ascii.eqb c "t"%char then Some (chr 9)
  else None.

Definition is_high (n : Z) : bool := (55296 <=? n) && (n <=? 56319).
Definition is_low (n : Z) : bool := (56320 <=? n) && (n <=? 57343).
Definition join_surrogates (h l : Z) : Z := 65536 + (h - 55296) * 1024 + (l - 56320).

Definition prepend (p : string) (r : option (string * string)) : option (string * string) :=
  match r with Some (s, rest) => Some (p +:+ s, rest) | None => None end.

(** The body of a string literal up to its closing quote. *)
Fixpoint scan_string (s : string) : option (string * string) :=
  match s with
  | EmptyString => None
  | String c t =>
      if Ascii.eqb c dquote then Some (EmptyString, t)
      else if Ascii.eqb c backslash then
        match t with
        | EmptyString => None
        | String e t1 =>
            match simple_escape e with
            | Some r => prepend (String r EmptyString) (scan_string t1)
            | None =>
                if Ascii.eqb e "u"%char then
                  match t1 with
                  | String a (String b (String g (String d t2))) =>
                      match hex4 a b g d with
                      | None => None
                      | Some n =>
                          if is_high n then
                            match t2 with
                            | String x (String y (String a' (String b' (String g' (String d' t3))))) =>
                                match (if Ascii.eqb x backslash && Ascii.eqb y "u"%char
                                       then hex4 a' b' g' d' else None) with
                                | Some m =>
                                    if is_low m
                                    then prepend (utf8 (join_surrogates n m)) (scan_string t3)
                                    else prepend (utf8 n) (scan_string t2)
                                | None => prepend (utf8 n) (scan_string t2)
                                end
                            | _ => prepend (utf8 n) (scan_string t2)
                            end
                          else prepend (utf8 n) (scan_string t2)
                      end
                  | _ => None
                  end
                else None
            end
        end
      else if code c <? 32 then None
      else prepend (String c EmptyString) (scan_string t)
  end.

(** The longest prefix of digits. *)
Fixpoint span_digits (s : string) : string * string :=
  match s with
  | String c t => if is_digit c then let '(d, r) := span_digits t in (String c d, r)
                  else (EmptyString, s)
  | EmptyString => (EmptyString, EmptyString)
  end.

(** [.ddd], taken only when a digit follows the point. *)
Definition scan_frac (s : string) : string * string :=
  match s with
  | String c t =>
      if Ascii.eqb c "."%char then
        match span_digits t with
        | (EmptyString, _) => (EmptyString, s)
        | (d, r) => (String c d, r)
        end
      else (EmptyString, s)
  | EmptyString => (EmptyString, s)
  end.

(** [e+dd], taken only when a digit follows. *)
Definition scan_exp (s : string) : string * string :=
  match s with
  | String c t =>
      if Ascii.eqb c "e"%char || Ascii.eqb c "E"%char then
        let '(sg, t') := match t with
                         | String x t2 => if Ascii.eqb x "+"%char || Ascii.eqb x "-"%char
                                          then (String x EmptyString, t2) else (EmptyString, t)
                         | EmptyString => (EmptyString, t)
                         end in
        match span_digits t' with
        | (EmptyString, _) => (EmptyString, s)
        | (d, r) => (String c (sg +:+ d), r)
        end
      else (EmptyString, s)
  | EmptyString => (EmptyString, s)
  end.

Definition scan_int (s : string) : option (string * string) :=
  match s with
  | String c t =>
      if Ascii.eqb c "0"%char then Some (String c EmptyString, t)
      else if is_digit c then Some (span_digits s)
      else None
  | EmptyString => None
  end.

Definition scan_number (s : string) : option (string * string) :=
  let '(sg, body) := match s with
                     | String c t => if Ascii.eqb c "-"%char then (String c EmptyString, t)
                                     else (EmptyString, s)
                     | EmptyString => (EmptyString, s)
                     end in
  match scan_int body with
  | None => None
  | Some (i, r) =>
      let '(f, r) := scan_frac r in
      let '(e, r) := scan_exp r in
      Some (sg +:+ i +:+ f +:+ e, r)
  end.

(** [drop p s]: [s] without its prefix [p], when it has it. *)
Fixpoint drop_prefix (p s : string) : option string :=
  match p, s with
  | EmptyString, _ => Some s
  | String a p, String b s => if Ascii.eqb a b then drop_prefix p s else None
  | _, EmptyString => None
  end.

Definition literal (s : string) : option (json * string) :=
  match drop_prefix "null" s with Some r => Some (JNull, r) | None =>
  match drop_prefix "true" s with Some r => Some (JBool true, r) | None =>
  match drop_prefix "false" s with Some r => Some (JBool false, r) | None =>
  match drop_prefix "NaN" s with Some r => Some (JNum "NaN", r) | None =>
  match drop_prefix "Infinity" s with Some r => Some (JNum "Infinity", r) | None =>
  match drop_prefix "-Infinity" s with Some r => Some (JNum "-Infinity", r) | None => None
  end end end end end end.

Section Decoder.
Context `{Limits}.

(** An integer lexeme, and one with more digits than [int] accepts. *)
Definition unsigned_part (l : string) : string :=
  match l with String c t => if Ascii.eqb c "-"%char then t else l | EmptyString => l end.
Definition too_long (l : string) : bool :=
  all_chars is_digit (unsigned_part l) && negb (max_digits =? 0)
  && (max_digits <? Z.of_nat (String.length (unsigned_part l))).

Definition scalar (s : string) : parsed json :=
  match literal s with
  | Some (v, r) => POk v r
  | None =>
      match scan_number s with
      | Some (l, r) => if too_long l then PErr TooLong else POk (JNum l) r
      | None => PErr NotJson
      end
  end.

(** ** Values *)

Fixpoint value (fuel depth : nat) (s : string) {struct fuel} : parsed json :=
  match fuel with
  | O => PFuel
  | S n =>
      match s with
      | EmptyString => PErr NotJson
      | String c t =>
          if Ascii.eqb c dquote then
            match scan_string t with Some (str, r) => POk (JStr str) r | None => PErr NotJson end
          else if Ascii.eqb c "{"%char then
            match depth with
            | O => PErr TooDeep
            | S depth =>
                match skip_ws t with
                | EmptyString => PErr NotJson
                | String d r => if Ascii.eqb d "}"%char then POk (JObj []) r
                                else members n depth (String d r) []
                end
            end
          else if Ascii.eqb c "["%char then
            match depth with
            | O => PErr TooDeep
            | S depth =>
                match skip_ws t with
                | EmptyString => PErr NotJson
                | String d r => if Ascii.eqb d "]"%char then POk (JList []) r
                                else elements n depth (String d r) []
                end
            end
          else scalar s
      end
  end
with members (fuel depth : nat) (s : string) (acc : list (string * json)) {struct fuel} : parsed json :=
  match fuel with
  | O => PFuel
  | S n =>
      match s with
      | EmptyString => PErr NotJson
      | String c t =>
          if Ascii.eqb c dquote then
            match scan_string t with
            | None => PErr NotJson
            | Some (k, r) =>
                match skip_ws r with
                | EmptyString => PErr NotJson
                | String d r2 =>
                    if Ascii.eqb d ":"%char then
                      match value n depth (skip_ws r2) with
                      | POk v r3 =>
                          match skip_ws r3 with
                          | EmptyString => PErr NotJson
                          | String e r4 =>
                              if Ascii.eqb e "}"%char then POk (JObj (dset acc k v)) r4
                              else if Ascii.eqb e ","%char then members n depth (skip_ws r4) (dset acc k v)
                              else PErr NotJson
                          end
                      | PErr f => PErr f
                      | PFuel => PFuel
                      end
                    else PErr NotJson
                end
            end
          else PErr NotJson
      end
  end
with elements (fuel depth : nat) (s : string) (acc : list json) {struct fuel} : parsed json :=
  match fuel with
  | O => PFuel
  | S n =>
      match value n depth s with
      | POk v r =>
          match skip_ws r with
          | EmptyString => PErr NotJson
          | String e r2 =>
              if Ascii.eqb e "]"%char then POk (JList (acc ++ [v])) r2
              else if Ascii.eqb e ","%char then elements n depth (skip_ws r2) (acc ++ [v])
              else PErr NotJson
          end
      | PErr f => PErr f
      | PFuel => PFuel
      end
  end.

Definition bom : string := String (chr 239) (String (chr 187) (String (chr 191) EmptyString)).

(** [json.loads(s)]. *)
Definition loads (s : string) : parsed json :=
  if startswith bom s then PErr NotJson
  else
    match value (2 * String.length s + 2) max_nesting (skip_ws s) with
    | POk v r => match skip_ws r with EmptyString => POk v EmptyString | _ => PErr NotJson end
    | PErr f => PErr f
    | PFuel => PFuel
    end.

(** [json.load(sys.stdin)]: the bytes are decoded before they are parsed. *)
Definition json_load (stdin : string) : parsed json :=
  if utf8_ok stdin then loads stdin else PErr NotUtf8.
End Decoder.

(** ** The decoder consumes its input and never runs out of fuel *)

Abbreviation len := String.length.

Lemma lstrip_len p s : (len (lstrip p s) <= len s)%nat.
Proof. induction s as [|c s IH]; cbn; [lia|]. destruct (p c); cbn; lia. Qed.

Lemma prepend_inv p o x r : prepend p o = Some (x, r) → ∃ y, o = Some (y, r).
Proof. destruct o as [[y r']|]; cbn; [|done]. intros [= _ ->]. by exists y. Qed.

Lemma scan_string_len s : ∀ x r, scan_string s = Some (x, r) → (len r < len s)%nat.
Proof.
  induction s as [s IHs] using (induction_ltof1 _ len). unfold ltof in IHs. intros x r H.
  assert (∀ t y q, (len t < len s)%nat → scan_string t = Some (y, q) → (len q < len s)%nat) as IH.
  { intros t y q L E. specialize (IHs t L y q E). lia. }
  destruct s as [|c t]; [done|]. cbn [scan_string] in H.
  destruct (Ascii.eqb c dquote); [injection H as _ <-; cbn; lia|].
  assert (∀ t' y q, (len t' < len (String c t))%nat → prepend y (scan_string t') = Some (x, q) →
    (len q < len (String c t))%nat) as K.
  { intros t' y q L E. apply prepend_inv in E as [z E]. by eapply IH. }
  destruct (Ascii.eqb c backslash).
  - destruct t as [|e t1]; [done|]. destruct (simple_escape e); [by eapply K in H; cbn in *; lia|].
    destruct (Ascii.eqb e "u"%char); [|done].
    destruct t1 as [|a [|b [|g [|d t2]]]]; try done. destruct (hex4 a b g d) as [n|]; [|done].
    destruct (is_high n); [|eapply K; [|exact H]; cbn; lia].
    destruct t2 as [|x1 [|x2 [|a' [|b' [|g' [|d' t3]]]]]]; try (eapply K; [|exact H]; cbn; lia).
    destruct (if Ascii.eqb x1 backslash && _ then _ else None) as [m|];
      [destruct (is_low m)|]; (eapply K; [|exact H]; cbn; lia).
  - destruct (code c <? 32); [done|]. eapply K; [|exact H]. cbn. lia.
Qed.

Lemma span_digits_len s : (len (span_digits s).2 <= len s)%nat.
Proof.
  induction s as [|c s IH]; cbn; [lia|]. destruct (is_digit c); cbn; [|lia].
  destruct (span_digits s). cbn in *. lia.
Qed.

Lemma scan_frac_len s : (len (scan_frac s).2 <= len s)%nat.
Proof.
  destruct s as [|c t]; cbn; [lia|]. destruct (Ascii.eqb c "."%char); cbn; [|lia].
  pose proof (span_digits_len t). destruct (span_digits t) as [[|d ds] r]; cbn in *; lia.
Qed.

Lemma scan_exp_len s : (len (scan_exp s).2 <= len s)%nat.
Proof.
  destruct s as [|c t]; cbn; [lia|].
  destruct (Ascii.eqb c "e"%char || Ascii.eqb c "E"%char); cbn; [|lia].
  destruct t as [|x t2]; cbn; [lia|].
  destruct (Ascii.eqb x "+"%char || Ascii.eqb x "-"%char).
  - pose proof (span_digits_len t2). destruct (span_digits t2) as [[|d ds] r]; cbn in *; lia.
  - pose proof (span_digits_len (String x t2)).
    destruct (span_digits (String x t2)) as [[|d ds] r]; cbn in *; lia.
Qed.

Lemma scan_int_len s i r : scan_int s = Some (i, r) → (len r < len s)%nat.
Proof.
  destruct s as [|c t]; cbn; [done|]. destruct (Ascii.eqb c "0"%char); [intros [= _ <-]; lia|].
  destruct (is_digit c) eqn:E; [|done]. pose proof (span_digits_len t).
  destruct (span_digits t). intros [= _ <-]. cbn in *. lia.
Qed.

Lemma scan_number_len s l r : scan_number s = Some (l, r) → (len r < len s)%nat.
Proof.
  unfold scan_number.
  assert (∀ sg body, (len body <= len s)%nat →
    match scan_int body with
    | None => None
    | Some (i, r) => let '(f, r) := scan_frac r in let '(e, r) := scan_exp r in
                     Some (sg +:+ i +:+ f +:+ e, r)
    end = Some (l, r) → (len r < len s)%nat) as K.
  { intros sg body L. destruct (scan_int body) as [[i r1]|] eqn:E; [|done].
    apply scan_int_len in E. pose proof (scan_frac_len r1). destruct (scan_frac r1) as [f r2].
    pose proof (scan_exp_len r2). destruct (scan_exp r2) as [e r3]. intros [= _ <-]. cbn in *. lia. }
  destruct s as [|c t]; [by apply K|]. destruct (Ascii.eqb c "-"%char); apply K; cbn; lia.
Qed.

Lemma drop_prefix_len p s r : drop_prefix p s = Some r → len s = (len p + len r)%nat.
Proof.
  revert s. induction p as [|a p IH]; intros [|b s]; cbn; try done; try (by intros [= <-]).
  destruct (Ascii.eqb a b); [|done]. intros H%IH. lia.
Qed.

Section Total.
Context `{Limits}.

Lemma scalar_len s v r : scalar s = POk v r → (len r < len s)%nat.
Proof.
  unfold scalar, literal. intros H0.
  repeat match goal with
  | K : context [match drop_prefix ?p s with _ => _ end] |- _ => destruct (drop_prefix p s) eqn:?
  end; try (injection H0 as _ <-;
            match goal with E : drop_prefix _ _ = Some _ |- _ => apply drop_prefix_len in E; cbn in E; lia end).
  destruct (scan_number s) as [[l q]|] eqn:E; [|done]. destruct (too_long l); [done|]. injection H0 as _ <-.
  by apply scan_number_len in E.
Qed.

Lemma scalar_no_fuel s : scalar s ≠ PFuel.
Proof.
  unfold scalar. destruct (literal s) as [[v r]|]; [done|].
  destruct (scan_number s) as [[l r]|]; [by destruct (too_long l)|done].
Qed.

(** A step either fails or leaves strictly less text, given enough fuel. *)
Definition consumes {A} (p : parsed A) (s : string) : Prop :=
  match p with POk _ r => (len r < len s)%nat | PErr _ => True | PFuel => False end.

Lemma consumes_weaken {A} (p : parsed A) s t : consumes p s → (len s <= len t)%nat → consumes p t.
Proof. destruct p; cbn; [lia|done..]. Qed.

Lemma skip_ws_len s : (len (skip_ws s) <= len s)%nat.
Proof. apply lstrip_len. Qed.

Section Fuel.
Variable n : nat.
Hypothesis IHv : ∀ d s, (2 * len s + 1 <= n)%nat → consumes (value n d s) s.
Hypothesis IHm : ∀ d s acc, (2 * len s + 1 <= n)%nat → consumes (members n d s acc) s.
Hypothesis IHe : ∀ d s acc, (2 * len s + 2 <= n)%nat → consumes (elements n d s acc) s.

Lemma value_step dp s : (2 * len s + 1 <= S n)%nat → consumes (value (S n) dp s) s.
Proof.
  intros L. destruct s as [|c t]; [done|]. cbn [value]. cbn in L. pose proof (skip_ws_len t).
  destruct (Ascii.eqb c dquote).
  { destruct (scan_string t) as [[x r]|] eqn:E; [|done]. apply scan_string_len in E. cbn. lia. }
  destruct (Ascii.eqb c "{"%char).
  { destruct dp as [|dp]; [done|]. destruct (skip_ws t) as [|d r]; [done|]. cbn in *. destruct (Ascii.eqb d "}"%char); [cbn; lia|].
    eapply consumes_weaken; [apply IHm; cbn; lia|cbn; lia]. }
  destruct (Ascii.eqb c "["%char).
  { destruct dp as [|dp]; [done|]. destruct (skip_ws t) as [|d r]; [done|]. cbn in *. destruct (Ascii.eqb d "]"%char); [cbn; lia|].
    eapply consumes_weaken; [apply IHe; cbn; lia|cbn; lia]. }
  destruct (scalar (String c t)) eqn:E; [|done|by apply scalar_no_fuel in E].
  by apply scalar_len in E.
Qed.

Lemma members_step dp s acc : (2 * len s + 1 <= S n)%nat → consumes (members (S n) dp s acc) s.
Proof.
  intros L. destruct s as [|c t]; [done|]. cbn [members]. cbn in L.
  destruct (Ascii.eqb c dquote); [|done].
  destruct (scan_string t) as [[k r]|] eqn:E; [|done]. apply scan_string_len in E.
  pose proof (skip_ws_len r). destruct (skip_ws r) as [|d r2]; [done|].
  destruct (Ascii.eqb d ":"%char); [|done]. pose proof (skip_ws_len r2). cbn in *.
  pose proof (IHv dp (skip_ws r2) ltac:(lia)) as C.
  destruct (value n dp (skip_ws r2)) as [v r3| |]; cbn in C; try done.
  pose proof (skip_ws_len r3). destruct (skip_ws r3) as [|e r4]; [done|]. cbn in *.
  destruct (Ascii.eqb e "}"%char); [cbn; lia|]. destruct (Ascii.eqb e ","%char); [|done].
  pose proof (skip_ws_len r4). eapply consumes_weaken; [apply IHm; lia|cbn; lia].
Qed.

Lemma elements_step dp s acc : (2 * len s + 2 <= S n)%nat → consumes (elements (S n) dp s acc) s.
Proof.
  intros L. cbn [elements]. pose proof (IHv dp s ltac:(lia)) as C.
  destruct (value n dp s) as [v r| |]; cbn in C; try done.
  pose proof (skip_ws_len r). destruct (skip_ws r) as [|e r2]; [done|]. cbn in *.
  destruct (Ascii.eqb e "]"%char); [cbn; lia|]. destruct (Ascii.eqb e ","%char); [|done].
  pose proof (skip_ws_len r2). eapply consumes_weaken; [apply IHe; lia|lia].
Qed.
End Fuel.

Lemma parse_consumes n :
  (∀ d s, (2 * len s + 1 <= n)%nat → consumes (value n d s) s) ∧
  (∀ d s acc, (2 * len s + 1 <= n)%nat → consumes (members n d s acc) s) ∧
  (∀ d s acc, (2 * len s + 2 <= n)%nat → consumes (elements n d s acc) s).
Proof.
  induction n as [|n (Hv & Hm & He)]; [repeat split; intros; lia|].
  split; [|split]; intros; [apply value_step|apply members_step|apply elements_step]; done.
Qed.

(** The decoder ends on every text with a value or a decoding error. *)
Lemma loads_total s : loads s ≠ PFuel.
Proof.
  unfold loads. destruct (startswith bom s); [done|].
  pose proof (proj1 (parse_consumes (2 * len s + 2)) max_nesting (skip_ws s)) as Hc.
  pose proof (skip_ws_len s). specialize (Hc ltac:(lia)).
  destruct (value _ _) as [v r| |]; [|done|by destruct Hc]. by destruct (skip_ws r).
Qed.
End Total.

(** ** A decoded text may be continued *)

Lemma lstrip_cut p s t c q : lstrip p s = String c q → lstrip p (s +:+ t) = String c (q +:+ t).
Proof.
  induction s as [|b s IH]; [done|]. rewrite app_str_cons. cbn. destruct (p b); [exact IH|]. by intros [= -> ->].
Qed.

Lemma lstrip_blank p s t : lstrip p s = EmptyString → lstrip p (s +:+ t) = lstrip p t.
Proof. induction s as [|b s IH]; [done|]. rewrite app_str_cons. cbn. by destruct (p b). Qed.

(** A rest that a longer text could turn into more of a number. *)
Definition opens (p : ascii → bool) (r : string) : bool :=
  match r with EmptyString => true | String c _ => p c end.
Definition is_point (c : ascii) : bool := Ascii.eqb c "."%char.
Definition is_exp (c : ascii) : bool := Ascii.eqb c "e"%char || Ascii.eqb c "E"%char.
Definition dangling (r : string) : bool := opens (λ c, is_point c || is_exp c) r.

Lemma space_not_dangling c r : json_space c = true → dangling (String c r) = false.
Proof. destruct c as [[] [] [] [] [] [] [] []]; vm_compute; congruence. Qed.

(** What is left before a delimiter. *)
Lemma dangling_delimiter r c q : skip_ws r = String c q → dangling (String c q) = false → dangling r = false.
Proof.
  destruct r as [|b r]; [done|]. unfold skip_ws. cbn [lstrip].
  destruct (json_space b) eqn:E; [|by intros [= -> ->]]. intros _ _. by apply space_not_dangling.
Qed.

(** The second half of a surrogate pair, when it follows. *)
Definition low_escape (q : string) : option (Z * string) :=
  match q with
  | String x (String y (String a (String b (String g (String d r))))) =>
      match (if Ascii.eqb x backslash && Ascii.eqb y "u"%char then hex4 a b g d else None) with
      | Some m => if is_low m then Some (m, r) else None
      | None => None
      end
  | _ => None
  end.

Lemma low_escape_len q m r : low_escape q = Some (m, r) → (len r < len q)%nat.
Proof.
  destruct q as [|x [|y [|a [|b [|g [|d q]]]]]]; cbn; try done.
  destruct (if _ && _ then _ else None) as [z|]; [|done]. destruct (is_low z); [|done].
  intros [= _ <-]. lia.
Qed.

(** The two ways to go on after a high surrogate. *)
Lemma high_surrogate n q :
  match q with
  | String x (String y (String a' (String b' (String g' (String d' t3))))) =>
      match (if Ascii.eqb x backslash && Ascii.eqb y "u"%char then hex4 a' b' g' d' else None) with
      | Some m => if is_low m then prepend (utf8 (join_surrogates n m)) (scan_string t3)
                  else prepend (utf8 n) (scan_string q)
      | None => prepend (utf8 n) (scan_string q)
      end
  | _ => prepend (utf8 n) (scan_string q)
  end
  = match low_escape q with
    | Some (m, r) => prepend (utf8 (join_surrogates n m)) (scan_string r)
    | None => prepend (utf8 n) (scan_string q)
    end.
Proof.
  destruct q as [|x [|y [|a [|b [|g [|d q]]]]]]; try reflexivity. unfold low_escape.
  destruct (if _ && _ then _ else None) as [m|]; [|reflexivity]. by destruct (is_low m).
Qed.

Lemma low_escape_extends t q m r : low_escape q = Some (m, r) → low_escape (q +:+ t) = Some (m, r +:+ t).
Proof.
  destruct q as [|x [|y [|a [|b [|g [|d q]]]]]]; try done. rewrite !app_str_cons. unfold low_escape.
  destruct (if _ && _ then _ else None) as [z|]; [|done]. destruct (is_low z); [|done].
  by intros [= <- <-].
Qed.

Lemma low_escape_none t q v : low_escape q = None → scan_string q = Some v → low_escape (q +:+ t) = None.
Proof.
  intros E S. destruct q as [|x q]; [done|]. rewrite app_str_cons. destruct (Ascii.eqb_spec x backslash) as [->|Hx].
  2:{ unfold low_escape. destruct (q +:+ t) as [|y [|a [|b [|g [|d q']]]]]; try done.
      rewrite (proj2 (Ascii.eqb_neq x backslash)) by done. done. }
  cbn [scan_string] in S. change (Ascii.eqb backslash dquote) with false in S. cbn [negb] in S.
  rewrite Ascii.eqb_refl in S. destruct q as [|y q]; [done|]. rewrite app_str_cons.
  destruct (Ascii.eqb_spec y "u"%char) as [->|Hy].
  2:{ unfold low_escape. destruct (q +:+ t) as [|a [|b [|g [|d q']]]]; try done.
      rewrite (proj2 (Ascii.eqb_neq y "u"%char)), andb_false_r by done. done. }
  change (simple_escape "u"%char) with (@None ascii) in S. cbn in S.
  destruct q as [|a [|b [|g [|d q]]]]; try done. rewrite !app_str_cons. clear S.
  unfold low_escape in *. destruct (if _ && _ then _ else None) as [m|]; [by destruct (is_low m)|done].
Qed.

Lemma scan_string_extends t p : ∀ x r, scan_string p = Some (x, r) → scan_string (p +:+ t) = Some (x, r +:+ t).
Proof.
  induction p as [p IHp] using (induction_ltof1 _ len). unfold ltof in IHp. intros x r E.
  assert (∀ q y, (len q < len p)%nat → prepend y (scan_string q) = Some (x, r) →
    prepend y (scan_string (q +:+ t)) = Some (x, r +:+ t)) as K.
  { intros q y L Ey. destruct (scan_string q) as [[z r']|] eqn:Ez; [|done].
    cbn in Ey. injection Ey as <- <-. by rewrite (IHp q L z r' Ez). }
  clear IHp. destruct p as [|c p1]; [done|]. rewrite app_str_cons. cbn [scan_string] in *.
  destruct (Ascii.eqb c dquote); [by injection E as <- <-|].
  destruct (Ascii.eqb c backslash); [|destruct (code c <? 32); [done|]; apply K; [cbn; lia|exact E]].
  destruct p1 as [|e p2]; [done|]. rewrite app_str_cons.
  destruct (simple_escape e); [apply K; [cbn; lia|exact E]|].
  destruct (Ascii.eqb e "u"%char); [|done].
  destruct p2 as [|a [|b [|g [|d q]]]]; try done. rewrite !app_str_cons.
  destruct (hex4 a b g d) as [n|]; [|done].
  destruct (is_high n); [|apply K; [cbn; lia|exact E]].
  rewrite high_surrogate in E |- *. destruct (low_escape q) as [[m q']|] eqn:L.
  - rewrite (low_escape_extends t _ _ _ L). apply low_escape_len in L. apply K; [cbn; lia|exact E].
  - destruct (scan_string q) as [v|] eqn:S; [|done]. rewrite (low_escape_none t _ _ L S).
    apply K; [cbn; lia|]. by rewrite S.
Qed.

(** *** Numbers *)

Lemma span_digits_extends t s d r : span_digits s = (d, r) → r ≠ EmptyString → span_digits (s +:+ t) = (d, r +:+ t).
Proof.
  revert d. induction s as [|c s IH]; intros d; cbn [span_digits]; [by intros [= <- <-]|].
  rewrite app_str_cons. cbn [span_digits]. destruct (is_digit c); [|by intros [= <- <-]].
  destruct (span_digits s) as [d' r']. intros [= <- <-] Hr. by rewrite (IH d' eq_refl Hr).
Qed.

Lemma scan_exp_extends t s e r : scan_exp s = (e, r) → dangling r = false →
  scan_exp (s +:+ t) = (e, r +:+ t) ∧ opens is_point s = false.
Proof.
  destruct s as [|c s]; [by intros [= <- <-]|]. rewrite app_str_cons. cbn [scan_exp opens].
  fold (is_exp c). destruct (is_exp c) eqn:Ec; cycle 1.
  { intros [= <- <-]. unfold dangling. cbn [opens]. rewrite Ec, orb_false_r. by intros ->. }
  assert (is_point c = false) as Hc.
  { unfold is_exp, is_point in *. by destruct (Ascii.eqb_spec c "."%char) as [->|]. }
  assert (∀ x, dangling (String c x) = true) as Dc by (intros x; unfold dangling; cbn; by rewrite Ec, orb_true_r).
  assert (∀ sg s', (let '(sg, s') := (sg, s') in match span_digits s' with
      | (EmptyString, _) => (EmptyString, String c s) | (d, r) => (String c (sg +:+ d), r) end) = (e, r) →
    dangling r = false → match span_digits (s' +:+ t) with
      | (EmptyString, _) => (EmptyString, String c (s +:+ t)) | (d, r) => (String c (sg +:+ d), r) end = (e, r +:+ t)) as K.
  { intros sg s'. cbn zeta iota. destruct (span_digits s') as [[|d ds] r'] eqn:Es; intros [= <- <-] Hd;
      [by rewrite Dc in Hd|]. by rewrite (span_digits_extends t _ _ _ Es) by (by intros ->). }
  intros E Hd. split; [|exact Hc]. destruct s as [|x s2]; [cbn in E; injection E as <- <-; by rewrite Dc in Hd|].
  rewrite app_str_cons. destruct (Ascii.eqb x "+"%char || Ascii.eqb x "-"%char).
  - exact (K _ _ E Hd).
  - rewrite <- app_str_cons. exact (K _ _ E Hd).
Qed.

Lemma scan_frac_extends t s f r : scan_frac s = (f, r) → opens is_point r = false →
  scan_frac (s +:+ t) = (f, r +:+ t) ∧ s ≠ EmptyString.
Proof.
  destruct s as [|c s]; [by intros [= <- <-]|]. rewrite app_str_cons. cbn [scan_frac]. fold (is_point c).
  destruct (is_point c) eqn:Ec; [|by intros [= <- <-]].
  destruct (span_digits s) as [[|d ds] r'] eqn:Es; intros [= <- <-] Hp; [cbn in Hp; congruence|].
  by rewrite (span_digits_extends t _ _ _ Es) by (by intros ->).
Qed.

Lemma scan_int_extends t s i r : scan_int s = Some (i, r) → r ≠ EmptyString → scan_int (s +:+ t) = Some (i, r +:+ t).
Proof.
  destruct s as [|c s]; [done|]. rewrite app_str_cons. cbn [scan_int].
  destruct (Ascii.eqb c "0"%char); [by intros [= <- <-]|]. destruct (is_digit c); [|done].
  rewrite <- app_str_cons. intros [= E] Hr. by rewrite (span_digits_extends t (String c s) i r E Hr).
Qed.

Lemma scan_number_extends t s l r : scan_number s = Some (l, r) → dangling r = false →
  scan_number (s +:+ t) = Some (l, r +:+ t).
Proof.
  unfold scan_number. intros E Hd.
  assert (∀ sg body, match scan_int body with
    | None => None
    | Some (i, r) => let '(f, r) := scan_frac r in let '(e, r) := scan_exp r in Some (sg +:+ i +:+ f +:+ e, r)
    end = Some (l, r) → match scan_int (body +:+ t) with
    | None => None
    | Some (i, r) => let '(f, r) := scan_frac r in let '(e, r) := scan_exp r in Some (sg +:+ i +:+ f +:+ e, r)
    end = Some (l, r +:+ t)) as K.
  { intros sg body. destruct (scan_int body) as [[i r1]|] eqn:Ei; [|done].
    destruct (scan_frac r1) as [f r2] eqn:Ef, (scan_exp r2) as [e r3] eqn:Ee. intros [= <- <-].
    destruct (scan_exp_extends t _ _ _ Ee Hd) as [Ee' Hp]. destruct (scan_frac_extends t _ _ _ Ef Hp) as [Ef' Hr1].
    rewrite (scan_int_extends t _ _ _ Ei Hr1), Ef'. by rewrite Ee'. }
  destruct s as [|c s]; [done|]. rewrite app_str_cons. destruct (Ascii.eqb c "-"%char); [exact (K _ _ E)|].
  rewrite <- app_str_cons. exact (K _ _ E).
Qed.

(** *** Literals and values *)

Lemma drop_prefix_extends t w s r : drop_prefix w s = Some r → drop_prefix w (s +:+ t) = Some (r +:+ t).
Proof.
  revert s. induction w as [|a w IH]; intros s; [by intros [= <-]|]. destruct s as [|b s]; [done|].
  rewrite app_str_cons. cbn. destruct (Ascii.eqb a b); [apply IH|done].
Qed.

(** The first characters of a literal tell which one it is. *)
Lemma drop_prefix_head a w b s : Ascii.eqb a b = false → drop_prefix (String a w) (String b s) = None.
Proof. cbn. by intros ->. Qed.

Lemma literal_extends t s v r : literal s = Some (v, r) → literal (s +:+ t) = Some (v, r +:+ t).
Proof.
  destruct s as [|b s]; [done|]. unfold literal. rewrite app_str_cons. intros E.
  repeat match goal with
  | E : context [match drop_prefix (String ?a ?w) (String b s) with _ => _ end] |- _ =>
      destruct (drop_prefix (String a w) (String b s)) as [r'|] eqn:D;
      [ injection E as <- <-;
        pose proof (drop_prefix_extends t _ _ _ D) as D'; rewrite app_str_cons in D'; rewrite D';
        cbn [drop_prefix] in D; destruct (Ascii.eqb_spec a b) as [<-|]; [|done];
        rewrite ?drop_prefix_head by reflexivity; reflexivity
      | clear D ]
  end.
  done.
Qed.

Lemma digit_differs a b : is_digit a = false → is_digit b = true → Ascii.eqb a b = false.
Proof. intros Ha Hb. destruct (Ascii.eqb_spec a b) as [->|]; congruence. Qed.

Lemma scan_int_head s i r : scan_int s = Some (i, r) → ∃ c s', s = String c s' ∧ is_digit c = true.
Proof.
  destruct s as [|c s]; [done|]. cbn [scan_int]. destruct (Ascii.eqb_spec c "0"%char) as [->|]; [by eexists _, _|].
  destruct (is_digit c) eqn:E; [by eexists _, _|done].
Qed.

Lemma number_no_literal t s l r : scan_number s = Some (l, r) → literal (s +:+ t) = None.
Proof.
  unfold scan_number. destruct s as [|b s]; [done|]. destruct (Ascii.eqb_spec b "-"%char) as [->|Hb]; intros E.
  - destruct (scan_int s) as [[i q]|] eqn:Ei; [|done]. apply scan_int_head in Ei as (c & s' & -> & Hc).
    rewrite !app_str_cons. unfold literal. rewrite !drop_prefix_head by reflexivity. cbn [drop_prefix].
    rewrite Ascii.eqb_refl, (digit_differs "I"%char c) by done. reflexivity.
  - destruct (scan_int (String b s)) as [[i q]|] eqn:Ei; [|done].
    apply scan_int_head in Ei as (c & s' & [= <- <-] & Hc).
    rewrite !app_str_cons. unfold literal. by rewrite !drop_prefix_head by (by apply digit_differs).
Qed.

Section Extends.
Context `{Limits}.

(** A number has to be seen to its end. *)
Definition settled (v : json) (r : string) : Prop :=
  match v with JNum _ => dangling r = false | _ => True end.

Lemma scalar_extends t s v r : scalar s = POk v r → settled v r → scalar (s +:+ t) = POk v (r +:+ t).
Proof.
  unfold scalar. destruct (literal s) as [[v' r']|] eqn:El.
  - intros [= <- <-] _. by rewrite (literal_extends t _ _ _ El).
  - destruct (scan_number s) as [[l q]|] eqn:En; [|done]. destruct (too_long l) eqn:Et; [done|].
    intros [= <- <-] Hd. by rewrite (number_no_literal t _ _ _ En), (scan_number_extends t _ _ _ En Hd), Et.
Qed.

Lemma settled_before v r c q : skip_ws r = String c q → is_point c || is_exp c = false → settled v r.
Proof. intros E Hc. destruct v; try done. cbn. by apply (dangling_delimiter r c q E). Qed.

Lemma blank_fails m d acc eacc v r :
  value m d EmptyString ≠ POk v r ∧ members m d EmptyString acc ≠ POk v r ∧ elements m d EmptyString eacc ≠ POk v r.
Proof. destruct m as [|[|m]]; done. Qed.

Lemma skip_ws_extends t p : skip_ws p ≠ EmptyString → skip_ws (p +:+ t) = skip_ws p +:+ t.
Proof.
  unfold skip_ws. destruct (lstrip json_space p) as [|c q] eqn:E; [done|]. intros _.
  by rewrite (lstrip_cut _ _ t _ _ E), app_str_cons.
Qed.

(** What one level of the decoder does to a longer text. *)
Section Step.
Variables (t : string) (m : nat).
Hypothesis Ev : ∀ d p v r n, value m d p = POk v r → settled v r →
  value n d (p +:+ t) ≠ PFuel → value n d (p +:+ t) = POk v (r +:+ t).
Hypothesis Em : ∀ d p acc v r n, members m d p acc = POk v r →
  members n d (p +:+ t) acc ≠ PFuel → members n d (p +:+ t) acc = POk v (r +:+ t).
Hypothesis Ee : ∀ d p acc v r n, elements m d p acc = POk v r →
  elements n d (p +:+ t) acc ≠ PFuel → elements n d (p +:+ t) acc = POk v (r +:+ t).

Lemma value_extends_step d p v r n : value (S m) d p = POk v r → settled v r →
  value n d (p +:+ t) ≠ PFuel → value n d (p +:+ t) = POk v (r +:+ t).
Proof.
  destruct n as [|n]; [done|]. destruct p as [|c p]; [done|]. intros E Hs.
  destruct (Ascii.eqb c dquote) eqn:Q; [|destruct (Ascii.eqb c "{"%char) eqn:O; [|destruct (Ascii.eqb c "["%char) eqn:B]].
  - rewrite app_str_cons. cbn [value] in *. rewrite Q in *.
    destruct (scan_string p) as [[x q]|] eqn:Es; [|done]. injection E as <- <-.
    by rewrite (scan_string_extends t _ _ _ Es).
  - rewrite app_str_cons. cbn [value] in *. rewrite Q, O in *. destruct d as [|d]; [done|].
    destruct (skip_ws p) as [|e q] eqn:Ew; [done|]. unfold skip_ws in *. rewrite (lstrip_cut _ _ _ _ _ Ew).
    destruct (Ascii.eqb e "}"%char); [by injection E as <- <-|]. rewrite <- app_str_cons. by apply Em.
  - rewrite app_str_cons. cbn [value] in *. rewrite Q, O, B in *. destruct d as [|d]; [done|].
    destruct (skip_ws p) as [|e q] eqn:Ew; [done|]. unfold skip_ws in *. rewrite (lstrip_cut _ _ _ _ _ Ew).
    destruct (Ascii.eqb e "]"%char); [by injection E as <- <-|]. rewrite <- app_str_cons. by apply Ee.
  - rewrite app_str_cons. cbn [value] in *. rewrite Q, O, B in *. intros _. rewrite <- app_str_cons.
    by apply scalar_extends.
Qed.

Lemma members_extends_step d p acc v r n : members (S m) d p acc = POk v r →
  members n d (p +:+ t) acc ≠ PFuel → members n d (p +:+ t) acc = POk v (r +:+ t).
Proof.
  destruct n as [|n]; [done|]. destruct p as [|c p]; [done|]. rewrite app_str_cons. cbn [members]. intros E.
  destruct (Ascii.eqb c dquote); [|done]. destruct (scan_string p) as [[k r1]|] eqn:Es; [|done].
  rewrite (scan_string_extends t _ _ _ Es). destruct (skip_ws r1) as [|e r2] eqn:E1; [done|].
  rewrite (skip_ws_extends t r1), E1, app_str_cons by (by rewrite E1).
  destruct (Ascii.eqb e ":"%char); [|done]. destruct (value m d (skip_ws r2)) as [x r3| |] eqn:Ex; [|done..].
  rewrite (skip_ws_extends t r2) by (intros C; rewrite C in Ex; by apply (blank_fails m d [] []) in Ex).
  destruct (skip_ws r3) as [|g r4] eqn:E3; [done|].
  assert (value n d (skip_ws r2 +:+ t) ≠ PFuel → value n d (skip_ws r2 +:+ t) = POk x (r3 +:+ t)) as Kx.
  { apply (Ev _ _ _ _ _ Ex), (settled_before _ _ g r4 E3).
    destruct (Ascii.eqb_spec g "}"%char) as [->|]; [done|]. by destruct (Ascii.eqb_spec g ","%char) as [->|]. }
  destruct (value n d (skip_ws r2 +:+ t)) as [y r3'|f|] eqn:Ey; [| |done].
  2:{ by specialize (Kx ltac:(done)). }
  specialize (Kx ltac:(done)). injection Kx as -> ->.
  rewrite (skip_ws_extends t r3), E3, app_str_cons by (by rewrite E3).
  destruct (Ascii.eqb g "}"%char); [by injection E as <- <-|]. destruct (Ascii.eqb g ","%char); [|done].
  rewrite (skip_ws_extends t r4) by (intros C; rewrite C in E; by apply (blank_fails m d _ []) in E).
  by apply Em.
Qed.

Lemma elements_extends_step d p acc v r n : elements (S m) d p acc = POk v r →
  elements n d (p +:+ t) acc ≠ PFuel → elements n d (p +:+ t) acc = POk v (r +:+ t).
Proof.
  destruct n as [|n]; [done|]. cbn [elements]. intros E.
  destruct (value m d p) as [x r3| |] eqn:Ex; [|done..]. destruct (skip_ws r3) as [|g r4] eqn:E3; [done|].
  assert (value n d (p +:+ t) ≠ PFuel → value n d (p +:+ t) = POk x (r3 +:+ t)) as Kx.
  { apply (Ev _ _ _ _ _ Ex), (settled_before _ _ g r4 E3).
    destruct (Ascii.eqb_spec g "]"%char) as [->|]; [done|]. by destruct (Ascii.eqb_spec g ","%char) as [->|]. }
  destruct (value n d (p +:+ t)) as [y r3'|f|] eqn:Ey; [| |done].
  2:{ by specialize (Kx ltac:(done)). }
  specialize (Kx ltac:(done)). injection Kx as -> ->.
  rewrite (skip_ws_extends t r3), E3, app_str_cons by (by rewrite E3).
  destruct (Ascii.eqb g "]"%char); [by injection E as <- <-|]. destruct (Ascii.eqb g ","%char); [|done].
  rewrite (skip_ws_extends t r4) by (intros C; rewrite C in E; by apply (blank_fails m d [] _) in E).
  by apply Ee.
Qed.
End Step.

(** A value that was read is read again when the text goes on, with what is
    left going on as well. *)
Lemma value_extends t m :
  (∀ d p v r n, value m d p = POk v r → settled v r →
     value n d (p +:+ t) ≠ PFuel → value n d (p +:+ t) = POk v (r +:+ t)) ∧
  (∀ d p acc v r n, members m d p acc = POk v r →
     members n d (p +:+ t) acc ≠ PFuel → members n d (p +:+ t) acc = POk v (r +:+ t)) ∧
  (∀ d p acc v r n, elements m d p acc = POk v r →
     elements n d (p +:+ t) acc ≠ PFuel → elements n d (p +:+ t) acc = POk v (r +:+ t)).
Proof.
  induction m as [|m (Hv & Hm & He)]; [done|].
  split; [|split]; [by apply value_extends_step|by apply members_extends_step|by apply elements_extends_step].
Qed.

(** A document that lost more than white space at its end is not decoded,
    unless what is left is a number. *)
Lemma cut_text text cut plan r v r' :
  json_load (text +:+ cut) = POk plan r → skip_ws cut ≠ EmptyString → json_load text = POk v r' →
  ∃ l, v = JNum l.
Proof.
  unfold json_load. destruct (utf8_ok (text +:+ cut)); [|done]. destruct (utf8_ok text); [|done].
  unfold loads. destruct (startswith bom (text +:+ cut)); [done|]. destruct (startswith bom text); [done|].
  intros Ew Hc. destruct (value (2 * len text + 2) max_nesting (skip_ws text)) as [x q|f|] eqn:Ex; [|done..].
  destruct (skip_ws q) as [|? ?] eqn:Eq; [|done]. intros [= <- _].
  assert ((∃ l, x = JNum l) ∨ settled x q) as [?|Hs] by (destruct x; cbn; eauto); [done|]. exfalso.
  assert (skip_ws text ≠ EmptyString) as Hne by (intros C; rewrite C in Ex; by apply (blank_fails _ _ [] []) in Ex).
  rewrite (skip_ws_extends cut text Hne) in Ew.
  rewrite (proj1 (value_extends cut _) _ _ _ _ _ Ex Hs) in Ew by (intros C; by rewrite C in Ew).
  unfold skip_ws in *. rewrite (lstrip_blank _ _ _ Eq) in Ew. by destruct (lstrip json_space cut).
Qed.
End Extends.

(** ** [str] and [repr] of a decoded value *)

Definition hex_digit (n : Z) : ascii := if n <? 10 then chr (48 + n) else chr (87 + n).

Definition repr_char (q c : ascii) : string :=
  if Ascii.eqb c q || Ascii.eqb c backslash then String backslash (String c EmptyString)
  else if Ascii.eqb c newline then "\n"
  else if Ascii.eqb c creturn then "\r"
  else if code c =? 9 then "\t"
  else if (code c <? 32) || (code c =? 127) then
    String backslash (String "x" (String (hex_digit (code c / 16))
                                    (String (hex_digit (code c mod 16)) EmptyString)))
  else String c EmptyString.

(** A lone surrogate, three bytes here, is shown by its code; other
    characters outside ASCII are shown as they are. *)
Definition surrogate_repr (b c : ascii) : string :=
  let n := (code b - 128) * 64 + (code c - 128) in
  String backslash ("ud" +:+ String (hex_digit (n / 256)) (String (hex_digit ((n / 16) mod 16))
                                                             (String (hex_digit (n mod 16)) EmptyString))).

Fixpoint repr_body (q : ascii) (s : string) : string :=
  match s with
  | EmptyString => EmptyString
  | String a s1 =>
      match s1 with
      | String b (String c s3) =>
          if (code a =? 237) && (160 <=? code b) then surrogate_repr b c +:+ repr_body q s3
          else repr_char q a +:+ repr_body q s1
      | _ => repr_char q a +:+ repr_body q s1
      end
  end.

Definition squote : ascii := ascii_of_nat 39.

(** Single quotes, unless the text has single quotes and no double ones. *)
Definition repr_str (s : string) : string :=
  let q := if negb (no_char squote s) && no_char dquote s then dquote else squote in
  String q (repr_body q s +:+ String q EmptyString).

(** The value of a decimal lexeme [-?d+(.d+)?([eE][+-]?d+)?]. *)
Definition lexeme_Q (s : string) : Q :=
  let '(neg, s) := match s with
                   | String c t => if Ascii.eqb c "-"%char then (true, t) else (false, s)
                   | EmptyString => (false, s) end in
  let '(i, s) := span_digits s in
  let '(f, s) := match s with
                 | String c t => if Ascii.eqb c "."%char then span_digits t else (EmptyString, s)
                 | EmptyString => (EmptyString, s) end in
  let e := match s with String _ t => default 0 (int_of_str t) | EmptyString => 0 end in
  let m := default 0 (int_of_str (i +:+ f)) in
  signed neg (inject_Z m * pow10 (e - Z.of_nat (len f))).

Definition num_repr (l : string) : string :=
  if String.eqb l "NaN" then "nan"
  else if String.eqb l "Infinity" then "inf"
  else if String.eqb l "-Infinity" then "-inf"
  else match int_of_str l with
       | Some z => str_Z z
       | None =>
           (* a fraction or an exponent makes it a float *)
           let q := lexeme_Q l in
           repr (frnd (startswith "-" l) (if Qle_bool 0 q then q else - q)%Q)
       end.

Fixpoint repr_json (j : json) : string :=
  match j with
  | JNull => "None"
  | JBool true => "True"
  | JBool false => "False"
  | JNum l => num_repr l
  | JStr s => repr_str s
  | JList l => "[" +:+ join ", " (map repr_json l) +:+ "]"
  | JObj kvs =>
      "{" +:+ join ", " (map (λ kv, repr_str kv.1 +:+ ": " +:+ repr_json kv.2) kvs) +:+ "}"
  end.

(** [str(v)], as an f-string inserts it. *)
Definition str_json (j : json) : string :=
  match j with JStr s => s | _ => repr_json j end.

(** ** The dynamic operations the plan check performs *)

(** [v.get(k, d)]: only dicts have [get]. *)
Definition py_get (v : json) (k : string) (d : json) : result json :=
  match v with
  | JObj kvs => Ok (default d (dget kvs k))
  | _ => Err AttributeError
  end.

(** [for x in v]: lists, the characters of a string, the keys of a dict. *)
Fixpoint chars (s : string) : list json :=
  match s with
  | EmptyString => []
  | String c s => JStr (String c EmptyString) :: chars s
  end.
Definition py_iter (v : json) : result (list json) :=
  match v with
  | JList l => Ok l
  | JStr s => Ok (chars s)
  | JObj kvs => Ok ((λ kv, JStr kv.1) <$> kvs)
  | _ => Err TypeError
  end.

(** [s in v] for a string [s]. *)
Definition is_str (s : string) (v : json) : bool :=
  match v with JStr t => String.eqb s t | _ => false end.
Definition py_in (s : string) (v : json) : result bool :=
  match v with
  | JList l => Ok (existsb (is_str s) l)
  | JStr t => Ok (substring_in s t)
  | JObj kvs => Ok (existsb (λ kv, String.eqb s kv.1) kvs)
  | _ => Err TypeError
  end.

Example repr_surrogate : repr_str (utf8 56320 +:+ "a") = tmpl "'\udc00a'" [].
Proof. reflexivity. Qed.
