(* ===== verification/SafePlan.v ===== *)
(** [deploy/assert-safe-plan.py]: the gate in front of an unattended
    [terraform apply].

    [classify] is the loop that sorts the plan's resource changes into
    created, updated and destroyed; [script] is the whole program, from the
    bytes on stdin to the exit status.  Standard input and output are UTF-8
    with the strict error handler, as in any UTF-8 locale: bytes that are not
    UTF-8 stop the read, a lone surrogate in an address stops the print.  The safety theorem: whatever
    arrives on stdin, the script exits with status 0 only if nothing in the
    plan is deleted or replaced, or the caller passed [--allow-destroy]; and a
    plan that was cut short in transit never passes. *)

From S2P Require Import Prelude PyStr PyJson.

Open Scope Z_scope.

(** ** The program *)

Record changes := Changes {
  created : list json;               (* addresses *)
  updated : list json;
  destroyed : list (json * json);    (* address and actions *)
}.

Definition no_changes : changes := Changes [] [] [].

(** One iteration of the loop over [resource_changes]. *)
Definition classify1 (cs : changes) (change : json) : result changes :=
  c ← py_get change "change" (JObj []);
  actions ← py_get c "actions" (JList []);
  addr ← py_get change "address" (JStr "?");
  del ← py_in "delete" actions;
  if del : bool then Ok (Changes (created cs) (updated cs) (destroyed cs ++ [(addr, actions)]))
  else
    cre ← py_in "create" actions;
    if cre : bool then Ok (Changes (created cs ++ [addr]) (updated cs) (destroyed cs))
    else
      upd ← py_in "update" actions;
      if upd : bool then Ok (Changes (created cs) (updated cs ++ [addr]) (destroyed cs))
      else Ok cs.

Definition classify (plan : json) : result changes :=
  rc ← py_get plan "resource_changes" (JList []);
  l ← py_iter rc;
  foldR classify1 no_changes l.

(** The line printed for a destroyed resource. *)
Definition destroy_line (d : json * json) : result string :=
  re ← py_in "create" d.2;
  Ok ("  " +:+ (if re : bool then "replace" else "destroy") +:+ " " +:+ str_json d.1).

Definition nl : string := String newline EmptyString.
Definition count {A} (l : list A) : string := str_Z (Z.of_nat (length l)).

Definition refusal (cs : changes) : string :=
  nl +:+ "assert-safe-plan: REFUSING -- " +:+ count (destroyed cs)
  +:+ " resource(s) would be destroyed or replaced." +:+ nl
  +:+ "Run the apply interactively and read the plan yourself, or pass --allow-destroy if this is a deliberate teardown.".

Definition approval (cs : changes) : string :=
  nl +:+ "assert-safe-plan: OK -- " +:+ count (created cs) +:+ " to add, "
  +:+ count (updated cs) +:+ " to change, " +:+ count (destroyed cs) +:+ " to destroy.".

(** [print(s)]: nothing is written when the text cannot be encoded. *)
Definition print_str (s : string) : M unit := if utf8_ok s then print s else raise UnicodeEncodeError.

Section Script.
Context `{Limits}.
(** The text of the decoder's exception for a document that does not parse. *)
Variable decode_error : string → string.

(** Only [json.JSONDecodeError] is caught. *)
Definition script (argv : list string) (stdin : string) : M unit :=
  let allow_destroy := bool_decide ("--allow-destroy" ∈ argv) in
  match json_load stdin with
  | PErr NotJson | PFuel =>
      eprint ("assert-safe-plan: could not parse the plan JSON: " +:+ decode_error stdin);;
      raise (SystemExit 2)
  | PErr f => raise (raised f)
  | POk plan _ =>
      cs ← lift (classify plan);
      mapM_ (λ addr, print_str ("  create  " +:+ str_json addr)) (created cs);;
      mapM_ (λ addr, print_str ("  update  " +:+ str_json addr)) (updated cs);;
      mapM_ (λ d, line ← lift (destroy_line d); print_str line) (destroyed cs);;
      if bool_decide (destroyed cs ≠ []) && negb allow_destroy
      then eprint (refusal cs);; raise (SystemExit 1)
      else print (approval cs)
  end.
End Script.

(** ** Reference: what a plan does to a resource *)

(** The actions of a change, read as the script reads them. *)
Definition actions_of (change : json) : result json :=
  c ← py_get change "change" (JObj []); py_get c "actions" (JList []).
Definition address_of (change : json) : result json := py_get change "address" (JStr "?").

(** The change deletes its resource, alone or to recreate it. *)
Definition deletes (change : json) : Prop :=
  ∃ actions, actions_of change = Ok actions ∧ py_in "delete" actions = Ok true.

(** The resource changes of a plan. *)
Definition plan_changes (plan : json) : result (list json) :=
  rc ← py_get plan "resource_changes" (JList []); py_iter rc.

(** A change as terraform documents it: an address and a list of actions. *)
Definition describes (change : json) (ch : string * list string) : Prop :=
  address_of change = Ok (JStr ch.1) ∧ actions_of change = Ok (JList (JStr <$> ch.2)).

(** ** Lemmas *)

Lemma classify1_inv cs change cs' :
  classify1 cs change = Ok cs' →
  (deletes change ∧ created cs' = created cs ∧ updated cs' = updated cs ∧
     ∃ d, destroyed cs' = destroyed cs ++ [d]) ∨
  (¬ deletes change ∧ destroyed cs' = destroyed cs).
Proof.
  unfold classify1, deletes, actions_of. intros H.
  apply bind_Ok in H as (c & Ec & H). rewrite Ec. cbn [mbind result_bind].
  apply bind_Ok in H as (actions & Ea & H). rewrite Ea.
  apply bind_Ok in H as (addr & _ & H). apply bind_Ok in H as (del & Ed & H).
  destruct del.
  - left. inv_ok. split; [by exists actions|]. cbn. repeat split. by eexists.
  - right. split; [intros (? & [= <-] & E); congruence|].
    apply bind_Ok in H as (cre & _ & H). destruct cre; inv_ok; [done|].
    destruct x; inv_ok; done.
Qed.

Lemma foldR_classify l cs cs' :
  foldR classify1 cs l = Ok cs' →
  (∃ ds, destroyed cs' = destroyed cs ++ ds) ∧
  (destroyed cs' = destroyed cs ↔ Forall (λ c, ¬ deletes c) l).
Proof.
  revert cs. induction l as [|x l IH]; intros cs H; cbn in H.
  - inv_ok. split; [exists []; by rewrite app_nil_r|]. split; [constructor|done].
  - apply bind_Ok in H as (cs1 & H1 & H). destruct (IH _ H) as ((ds & Ed) & E).
    apply classify1_inv in H1 as [(Hd & _ & _ & d & E1)|(Hd & E1)].
    + split; [exists (d :: ds); rewrite Ed, E1; by rewrite <- app_assoc|]. split.
      * rewrite Ed, E1, <- app_assoc. intros C. exfalso.
        apply (f_equal length) in C. rewrite !length_app in C. cbn in C. lia.
      * inversion 1; subst. contradiction.
    + rewrite <- E1. split; [by exists ds|]. rewrite E. rewrite Forall_cons. tauto.
Qed.

(** The destroyed list is empty exactly when nothing is deleted. *)
Lemma classify_destroyed plan cs :
  classify plan = Ok cs →
  ∃ l, plan_changes plan = Ok l ∧ (destroyed cs = [] ↔ Forall (λ c, ¬ deletes c) l).
Proof.
  unfold classify, plan_changes. intros H. apply bind_Ok in H as (rc & Er & H).
  apply bind_Ok in H as (l & El & H). exists l. rewrite Er. cbn. split; [done|].
  by apply foldR_classify in H as [_ H].
Qed.

(** Membership tests that succeeded once succeed for every other action. *)
Lemma py_in_total s t v b : py_in s v = Ok b → ∃ b', py_in t v = Ok b'.
Proof. destruct v; cbn; try done; eauto. Qed.

Lemma foldR_destroyed_ok l cs cs' :
  foldR classify1 cs l = Ok cs' →
  Forall (λ d, ∃ b, py_in "create" d.2 = Ok b) (destroyed cs) →
  Forall (λ d, ∃ b, py_in "create" d.2 = Ok b) (destroyed cs').
Proof.
  revert cs. induction l as [|x l IH]; intros cs H Hd; cbn in H; [by inv_ok|].
  apply bind_Ok in H as (cs1 & H1 & H). apply (IH _ H). unfold classify1 in H1.
  apply bind_Ok in H1 as (c & _ & H1). apply bind_Ok in H1 as (actions & _ & H1).
  apply bind_Ok in H1 as (addr & _ & H1). apply bind_Ok in H1 as (del & Ed & H1).
  destruct del.
  - inv_ok. cbn. apply Forall_app. split; [done|]. repeat constructor. by eapply py_in_total.
  - apply bind_Ok in H1 as (cre & _ & H1). destruct cre; [by inv_ok|].
    apply bind_Ok in H1 as (upd & _ & H1). destruct upd; by inv_ok.
Qed.

Lemma destroy_lines_ok plan cs : classify plan = Ok cs → ∃ dl, mapR destroy_line (destroyed cs) = Ok dl.
Proof.
  unfold classify. intros H. apply bind_Ok in H as (rc & _ & H). apply bind_Ok in H as (l & _ & H).
  apply foldR_destroyed_ok in H; [|constructor]. induction H as [|d ds (b & E) H IH]; [by exists []|].
  destruct IH as (dl & IH). cbn [mapR].
  assert (∃ y, destroy_line d = Ok y) as (y & ->) by (unfold destroy_line; rewrite E; by eexists).
  cbn [mbind result_bind]. rewrite IH. by eexists.
Qed.

(** *** Printing *)

(** The lines printed before the first that cannot be encoded. *)
Fixpoint taken (ls : list string) : list string :=
  match ls with
  | [] => []
  | l :: ls => if utf8_ok l then l :: taken ls else []
  end.

Lemma taken_all ls : forallb utf8_ok ls = true → taken ls = ls.
Proof. induction ls as [|l ls IH]; cbn; [done|]. destruct (utf8_ok l); cbn; [|done]. intros E. by rewrite IH. Qed.

Lemma print_lines ls w :
  mapM_ print_str ls w =
  (if forallb utf8_ok ls then Ok tt else Err UnicodeEncodeError, World (files w) (out w ++ taken ls) (err w)).
Proof.
  revert w. induction ls as [|l ls IH]; intros [fs o e]; cbn [mapM_ forallb taken].
  - by rewrite app_nil_r.
  - unfold print_str, mbind, M_bind. destruct (utf8_ok l); cbn [andb].
    + cbn [print files out err]. rewrite IH. cbn [files out err]. by rewrite <- app_assoc.
    + cbn. by rewrite app_nil_r.
Qed.

Lemma mapM_map {A B} (f : B → M unit) (g : A → B) l w : mapM_ (λ x, f (g x)) l w = mapM_ f (g <$> l) w.
Proof.
  revert w. induction l as [|x l IH]; intros w; [done|]. rewrite fmap_cons. cbn [mapM_]. unfold mbind, M_bind.
  destruct (f (g x) w) as [[]]; [apply IH|done].
Qed.

Lemma mapM_lift {A B} (f : B → M unit) (g : A → result B) l ys w :
  mapR g l = Ok ys → mapM_ (λ x, y ← lift (g x); f y) l w = mapM_ f ys w.
Proof.
  revert ys w. induction l as [|x l IH]; intros ys w E; cbn in E; [by inv_ok|].
  apply bind_Ok in E as (y & Ey & E). apply bind_Ok in E as (ys' & Eys & E). inv_ok.
  cbn [mapM_]. unfold mbind, M_bind, lift. rewrite Ey. destruct (f y w) as [[]]; [by apply IH|done].
Qed.

Lemma mapM_app {A} (f : A → M unit) l1 l2 w : mapM_ f (l1 ++ l2) w = (mapM_ f l1;; mapM_ f l2) w.
Proof.
  revert w. induction l1 as [|x l1 IH]; intros w; [done|]. cbn [app mapM_]. unfold mbind, M_bind in *.
  destruct (f x w) as [[] w1]; [by rewrite IH|done].
Qed.

(** The lines about individual resources. *)
Definition resource_lines (cs : changes) (dl : list string) : list string :=
  ((λ a, "  create  " +:+ str_json a) <$> created cs) ++
  ((λ a, "  update  " +:+ str_json a) <$> updated cs) ++ dl.

Definition refuses (argv : list string) (cs : changes) : bool :=
  bool_decide (destroyed cs ≠ []) && negb (bool_decide ("--allow-destroy" ∈ argv)).

(** A run on a plan that decodes and classifies. *)
Lemma script_run `{Limits} de argv stdin plan r cs dl w :
  json_load stdin = POk plan r → classify plan = Ok cs → mapR destroy_line (destroyed cs) = Ok dl →
  script de argv stdin w =
  if forallb utf8_ok (resource_lines cs dl) then
    if refuses argv cs
    then (Err (SystemExit 1), World (files w) (out w ++ resource_lines cs dl) (err w ++ [refusal cs]))
    else (Ok tt, World (files w) (out w ++ resource_lines cs dl ++ [approval cs]) (err w))
  else (Err UnicodeEncodeError, World (files w) (out w ++ taken (resource_lines cs dl)) (err w)).
Proof.
  intros Hl Hc Hd. unfold script. rewrite Hl. rewrite (M_bind_Ok _ _ w cs w) by (unfold lift; by rewrite Hc).
  set (pd := mapM_ (λ d, line ← lift (destroy_line d); print_str line) (destroyed cs)).
  assert (∀ w, pd w = mapM_ print_str dl w) as Ed by (intros w'; by apply mapM_lift). clearbody pd.
  pose proof (print_lines (resource_lines cs dl) w) as P. unfold resource_lines in P at 1.
  rewrite !mapM_app in P. unfold mbind, M_bind in *.
  rewrite mapM_map. destruct (mapM_ _ _ w) as [[[]|e] w1]; cycle 1.
  { destruct (forallb _ (resource_lines cs dl)); [discriminate P|]. by injection P as -> ->. }
  rewrite mapM_app in P. unfold mbind, M_bind in P.
  rewrite mapM_map. destruct (mapM_ _ _ w1) as [[[]|e] w2]; cycle 1.
  { destruct (forallb _ (resource_lines cs dl)); [discriminate P|]. by injection P as -> ->. }
  rewrite Ed, P. fold (refuses argv cs).
  destruct (forallb utf8_ok (resource_lines cs dl)) eqn:F; [|done]. rewrite (taken_all _ F).
  destruct (refuses argv cs); [reflexivity|]. unfold print. cbn [files out err]. by rewrite <- app_assoc.
Qed.

Definition has (a : string) (ch : string * list string) : bool := bool_decide (a ∈ ch.2).
Definition is_destroy (ch : string * list string) : bool := has "delete" ch.
Definition is_create (ch : string * list string) : bool := negb (has "delete" ch) && has "create" ch.
Definition is_update (ch : string * list string) : bool :=
  negb (has "delete" ch) && negb (has "create" ch) && has "update" ch.

Lemma existsb_is_str a l : existsb (is_str a) (JStr <$> l) = bool_decide (a ∈ l).
Proof.
  induction l as [|x l IH]; [done|]. cbn. rewrite IH.
  destruct (String.eqb_spec a x) as [->|Hne]; cbn.
  - symmetry. apply bool_decide_eq_true. by left.
  - apply bool_decide_ext. rewrite elem_of_cons. tauto.
Qed.

Lemma classify1_proper cs change ch :
  describes change ch →
  classify1 cs change =
  Ok (if is_destroy ch then Changes (created cs) (updated cs)
                              (destroyed cs ++ [(JStr ch.1, JList (JStr <$> ch.2))])
      else if is_create ch then Changes (created cs ++ [JStr ch.1]) (updated cs) (destroyed cs)
      else if is_update ch then Changes (created cs) (updated cs ++ [JStr ch.1]) (destroyed cs)
      else cs).
Proof.
  intros [Ha Hc]. apply bind_Ok in Hc as (c & Ec & Ea).
  unfold classify1, is_destroy, is_create, is_update, has. unfold address_of in Ha.
  rewrite Ec. cbn [mbind result_bind]. rewrite Ea, Ha. cbn [mbind result_bind py_in].
  rewrite !existsb_is_str.
  destruct (bool_decide ("delete" ∈ ch.2)); cbn; [done|].
  destruct (bool_decide ("create" ∈ ch.2)); cbn; [done|].
  by destruct (bool_decide ("update" ∈ ch.2)).
Qed.

(** The changes a proper plan amounts to. *)
Definition expected (chs : list (string * list string)) : changes :=
  Changes ((λ ch, JStr ch.1) <$> List.filter is_create chs)
          ((λ ch, JStr ch.1) <$> List.filter is_update chs)
          ((λ ch, (JStr ch.1, JList (JStr <$> ch.2))) <$> List.filter is_destroy chs).

Lemma classify_proper plan l chs :
  plan_changes plan = Ok l → Forall2 describes l chs → classify plan = Ok (expected chs).
Proof.
  intros H D. apply bind_Ok in H as (rc & Er & Hl). unfold classify. rewrite Er.
  cbn [mbind result_bind]. rewrite Hl. cbn [mbind result_bind].
  change (Ok (expected chs)) with
    (Ok (Changes (created no_changes ++ created (expected chs))
                 (updated no_changes ++ updated (expected chs))
                 (destroyed no_changes ++ destroyed (expected chs)))).
  clear Er Hl. generalize no_changes as cs. induction D as [|c ch l chs Hc D IH]; intros cs; cbn [foldR].
  - cbn. rewrite !app_nil_r. by destruct cs.
  - rewrite (classify1_proper _ _ _ Hc). cbn [mbind result_bind]. rewrite IH.
    unfold expected, is_create, is_update. cbn [List.filter]. unfold is_destroy in *.
    destruct (has "delete" ch), (has "create" ch), (has "update" ch); cbn;
      by rewrite <- ?app_assoc.
Qed.

Lemma expected_lines chs :
  mapR destroy_line (destroyed (expected chs)) =
  Ok ((λ ch, "  " +:+ (if has "create" ch then "replace" else "destroy") +:+ " " +:+ ch.1)
        <$> List.filter is_destroy chs).
Proof.
  cbn [expected destroyed]. induction (List.filter is_destroy chs) as [|ch l IH]; [done|].
  rewrite !fmap_cons. cbn [mapR]. rewrite IH. unfold destroy_line, has. cbn [py_in snd fst].
  by rewrite existsb_is_str.
Qed.

(** The loop raises nothing but AttributeError and TypeError. *)
Definition type_error {A} (r : result A) : Prop :=
  match r with Ok _ => True | Err e => e = AttributeError ∨ e = TypeError end.

Lemma type_error_bind {A B} (m : result A) (f : A → result B) :
  type_error m → (∀ a, type_error (f a)) → type_error (m ≫= f).
Proof. destruct m; cbn; auto. Qed.

Lemma py_get_error v k d : type_error (py_get v k d).
Proof. destruct v; cbn; auto. Qed.
Lemma py_in_error s v : type_error (py_in s v).
Proof. destruct v; cbn; auto. Qed.
Lemma py_iter_error v : type_error (py_iter v).
Proof. destruct v; cbn; auto. Qed.

#[local] Hint Resolve type_error_bind py_get_error py_in_error py_iter_error : py.

Lemma classify1_error cs c : type_error (classify1 cs c).
Proof.
  unfold classify1. do 3 (apply type_error_bind; [auto with py|intros ?]).
  apply type_error_bind; [auto with py|intros []]; [done|].
  apply type_error_bind; [auto with py|intros []]; [done|].
  apply type_error_bind; [auto with py|intros []]; done.
Qed.

Lemma classify_error plan : type_error (classify plan).
Proof.
  unfold classify. do 2 (apply type_error_bind; [auto with py|intros ?]).
  generalize no_changes. induction a0 as [|c l IH]; intros cs; cbn; [done|].
  apply type_error_bind; [apply classify1_error|auto].
Qed.

(** An exception of the loop is not caught. *)
Lemma classify_status plan e : classify plan = Err e → exit_status (@Err unit e) ≠ 0.
Proof. intros C. pose proof (classify_error plan) as K. rewrite C in K. by destruct K as [-> | ->]. Qed.

Lemma script_raises `{Limits} de argv stdin plan r e w :
  json_load stdin = POk plan r → classify plan = Err e → script de argv stdin w = (Err e, w).
Proof. intros E C. unfold script. rewrite E. apply M_bind_Err. unfold lift. by rewrite C. Qed.

Lemma json_load_total `{Limits} s : json_load s ≠ PFuel.
Proof. unfold json_load. destruct (utf8_ok s); [apply loads_total|done]. Qed.

(** A document that is not decoded: status 2 when it is not JSON, 1 for the
    other reasons, and nothing on stdout. *)
Lemma script_undecoded `{Limits} de argv stdin f w :
  json_load stdin = PErr f →
  exit_status (script de argv stdin w).1 = match f with NotJson => 2 | _ => 1 end ∧
  out (script de argv stdin w).2 = out w ∧ files (script de argv stdin w).2 = files w.
Proof. intros E. unfold script. rewrite E. by destruct f. Qed.

(** ** Theorems *)

(** C1 Whatever is on standard input, a run without [--allow-destroy] ends
    with status 0 only if the text decodes to a plan none of whose resource
    changes contains a delete, alone or as half of a replacement. *)
Theorem safe_plan_sound `{Limits} de argv stdin w :
  exit_status (script de argv stdin w).1 = 0 → "--allow-destroy" ∉ argv →
  ∃ plan r l, json_load stdin = POk plan r ∧ plan_changes plan = Ok l ∧ Forall (λ c, ¬ deletes c) l.
Proof.
  intros Hs Hf. destruct (json_load stdin) as [plan r|f|] eqn:E.
  - destruct (classify plan) as [cs|e] eqn:C.
    + destruct (classify_destroyed _ _ C) as (l & El & D). exists plan, r, l.
      split; [done|]. split; [done|]. apply D. destruct (destroy_lines_ok _ _ C) as (dl & Hd).
      rewrite (script_run de argv stdin plan r cs dl w E C Hd) in Hs. unfold refuses in Hs.
      rewrite (bool_decide_eq_false_2 ("--allow-destroy" ∈ argv)) in Hs by done.
      destruct (forallb _ _); [|done]. destruct (destroyed cs); [done|]. by cbn in Hs.
    + rewrite (script_raises de argv stdin plan r e w E C) in Hs. by apply classify_status in C.
  - destruct (script_undecoded de argv stdin f w E) as [K _]. rewrite K in Hs. by destruct f.
  - by apply json_load_total in E.
Qed.

Definition demo_world : world := World ∅ [] [].

(** The defaults of CPython: 1000 levels less the few in use, 4300 digits. *)
Definition demo_limits : Limits := {| max_nesting := 990; max_digits := 4300 |}.

(** A plan as [terraform show -json] prints it, trimmed to what is read. *)
Definition demo_plan (actions : string) : string :=
  tmpl "{`format_version`:`1.2`,`resource_changes`:[{`address`:`aws_instance.client[0]`,`change`:{`actions`:[{}]}}]}"
    [actions].

Lemma safe_plan_sound_witness :
  ∃ plan r l, @json_load demo_limits (demo_plan (tmpl "`create`" [])) = POk plan r ∧ plan_changes plan = Ok l ∧
              Forall (λ c, ¬ deletes c) l.
Proof.
  apply (@safe_plan_sound demo_limits (λ _, "bad") ["assert-safe-plan.py"] (demo_plan (tmpl "`create`" [])) demo_world).
  - vm_compute. reflexivity.
  - apply (bool_decide_unpack _). vm_compute. exact I.
Defined.

(** C12 The exit status and the output on a plan whose changes each carry an
    address and a list of actions: one line per resource that is created,
    updated, replaced or destroyed (a change with both a delete and a create
    is a replacement), in the order of the plan within each class, then
    either the refusal on stderr with status 1 (something is destroyed and
    the flag is absent) or the totals with status 0.  An address that UTF-8
    cannot encode (a lone surrogate) ends the run with UnicodeEncodeError at
    its line. *)
Theorem script_proper `{Limits} de argv stdin plan r l chs w :
  json_load stdin = POk plan r → plan_changes plan = Ok l → Forall2 describes l chs →
  let creates := List.filter is_create chs in
  let updates := List.filter is_update chs in
  let destroys := List.filter is_destroy chs in
  let lines := ((λ ch, "  create  " +:+ ch.1) <$> creates) ++
               ((λ ch, "  update  " +:+ ch.1) <$> updates) ++
               ((λ ch, "  " +:+ (if has "create" ch then "replace" else "destroy") +:+ " " +:+ ch.1)
                  <$> destroys) in
  script de argv stdin w =
  if forallb utf8_ok lines then
    if bool_decide (destroys ≠ []) && negb (bool_decide ("--allow-destroy" ∈ argv))
    then (Err (SystemExit 1), World (files w) (out w ++ lines) (err w ++ [refusal (expected chs)]))
    else (Ok tt, World (files w) (out w ++ lines ++ [approval (expected chs)]) (err w))
  else (Err UnicodeEncodeError, World (files w) (out w ++ taken lines) (err w)).
Proof.
  intros Hj Hl D. cbn zeta.
  rewrite (script_run _ _ _ _ _ _ _ _ Hj (classify_proper _ _ _ Hl D) (expected_lines chs)).
  unfold refuses, resource_lines, expected. cbn [created updated destroyed].
  rewrite <- !list_fmap_compose.
  assert (bool_decide ((λ ch, (JStr ch.1, JList (JStr <$> ch.2))) <$> List.filter is_destroy chs ≠ [])
          = bool_decide (List.filter is_destroy chs ≠ [])) as ->.
  { apply bool_decide_ext. destruct (List.filter is_destroy chs); naive_solver. }
  done.
Qed.

Lemma script_proper_witness :
  @script demo_limits (λ _, "bad") [] (demo_plan (tmpl "`delete`,`create`" [])) demo_world =
  (Err (SystemExit 1),
   World ∅ ["  replace aws_instance.client[0]"]
     [refusal (expected [("aws_instance.client[0]", ["delete"; "create"])])]).
Proof.
  erewrite (@script_proper demo_limits (λ _, "bad") [] (demo_plan (tmpl "`delete`,`create`" [])) _ _ _
           [("aws_instance.client[0]", ["delete"; "create"])] demo_world);
    [reflexivity | vm_compute; reflexivity.. |].
  repeat constructor.
Defined.

(** C13 A plan that lost its end on the way is never approved: when the whole
    document decodes and more than white space is missing from its end, the
    run prints nothing on stdout, changes no file and ends with a status
    other than 0, with [--allow-destroy] as well. *)
Theorem truncated_plan_refused `{Limits} de argv text cut plan r w :
  json_load (text +:+ cut) = POk plan r → skip_ws cut ≠ EmptyString →
  let run := script de argv text w in
  exit_status run.1 ≠ 0 ∧ out run.2 = out w ∧ files run.2 = files w.
Proof.
  intros Hj Hc run. subst run. destruct (json_load text) as [v r'|f|] eqn:E.
  - destruct (cut_text _ _ _ _ _ _ Hj Hc E) as (l & ->).
    by rewrite (script_raises de argv text (JNum l) r' AttributeError w E eq_refl).
  - destruct (script_undecoded de argv text f w E) as (-> & ? & ?). by destruct f.
  - by apply json_load_total in E.
Qed.

Lemma truncated_plan_refused_witness :
  let run := @script demo_limits (λ _, "Expecting value: line 1 column 1 (char 0)") ["--allow-destroy"]
               (tmpl "{`format_version`:`1.2`,`resource_changes`:[]" []) demo_world in
  exit_status run.1 ≠ 0 ∧ out run.2 = [] ∧ files run.2 = ∅.
Proof.
  eapply (@truncated_plan_refused demo_limits _ ["--allow-destroy"]
            (tmpl "{`format_version`:`1.2`,`resource_changes`:[]" []) "}" _ _ demo_world).
  - vm_compute. reflexivity.
  - vm_compute. discriminate.
Defined.

(** The four ways stdin can fail to decode, at small limits. *)
Example failures :
  let lim := {| max_nesting := 2; max_digits := 3 |} in
  let ends s := exit_status (@script lim (λ _, "bad") [] s demo_world).1 in
  ends "Error: no plan" = 2 ∧ ends EmptyString = 2 ∧ ends (String (chr 200) EmptyString) = 1 ∧
  ends "[[[]]]" = 1 ∧ ends (tmpl "{`serial`: 1234}" []) = 1 ∧ ends (tmpl "{`serial`: 123}" []) = 0 ∧
  ends "{" = 2.
Proof. vm_compute. done. Qed.
