(* ===== verification/PyCsv.v ===== *)
(** The [csv] module with its default dialect: comma, double quote, quotes
    doubled inside a quoted field, not strict.

    [reader] is the module's own state machine, fed one line of the file at a
    time (terminator included) and an end-of-line mark after each line, as the
    C implementation does it.  [dict_reader] is [csv.DictReader] with the
    header taken from the first record. *)

From Stdlib Require Import Ascii.
From S2P Require Import Prelude PyStr.

Open Scope Z_scope.

(** ** Lines with their terminators *)

Fixpoint keep_lines (s : string) : list string :=
  match s with
  | EmptyString => []
  | String c s' =>
      if Ascii.eqb c newline then String c EmptyString :: keep_lines s'
      else match keep_lines s' with
           | [] => [String c EmptyString]
           | l :: ls => String c l :: ls
           end
  end.

(** ** The parser *)

Inductive pstate :=
| START_RECORD | START_FIELD | IN_FIELD | IN_QUOTED_FIELD | QUOTE_IN_QUOTED_FIELD | EAT_CRNL.

(** The fields of the record so far, and the text of the current field. *)
Record parser := Parser { pstate_of : pstate; fields : list string; field : string }.

Definition start : parser := Parser START_RECORD [] EmptyString.

Definition save_field (st : pstate) (p : parser) : parser :=
  Parser st (fields p ++ [field p]) EmptyString.
Definition add_char (st : pstate) (c : ascii) (p : parser) : parser :=
  Parser st (fields p) (field p +:+ String c EmptyString).
Definition set_state (st : pstate) (p : parser) : parser := Parser st (fields p) (field p).

Definition is_crnl (c : ascii) : bool := Ascii.eqb c newline || Ascii.eqb c creturn.
Definition is_delim (c : ascii) : bool := Ascii.eqb c ","%char.
Definition is_quote (c : ascii) : bool := Ascii.eqb c dquote.

Definition start_field (c : option ascii) (p : parser) : parser :=
  match c with
  | None => save_field START_RECORD p
  | Some c =>
      if is_crnl c then save_field EAT_CRNL p
      else if is_quote c then set_state IN_QUOTED_FIELD p
      else if is_delim c then save_field START_FIELD p
      else add_char IN_FIELD c p
  end.

(** One character, or the end of a line ([None]). *)
Definition process_char (p : parser) (c : option ascii) : result parser :=
  match pstate_of p with
  | START_RECORD =>
      match c with
      | None => Ok p
      | Some a => Ok (if is_crnl a then set_state EAT_CRNL p else start_field c p)
      end
  | START_FIELD => Ok (start_field c p)
  | IN_FIELD =>
      Ok match c with
         | None => save_field START_RECORD p
         | Some a =>
             if is_crnl a then save_field EAT_CRNL p
             else if is_delim a then save_field START_FIELD p
             else add_char IN_FIELD a p
         end
  | IN_QUOTED_FIELD =>
      Ok match c with
         | None => p
         | Some a => if is_quote a then set_state QUOTE_IN_QUOTED_FIELD p else add_char IN_QUOTED_FIELD a p
         end
  | QUOTE_IN_QUOTED_FIELD =>
      Ok match c with
         | None => save_field START_RECORD p
         | Some a =>
             if is_quote a then add_char IN_QUOTED_FIELD a p
             else if is_delim a then save_field START_FIELD p
             else if is_crnl a then save_field EAT_CRNL p
             else add_char IN_FIELD a p
         end
  | EAT_CRNL =>
      match c with
      | None => Ok (set_state START_RECORD p)
      | Some a => if is_crnl a then Ok p else Err CsvError
      end
  end.

Definition process_line (p : parser) (line : string) : result parser :=
  p' ← foldR process_char p (Some <$> String.list_ascii_of_string line);
  process_char p' None.

Definition at_start (p : parser) : bool :=
  match pstate_of p with START_RECORD => true | _ => false end.
Definition in_quotes (p : parser) : bool :=
  match pstate_of p with IN_QUOTED_FIELD => true | _ => false end.

(** The records of the file; an empty line is an empty record, and a file
    that ends inside a field still yields the record it was reading. *)
Fixpoint records (p : parser) (lines : list string) : result (list (list string)) :=
  match lines with
  | [] =>
      Ok (if at_start p then []
          else if negb (is_empty (field p)) || in_quotes p then [fields p ++ [field p]] else [])
  | l :: ls =>
      p' ← process_line p l;
      if at_start p' then rs ← records start ls; Ok (fields p' :: rs) else records p' ls
  end.

(** [csv.reader(open(path))] on the text of the file. *)
Definition reader (text : string) : result (list (list string)) :=
  records start (keep_lines (universal_newlines text)).

(** ** DictReader *)

(** One row: the named columns in header order ([None] for a column the
    record is too short for), and what is left over when it is too long (the
    dictionary files that list under the key [None]). *)
Record drow := Drow { cols : list (string * option string); extra : list string }.

Fixpoint zip_cols (names : list string) (vals : list string) (d : list (string * option string))
  : list (string * option string) :=
  match names, vals with
  | n :: names, v :: vals => zip_cols names vals (dset d n (Some v))
  | n :: names, [] => zip_cols names [] (dset d n None)
  | [], _ => d
  end.

Definition mk_row (names vals : list string) : drow :=
  Drow (zip_cols names vals []) (drop (length names) vals).

Definition dict_reader (text : string) : result (list drow) :=
  rs ← reader text;
  Ok match rs with
     | [] => []
     | names :: rows => mk_row names <$> List.filter (λ r, match r with [] => false | _ => true end) rows
     end.

(** [row[k]]. *)
Definition row_get (r : drow) (k : string) : result (option string) := require (KeyError k) (dget (cols r) k).

(** [int(v)] for a cell. *)
Definition int_cell (v : option string) : result Z :=
  match v with
  | Some s => require ValueError (int_of_str s)
  | None => Err TypeError
  end.

(** ** Records of plain cells *)

(** No comma, quote or line break, and the record is not a single empty
    cell (which is written as an empty line and read as an empty record). *)
Definition plain (s : string) : bool :=
  all_chars (λ c, negb (is_delim c || is_quote c || is_crnl c)) s.

Lemma process_plain st fs a s :
  plain s = true → (st = IN_FIELD ∨ (st = START_FIELD ∧ a = EmptyString ∧ s ≠ EmptyString)) →
  foldR process_char (Parser st fs a) (Some <$> String.list_ascii_of_string s)
  = Ok (Parser IN_FIELD fs (a +:+ s)).
Proof.
  revert st a. induction s as [|c s IH]; intros st a Hs Hst.
  - destruct Hst as [-> |(_ & _ & [])]; [|done]. cbn. by rewrite app_str_nil_r.
  - unfold plain in Hs. cbn in Hs. apply andb_true_iff in Hs as [Hc Hs].
    apply negb_true_iff in Hc. apply orb_false_iff in Hc as [Hc Hn].
    apply orb_false_iff in Hc as [Hd Hq]. cbn [String.list_ascii_of_string fmap list_fmap foldR].
    assert (process_char (Parser st fs a) (Some c) = Ok (Parser IN_FIELD fs (a +:+ String c EmptyString))) as ->.
    { destruct Hst as [-> |(-> & _ & _)]; unfold process_char; cbn;
        rewrite ?Hn, ?Hq, ?Hd; done. }
    cbn [mbind result_bind]. etrans; [apply IH; auto|]. by rewrite app_str_assoc.
Qed.

Lemma list_ascii_app a b :
  String.list_ascii_of_string (a +:+ b) = String.list_ascii_of_string a ++ String.list_ascii_of_string b.
Proof. induction a as [|c a IH]; [done|]. rewrite app_str_cons. cbn. by rewrite IH. Qed.

(** A cell that ends in a comma. *)
Lemma process_cell fs s :
  plain s = true →
  foldR process_char (Parser START_FIELD fs EmptyString)
    (Some <$> String.list_ascii_of_string (s +:+ ","))
  = Ok (Parser START_FIELD (fs ++ [s]) EmptyString).
Proof.
  intros H. rewrite list_ascii_app, fmap_app, foldR_app. destruct s as [|c s].
  - done.
  - rewrite process_plain; [|done|by right]. cbn. by rewrite app_str_nil_r || done.
Qed.

(** The last cell of a line and the line's terminator. *)
Lemma process_last fs s :
  plain s = true →
  (foldR process_char (Parser START_FIELD fs EmptyString)
    (Some <$> String.list_ascii_of_string (s +:+ String newline EmptyString))
   ≫= λ p, process_char p None)
  = Ok (Parser START_RECORD (fs ++ [s]) EmptyString).
Proof.
  intros H. rewrite list_ascii_app, fmap_app, foldR_app. destruct s as [|c s].
  - done.
  - rewrite process_plain; [|done|by right]. done.
Qed.

Lemma process_cells fs cells :
  cells ≠ [] → Forall (λ s, plain s = true) cells →
  (foldR process_char (Parser START_FIELD fs EmptyString)
    (Some <$> String.list_ascii_of_string (join "," cells +:+ String newline EmptyString))
   ≫= λ p, process_char p None)
  = Ok (Parser START_RECORD (fs ++ cells) EmptyString).
Proof.
  revert fs. induction cells as [|s cells IH]; intros fs Hne H; [done|].
  inversion H as [|? ? Hs Hcs]; subst. destruct cells as [|s2 cells].
  - by apply process_last.
  - change (join "," (s :: s2 :: cells)) with (s +:+ "," +:+ join "," (s2 :: cells)).
    rewrite !app_str_assoc, <- app_str_assoc, list_ascii_app, fmap_app, foldR_app.
    rewrite process_cell by done. cbn [mbind result_bind]. rewrite IH by done.
    by rewrite <- app_assoc.
Qed.

Definition plain_record (cells : list string) : Prop :=
  cells ≠ [] ∧ cells ≠ [EmptyString] ∧ Forall (λ s, plain s = true) cells.

(** The first character of a plain record is not a line break. *)
Lemma plain_record_first cells :
  plain_record cells →
  ∃ c s, join "," cells = String c s ∧ is_crnl c = false.
Proof.
  intros (Hne & Hn1 & H). destruct cells as [|[|c s] cells]; [done| |].
  - destruct cells; [done|]. exists ","%char. by eexists.
  - inversion H as [|? ? Hs _]; subst. unfold plain in Hs. cbn in Hs.
    apply andb_true_iff in Hs as [Hc _]. apply negb_true_iff, orb_false_iff in Hc as [_ Hc].
    exists c. destruct cells; eexists; (split; [|exact Hc]); [done|]. cbn [join].
    by rewrite app_str_cons.
Qed.

Lemma process_record cells :
  plain_record cells →
  process_line start (join "," cells +:+ String newline EmptyString)
  = Ok (Parser START_RECORD cells EmptyString).
Proof.
  intros H. destruct (plain_record_first _ H) as (c & s & E & Hc).
  destruct H as (Hne & _ & H). pose proof (process_cells [] cells Hne H) as K.
  unfold process_line. rewrite E, app_str_cons in *.
  cbn [String.list_ascii_of_string fmap list_fmap foldR] in *.
  assert (process_char start (Some c) = process_char (Parser START_FIELD [] EmptyString) (Some c)) as ->;
    [|exact K].
  unfold process_char. cbn. by rewrite Hc.
Qed.

Lemma keep_lines_app l s :
  no_char newline l = true →
  keep_lines (l +:+ String newline s) = (l +:+ String newline EmptyString) :: keep_lines s.
Proof.
  unfold no_char. induction l as [|c l IH]; intros H.
  - change (EmptyString +:+ String newline s) with (String newline s). cbn [keep_lines].
    by rewrite Ascii.eqb_refl.
  - cbn in H. apply andb_true_iff in H as [Hc Hl]. apply negb_true_iff in Hc.
    rewrite !app_str_cons. cbn [keep_lines]. by rewrite Hc, IH.
Qed.

Lemma plain_is_line s : plain s = true → is_line s = true.
Proof.
  intros H. unfold is_line, no_char.
  apply andb_true_iff; split; (eapply all_chars_impl; [|exact H]); intros c Hc; cbn in Hc;
    unfold is_crnl in Hc; apply negb_true_iff in Hc; apply negb_true_iff;
    destruct (Ascii.eqb c newline), (Ascii.eqb c creturn); rewrite ?orb_true_r in Hc; done.
Qed.

Lemma join_is_line cells : Forall (λ s, plain s = true) cells → is_line (join "," cells) = true.
Proof.
  assert (∀ a b, is_line a = true → is_line b = true → is_line (a +:+ b) = true) as App.
  { intros a b. unfold is_line, no_char. rewrite !all_chars_app.
    intros [-> ->]%andb_true_iff [-> ->]%andb_true_iff. done. }
  induction 1 as [|s cells Hs H IH]; [done|]. cbn [join].
  destruct cells; [by apply plain_is_line|].
  apply App; [by apply plain_is_line|]. by apply App.
Qed.

(** A file of plain records is read back. *)
Lemma reader_plain rows :
  Forall plain_record rows → reader (unlines (join "," <$> rows)) = Ok rows.
Proof.
  intros H. unfold reader. rewrite universal_newlines_clean.
  2:{ apply no_char_unlines, Forall_fmap. eapply Forall_impl; [exact H|].
      intros r (_ & _ & Hr). by apply join_is_line. }
  induction H as [|r rows Hr H IH]; [done|]. rewrite fmap_cons. cbn [unlines].
  rewrite keep_lines_app.
  2:{ destruct Hr as (_ & _ & Hr). apply join_is_line, andb_true_iff in Hr as [Hr _]. exact Hr. }
  cbn [records]. rewrite process_record by done. cbn [mbind result_bind at_start pstate_of].
  by rewrite IH.
Qed.

(** The header of a file names each column once: then a record as long as the
    header is the row that pairs them. *)
Lemma zip_cols_app names vals d :
  length names = length vals → NoDup names → (∀ n, n ∈ names → n ∉ d.*1) →
  zip_cols names vals d = d ++ zip names (Some <$> vals).
Proof.
  revert vals d. induction names as [|n names IH]; intros [|v vals] d Hl Hd Hn; cbn in *; try lia.
  - by rewrite app_nil_r.
  - apply NoDup_cons in Hd as [Hd1 Hd2].
    assert (dset d n (Some v) = d ++ [(n, Some v)]) as E.
    { assert (n ∉ d.*1) as Hnd by (apply Hn; by left). clear -Hnd. induction d as [|[k x] d IH]; [done|].
      cbn in *. rewrite decide_False by set_solver. f_equal. apply IH. set_solver. }
    rewrite IH; [|lia|done|].
    + rewrite E, <- app_assoc. done.
    + intros m Hm. rewrite elem_of_dset_keys. intros [->|Hx]; [done|]. apply (Hn m); [by right|done].
Qed.

Lemma mk_row_plain names vals :
  length names = length vals → NoDup names →
  mk_row names vals = Drow (zip names (Some <$> vals)) [].
Proof.
  intros Hl Hd. unfold mk_row. rewrite zip_cols_app by (done || set_solver). cbn.
  f_equal. rewrite Hl. apply drop_all.
Qed.

(** A file written cell by cell under a header is read back row by row. *)
Lemma dict_reader_plain names rows :
  plain_record names → NoDup names →
  Forall (λ r, plain_record r ∧ length r = length names) rows →
  dict_reader (unlines (join "," <$> names :: rows))
  = Ok ((λ r, Drow (zip names (Some <$> r)) []) <$> rows).
Proof.
  intros Hn Hd H. unfold dict_reader. rewrite reader_plain.
  2:{ constructor; [done|]. eapply Forall_impl; [exact H|]. by intros r []. }
  cbn [mbind result_bind]. f_equal. induction H as [|r rows [Hr Hl] H IH]; [done|].
  destruct Hr as (Hne & _ & _). cbn [List.filter]. destruct r; [done|].
  rewrite !fmap_cons, IH, mk_row_plain; done.
Qed.
