(* ===== verification/ChartData.v ===== *)
(** The data a run of [sweep/mkcharts.py] charts: its arguments, the rows of
    the CSV files, the averaged series per product, and the saturation test
    that decides which markers are hollow.

    A point of a series is the dictionary of its numeric columns; a dataset
    [D] maps a product to its points in order of offered rate.  A product is
    the text of the [product] cell ([None] when a record is too short to have
    one).  Exceptions (a missing column, a cell that is not a number, a column
    absent from a repeat) are values of [result]. *)

From S2P Require Import Prelude PyFloat PyStr PyNum PyCsv.
From Stdlib Require Import QArith Qround Qabs Lqa.

Open Scope Z_scope.

(** ** Arguments *)

Definition is_csv (a : string) : bool := endswith ".csv" a.

(** [HERE] is the directory of the script. *)
Definition CSVS (HERE : string) (args : list string) : list string :=
  match List.filter is_csv args with
  | [] => [path_join HERE "knee-sweep.csv"]
  | l => l
  end.

Definition COMBINED (args : list string) : bool := bool_decide ("--combined" ∈ args).

Definition OUT (HERE : string) (args : list string) : string :=
  match List.filter (λ a, negb (is_csv a) && negb (startswith "--" a)) args with
  | [] => dirname HERE
  | d :: _ => d
  end.

(** ** Points and series *)

Definition point := list (string * Z).
Definition product := option string.
Definition dataset := list (product * list point).

(** [p[k]]. *)
Definition col (p : point) (k : string) : result Z := require (KeyError k) (dget p k).

Definition _isint (v : option string) : bool :=
  match int_cell v with Ok _ => true | Err _ => false end.

(** The numeric columns of a row, [product] left out whatever it holds. *)
Definition numeric_cols (r : drow) : point :=
  omap (λ kv : string * option string,
          if bool_decide (kv.1 ≠ "product") && _isint kv.2
          then match int_cell kv.2 with Ok z => Some (kv.1, z) | Err _ => None end
          else None) (cols r).

Definition acc := list ((product * Z) * list point).

Definition row_key (r : drow) : result (product * Z) :=
  p ← row_get r "product";
  c ← row_get r "rate";
  rate ← int_cell c;
  Ok (p, rate).

(** One iteration of the grouping loop. *)
Definition acc_row (a : acc) (r : drow) : result acc :=
  key ← row_key r;
  Ok (dappend a key (numeric_cols r)).

Definition _acc (rows : list drow) : result acc := foldR acc_row [] rows.

(** [round(sum(x[k] for x in reps) / len(reps))]. *)
Definition mean (reps : list point) (k : string) : result Z :=
  vs ← mapR (λ x, col x k) reps;
  if Z.of_nat (length reps) =? 0 then Err ZeroDivisionError else
  q ← require OverflowError (zdiv_f (zsum vs) (Z.of_nat (length reps)));
  require OverflowError (fround q).

Definition average (reps : list point) : result point :=
  match reps with
  | [] => Err IndexError
  | x :: _ => mapR (λ k, v ← mean reps k; Ok (k, v)) x.*1
  end.

Definition average_group (d : dataset) (g : (product * Z) * list point) : result dataset :=
  p ← average g.2;
  Ok (dappend d g.1.1 p).

(** The stable sort by rate. *)
Fixpoint insert_by (kp : Z * point) (l : list (Z * point)) : list (Z * point) :=
  match l with
  | [] => [kp]
  | kq :: l' => if kp.1 <=? kq.1 then kp :: l else kq :: insert_by kp l'
  end.

Definition sort_points (ps : list point) : result (list point) :=
  keyed ← mapR (λ p, k ← col p "rate"; Ok (k, p)) ps;
  Ok (snd <$> foldr insert_by [] keyed).

Definition D (rows : list drow) : result dataset :=
  a ← _acc rows;
  d ← foldR average_group [] a;
  mapR (λ s : product * list point, ps ← sort_points s.2; Ok (s.1, ps)) d.

(** [sat(d)]: the marker is drawn hollow. *)
Definition sat (d : point) : result bool :=
  a ← col d "achieved";
  r ← col d "rate";
  t ← nmul (lit (99 # 100)) (PInt r);
  Ok (nlt (PInt a) t).

(** [rows]: every row of every file, in the order of the arguments. *)
Definition read_csv (path : string) : M (list drow) :=
  text ← read_file path; lift (dict_reader text).

Definition read_rows (paths : list string) : M (list drow) :=
  ls ← mapMM read_csv paths; mret (concat ls).

(** [name in D] and [D[name]]. *)
Definition in_D (d : dataset) (name : string) : bool := bool_decide (Some name ∈ d.*1).
Definition series_of (d : dataset) (name : string) : list point := default [] (dget d (Some name)).

(** ** The saturation test *)

(** The literal [0.99] is a little below 99/100. *)
Lemma lit_099 : ((99 # 100) - pow2 (-55) <= rndQ (99 # 100) <= 99 # 100)%Q.
Proof. split; apply Qle_bool_iff; vm_compute; reflexivity. Qed.

(** The threshold as a float stays on the right side of every integer. *)
Lemma rnd_099 a r :
  (0 <= r <= 2 ^ 45)%Z → (0 <= a <= 2 ^ 53)%Z →
  (inject_Z a < rndQ (rndQ (99 # 100) * inject_Z r))%Q ↔ (100 * a < 99 * r)%Z.
Proof.
  intros Hr Ha. pose proof lit_099 as [Ll Lu].
  assert (0 <= inject_Z r)%Q as R0 by (change 0%Q with (inject_Z 0); rewrite <- Zle_Qle; lia).
  assert (inject_Z r <= pow2 45)%Q as Ru by (rewrite pow2_Z, <- Zle_Qle by lia; lia).
  set (c := rndQ (99 # 100)) in *. set (x := (c * inject_Z r)%Q).
  assert (x <= (99 # 100) * inject_Z r)%Q as Xu by (apply Qmult_le_compat_r; assumption).
  assert (((99 # 100) - pow2 (-55)) * inject_Z r <= x)%Q as Xl by (apply Qmult_le_compat_r; assumption).
  assert (pow2 (-55) * inject_Z r <= pow2 (-10))%Q as T.
  { rewrite Qmult_comm. apply Qle_trans with (pow2 45 * pow2 (-55))%Q;
      [apply Qmult_pow2_le, Ru | discriminate]. }
  assert (Qscale : ∀ u v, (u <= v)%Z → (inject_Z u <= inject_Z v)%Q) by (intros; by rewrite <- Zle_Qle).
  split.
  - intros H. destruct (Z_lt_ge_dec (100 * a) (99 * r)) as [|C]; [done|exfalso].
    assert (x <= inject_Z a)%Q as Xa.
    { apply Z.ge_le, Qscale in C. rewrite !inject_Z_mult in C.
      change (inject_Z 99) with 99%Q in C; change (inject_Z 100) with 100%Q in C. lra. }
    apply rnd_le_Z in Xa; [lra|lia].
  - intros H. pose proof (inject_Z_lt_1 _ _ H) as G. rewrite !inject_Z_mult in G.
    change (inject_Z 99) with 99%Q in G; change (inject_Z 100) with 100%Q in G.
    pose proof (rnd_error x) as E. rewrite (Qabs_pos x) in E.
    2:{ assert (0 <= inject_Z a)%Q by (change 0%Q with (inject_Z 0); apply Qscale; lia).
        change (pow2 (-10)) with (1 # 1024) in T. lra. }
    apply Qabs_Qle_condition in E as [E _].
    assert (x * pow2 (-53) <= pow2 (-8))%Q as T2.
    { apply Qle_trans with (pow2 45 * pow2 (-53))%Q; [apply Qmult_pow2_le; lra | discriminate]. }
    change (pow2 (-10)) with (1 # 1024) in T. change (pow2 (-8)) with (1 # 256) in T2.
    assert (pow2 (-1075) <= 1 # 4096)%Q by (apply Qle_bool_iff; vm_compute; reflexivity). lra.
Qed.

(** The comparison behind every hollow marker. *)
Lemma below_99 a r :
  (0 <= r <= 2 ^ 45)%Z → (0 <= a <= 2 ^ 53)%Z →
  (t ← nmul (lit (99 # 100)) (PInt r); Ok (nlt (PInt a) t)) = Ok (100 * a <? 99 * r).
Proof.
  intros Hr Ha.
  destruct (isf_Z r) as (f & Ef & If).
  { apply Z.le_lt_trans with (2 ^ 45)%Z; [lia|]. by apply Z.pow_lt_mono_r. }
  unfold nmul, arith, lit, to_float. rewrite Ef. cbn [mbind result_bind require].
  rewrite rnd_Z in If by lia.
  assert (isf (of_Q (99 # 100)) (rndQ (99 # 100))) as Ic by (apply isf_of_Q; by apply small_lt_pow).
  assert (Qabs (rndQ (99 # 100) * inject_Z r) < pow2 1023)%Q as B.
  { apply small_lt_pow. pose proof lit_099 as [_ Lu]. rewrite Qabs_pos.
    - apply Qle_trans with (1 * inject_Z r)%Q; [apply Qmult_le_compat_r; [lra|]|].
      + change 0%Q with (inject_Z 0). rewrite <- Zle_Qle. lia.
      + rewrite Qmult_1_l, <- Zle_Qle. lia.
    - apply Qmult_le_0_compat; [by apply rndQ_nonneg|]. change 0%Q with (inject_Z 0).
      rewrite <- Zle_Qle. lia. }
  pose proof (isf_mul _ _ _ _ Ic If B) as Im. f_equal.
  change (zlt_f a (fmul (of_Q (99 # 100)) f) = (100 * a <? 99 * r)).
  apply eq_bool_prop_intro. rewrite !Is_true_true, (zlt_f_isf _ _ _ Im), Z.ltb_lt. by apply rnd_099.
Qed.

Lemma sat_ok d a r :
  col d "achieved" = Ok a → col d "rate" = Ok r →
  (0 <= r <= 2 ^ 45)%Z → (0 <= a <= 2 ^ 53)%Z →
  sat d = Ok (100 * a <? 99 * r).
Proof. intros Ea Er Hr Ha. unfold sat. rewrite Ea, Er. cbn [mbind result_bind]. by apply below_99. Qed.

(** C11 A marker is drawn hollow exactly when the achieved rate is below 99%
    of the offered rate: the float product [0.99*rate] never misjudges a
    point, also when 99% of the rate is itself an integer. *)
Theorem sat_exact d a r :
  col d "achieved" = Ok a → col d "rate" = Ok r →
  (0 <= r <= 2 ^ 45)%Z → (0 <= a <= 2 ^ 53)%Z →
  sat d = Ok (100 * a <? 99 * r).
Proof. apply sat_ok. Qed.

Lemma sat_exact_witness :
  sat [("rate", 250000); ("achieved", 247500)] = Ok false ∧
  sat [("rate", 250000); ("achieved", 247499)] = Ok true.
Proof.
  split.
  - rewrite (sat_exact [("rate", 250000); ("achieved", 247500)] 247500 250000); [reflexivity..|lia|lia].
  - rewrite (sat_exact [("rate", 250000); ("achieved", 247499)] 247499 250000); [reflexivity..|lia|lia].
Defined.

(** ** Averages *)

(** The mean of a column, rounded half to even. *)
Definition mean_ref (vs : list Z) : Z := rne (inject_Z (zsum vs) / inject_Z (Z.of_nat (length vs))).

Lemma mapR_length {A B} (f : A → result B) l ys : mapR f l = Ok ys → length ys = length l.
Proof. rewrite mapR_Ok. intros H. symmetry. by eapply Forall2_length. Qed.

Lemma mean_ok reps k vs :
  mapR (λ x, col x k) reps = Ok vs → reps ≠ [] →
  (Z.of_nat (length reps) <= 2 ^ 20)%Z → (Z.abs (zsum vs) <= 2 ^ 51)%Z →
  mean reps k = Ok (mean_ref vs).
Proof.
  intros Ev Hne Hn Hs. pose proof (mapR_length _ _ _ Ev) as El. unfold mean, mean_ref.
  rewrite Ev, El. cbn [mbind result_bind].
  set (n := Z.of_nat (length reps)) in *. assert (0 < n)%Z as N0 by (destruct reps; [done|subst n; cbn; lia]).
  destruct (Z.eqb_spec n 0) as [|_]; [lia|].
  destruct (isf_zdiv (zsum vs) n) as (f & Ef & If).
  { apply small_lt_pow. apply Qle_trans with (inject_Z (2 ^ 51)); [|rewrite <- Zle_Qle; lia].
    assert (1 <= inject_Z n)%Q by (change 1%Q with (inject_Z 1); rewrite <- Zle_Qle; lia).
    unfold Qdiv. rewrite Qabs_Qmult. change (Qabs (inject_Z (zsum vs))) with (inject_Z (Z.abs (zsum vs))).
    rewrite (Qabs_pos (/ _)) by (apply Qinv_le_0_compat; lra).
    apply Qle_shift_div_r; [lra|]. apply Qle_trans with (inject_Z (2 ^ 51) * 1)%Q.
    - rewrite Qmult_1_r, <- Zle_Qle. exact Hs.
    - apply Qmult_le_l; [reflexivity|done]. }
  rewrite Ef. cbn [require mbind result_bind]. rewrite (fround_isf _ _ If). cbn. f_equal.
  by apply rne_rnd_div.
Qed.

(** ** The dataset against its specification

    The specification, without dictionaries: the series of a product has one
    point per distinct offered rate, in increasing order, and that point holds
    the rounded mean of every column over the rows with that product and
    rate. *)

Definition keyed (r : drow) : result ((product * Z) * point) :=
  key ← row_key r; Ok (key, numeric_cols r).

Definition column (k : string) (reps : list point) : list Z := omap (λ x, dget x k) reps.

Definition avg_ref (names : list string) (reps : list point) : point :=
  (λ k, (k, mean_ref (column k reps))) <$> names.

Definition rates_of (p : product) (kvs : list ((product * Z) * point)) : list Z :=
  merge_sort Z.le (remove_dups (values p kvs.*1)).

(** The numeric columns of a product's runs at a rate. *)
Definition columns : Type := product * Z → list string.

Definition series_ref (names : columns) (kvs : list ((product * Z) * point)) (p : product) : list point :=
  (λ z, avg_ref (names (p, z)) (values (p, z) kvs)) <$> rates_of p kvs.

(** Rows that can be averaged: each has a product and a rate, repeats of a
    product at a rate have the same numeric columns (other products and other
    rates may have others), and no sum of a column leaves the range in which
    a float holds it exactly.  [mixed_repeats] shows what happens to repeats
    that differ. *)
Record sweep_rows (names : columns) (rows : list drow) (kvs : list ((product * Z) * point)) : Prop := {
  sr_keyed : mapR keyed rows = Ok kvs;
  sr_names : Forall (λ kv, NoDup kv.2.*1) kvs;
  sr_cols : Forall (λ kv, kv.2.*1 = names kv.1) kvs;
  sr_len : Z.of_nat (length kvs) <= 2 ^ 20;
  sr_bound : Forall (λ kv, Forall (λ c, Z.abs c.2 <= 2 ^ 31) kv.2) kvs;
}.

(** *** Grouping *)

Lemma _acc_dgroup rows kvs : mapR keyed rows = Ok kvs → _acc rows = Ok (dgroup kvs).
Proof.
  unfold _acc, dgroup. generalize (@nil ((product * Z) * list point)).
  revert kvs. induction rows as [|r rows IH]; intros kvs a H; cbn in H.
  - inv_ok. done.
  - apply bind_Ok in H as (kv & Ek & H). apply bind_Ok in H as (kvs' & Ekv & H). inv_ok.
    cbn [foldR foldl]. unfold acc_row. unfold keyed in Ek. apply bind_Ok in Ek as (key & -> & Ek).
    inv_ok. cbn [mbind result_bind fst snd]. by apply IH.
Qed.

Lemma row_rate r key p : keyed r = Ok (key, p) → dget p "rate" = Some key.2.
Proof.
  unfold keyed, row_key. intros H. apply bind_Ok in H as (k & Hk & H). inv_ok.
  unfold row_get in *. inv_ok. cbn. unfold numeric_cols.
  match goal with H : dget (cols r) "product" = _ |- _ => clear H end.
  match goal with H : dget (cols r) "rate" = Some _ |- _ => revert H end.
  match goal with H : int_cell ?c = Ok ?z |- _ => rename c into cell, z into rate, H into Hc end.
  induction (cols r) as [|[k v] l IH]; intros E; [done|]. cbn [dget] in E.
  cbn [omap list_omap fst snd]. destruct (decide ("rate" = k)) as [<-|Hne].
  - injection E as ->. unfold _isint. rewrite Hc, bool_decide_eq_true_2 by done. cbn [andb dget].
    by rewrite decide_True.
  - destruct (bool_decide _ && _isint v); [|by apply IH].
    destruct (int_cell v); [|by apply IH]. cbn [dget]. rewrite decide_False by done. by apply IH.
Qed.

(** *** Averaging a group *)

Lemma dget_some_in (names : list string) (x : point) k :
  x.*1 = names → k ∈ names → ∃ v, dget x k = Some v.
Proof.
  intros <- H. destruct (dget x k) eqn:E; [eauto|]. by apply dget_None in E.
Qed.

Lemma mapR_col names reps k :
  Forall (λ x : point, x.*1 = names) reps → k ∈ names →
  mapR (λ x, col x k) reps = Ok (column k reps).
Proof.
  intros H Hk. unfold column. induction H as [|x reps Hx H IH]; [done|]. cbn.
  destruct (dget_some_in _ _ _ Hx Hk) as (v & E). unfold col. rewrite E. cbn [require mbind result_bind].
  unfold col in IH. rewrite IH. done.
Qed.

Lemma column_bound k reps :
  Forall (Forall (λ c : string * Z, Z.abs c.2 <= 2 ^ 31)) reps →
  Z.of_nat (length reps) <= 2 ^ 20 → Z.abs (zsum (column k reps)) <= 2 ^ 51.
Proof.
  intros H Hn.
  enough (Z.abs (zsum (column k reps)) <= 2 ^ 31 * Z.of_nat (length reps)) by lia.
  clear Hn. unfold column. induction H as [|x reps Hx H IH]; [done|]. cbn [omap list_omap].
  destruct (dget x k) as [v|] eqn:E; cbn [length zsum foldr] in *; [|lia].
  apply dget_In in E. rewrite Forall_forall in Hx. apply Hx in E. cbn in E.
  unfold zsum in *. cbn [foldr]. lia.
Qed.

Lemma average_ref names reps :
  reps ≠ [] → Forall (λ x : point, x.*1 = names) reps →
  Forall (Forall (λ c : string * Z, Z.abs c.2 <= 2 ^ 31)) reps →
  Z.of_nat (length reps) <= 2 ^ 20 →
  average reps = Ok (avg_ref names reps).
Proof.
  intros Hne Hc Hb Hn. unfold average. destruct reps as [|x reps'] eqn:Er; [done|]. rewrite <- Er in *.
  assert (x.*1 = names) as -> by (rewrite Er in Hc; by inversion Hc).
  etrans; [|exact (mapR_pure (λ k, (k, mean_ref (column k reps))) names)].
  assert (∀ ks, (∀ k, k ∈ ks → k ∈ names) →
     mapR (λ k, v ← mean reps k; Ok (k, v)) ks = mapR (λ k, Ok (k, mean_ref (column k reps))) ks) as G.
  { intros ks Hks. induction ks as [|k ks IH]; [done|]. cbn [mapR].
    rewrite (mean_ok reps k (column k reps)).
    - cbn [mbind result_bind]. rewrite IH; [done|set_solver].
    - apply (mapR_col names); [done|set_solver].
    - by rewrite Er.
    - done.
    - by apply column_bound. }
  by apply G.
Qed.

Lemma mean_ref_const z l : l ≠ [] → Forall (λ x, x = z) l → mean_ref l = z.
Proof.
  intros Hne H. unfold mean_ref.
  assert (zsum l = z * Z.of_nat (length l))%Z as ->.
  { clear Hne. induction H; unfold zsum in *; cbn [foldr length]; lia. }
  assert (~ inject_Z (Z.of_nat (length l)) == 0)%Q.
  { change 0%Q with (inject_Z 0). rewrite inject_Z_injective. destruct l; [done|cbn; lia]. }
  rewrite inject_Z_mult. unfold Qdiv. rewrite <- Qmult_assoc, Qmult_inv_r, Qmult_1_r by done. apply rne_Z.
Qed.

(** *** Sorting by rate *)

Fixpoint insZ (z : Z) (l : list Z) : list Z :=
  match l with [] => [z] | y :: l' => if z <=? y then z :: l else y :: insZ z l' end.

Lemma insZ_perm z l : insZ z l ≡ₚ z :: l.
Proof. induction l as [|y l IH]; cbn; [done|]. destruct (z <=? y); [done|]. rewrite IH. constructor. Qed.

Lemma insZ_sorted z l : StronglySorted Z.le l → StronglySorted Z.le (insZ z l).
Proof.
  induction 1 as [|y l H IH Hy]; cbn; [repeat constructor|]. destruct (Z.leb_spec z y).
  - constructor; [by constructor|]. constructor; [done|]. eapply Forall_impl; [exact Hy|]. cbn. lia.
  - constructor; [done|]. rewrite insZ_perm. constructor; [lia|done].
Qed.

Lemma isort_spec zs : foldr insZ [] zs = merge_sort Z.le zs.
Proof.
  apply (StronglySorted_unique Z.le).
  - induction zs; cbn; [constructor|]. by apply insZ_sorted.
  - apply (StronglySorted_merge_sort Z.le).
  - rewrite merge_sort_Permutation. induction zs as [|z zs IH]; cbn; [done|]. by rewrite insZ_perm, IH.
Qed.

Lemma insert_by_map (h : Z → point) zs :
  foldr insert_by [] ((λ z, (z, h z)) <$> zs) = (λ z, (z, h z)) <$> foldr insZ [] zs.
Proof.
  induction zs as [|z zs IH]; [done|]. rewrite fmap_cons. cbn [foldr]. rewrite IH.
  generalize (foldr insZ [] zs). intros l. induction l as [|y l IHl]; [done|].
  rewrite fmap_cons. cbn. destruct (z <=? y); [done|]. rewrite fmap_cons. f_equal. exact IHl.
Qed.

Lemma sort_points_map (h : Z → point) zs :
  Forall (λ z, dget (h z) "rate" = Some z) zs →
  sort_points (h <$> zs) = Ok (h <$> merge_sort Z.le zs).
Proof.
  intros H. unfold sort_points.
  assert (mapR (λ p, k ← col p "rate"; Ok (k, p)) (h <$> zs) = Ok ((λ z, (z, h z)) <$> zs)) as ->.
  { induction H as [|z zs Hz H IH]; [done|]. rewrite !fmap_cons. cbn [mapR].
    assert (col (h z) "rate" = Ok z) as -> by (unfold col; by rewrite Hz).
    cbn [mbind result_bind]. by rewrite IH. }
  cbn [mbind result_bind]. by rewrite insert_by_map, isort_spec, <- list_fmap_compose.
Qed.

(** *** Assembling the dataset *)

Section Dataset.
Context (names : columns) (rows : list drow) (kvs : list ((product * Z) * point)).
Hypothesis SR : sweep_rows names rows kvs.

Lemma kvs_rate key x : (key, x) ∈ kvs → dget x "rate" = Some key.2.
Proof.
  pose proof (sr_keyed _ _ _ SR) as H. apply mapR_Ok in H. intros Hin.
  apply list_elem_of_lookup in Hin as [i Hi].
  destruct (Forall2_lookup_r _ _ _ _ _ H Hi) as (r & _ & Hr). by apply row_rate in Hr.
Qed.

Lemma values_cols key : Forall (λ x : point, x.*1 = names key) (values key kvs).
Proof.
  apply Forall_forall. intros x Hx%values_In.
  by apply (proj1 (Forall_forall _ _) (sr_cols _ _ _ SR)) in Hx.
Qed.

Lemma values_bound key : Forall (Forall (λ c : string * Z, Z.abs c.2 <= 2 ^ 31)) (values key kvs).
Proof.
  apply Forall_forall. intros x Hx%values_In.
  by apply (proj1 (Forall_forall _ _) (sr_bound _ _ _ SR)) in Hx.
Qed.

Lemma values_len key : Z.of_nat (length (values key kvs)) <= 2 ^ 20.
Proof.
  pose proof (sr_len _ _ _ SR). unfold values. rewrite length_fmap.
  pose proof (length_filter (λ kv : (product * Z) * point, kv.1 = key) kvs). lia.
Qed.

Lemma average_values key :
  values key kvs ≠ [] → average (values key kvs) = Ok (avg_ref (names key) (values key kvs)).
Proof. intros H. apply average_ref; auto using values_cols, values_bound, values_len. Qed.

Lemma names_rate key : values key kvs ≠ [] → "rate" ∈ names key.
Proof.
  pose proof (values_cols key) as Hc. destruct (values key kvs) as [|x l] eqn:E; [done|]. intros _.
  assert ((key, x) ∈ kvs) as Hx by (apply values_In; rewrite E; by left).
  apply kvs_rate, dget_In in Hx. apply Forall_cons in Hc as [<- _].
  apply list_elem_of_fmap. by exists ("rate", key.2).
Qed.

(** The averaged point keeps its group's rate. *)
Lemma avg_rate p z :
  values (p, z) kvs ≠ [] → dget (avg_ref (names (p, z)) (values (p, z) kvs)) "rate" = Some z.
Proof.
  intros Hne. pose proof (names_rate (p, z) Hne) as Hr. unfold avg_ref.
  assert (mean_ref (column "rate" (values (p, z) kvs)) = z) as E.
  { apply mean_ref_const; unfold column.
    - destruct (values (p, z) kvs) as [|x l] eqn:Ev; [done|]. cbn.
      assert (x ∈ values (p, z) kvs) as Hx by (rewrite Ev; by left).
      apply values_In, kvs_rate in Hx. by rewrite Hx.
    - apply Forall_forall. intros v Hv. apply list_elem_of_omap in Hv as (x & Hx & Hv).
      apply values_In, kvs_rate in Hx. cbn in Hx. congruence. }
  revert Hr. generalize (names (p, z)). intros ks Hr.
  induction ks as [|k ks IH]; [by apply not_elem_of_nil in Hr|]. rewrite fmap_cons. cbn [dget].
  destruct (decide ("rate" = k)) as [<-|Hk]; [by rewrite E|]. apply IH.
  by apply elem_of_cons in Hr as [|].
Qed.

(** The averaged groups, before they are filed by product. *)
Definition averaged : list (product * point) :=
  (λ g : (product * Z) * list point, (g.1.1, avg_ref (names g.1) g.2)) <$> dgroup kvs.

Lemma foldR_average d (gs : acc) :
  (∀ g, g ∈ gs → g ∈ dgroup kvs) →
  foldR average_group d gs
  = Ok (foldl (λ d kv, dappend d kv.1 kv.2) d
         ((λ g : (product * Z) * list point, (g.1.1, avg_ref (names g.1) g.2)) <$> gs)).
Proof.
  revert d. induction gs as [|g gs IH]; intros d H; [done|]. rewrite fmap_cons. cbn [foldR foldl].
  destruct g as [key reps].
  assert ((key, reps) ∈ dgroup kvs) as [-> Hne]%dgroup_In by (apply H; by left).
  assert (average_group d (key, values key kvs) = Ok (dappend d key.1 (avg_ref (names key) (values key kvs)))) as ->.
  { unfold average_group. cbn [fst snd]. by rewrite average_values. }
  cbn [mbind result_bind fst snd]. apply IH.
  intros g Hg. apply H. by right.
Qed.

(** The distinct rates of a product, in the order the groups were created. *)
Definition group_rates (p : product) : list Z := values p (dgroup kvs).*1.

Lemma averaged_values p :
  values p averaged = (λ z, avg_ref (names (p, z)) (values (p, z) kvs)) <$> group_rates p.
Proof.
  unfold averaged, group_rates.
  assert (∀ gs : acc, (∀ g, g ∈ gs → g ∈ dgroup kvs) →
    values p ((λ g : (product * Z) * list point, (g.1.1, avg_ref (names g.1) g.2)) <$> gs)
    = (λ z, avg_ref (names (p, z)) (values (p, z) kvs)) <$> values p gs.*1) as G; [|by apply G].
  induction gs as [|[[p' z] reps] gs IH]; intros H; [done|]. rewrite !fmap_cons. unfold values in *.
  rewrite !filter_cons. cbn [fst snd].
  assert (((p', z), reps) ∈ dgroup kvs) as [-> Hne]%dgroup_In by (apply H; by left).
  destruct (decide (p' = p)) as [->|]; rewrite ?fmap_cons; cbn [snd]; rewrite IH; set_solver.
Qed.

Lemma group_rates_NoDup p : NoDup (group_rates p).
Proof.
  unfold group_rates. pose proof (dgroup_NoDup kvs) as H. unfold values.
  apply NoDup_fmap_2_strong; [|by apply NoDup_filter].
  intros [p1 z1] [p2 z2] [E1 _]%list_elem_of_filter [E2 _]%list_elem_of_filter E. cbn in *. congruence.
Qed.

Lemma group_rates_In p z : z ∈ group_rates p ↔ (p, z) ∈ kvs.*1.
Proof. unfold group_rates. rewrite values_In. apply dgroup_keys. Qed.

Lemma group_rates_sorted p : merge_sort Z.le (group_rates p) = rates_of p kvs.
Proof.
  apply (StronglySorted_unique Z.le); [apply (StronglySorted_merge_sort Z.le)..|].
  unfold rates_of. rewrite !merge_sort_Permutation. apply NoDup_Permutation.
  - apply group_rates_NoDup.
  - apply NoDup_remove_dups.
  - intros z. by rewrite group_rates_In, elem_of_remove_dups, values_In.
Qed.

Lemma series_sorted p :
  sort_points (values p averaged) = Ok (series_ref names kvs p).
Proof.
  rewrite averaged_values, sort_points_map.
  - by rewrite group_rates_sorted.
  - apply Forall_forall. intros z Hz. apply avg_rate. apply group_rates_In in Hz.
    intros E. apply list_elem_of_fmap in Hz as ([k x] & Ek & Hx). cbn in Ek. subst k. apply values_In in Hx.
    rewrite E in Hx. by apply not_elem_of_nil in Hx.
Qed.

Lemma D_ref : D rows = Ok ((λ s, (s.1, series_ref names kvs s.1)) <$> dgroup averaged).
Proof.
  unfold D. rewrite (_acc_dgroup _ _ (sr_keyed _ _ _ SR)). cbn [mbind result_bind].
  rewrite foldR_average by done. cbn [mbind result_bind]. fold averaged. fold (dgroup averaged).
  assert (∀ l, (∀ s, s ∈ l → s ∈ dgroup averaged) →
    mapR (λ s : product * list point, ps ← sort_points s.2; Ok (s.1, ps)) l
    = Ok ((λ s, (s.1, series_ref names kvs s.1)) <$> l)) as G; [|by apply G].
  induction l as [|[p ps] l IH]; intros H; [done|]. rewrite fmap_cons. cbn [mapR fst snd].
  assert ((p, ps) ∈ dgroup averaged) as [-> _]%dgroup_In by (apply H; by left).
  rewrite series_sorted. cbn [mbind result_bind]. rewrite IH; [done|]. intros s Hs. apply H. by right.
Qed.

Lemma averaged_products p : p ∈ averaged.*1 ↔ p ∈ kvs.*1.*1.
Proof.
  unfold averaged. rewrite <- list_fmap_compose. cbn.
  split; intros H; apply list_elem_of_fmap in H as (x & -> & Hx).
  - destruct x as [[p z] reps]. apply list_elem_of_fmap. exists (p, z). split; [done|].
    apply dgroup_keys. apply list_elem_of_fmap. by exists ((p, z), reps).
  - apply dgroup_keys in Hx. apply list_elem_of_fmap in Hx as ([[p z] reps] & -> & Hx).
    apply list_elem_of_fmap. by exists ((p, z), reps).
Qed.
End Dataset.

(** ** Theorems on the dataset *)

(** C3 On rows whose repeats have the same numeric columns the averaging code
    returns, its products are those of the rows, each once, and the series of
    a product is the specified one: a point per distinct rate, in order of
    rate, each column the mean of the repeats rounded half to even. *)
Theorem dataset_refines_spec names rows kvs :
  sweep_rows names rows kvs →
  ∃ d, D rows = Ok d ∧ NoDup d.*1 ∧ (∀ p, p ∈ d.*1 ↔ p ∈ kvs.*1.*1) ∧
       ∀ p ps, dget d p = Some ps → ps = series_ref names kvs p.
Proof.
  intros SR. eexists. split; [by apply (D_ref names rows kvs)|].
  rewrite <- list_fmap_compose. cbn [compose]. split; [|split].
  - apply dgroup_NoDup.
  - intros p. rewrite <- (averaged_products names kvs), <- dgroup_keys. done.
  - intros p ps H. apply dget_In, list_elem_of_fmap in H as (s & E & _). by injection E as -> ->.
Qed.

Lemma rates_strict p kvs : StronglySorted Z.lt (rates_of p kvs).
Proof.
  pose proof (StronglySorted_merge_sort Z.le (remove_dups (values p kvs.*1))) as H.
  assert (NoDup (rates_of p kvs)) as N.
  { unfold rates_of. rewrite merge_sort_Permutation. apply NoDup_remove_dups. }
  fold (rates_of p kvs) in H. induction H as [|z l Hl IH Hz]; [constructor|].
  apply NoDup_cons in N as [N1 N2]. constructor; [auto|].
  apply Forall_forall. intros y Hy. rewrite Forall_forall in Hz. specialize (Hz y Hy).
  destruct (decide (y = z)); [by subst|lia].
Qed.

(** C20 In every series the offered rates strictly increase, so a path drawn
    through the points runs left to right and never doubles back, and the
    last point is the highest rate measured. *)
Theorem rates_increase names rows kvs d p ps :
  sweep_rows names rows kvs → D rows = Ok d → dget d p = Some ps →
  ∃ zs, mapR (λ pt, col pt "rate") ps = Ok zs ∧ StronglySorted Z.lt zs ∧
        ∀ z, z ∈ zs ↔ (p, z) ∈ kvs.*1.
Proof.
  intros SR HD Hp. rewrite (D_ref names rows kvs SR) in HD. inv_ok.
  apply dget_In, list_elem_of_fmap in Hp as (s & E & _). injection E as -> ->.
  exists (rates_of s.1 kvs). split; [|split; [apply rates_strict|]].
  - apply mapR_Ok. unfold series_ref. rewrite Forall2_fmap_l. apply Forall_Forall2_diag.
    apply Forall_forall. intros z Hz.
    change (col (avg_ref (names (s.1, z)) (values (s.1, z) kvs)) "rate" = Ok z). unfold col.
    rewrite (avg_rate names rows kvs SR); [done|].
    unfold rates_of in Hz. rewrite merge_sort_Permutation in Hz. apply elem_of_remove_dups, values_In in Hz.
    apply list_elem_of_fmap in Hz as ([k x] & Ek & Hx). cbn in Ek. subst k. apply values_In in Hx.
    intros C. rewrite C in Hx. by apply not_elem_of_nil in Hx.
  - intros z. unfold rates_of. rewrite merge_sort_Permutation, elem_of_remove_dups. apply values_In.
Qed.

Lemma values_perm {K V} `{EqDecision K} (k : K) (l l' : list (K * V)) :
  l ≡ₚ l' → values k l ≡ₚ values k l'.
Proof. intros H. unfold values. by rewrite H. Qed.

Lemma mean_ref_perm l l' : l ≡ₚ l' → mean_ref l = mean_ref l'.
Proof. intros H. unfold mean_ref. by rewrite (zsum_perm _ _ H), H. Qed.

Lemma series_ref_perm names kvs kvs' p :
  kvs ≡ₚ kvs' → series_ref names kvs p = series_ref names kvs' p.
Proof.
  intros H. unfold series_ref.
  assert (rates_of p kvs = rates_of p kvs') as ->.
  { apply (StronglySorted_unique Z.le); [apply (StronglySorted_merge_sort Z.le)..|].
    unfold rates_of. rewrite !merge_sort_Permutation. apply NoDup_Permutation;
      [apply NoDup_remove_dups..|]. intros z. by rewrite !elem_of_remove_dups, !values_In, H. }
  apply list_fmap_ext. intros _ z _. unfold avg_ref. apply list_fmap_ext. intros _ k _. f_equal.
  apply mean_ref_perm. unfold column. by rewrite (values_perm (p, z) _ _ H).
Qed.

(** C19 As long as repeats of a product at a rate have the same numeric
    columns, the series do not depend on the order of the rows, nor on how
    they are split over CSV files or in which order the files are named: any
    permutation of the rows gives every product the same series. *)
Theorem row_order_irrelevant names rows rows' kvs :
  sweep_rows names rows kvs → rows ≡ₚ rows' →
  ∃ d d', D rows = Ok d ∧ D rows' = Ok d' ∧ ∀ p, dget d p = dget d' p.
Proof.
  intros SR P. pose proof SR as [Hk Hnd Hc Hl Hb].
  destruct (mapR_perm _ _ _ _ P Hk) as (kvs' & Hk' & Q).
  assert (sweep_rows names rows' kvs') as SR'.
  { split; [done|by rewrite <- Q..]. }
  do 2 eexists. split; [by apply (D_ref _ _ _ SR)|]. split; [by apply (D_ref _ _ _ SR')|].
  assert (∀ ks (l : list (product * list point)) p,
     dget ((λ s, (s.1, series_ref names ks s.1)) <$> l) p
     = if decide (p ∈ l.*1) then Some (series_ref names ks p) else None) as G.
  { intros ks l p. induction l as [|[q qs] l IH]; [done|]. rewrite fmap_cons. cbn [dget fst].
    rewrite IH, fmap_cons. cbn [fst]. repeat case_decide; subst; set_solver. }
  intros p. rewrite !G, (series_ref_perm names _ _ p Q).
  assert (p ∈ (dgroup (averaged names kvs)).*1 ↔ p ∈ (dgroup (averaged names kvs')).*1) as E.
  { rewrite !dgroup_keys, !averaged_products. by rewrite Q. }
  repeat case_decide; tauto.
Qed.

(** A rate that was measured once is charted exactly as measured. *)
Theorem single_run_unchanged names rows kvs d p z x :
  sweep_rows names rows kvs → D rows = Ok d → values (p, z) kvs = [x] →
  ∃ ps, dget d p = Some ps ∧ x ∈ ps.
Proof.
  intros SR HD Hv. rewrite (D_ref names rows kvs SR) in HD. inv_ok.
  assert (((p, z), x) ∈ kvs) as Hx by (apply values_In; rewrite Hv; by left).
  assert ((p, z) ∈ kvs.*1) as Hk by (apply list_elem_of_fmap; by exists ((p, z), x)).
  exists (series_ref names kvs p). split.
  - apply In_dget.
    + rewrite <- list_fmap_compose. apply dgroup_NoDup.
    + assert (p ∈ (dgroup (averaged names kvs)).*1) as Hp.
      { rewrite dgroup_keys, averaged_products. apply list_elem_of_fmap. by exists (p, z). }
      apply list_elem_of_fmap in Hp as (s & -> & Hs). apply list_elem_of_fmap. by exists s.
  - unfold series_ref. apply list_elem_of_fmap. exists z. split.
    + rewrite Hv. pose proof Hx as Hin. pose proof (sr_cols _ _ _ SR) as Hc. rewrite Forall_forall in Hc. apply Hc in Hx.
      cbn in Hx. pose proof (sr_names _ _ _ SR) as Nd. rewrite Forall_forall in Nd. apply Nd in Hin. cbn in Hin.
      unfold avg_ref, column. cbn. rewrite <- Hx. clear -Hin. rename Hin into Nd. rewrite <- list_fmap_compose.
      symmetry. etrans; [|apply list_fmap_id]. apply list_fmap_ext. intros i [k v] Hi. cbn.
      apply list_elem_of_lookup_2 in Hi. rewrite (In_dget _ _ _ Nd Hi). cbn. f_equal.
      apply mean_ref_const; [done|by constructor].
    + unfold rates_of. rewrite merge_sort_Permutation. by apply elem_of_remove_dups, values_In.
Qed.

(** ** Reading the files *)

(** A sweep's CSV: a header and one record per run, all plain cells. *)
Record sheet := Sheet { header : list string; runs : list (list string) }.

Definition sheet_ok (s : sheet) : Prop :=
  plain_record (header s) ∧ NoDup (header s) ∧
  Forall (λ r, plain_record r ∧ length r = length (header s)) (runs s).

Definition sheet_text (s : sheet) : string := unlines (join "," <$> header s :: runs s).
Definition sheet_rows (s : sheet) : list drow :=
  (λ r, Drow (zip (header s) (Some <$> r)) []) <$> runs s.

(** C27 Reading the named files gives the rows the sweeps wrote, file after
    file in the order of the arguments, each row with its own file's header,
    and changes nothing in the world. *)
Theorem read_rows_sheets paths sheets w :
  Forall2 (λ path s, files w !! path = Some (sheet_text s) ∧ sheet_ok s) paths sheets →
  read_rows paths w = (Ok (concat (sheet_rows <$> sheets)), w).
Proof.
  intros H. unfold read_rows.
  rewrite (M_bind_Ok _ _ w (sheet_rows <$> sheets) w); [done|].
  induction H as [|path s paths sheets [Hf (Hh & Hd & Hr)] H IH]; [done|]. cbn [mapMM].
  rewrite (M_bind_Ok _ _ w (sheet_rows s) w).
  - by rewrite (M_bind_Ok _ _ w _ _ IH).
  - unfold read_csv. rewrite (M_bind_Ok _ _ w (sheet_text s) w).
    + unfold lift, sheet_text. by rewrite dict_reader_plain.
    + unfold read_file. by rewrite Hf.
Qed.

(** ** A small sweep, for the witnesses *)

Definition demo_sheet : sheet :=
  Sheet ["product"; "rate"; "achieved"; "p50"; "p99"; "fleet"]
    [["braft"; "25000"; "24992"; "704"; "949"; "c7a"];
     ["braft"; "10000"; "9997"; "634"; "746"; "c7a"];
     ["aeron"; "25000"; "24998"; "541"; "655"; "c7a"];
     ["braft"; "25000"; "24111"; "711"; "1020"; "c7a"]].

Definition demo_files : world := World {[ "a.csv" := sheet_text demo_sheet ]} [] [].
Definition demo_names : columns := λ _, ["rate"; "achieved"; "p50"; "p99"].
Definition demo_kvs : list ((product * Z) * point) :=
  [((Some "braft", 25000), [("rate", 25000); ("achieved", 24992); ("p50", 704); ("p99", 949)]);
   ((Some "braft", 10000), [("rate", 10000); ("achieved", 9997); ("p50", 634); ("p99", 746)]);
   ((Some "aeron", 25000), [("rate", 25000); ("achieved", 24998); ("p50", 541); ("p99", 655)]);
   ((Some "braft", 25000), [("rate", 25000); ("achieved", 24111); ("p50", 711); ("p99", 1020)])].

Lemma demo_sweep_rows : sweep_rows demo_names (sheet_rows demo_sheet) demo_kvs.
Proof.
  split; try (apply (bool_decide_unpack _); vm_compute; exact I).
  vm_compute. reflexivity.
Qed.

Lemma read_rows_sheets_witness :
  read_rows ["a.csv"; "a.csv"] demo_files
  = (Ok (sheet_rows demo_sheet ++ sheet_rows demo_sheet), demo_files).
Proof.
  apply (read_rows_sheets ["a.csv"; "a.csv"] [demo_sheet; demo_sheet] demo_files).
  repeat constructor; apply (bool_decide_unpack _); vm_compute; exact I.
Defined.

(** 704 and 711 average to 707.5, which rounds to the even 708. *)
Lemma dataset_refines_spec_witness :
  ∃ d, D (sheet_rows demo_sheet) = Ok d ∧ NoDup d.*1 ∧ (∀ p, p ∈ d.*1 ↔ p ∈ demo_kvs.*1.*1) ∧
       ∀ p ps, dget d p = Some ps → ps = series_ref demo_names demo_kvs p.
Proof. exact (dataset_refines_spec demo_names (sheet_rows demo_sheet) demo_kvs demo_sweep_rows). Defined.

Example demo_series :
  D (sheet_rows demo_sheet) = Ok
    [(Some "braft", [[("rate", 10000); ("achieved", 9997); ("p50", 634); ("p99", 746)];
                     [("rate", 25000); ("achieved", 24552); ("p50", 708); ("p99", 984)]]);
     (Some "aeron", [[("rate", 25000); ("achieved", 24998); ("p50", 541); ("p99", 655)]])].
Proof. vm_compute. reflexivity. Qed.

Lemma rates_increase_witness :
  ∃ zs, mapR (λ pt, col pt "rate") [[("rate", 10000); ("achieved", 9997); ("p50", 634); ("p99", 746)];
                     [("rate", 25000); ("achieved", 24552); ("p50", 708); ("p99", 984)]] = Ok zs
        ∧ StronglySorted Z.lt zs ∧ ∀ z, z ∈ zs ↔ (Some "braft", z) ∈ demo_kvs.*1.
Proof.
  eapply (rates_increase demo_names (sheet_rows demo_sheet) demo_kvs _ (Some "braft") _ demo_sweep_rows).
  - apply demo_series.
  - reflexivity.
Defined.

Lemma row_order_irrelevant_witness :
  ∃ d d', D (sheet_rows demo_sheet) = Ok d ∧ D (reverse (sheet_rows demo_sheet)) = Ok d'
          ∧ ∀ p, dget d p = dget d' p.
Proof.
  apply (row_order_irrelevant demo_names (sheet_rows demo_sheet) (reverse (sheet_rows demo_sheet))
           demo_kvs demo_sweep_rows).
  symmetry. apply reverse_Permutation.
Defined.

Lemma single_run_unchanged_witness :
  ∃ ps, dget [(Some "braft", [[("rate", 10000); ("achieved", 9997); ("p50", 634); ("p99", 746)];
                     [("rate", 25000); ("achieved", 24552); ("p50", 708); ("p99", 984)]]);
     (Some "aeron", [[("rate", 25000); ("achieved", 24998); ("p50", 541); ("p99", 655)]])] (Some "aeron") = Some ps
        ∧ [("rate", 25000); ("achieved", 24998); ("p50", 541); ("p99", 655)] ∈ ps.
Proof.
  apply (single_run_unchanged demo_names (sheet_rows demo_sheet) demo_kvs _ (Some "aeron") 25000 _ demo_sweep_rows).
  - apply demo_series.
  - reflexivity.
Defined.

(** Two repeats of a rate, one of them without a latency. *)
Definition mixed_sheet : sheet :=
  Sheet ["product"; "rate"; "achieved"; "p50"]
    [["braft"; "25000"; "24992"; "704"]; ["braft"; "25000"; "9000"; EmptyString]].

(** The columns averaged are those of the first repeat: when it is the one
    without a latency the column is lost, when it is the other one the run
    ends with KeyError. *)
Lemma mixed_repeats :
  D (sheet_rows mixed_sheet) = Err (KeyError "p50") ∧
  D (reverse (sheet_rows mixed_sheet)) = Ok [(Some "braft", [[("rate", 25000); ("achieved", 16996)]])].
Proof. split; vm_compute; reflexivity. Qed.
