(* ===== verification/Svg.v ===== *)
(** The drawing helpers of [sweep/mkcharts.py]: palette, page head, axes,
    series, legend and subtitle wrapping.

    An SVG under construction is the list [o] of its lines; a helper returns
    the lines it appends.  Pixel positions are Python numbers: ints stay ints
    and floats are binary64, formatted as the f-strings format them.

    [math.log10] is not Python code: class [Libm] gives it as a function of
    the exact value of its argument, and [LibmLaws] states what the theorems
    use of it: finite, not decreasing, and larger by at least 1/4 when the
    argument doubles (log10 2 is 0.301). *)

From Stdlib Require Import Ascii.
From S2P Require Import Prelude PyFloat PyStr PyNum ChartData.
From Stdlib Require Import QArith Qround Qabs Lqa.

Open Scope Z_scope.

(** ** math.log10 *)

Class Libm := log10 : Q → float.

Class LibmLaws `{Libm} : Prop := {
  log10_wf q : (1 <= q)%Q → (q < pow2 1023)%Q → is_fin (log10 q) = true ∧ wf (log10 q);
  log10_mono q r : (1 <= q)%Q → (q <= r)%Q → (r < pow2 1023)%Q → (fval (log10 q) <= fval (log10 r))%Q;
  log10_double q r : (1 <= q)%Q → (2 * q <= r)%Q → (r < pow2 1023)%Q →
    (fval (log10 q) + (1 # 4) <= fval (log10 r))%Q;
  log10_bound q : (1 <= q)%Q → (q < pow2 1023)%Q → (0 <= fval (log10 q) <= 309)%Q;
}.

Section Helpers.
Context `{Libm}.

Definition math_log10 (x : pynum) : result float :=
  match x with
  | PInt z => if z <=? 0 then Err ValueError else Ok (log10 (inject_Z z))
  | PFlt (Fin s m e) =>
      let q := fval (Fin s m e) in
      if Qle_bool q 0 then Err ValueError else Ok (log10 (Qred q))
  | PFlt (Inf s) => if s then Err ValueError else Ok (Inf false)
  | PFlt NaN => Ok NaN
  end.

(** ** Palette *)

Definition SURF := "#fcfcfb".
Definition INK := "#0b0b0b".
Definition INK2 := "#52514e".
Definition MUTED := "#898781".
Definition GRID := "#e1e0d9".
Definition AXIS := "#c3c2b7".
Definition BAND := "#f0efec".
Definition C1 := "#2a78d6".
Definition C2 := "#eb6834".
Definition C3 := "#1baf7a".
Definition C4 := "#b5179e".
Definition C5 := "#6d28d9".
Definition C6 := "#991b1b".
Definition FONT := tmpl "system-ui,-apple-system,`Segoe UI`,sans-serif" [].

(** ** Coordinates *)

(** [L+PW*(v/xmax)]. *)
Definition xmap (L PW xmax v : Z) : result float :=
  q ← ndiv (PInt v) (PInt xmax);
  w ← nmul (PInt PW) (PFlt q);
  x ← nadd (PInt L) w;
  to_float x.

(** [T+PH*(1-(math.log10(v)-ylo)/(yhi-ylo))]. *)
Definition ymap (T PH : Z) (ylo yhi : float) (v : Z) : result float :=
  lv ← math_log10 (PInt v);
  q ← ndiv (PFlt (fsub lv ylo)) (PFlt (fsub yhi ylo));
  c ← nsub (PInt 1) (PFlt q);
  h ← nmul (PInt PH) c;
  y ← nadd (PInt T) h;
  to_float y.

(** [f"{x:.1f}"]; an int plus a float. *)
Definition f1 (x : float) : string := fixed 1 x.
Definition plus (x : float) (z : Z) : result float := y ← nadd (PFlt x) (PInt z); to_float y.

(** ** Page head *)

(** The baseline of subtitle line [i]. *)
Definition sub_y (i : Z) : Z := 46 + i * 16.

Definition sub_line (i : nat) (l : string) : string :=
  tmpl "<text x=`78` y=`{}` font-size=`12` fill=`{}`>{}</text>" [str_Z (sub_y (Z.of_nat i)); INK2; l].

Definition head (W H : Z) (title : string) (sub : list string) : list string :=
  [tmpl "<svg xmlns=`http://www.w3.org/2000/svg` width=`{}` height=`{}` viewBox=`0 0 {} {}` font-family='{}' role=`img` aria-label=`{}`>"
     [str_Z W; str_Z H; str_Z W; str_Z H; FONT; title];
   tmpl "<rect width=`{}` height=`{}` fill=`{}`/>" [str_Z W; str_Z H; SURF];
   tmpl "<text x=`78` y=`28` font-size=`16` font-weight=`600` fill=`{}`>{}</text>" [INK; title]]
  ++ imap sub_line sub.

(** ** Axes *)

Definition y_tick (L PW : Z) (ymap : Z → result float) (fmt : Z → string) (v : Z) : result (list string) :=
  yy ← ymap v;
  yt ← plus yy 4;
  Ok [tmpl "<line x1=`{}` y1=`{}` x2=`{}` y2=`{}` stroke=`{}` stroke-width=`1`/>"
        [str_Z L; f1 yy; str_Z (L + PW); f1 yy; GRID];
      tmpl "<text x=`{}` y=`{}` font-size=`11` fill=`{}` text-anchor=`end`>{}</text>"
        [str_Z (L - 10); f1 yt; MUTED; fmt v]].

Definition x_tick (L T PW PH xmax v : Z) : result (list string) :=
  xx ← xmap L PW xmax v;
  Ok [tmpl "<line x1=`{}` y1=`{}` x2=`{}` y2=`{}` stroke=`{}` stroke-width=`1`/>"
        [f1 xx; str_Z (T + PH); f1 xx; str_Z (T + PH + 5); AXIS];
      tmpl "<text x=`{}` y=`{}` font-size=`11` fill=`{}` text-anchor=`middle`>{}k</text>"
        [f1 xx; str_Z (T + PH + 20); MUTED; str_Z (v / 1000)]].

(** [while v<=xmax: ...; v+=xstep]. *)
Fixpoint while_ticks (fuel : nat) (tick : Z → result (list string)) (xmax xstep v : Z) : result (list string) :=
  match fuel with
  | O => Err OutOfFuel
  | S fuel =>
      if v <=? xmax
      then t ← tick v; ts ← while_ticks fuel tick xmax xstep (v + xstep); Ok (t ++ ts)
      else Ok []
  end.

Definition tick_fuel (xmax xstep : Z) : nat := Z.to_nat (xmax / xstep) + 2.

(** [A + B/2] formatted with [.0f]. *)
Definition mid0 (A B : Z) : result string :=
  h ← ndiv (PInt B) (PInt 2);
  m ← plus h A;
  Ok (fixed 0 m).

Definition axes (L T PW PH xmax xstep : Z) (yticks : list Z) (ylab : string)
    (ymap : Z → result float) (fmt : Z → string) : result (list string) :=
  ys ← mapR (y_tick L PW ymap fmt) yticks;
  ymid ← mid0 T PH;
  xs ← while_ticks (tick_fuel xmax xstep) (x_tick L T PW PH xmax) xmax xstep 0;
  xmid ← mid0 L PW;
  Ok (concat ys
      ++ [tmpl "<text x=`20` y=`{}` font-size=`11` fill=`{}` text-anchor=`middle` transform=`rotate(-90 20 {})`>{}</text>"
            [ymid; INK2; ymid; ylab];
          tmpl "<line x1=`{}` y1=`{}` x2=`{}` y2=`{}` stroke=`{}` stroke-width=`1`/>"
            [str_Z L; str_Z (T + PH); str_Z (L + PW); str_Z (T + PH); AXIS]]
      ++ xs
      ++ [tmpl "<text x=`{}` y=`{}` font-size=`11` fill=`{}` text-anchor=`middle`>offered rate (requests/sec)</text>"
            [xmid; str_Z (T + PH + 44); INK2]]).

(** ** Series *)

(** The position of a point. *)
Definition xy (xm ym : Z → result float) (key : string) (p : point) : result (float * float) :=
  r ← col p "rate"; x ← xm r;
  v ← col p key; y ← ym v;
  Ok (x, y).

Definition path_step (xm ym : Z → result float) (key : string) (ip : nat * point) : result string :=
  pos ← xy xm ym key ip.2;
  Ok ((match ip.1 with O => "M" | _ => "L" end) +:+ f1 pos.1 +:+ "," +:+ f1 pos.2).

Definition marker (c : string) (xm ym : Z → result float) (key : string) (p : point) : result string :=
  pos ← xy xm ym key p;
  s ← sat p;
  Ok (tmpl "<circle cx=`{}` cy=`{}` r=`4.5` fill=`{}` stroke=`{}` stroke-width=`2`/>"
        [f1 pos.1; f1 pos.2; if s : bool then SURF else c; if s then c else SURF]).

Definition enumerate {A} (l : list A) : list (nat * A) := imap pair l.

Definition series (pts : list point) (c : string) (xm ym : Z → result float) (key : string) : result (list string) :=
  d ← mapR (path_step xm ym key) (enumerate pts);
  ms ← mapR (marker c xm ym key) pts;
  Ok (tmpl "<path d=`{}` fill=`none` stroke=`{}` stroke-width=`2` stroke-linejoin=`round` stroke-linecap=`round`/>"
        [join " " d; c] :: ms).

(** ** Legend *)

Definition item : Type := string * string.   (* label and colour *)

Definition _legend_w (lab : string) : result pynum :=
  w ← nmul (PInt (py_len lab)) (lit (66 # 10)); nadd (PInt 26) w.

(** [lx>L and lx+w>maxx]: the entry starts a new row. *)
Definition wraps (L : Z) (maxx : Z) (lx w : pynum) : result bool :=
  if ngt lx (PInt L) then e ← nadd lx w; Ok (ngt e (PInt maxx)) else Ok false.

Fixpoint legend_rows_loop (L maxx : Z) (items : list item) (rows : Z) (lx : pynum) : result Z :=
  match items with
  | [] => Ok rows
  | (lab, _) :: items =>
      w ← _legend_w lab;
      b ← wraps L maxx lx w;
      let rows := if b : bool then rows + 1 else rows in
      let lx := if b then PInt L else lx in
      lx' ← nadd lx w;
      legend_rows_loop L maxx items rows lx'
  end.

Definition legend_rows (items : list item) (L maxx : Z) : result Z :=
  legend_rows_loop L maxx items 1 (PInt L).

(** Where an entry goes: its left edge, its row and its text. *)
Record placed := Placed { at_x : pynum; at_y : Z; entry : item }.

Fixpoint legend_loop (L : Z) (maxx : option Z) (items : list item) (y : Z) (lx : pynum) : result (list placed) :=
  match items with
  | [] => Ok []
  | it :: items =>
      w ← _legend_w it.1;
      b ← match maxx with Some m => wraps L m lx w | None => Ok false end;
      let y := if b : bool then y + 18 else y in
      let lx := if b then PInt L else lx in
      lx' ← nadd lx w;
      ps ← legend_loop L maxx items y lx';
      Ok (Placed lx y it :: ps)
  end.

Definition legend_entry (p : placed) : result (list string) :=
  cx ← nadd (at_x p) (PInt 5);
  tx ← nadd (at_x p) (PInt 16);
  Ok [tmpl "<circle cx=`{}` cy=`{}` r=`4.5` fill=`{}`/>" [str_num cx; str_Z (at_y p); (entry p).2];
      tmpl "<text x=`{}` y=`{}` font-size=`11` fill=`{}`>{}</text>"
        [str_num tx; str_Z (at_y p + 4); INK2; (entry p).1]].

(** [maxx] counts as absent when it is 0. *)
Definition truthy (maxx : option Z) : option Z :=
  match maxx with Some m => if m =? 0 then None else Some m | None => None end.

Definition legend_place (L H : Z) (items : list item) (maxx : option Z) : result (list placed) :=
  let maxx := truthy maxx in
  rows ← match maxx with Some m => legend_rows items L m | None => Ok 1 end;
  legend_loop L maxx items (H - 16 - (rows - 1) * 18) (PInt L).

Definition legend (L H : Z) (items : list item) (maxx : option Z) : result (list string) :=
  ps ← legend_place L H items maxx;
  es ← mapR legend_entry ps;
  Ok (concat es).

(** ** Subtitles *)

Fixpoint wrap_loop (budget : Z) (words : list string) (lines : list string) (cur : string) : list string :=
  match words with
  | [] => if is_empty cur then lines else lines ++ [cur]
  | w :: words =>
      if negb (is_empty cur) && (budget <? py_len cur + 1 + py_len w)
      then wrap_loop budget words (lines ++ [cur]) w
      else wrap_loop budget words lines (if is_empty cur then w else cur +:+ " " +:+ w)
  end.

Definition wrap_sub (text : string) (budget : Z) : list string :=
  wrap_loop budget (split_on " "%char text) [] EmptyString.
Definition wrap_budget : Z := 118.
End Helpers.

(** ** Coordinates stay in the plot *)

(** Positions are computed in floats; [posx] is the value of [xmap]. *)
Definition posx (L PW xmax v : Z) : Q :=
  rndQ (inject_Z L + rndQ (inject_Z PW * rndQ (inject_Z v / inject_Z xmax))).

Definition margins (L PW : Z) : Prop := 0 <= L <= 2 ^ 20 ∧ 0 <= PW <= 2 ^ 20.

Lemma div_le_abs a b z : (1 <= b)%Q → (Qabs a <= inject_Z z)%Q → (Qabs (a / b) <= inject_Z z)%Q.
Proof.
  intros Hb Ha. rewrite Qabs_div_pos by lra. apply Qle_shift_div_r; [lra|].
  eapply Qle_trans; [exact Ha|]. rewrite <- (Qmult_1_r (inject_Z z)) at 1.
  rewrite !(Qmult_comm (inject_Z z)). apply Qmult_le_compat_r; [done|].
  eapply Qle_trans; [|exact Ha]. apply Qabs_nonneg.
Qed.

(** Scaling and shifting a bounded float. *)
Lemma scale_shift A B f q z :
  margins A B → isf f q → (0 <= z <= 2 ^ 33)%Z → (Qabs q <= inject_Z z)%Q →
  ∃ y, (w ← nmul (PInt B) (PFlt f); x ← nadd (PInt A) w; to_float x) = Ok y ∧
       isf y (rndQ (inject_Z A + rndQ (inject_Z B * q))).
Proof.
  intros [HA HB] If Hz Hq.
  destruct (f_small B) as (fB & EB & IB); [lia|]. destruct (f_small A) as (fA & EA & IA); [lia|].
  assert (Qabs (inject_Z B * q) <= inject_Z (2 ^ 20 * z))%Q as Bm.
  { rewrite Qabs_Qmult, inject_Z_mult. change (Qabs (inject_Z B)) with (inject_Z (Z.abs B)).
    apply Qmult_le_compat_nonneg; split; try (apply Qabs_nonneg || done).
    - change 0%Q with (inject_Z 0). apply inject_Z_le. lia.
    - apply inject_Z_le. lia. }
  assert (isf (fmul fB f) (rndQ (inject_Z B * q))) as Im.
  { apply isf_mul; [done..|]. apply small_lt_pow. eapply Qle_trans; [exact Bm|]. apply inject_Z_le. nia. }
  assert (Qabs (rndQ (inject_Z B * q)) <= inject_Z (2 ^ 53))%Q as Rm.
  { apply rnd_abs_le; [lia|]. eapply Qle_trans; [exact Bm|]. apply inject_Z_le. lia. }
  exists (fadd fA (fmul fB f)). split.
  - unfold nmul, nadd, arith, to_float. rewrite EB. cbn [require mbind result_bind]. rewrite EA. done.
  - apply isf_add; [done..|]. apply small_lt_pow. eapply Qle_trans; [apply Qabs_triangle|].
    assert (Qabs (inject_Z A) <= inject_Z (2 ^ 20))%Q.
    { change (Qabs (inject_Z A)) with (inject_Z (Z.abs A)). apply inject_Z_le. lia. }
    assert (inject_Z (2 ^ 20) + inject_Z (2 ^ 53) <= inject_Z (2 ^ 64))%Q by (by vm_compute). lra.
Qed.

Lemma xmap_val L PW xmax v :
  margins L PW → 0 < xmax <= 2 ^ 33 → Z.abs v <= 2 ^ 33 →
  ∃ x, xmap L PW xmax v = Ok x ∧ isf x (posx L PW xmax v).
Proof.
  intros Hm Hx Hv.
  assert (1 <= inject_Z xmax)%Q as X1 by (change 1%Q with (inject_Z 1); apply inject_Z_le; lia).
  assert (Qabs (inject_Z v / inject_Z xmax) <= inject_Z (2 ^ 33))%Q as B.
  { apply div_le_abs; [done|]. change (Qabs (inject_Z v)) with (inject_Z (Z.abs v)). by apply inject_Z_le. }
  destruct (isf_zdiv v xmax) as (f & Ef & If).
  { apply small_lt_pow. eapply Qle_trans; [exact B|]. apply inject_Z_le. lia. }
  unfold xmap, ndiv. destruct (Z.eqb_spec xmax 0); [lia|]. rewrite Ef. cbn [require mbind result_bind].
  apply (scale_shift L PW f _ (2 ^ 33)); [done|done|lia|]. apply rnd_abs_le; [lia|done].
Qed.

Lemma Qdiv_le_compat a b c : (0 < c)%Q → (a <= b)%Q → (a / c <= b / c)%Q.
Proof. intros Hc Hab. apply Qmult_le_compat_r; [done|]. apply Qinv_le_0_compat. lra. Qed.

Lemma Qmult_le_compat_l' a b c : (0 <= c)%Q → (a <= b)%Q → (c * a <= c * b)%Q.
Proof. intros Hc Hab. rewrite !(Qmult_comm c). by apply Qmult_le_compat_r. Qed.

Lemma inject_Z_nonneg z : 0 <= z → (0 <= inject_Z z)%Q.
Proof. intros. change 0%Q with (inject_Z 0). by apply inject_Z_le. Qed.

Lemma posx_mono L PW xmax v v' : margins L PW → 0 < xmax → v <= v' → (posx L PW xmax v <= posx L PW xmax v')%Q.
Proof.
  intros [_ HP] Hx Hv. unfold posx. apply rnd_mono, Qplus_le_r, rnd_mono.
  apply Qmult_le_compat_l'; [apply inject_Z_nonneg; lia|].
  apply rnd_mono, Qdiv_le_compat; [|by apply inject_Z_le].
  change 0%Q with (inject_Z 0). rewrite <- Zlt_Qlt. lia.
Qed.

Lemma posx_0 L PW xmax : margins L PW → 0 < xmax → (posx L PW xmax 0 == inject_Z L)%Q.
Proof.
  intros [HL HP] Hx. unfold posx.
  assert (inject_Z 0 / inject_Z xmax == 0)%Q as -> by (unfold Qdiv; change (inject_Z 0) with 0%Q; ring).
  rewrite (rndQ_0 0) by done. rewrite Qmult_0_r, (rndQ_0 0), Qplus_0_r by done. apply rnd_Z. lia.
Qed.

Lemma posx_max L PW xmax : margins L PW → 0 < xmax → (posx L PW xmax xmax == inject_Z (L + PW))%Q.
Proof.
  intros [HL HP] Hx. unfold posx.
  assert (inject_Z xmax / inject_Z xmax == inject_Z 1)%Q as ->.
  { change (inject_Z 1) with 1%Q. apply Qmult_inv_r. change 0%Q with (inject_Z 0).
    rewrite inject_Z_injective. lia. }
  rewrite (rnd_Z 1) by done. change (inject_Z 1) with 1%Q. rewrite Qmult_1_r, (rnd_Z PW) by lia.
  rewrite <- inject_Z_plus. apply rnd_Z. lia.
Qed.

(** A rate on the axis is drawn inside the plot. *)
Lemma xmap_range L PW xmax v :
  margins L PW → 0 < xmax <= 2 ^ 33 → 0 <= v <= xmax →
  ∃ x, xmap L PW xmax v = Ok x ∧ (inject_Z L <= fval x <= inject_Z (L + PW))%Q.
Proof.
  intros Hm Hx Hv. destruct (xmap_val L PW xmax v Hm Hx) as (x & E & (_ & _ & V)); [lia|].
  exists x. split; [exact E|]. rewrite V.
  rewrite <- (posx_0 L PW xmax), <- (posx_max L PW xmax) by (exact Hm || lia).
  split; apply posx_mono; (exact Hm || lia).
Qed.

(** C23 A rate between 0 and the end of the axis is drawn inside the plot, on
    the left edge at 0 and on the right edge at the end, and a higher rate is
    never drawn to the left of a lower one, float rounding included. *)
Theorem x_in_plot L PW xmax v v' :
  margins L PW → 0 < xmax <= 2 ^ 33 → 0 <= v → v <= v' → v' <= xmax →
  ∃ x x', xmap L PW xmax v = Ok x ∧ xmap L PW xmax v' = Ok x' ∧
    (inject_Z L <= fval x)%Q ∧ (fval x <= fval x')%Q ∧ (fval x' <= inject_Z (L + PW))%Q ∧
    (v = 0 → (fval x == inject_Z L)%Q) ∧ (v' = xmax → (fval x' == inject_Z (L + PW))%Q).
Proof.
  intros Hm Hx H0 Hv H1.
  destruct (xmap_val L PW xmax v) as (x & Ex & (_ & _ & Vx)); [done|lia|lia|].
  destruct (xmap_val L PW xmax v') as (x' & Ex' & (_ & _ & Vx')); [done|lia|lia|].
  exists x, x'. rewrite Vx, Vx'. split_and!; [done|done|..].
  - rewrite <- (posx_0 L PW xmax) by (done || lia). by apply posx_mono; [|lia|].
  - by apply posx_mono; [|lia|].
  - rewrite <- (posx_max L PW xmax) by (done || lia). by apply posx_mono; [|lia|].
  - intros ->. by apply posx_0; [|lia].
  - intros ->. by apply posx_max; [|lia].
Qed.

Lemma x_in_plot_witness :
  ∃ x x', xmap 78 622 320000 100000 = Ok x ∧ xmap 78 622 320000 250000 = Ok x' ∧
    (inject_Z 78 <= fval x)%Q ∧ (fval x <= fval x')%Q ∧ (fval x' <= inject_Z (78 + 622))%Q ∧
    (100000 = 0 → (fval x == inject_Z 78)%Q) ∧ (250000 = 320000 → (fval x' == inject_Z (78 + 622))%Q).
Proof. apply (x_in_plot 78 622 320000 100000 250000); unfold margins; lia. Defined.

Section Latency.
Context `{LL : LibmLaws}.

(** [posy] is the value of [ymap] for a latency whose logarithm is [a]. *)
Definition posy (T PH : Z) (a b c : Q) : Q :=
  rndQ (inject_Z T + rndQ (inject_Z PH * rndQ (1 - rndQ (rndQ (a - b) / rndQ (c - b))))).

(** A latency axis from [lo] to [hi]. *)
Definition axis (lo hi : Q) : Prop := (1 <= lo ∧ 2 * lo <= hi ∧ hi < pow2 1023)%Q.

Lemma isf_log10 q : (1 <= q)%Q → (q < pow2 1023)%Q → isf (log10 q) (fval (log10 q)).
Proof. intros H1 H2. destruct (log10_wf q) as [F W]; [lra|done|]. by repeat split. Qed.

Lemma int_lt_pow z : z <= 2 ^ 64 → (inject_Z z < pow2 1023)%Q.
Proof.
  intros Hz. apply Qle_lt_trans with (inject_Z (2 ^ 64)); [by apply inject_Z_le|].
  rewrite <- (pow2_Z 64) by lia. by apply pow2_lt.
Qed.

Lemma span_pos lo hi : axis lo hi → ((1 # 4) <= rndQ (fval (log10 hi) - fval (log10 lo)))%Q.
Proof.
  intros (H1 & H2 & H3). pose proof (log10_double lo hi ltac:(lra) H2 H3).
  assert (rndQ (1 # 4) == 1 # 4)%Q as <- by (by vm_compute). apply rnd_mono. lra.
Qed.

Lemma diff_bound q r : (1 <= q)%Q → (1 <= r)%Q → (q < pow2 1023)%Q → (r < pow2 1023)%Q →
  (Qabs (rndQ (fval (log10 q) - fval (log10 r))) <= inject_Z 309)%Q.
Proof.
  intros. apply rnd_abs_le; [lia|]. pose proof (log10_bound q ltac:(done) ltac:(done)).
  pose proof (log10_bound r ltac:(done) ltac:(done)).
  apply Qabs_Qle_condition. change (inject_Z 309) with 309%Q. lra.
Qed.

Lemma isf_log_sub q r : (1 <= q)%Q → (1 <= r)%Q → (q < pow2 1023)%Q → (r < pow2 1023)%Q →
  isf (fsub (log10 q) (log10 r)) (rndQ (fval (log10 q) - fval (log10 r))).
Proof.
  intros Q1 R1 Q2 R2. apply isf_sub; [by apply isf_log10..|].
  apply small_lt_pow. pose proof (log10_bound q Q1 Q2). pose proof (log10_bound r R1 R2).
  apply Qabs_Qle_condition. change (inject_Z (2 ^ 64)) with (18446744073709551616 # 1)%Q. lra.
Qed.

Lemma isf_not_zero f q : isf f q → ~ (q == 0)%Q → is_zero f = false.
Proof.
  intros (_ & _ & V) Hq. destruct f as [s m e| |]; try done. cbn. apply Z.eqb_neq. intros ->.
  apply Hq. rewrite <- V, fval_Fin. destruct s; cbn; ring.
Qed.

Lemma ymap_val T PH lo hi v :
  margins T PH → axis lo hi → 1 <= v <= 2 ^ 64 →
  ∃ y, ymap T PH (log10 lo) (log10 hi) v = Ok y ∧
       isf y (posy T PH (fval (log10 (inject_Z v))) (fval (log10 lo)) (fval (log10 hi))).
Proof.
  intros Hm Ha Hv. pose proof (span_pos lo hi Ha) as Sp. destruct Ha as (A1 & A2 & A3).
  assert (1 <= inject_Z v)%Q as V1 by (change 1%Q with (inject_Z 1); apply inject_Z_le; lia).
  assert (inject_Z v < pow2 1023)%Q as V2 by (apply int_lt_pow; lia).
  pose proof (isf_log_sub (inject_Z v) lo V1 A1 V2 ltac:(lra)) as In.
  pose proof (isf_log_sub hi lo ltac:(lra) A1 A3 ltac:(lra)) as Id.
  pose proof (diff_bound (inject_Z v) lo V1 A1 V2 ltac:(lra)) as Bn.
  set (n := rndQ (fval (log10 (inject_Z v)) - fval (log10 lo))) in *.
  set (d := rndQ (fval (log10 hi) - fval (log10 lo))) in *.
  assert (Qabs (n / d) <= inject_Z 1236)%Q as Bq.
  { rewrite Qabs_div_pos by lra. apply Qle_shift_div_r; [lra|].
    change (inject_Z 1236) with 1236%Q. change (inject_Z 309) with 309%Q in Bn. lra. }
  assert (isf (fdiv (fsub (log10 (inject_Z v)) (log10 lo)) (fsub (log10 hi) (log10 lo))) (rndQ (n / d))) as Iq.
  { apply isf_div; [done|done|lra|]. apply small_lt_pow. eapply Qle_trans; [exact Bq|]. by apply inject_Z_le. }
  apply rnd_abs_le in Bq; [|lia].
  destruct (f_small 1) as (f & E1 & I1); [lia|].
  assert (Qabs (1 - rndQ (n / d)) <= inject_Z 1237)%Q as Bc.
  { apply Qabs_Qle_condition in Bq. apply Qabs_Qle_condition. change (inject_Z 1236) with 1236%Q in Bq.
    change (inject_Z 1237) with 1237%Q. lra. }
  assert (isf (fsub f (fdiv (fsub (log10 (inject_Z v)) (log10 lo)) (fsub (log10 hi) (log10 lo))))
            (rndQ (1 - rndQ (n / d)))) as Ic.
  { change 1%Q with (inject_Z 1). apply isf_sub; [done|done|]. apply small_lt_pow.
    eapply Qle_trans; [exact Bc|]. by apply inject_Z_le. }
  unfold ymap, math_log10. destruct (Z.leb_spec v 0); [lia|]. cbn [mbind result_bind ndiv to_float].
  rewrite (isf_not_zero _ _ Id) by lra.
  cbn [mbind result_bind]. unfold nsub at 1, arith. cbn [to_float]. rewrite E1.
  cbn [require mbind result_bind].
  apply (scale_shift T PH _ _ 1237); [done|exact Ic|lia|]. apply rnd_abs_le; [lia|done].
Qed.

Lemma posy_antitone T PH a a' b c :
  margins T PH → (0 < rndQ (c - b))%Q → (a <= a')%Q → (posy T PH a' b c <= posy T PH a b c)%Q.
Proof.
  intros [_ HP] Hd Haa. unfold posy. apply rnd_mono, Qplus_le_r, rnd_mono.
  apply Qmult_le_compat_l'; [apply inject_Z_nonneg; lia|]. apply rnd_mono.
  assert (rndQ (rndQ (a - b) / rndQ (c - b)) <= rndQ (rndQ (a' - b) / rndQ (c - b)))%Q; [|lra].
  apply rnd_mono, Qdiv_le_compat; [done|]. apply rnd_mono. lra.
Qed.

Lemma posy_lo T PH b c : margins T PH → (posy T PH b b c == inject_Z (T + PH))%Q.
Proof.
  intros [HT HP]. unfold posy. rewrite (rndQ_0 (b - b)) by lra.
  assert (0 / rndQ (c - b) == 0)%Q as -> by (unfold Qdiv; ring). rewrite (rndQ_0 0) by done.
  assert (1 - 0 == inject_Z 1)%Q as -> by done. rewrite (rnd_Z 1) by done.
  change (inject_Z 1) with 1%Q. rewrite Qmult_1_r, (rnd_Z PH), <- inject_Z_plus by lia. apply rnd_Z. lia.
Qed.

Lemma posy_hi T PH b c : margins T PH → (0 < rndQ (c - b))%Q → (posy T PH c b c == inject_Z T)%Q.
Proof.
  intros [HT HP] Hd. unfold posy.
  assert (rndQ (c - b) / rndQ (c - b) == inject_Z 1)%Q as -> by (apply Qmult_inv_r; lra).
  rewrite (rnd_Z 1) by done. rewrite (rndQ_0 (1 - inject_Z 1)) by done.
  rewrite Qmult_0_r, (rndQ_0 0), Qplus_0_r by done. apply rnd_Z. lia.
Qed.

(** A latency in the range of the axis is drawn inside the plot. *)
Lemma ymap_range T PH lo hi v :
  margins T PH → axis lo hi → 1 <= v <= 2 ^ 64 → (lo <= inject_Z v ∧ inject_Z v <= hi)%Q →
  ∃ y, ymap T PH (log10 lo) (log10 hi) v = Ok y ∧
       (inject_Z T <= fval y ∧ fval y <= inject_Z (T + PH))%Q.
Proof.
  intros Hm Ha Hv [Hl Hh]. pose proof (span_pos lo hi Ha) as Sp.
  destruct (ymap_val T PH lo hi v Hm Ha Hv) as (y & Ey & (_ & _ & Vy)).
  exists y. split; [exact Ey|]. rewrite Vy. destruct Ha as (A1 & A2 & A3).
  rewrite <- (posy_lo T PH (fval (log10 lo)) (fval (log10 hi)) Hm).
  rewrite <- (posy_hi T PH (fval (log10 lo)) (fval (log10 hi)) Hm) at 1 by lra.
  split; (apply posy_antitone; [exact Hm|lra|apply log10_mono; lra]).
Qed.

(** C22 The latency axis: a higher latency is never drawn below a lower one,
    and a latency within the axis's range is drawn inside the plot, whatever
    the chart's position and size. *)
Theorem y_in_plot T PH lo hi v v' :
  margins T PH → axis lo hi → 1 <= v → v <= v' → v' <= 2 ^ 64 →
  ∃ y y', ymap T PH (log10 lo) (log10 hi) v = Ok y ∧ ymap T PH (log10 lo) (log10 hi) v' = Ok y' ∧
    (fval y' <= fval y)%Q ∧
    ((lo <= inject_Z v)%Q → (fval y <= inject_Z (T + PH))%Q) ∧
    ((inject_Z v' <= hi)%Q → (inject_Z T <= fval y')%Q).
Proof.
  intros Hm Ha H1 Hv H2. pose proof (span_pos lo hi Ha) as Sp.
  destruct (ymap_val T PH lo hi v) as (y & Ey & (_ & _ & Vy)); [done|done|lia|].
  destruct (ymap_val T PH lo hi v') as (y' & Ey' & (_ & _ & Vy')); [done|done|lia|].
  destruct Ha as (A1 & A2 & A3).
  assert (∀ z, 1 <= z → (1 <= inject_Z z)%Q) as One.
  { intros z Hz. change 1%Q with (inject_Z 1). by apply inject_Z_le. }
  pose proof (One v H1). pose proof (One v' ltac:(lia)). pose proof (int_lt_pow v ltac:(lia)).
  pose proof (int_lt_pow v' ltac:(lia)).
  exists y, y'. rewrite Vy, Vy'. split_and!; [done|done|..].
  - apply posy_antitone; [done|lra|]. apply log10_mono; [lra|by apply inject_Z_le|done].
  - intros Hl. rewrite <- (posy_lo T PH (fval (log10 lo)) (fval (log10 hi)) Hm).
    apply posy_antitone; [done|lra|]. apply log10_mono; [lra|done|done].
  - intros Hh. rewrite <- (posy_hi T PH (fval (log10 lo)) (fval (log10 hi)) Hm) by lra.
    apply posy_antitone; [done|lra|]. apply log10_mono; [lra|done|done].
Qed.
End Latency.

(** *** A logarithm for the witnesses: piecewise linear between powers of 2. *)

Definition lin_log2 (q : Q) : Q := inject_Z (ilog2 q) + q * pow2 (- ilog2 q) - 1.
Definition demo_log10 : Libm := λ q, of_Q (lin_log2 q * (3 # 10)).

Lemma lin_log2_bounds q :
  (0 < q)%Q → (inject_Z (ilog2 q) <= lin_log2 q)%Q ∧ (lin_log2 q < inject_Z (ilog2 q) + 1)%Q.
Proof.
  intros Hq. pose proof (ilog2_spec q Hq) as [S1 S2]. unfold lin_log2.
  assert (1 <= q * pow2 (- ilog2 q))%Q.
  { rewrite <- (pow2_opp (ilog2 q)), Qmult_comm. apply Qmult_pow2_le. exact S1. }
  assert (q * pow2 (- ilog2 q) < 2)%Q; [|lra].
  apply Qlt_le_trans with (pow2 (ilog2 q + 1) * pow2 (- ilog2 q))%Q.
  - apply Qmult_lt_r; [apply pow2_pos|done].
  - rewrite <- pow2_add. replace (ilog2 q + 1 + - ilog2 q)%Z with 1%Z by lia. discriminate.
Qed.

Lemma lin_log2_mono q r : (0 < q)%Q → (q <= r)%Q → (lin_log2 q <= lin_log2 r)%Q.
Proof.
  intros Hq Hqr. pose proof (ilog2_mono q r Hq Hqr) as M.
  pose proof (lin_log2_bounds q Hq). pose proof (lin_log2_bounds r ltac:(lra)).
  destruct (Z.eq_dec (ilog2 q) (ilog2 r)) as [E|N].
  - unfold lin_log2. rewrite E. pose proof (Qmult_pow2_le q r (- ilog2 r) Hqr). lra.
  - pose proof (inject_Z_lt_1 (ilog2 q) (ilog2 r) ltac:(lia)). lra.
Qed.

Lemma lin_log2_double q : (0 < q)%Q → (lin_log2 (2 * q) == lin_log2 q + 1)%Q.
Proof.
  intros Hq. pose proof (ilog2_spec q Hq) as [S1 S2].
  assert (ilog2 (2 * q) = ilog2 q + 1)%Z as E.
  { apply ilog2_unique; rewrite !pow2_succ; rewrite ?pow2_succ in S2; lra. }
  unfold lin_log2. rewrite E, inject_Z_plus. change (inject_Z 1) with 1%Q.
  replace (- (ilog2 q + 1))%Z with (- ilog2 q + - 1)%Z by lia. rewrite pow2_add.
  change (pow2 (- 1)) with (1 # 2). ring.
Qed.

Lemma lin_log2_range q : (1 <= q)%Q → (q < pow2 1023)%Q → (0 <= lin_log2 q <= 1023)%Q.
Proof.
  intros H1 H2. pose proof (lin_log2_bounds q ltac:(lra)) as [B1 B2].
  pose proof (ilog2_spec q ltac:(lra)) as [S1 S2].
  assert (0 <= ilog2 q)%Z by (assert (0 < ilog2 q + 1)%Z; [apply pow2_lt_inv; change (pow2 0) with 1%Q; lra|lia]).
  assert (ilog2 q < 1023)%Z by (apply pow2_lt_inv; lra).
  pose proof (inject_Z_nonneg (ilog2 q) ltac:(lia)).
  pose proof (inject_Z_le (ilog2 q) 1022 ltac:(lia)) as U. change (inject_Z 1022) with 1022%Q in U. lra.
Qed.

Lemma demo_isf q : (1 <= q)%Q → (q < pow2 1023)%Q → isf (demo_log10 q) (rndQ (lin_log2 q * (3 # 10))).
Proof.
  intros H1 H2. apply isf_of_Q, small_lt_pow. pose proof (lin_log2_range q H1 H2).
  apply Qabs_Qle_condition. change (inject_Z (2 ^ 64)) with (18446744073709551616 # 1)%Q. lra.
Qed.

#[export] Instance demo_laws : @LibmLaws demo_log10.
Proof.
  split.
  - intros q H1 H2. destruct (demo_isf q H1 H2) as (F & W & _). done.
  - intros q r H1 Hqr H2. destruct (demo_isf q H1 ltac:(lra)) as (_ & _ & Vq).
    destruct (demo_isf r ltac:(lra) H2) as (_ & _ & Vr).
    unfold log10 in *. rewrite Vq, Vr. apply rnd_mono.
    pose proof (lin_log2_mono q r ltac:(lra) Hqr). lra.
  - intros q r H1 Hqr H2. destruct (demo_isf q H1 ltac:(lra)) as (_ & _ & Vq).
    destruct (demo_isf r ltac:(lra) H2) as (_ & _ & Vr). unfold log10 in *. rewrite Vq, Vr.
    pose proof (lin_log2_mono (2 * q) r ltac:(lra) Hqr) as M. rewrite lin_log2_double in M by lra.
    pose proof (lin_log2_range q H1 ltac:(lra)) as Rq. pose proof (lin_log2_range r ltac:(lra) H2) as Rr.
    pose proof (rnd_error (lin_log2 q * (3 # 10))) as Eq. pose proof (rnd_error (lin_log2 r * (3 # 10))) as Er.
    rewrite (Qabs_pos (lin_log2 r * _)) in Er by lra.
    rewrite (Qabs_pos (lin_log2 q * _)) in Eq by lra.
    apply Qabs_Qle_condition in Eq as [_ Eq]. apply Qabs_Qle_condition in Er as [Er _].
    assert (pow2 (-1075) <= 1 # 1000)%Q by (apply Qle_bool_iff; vm_compute; reflexivity).
    pose proof (Qmult_pow2_le (lin_log2 q * (3 # 10)) 309 (-53) ltac:(lra)).
    pose proof (Qmult_pow2_le (lin_log2 r * (3 # 10)) 309 (-53) ltac:(lra)).
    assert (309 * pow2 (-53) <= 1 # 1000)%Q by (apply Qle_bool_iff; vm_compute; reflexivity). lra.
  - intros q H1 H2. destruct (demo_isf q H1 H2) as (_ & _ & Vq). unfold log10 in *. rewrite Vq.
    pose proof (lin_log2_range q H1 H2). split; [apply rndQ_nonneg; lra|].
    change 309%Q with (inject_Z 309). apply rnd_le_Z; [lia|]. change (inject_Z 309) with 309%Q. lra.
Qed.

Lemma y_in_plot_witness :
  ∃ y y', @ymap demo_log10 86 280 (demo_log10 400%Q) (demo_log10 1000000%Q) 641 = Ok y ∧
          @ymap demo_log10 86 280 (demo_log10 400%Q) (demo_log10 1000000%Q) 1291 = Ok y' ∧
    (fval y' <= fval y)%Q ∧
    ((400 <= inject_Z 641)%Q → (fval y <= inject_Z (86 + 280))%Q) ∧
    ((inject_Z 1291 <= 1000000)%Q → (inject_Z 86 <= fval y')%Q).
Proof.
  apply (@y_in_plot demo_log10 demo_laws 86 280 400%Q 1000000%Q 641 1291); unfold margins, axis; try lia.
  split_and!; [discriminate..|]. by apply (int_lt_pow 1000000).
Defined.

(** ** Axes *)

(** The loop draws a tick at every multiple of the step up to the end. *)
Definition multiples (xmax xstep : Z) : list Z := (λ i, i * xstep) <$> seqZ 0 (xmax / xstep + 1).

Lemma while_ticks_from fuel tick xmax xstep k n :
  0 < xstep → (xmax / xstep + 1 = k + Z.of_nat n)%Z → (n < fuel)%nat →
  while_ticks fuel tick xmax xstep (k * xstep)
  = (ts ← mapR tick ((λ i, i * xstep) <$> seqZ k (Z.of_nat n)); Ok (concat ts)).
Proof.
  revert fuel k. induction n as [|n IH]; intros fuel k Hs Hk Hf; (destruct fuel as [|fuel]; [lia|]).
  - cbn [while_ticks]. destruct (Z.leb_spec (k * xstep) xmax) as [C|_]; [|done].
    pose proof (Z.div_le_lower_bound xmax xstep k Hs). lia.
  - cbn [while_ticks]. destruct (Z.leb_spec (k * xstep) xmax) as [_|C].
    2:{ pose proof (Z.div_lt_upper_bound xmax xstep k Hs). lia. }
    rewrite (seqZ_cons k (Z.of_nat (S n))) by lia. rewrite fmap_cons. cbn [mapR].
    replace (k * xstep + xstep) with (Z.succ k * xstep) by lia.
    rewrite (IH fuel (Z.succ k)) by lia. replace (Z.pred (Z.of_nat (S n))) with (Z.of_nat n) by lia.
    destruct (tick (k * xstep)); [|done]. cbn [mbind result_bind].
    by destruct (mapR tick _).
Qed.

Lemma while_ticks_multiples tick xmax xstep :
  0 < xstep → 0 <= xmax →
  while_ticks (tick_fuel xmax xstep) tick xmax xstep 0
  = (ts ← mapR tick (multiples xmax xstep); Ok (concat ts)).
Proof.
  intros Hs Hx. pose proof (Z.div_pos xmax xstep Hx Hs).
  pose proof (while_ticks_from (tick_fuel xmax xstep) tick xmax xstep 0 (Z.to_nat (xmax / xstep + 1))) as K.
  rewrite Z2Nat.id in K by lia. apply K; [done|lia|unfold tick_fuel; lia].
Qed.

Lemma mid0_ok A B : Z.abs A <= 2 ^ 53 → Z.abs B <= 2 ^ 33 → ∃ s, mid0 A B = Ok s.
Proof.
  intros HA HB. unfold mid0, ndiv. cbn [Z.eqb].
  destruct (isf_zdiv B 2) as (f & Ef & _).
  { apply small_lt_pow. eapply Qle_trans; [apply (div_le_abs _ _ (2 ^ 33)); [discriminate|]|by apply inject_Z_le].
    change (Qabs (inject_Z B)) with (inject_Z (Z.abs B)). by apply inject_Z_le. }
  rewrite Ef. cbn [require mbind result_bind]. unfold plus, nadd, arith, to_float.
  destruct (f_small A HA) as (g & -> & _). by eexists.
Qed.

Lemma mapR_total {A B} (f : A → result B) l :
  Forall (λ x, ∃ y, f x = Ok y) l → ∃ ys, mapR f l = Ok ys.
Proof.
  induction 1 as [|x l (y & E) H (ys & IH)]; [by exists []|]. cbn. rewrite E, IH. by eexists.
Qed.

(** What the axes are made of. *)
Lemma axes_ok L T PW PH xmax xstep yticks ylab ymap fmt :
  margins L PW → margins T PH → 0 < xmax <= 2 ^ 33 → 0 < xstep →
  Forall (λ v, ∃ y, ymap v = Ok y) yticks →
  ∃ ys xs y1 y2 x1,
    mapR (y_tick L PW ymap fmt) yticks = Ok ys ∧
    mapR (x_tick L T PW PH xmax) (multiples xmax xstep) = Ok xs ∧
    axes L T PW PH xmax xstep yticks ylab ymap fmt = Ok (concat ys ++ [y1; y2] ++ concat xs ++ [x1])
    ∧ Z.of_nat (length xs) = (xmax / xstep + 1)%Z ∧ length ys = length yticks.
Proof.
  intros HL HT Hx Hs Hy.
  destruct (mapR_total (y_tick L PW ymap fmt) yticks) as (ys & Eys).
  { eapply Forall_impl; [exact Hy|]. intros v (y & E). unfold y_tick. rewrite E. by eexists. }
  destruct (mapR_total (x_tick L T PW PH xmax) (multiples xmax xstep)) as (xs & Exs).
  { apply Forall_forall. intros v Hv. unfold multiples in Hv.
    apply list_elem_of_fmap in Hv as (i & -> & Hi). apply elem_of_seqZ in Hi.
    destruct (xmap_val L PW xmax (i * xstep)) as (x & Ex & _);
      [exact HL|exact Hx| |unfold x_tick; rewrite Ex; by eexists].
    pose proof (Z.mul_div_le xmax xstep Hs). nia. }
  destruct (mid0_ok T PH) as (ymid & Ey); [destruct HT; lia..|].
  destruct (mid0_ok L PW) as (xmid & Ex); [destruct HL; lia..|].
  eexists ys, xs, _, _, _. split; [exact Eys|]. split; [exact Exs|]. split.
  - unfold axes. rewrite Eys, Ey. cbn [mbind result_bind]. rewrite while_ticks_multiples by lia.
    rewrite Exs. cbn [mbind result_bind]. rewrite Ex. cbn [mbind result_bind]. reflexivity.
  - split.
    + apply mapR_length in Exs. rewrite Exs. unfold multiples. rewrite length_fmap, length_seqZ, Z2Nat.id; [done|].
      pose proof (Z.div_pos xmax xstep). lia.
    + by apply mapR_length in Eys.
Qed.

(** C24 The axes are always drawn: on a plot of positive size the tick loop
    ends, and there is a grid line and a label for each latency tick, and a
    mark and a label for each multiple of the step from 0 up to the end of
    the axis, no more and no fewer. *)
Theorem axes_complete L T PW PH xmax xstep yticks ylab ymap fmt :
  margins L PW → margins T PH → 0 < xmax <= 2 ^ 33 → 0 < xstep →
  Forall (λ v, ∃ y, ymap v = Ok y) yticks →
  ∃ ys xs y1 y2 x1,
    mapR (y_tick L PW ymap fmt) yticks = Ok ys ∧
    mapR (x_tick L T PW PH xmax) (multiples xmax xstep) = Ok xs ∧
    axes L T PW PH xmax xstep yticks ylab ymap fmt = Ok (concat ys ++ [y1; y2] ++ concat xs ++ [x1])
    ∧ Z.of_nat (length xs) = (xmax / xstep + 1)%Z ∧ length ys = length yticks.
Proof. apply axes_ok. Qed.

Lemma axes_complete_witness :
  ∃ ys xs y1 y2 x1,
    mapR (y_tick 78 622 (@ymap demo_log10 86 280 (demo_log10 400%Q) (demo_log10 1000000%Q)) comma) [500; 700] = Ok ys ∧
    mapR (x_tick 78 86 622 280 320000) (multiples 320000 50000) = Ok xs ∧
    axes 78 86 622 280 320000 50000 [500; 700] "latency"
      (@ymap demo_log10 86 280 (demo_log10 400%Q) (demo_log10 1000000%Q)) comma
    = Ok (concat ys ++ [y1; y2] ++ concat xs ++ [x1])
    ∧ Z.of_nat (length xs) = (320000 / 50000 + 1)%Z ∧ length ys = length [500; 700].
Proof.
  apply (axes_complete 78 86 622 280 320000 50000 [500; 700] "latency"
           (@ymap demo_log10 86 280 (demo_log10 400%Q) (demo_log10 1000000%Q)) comma);
    unfold margins; try lia.
  repeat constructor; eexists; vm_compute; reflexivity.
Defined.

(** ** Series *)

(** What a series needs of a point. *)
Record drawable (xm ym : Z → result float) (key : string) (p : point) (x y : float) (a r : Z) : Prop := {
  dr_rate : col p "rate" = Ok r;
  dr_ach : col p "achieved" = Ok a;
  dr_x : xm r = Ok x;
  dr_y : ∃ v, col p key = Ok v ∧ ym v = Ok y;
  dr_r : 0 <= r <= 2 ^ 45;
  dr_a : 0 <= a <= 2 ^ 53;
}.

(** The marker of a point: hollow (filled with the background, outlined in
    the series' colour) or solid. *)
Definition circle (c : string) (x y : float) (hollow : bool) : string :=
  tmpl "<circle cx=`{}` cy=`{}` r=`4.5` fill=`{}` stroke=`{}` stroke-width=`2`/>"
    [f1 x; f1 y; if hollow then SURF else c; if hollow then c else SURF].

Lemma marker_ok c xm ym key p x y a r :
  drawable xm ym key p x y a r →
  xy xm ym key p = Ok (x, y) ∧ marker c xm ym key p = Ok (circle c x y (100 * a <? 99 * r)).
Proof.
  intros [Hr Ha Hx (v & Hv & Hy) Br Ba].
  assert (xy xm ym key p = Ok (x, y)) as E.
  { unfold xy. rewrite Hr. cbn [mbind result_bind]. rewrite Hx. cbn [mbind result_bind].
    rewrite Hv. cbn [mbind result_bind]. by rewrite Hy. }
  split; [done|]. unfold marker. rewrite E. cbn [mbind result_bind].
  rewrite (sat_ok p a r Ha Hr Br Ba). cbn [mbind result_bind fst snd]. unfold circle. reflexivity.
Qed.

Lemma path_ok xm ym key ips :
  Forall (λ ip : nat * point, ∃ pos, xy xm ym key ip.2 = Ok pos) ips →
  ∃ d, mapR (path_step xm ym key) ips = Ok d.
Proof.
  intros H. apply mapR_total. eapply Forall_impl; [exact H|]. intros ip (pos & E).
  unfold path_step. rewrite E. by eexists.
Qed.

(** The path through a list of positions: move to the first, a line to each
    of the others. *)
Definition point_text (q : float * float) : string := f1 q.1 +:+ "," +:+ f1 q.2.

Definition path_data (ps : list (float * float)) : string :=
  match ps with
  | [] => EmptyString
  | p :: ps => "M" +:+ point_text p +:+ foldr (λ q s, " L" +:+ point_text q +:+ s) EmptyString ps
  end.

Lemma join_lines x ps :
  join " " (x :: ((λ q, "L" +:+ point_text q) <$> ps)) = x +:+ foldr (λ q s, " L" +:+ point_text q +:+ s) EmptyString ps.
Proof.
  revert x. induction ps as [|q ps IH]; intros x; [cbn; by rewrite app_str_nil_r|].
  rewrite fmap_cons. change (join " " (x :: ("L" +:+ point_text q) :: ((λ q, "L" +:+ point_text q) <$> ps)))
    with (x +:+ " " +:+ join " " (("L" +:+ point_text q) :: ((λ q, "L" +:+ point_text q) <$> ps))).
  rewrite IH. cbn [foldr]. by rewrite !app_str_assoc.
Qed.

Lemma path_lines {A} (f : A → result (float * float)) (h : nat → nat) l ps :
  (∀ i, h i ≠ O) → mapR f l = Ok ps →
  mapR (λ ip : nat * A, pos ← f ip.2; Ok ((match ip.1 with O => "M" | _ => "L" end) +:+ f1 pos.1 +:+ "," +:+ f1 pos.2))
    (imap (λ i x, (h i, x)) l) = Ok ((λ q, "L" +:+ point_text q) <$> ps).
Proof.
  revert h ps. induction l as [|x l IH]; intros h ps Hh E; cbn in E; [by inv_ok|].
  apply bind_Ok in E as (q & Eq & E). apply bind_Ok in E as (ps' & Eps & E). inv_ok.
  rewrite imap_cons, fmap_cons. cbn [mapR fst snd]. rewrite Eq. cbn [mbind result_bind].
  specialize (IH (λ i, h (S i)) ps' (λ i, Hh (S i)) Eps). unfold compose. rewrite IH.
  specialize (Hh O). by destruct (h O).
Qed.

(** The loop over the points builds that path. *)
Lemma path_through {A} (f : A → result (float * float)) l ps :
  mapR f l = Ok ps →
  ∃ d, mapR (λ ip : nat * A, pos ← f ip.2; Ok ((match ip.1 with O => "M" | _ => "L" end) +:+ f1 pos.1 +:+ "," +:+ f1 pos.2))
         (enumerate l) = Ok d ∧ join " " d = path_data ps.
Proof.
  destruct l as [|x l]; intros E; cbn in E; [inv_ok; by exists []|].
  apply bind_Ok in E as (q & Eq & E). apply bind_Ok in E as (ps' & Eps & E). inv_ok.
  unfold enumerate. rewrite imap_cons. cbn [mapR fst snd]. rewrite Eq. cbn [mbind result_bind].
  pose proof (path_lines f S l ps' (λ i, Nat.neq_succ_0 i) Eps) as K.
  change (imap (pair ∘ S) l) with (imap (λ i x, (S i, x)) l). rewrite K.
  eexists. split; [reflexivity|]. rewrite join_lines. unfold path_data, point_text. by rewrite !app_str_assoc.
Qed.

(** What a series is made of. *)
Lemma series_ok pts c xm ym key xyar :
  Forall2 (λ p (q : (float * float) * (Z * Z)), drawable xm ym key p q.1.1 q.1.2 q.2.1 q.2.2) pts xyar →
  series pts c xm ym key
    = Ok (tmpl "<path d=`{}` fill=`none` stroke=`{}` stroke-width=`2` stroke-linejoin=`round` stroke-linecap=`round`/>"
            [path_data xyar.*1; c]
          :: ((λ q : (float * float) * (Z * Z), circle c q.1.1 q.1.2 (100 * q.2.1 <? 99 * q.2.2)) <$> xyar)).
Proof.
  intros H. destruct (path_through (xy xm ym key) pts xyar.*1) as (d & Ed & Ej).
  { apply mapR_Ok. rewrite Forall2_fmap_r. eapply Forall2_impl; [exact H|]. intros p [[x y] ar] Hq.
    by apply (marker_ok c) in Hq as [-> _]. }
  unfold series. change (mapR (path_step xm ym key) (enumerate pts) = Ok d) in Ed. rewrite Ed.
  cbn [mbind result_bind]. rewrite Ej.
  assert (mapR (marker c xm ym key) pts
    = Ok ((λ q : (float * float) * (Z * Z), circle c q.1.1 q.1.2 (100 * q.2.1 <? 99 * q.2.2)) <$> xyar)) as ->;
    [|done].
  apply mapR_Ok. rewrite Forall2_fmap_r. eapply Forall2_impl; [exact H|].
  intros p q Hq. cbn. by apply (marker_ok c) in Hq as [_ ->].
Qed.

(** C25 Drawing a series gives the path through the positions of its points,
    in order, and one marker per point, at the point's position, hollow
    exactly when the achieved rate is below 99% of the offered one. *)
Theorem series_markers pts c xm ym key xyar :
  Forall2 (λ p (q : (float * float) * (Z * Z)), drawable xm ym key p q.1.1 q.1.2 q.2.1 q.2.2) pts xyar →
  series pts c xm ym key
    = Ok (tmpl "<path d=`{}` fill=`none` stroke=`{}` stroke-width=`2` stroke-linejoin=`round` stroke-linecap=`round`/>"
            [path_data xyar.*1; c]
          :: ((λ q : (float * float) * (Z * Z), circle c q.1.1 q.1.2 (100 * q.2.1 <? 99 * q.2.2)) <$> xyar)).
Proof. apply series_ok. Qed.

Definition demo_y : Z → result float := @ymap demo_log10 86 280 (demo_log10 400%Q) (demo_log10 1000000%Q).
Definition value (r : result float) : float := match r with Ok x => x | Err _ => NaN end.

Lemma series_markers_witness :
  series [[("rate", 25000); ("achieved", 24111); ("p50", 711)]] C1 (xmap 78 622 320000) demo_y "p50"
    = Ok [tmpl "<path d=`{}` fill=`none` stroke=`{}` stroke-width=`2` stroke-linejoin=`round` stroke-linecap=`round`/>"
            [path_data [(value (xmap 78 622 320000 25000), value (demo_y 711))]; C1];
          circle C1 (value (xmap 78 622 320000 25000)) (value (demo_y 711)) true].
Proof.
  apply (series_markers [[("rate", 25000); ("achieved", 24111); ("p50", 711)]] C1 (xmap 78 622 320000) demo_y "p50"
      [((value (xmap 78 622 320000 25000), value (demo_y 711)), (24111, 25000))]).
  constructor; [|constructor]. split; [reflexivity|reflexivity|vm_compute; reflexivity| |cbn; lia|cbn; lia].
  eexists. split; [reflexivity|]. vm_compute. reflexivity.
Defined.

(** A series is drawn when each point has a position. *)
Lemma series_total pts c xm ym key :
  Forall (λ p, (∃ pos, xy xm ym key p = Ok pos) ∧ ∃ b, sat p = Ok b) pts →
  ∃ o, series pts c xm ym key = Ok o.
Proof.
  intros H. unfold series. destruct (path_ok xm ym key (enumerate pts)) as (d & ->).
  { unfold enumerate. apply Forall_forall. intros [i p] Hip. apply list_elem_of_lookup in Hip as (j & Hj).
    rewrite list_lookup_imap in Hj. destruct (pts !! j) as [p'|] eqn:E; [|done]. injection Hj as -> ->.
    apply list_elem_of_lookup_2 in E. rewrite Forall_forall in H. by apply H in E as [? _]. }
  cbn [mbind result_bind]. destruct (mapR_total (marker c xm ym key) pts) as (ms & ->); [|by eexists].
  eapply Forall_impl; [exact H|]. intros p [(pos & Ep) (b & Eb)]. unfold marker. rewrite Ep.
  cbn [mbind result_bind]. rewrite Eb. by eexists.
Qed.

(** ** Legend *)

(** An entry lies within the width, or it is the first of its row. *)
Definition within (L maxx : Z) (p : placed) : Prop :=
  at_x p = PInt L ∨
  ∃ w e, _legend_w (entry p).1 = Ok w ∧ nadd (at_x p) w = Ok e ∧ ngt e (PInt maxx) = false.

Lemma legend_w_ok lab : py_len lab <= 2 ^ 53 → ∃ x, _legend_w lab = Ok (PFlt x).
Proof.
  intros Hl. pose proof (py_len_nonneg lab). unfold _legend_w, nmul, nadd, arith, lit, to_float.
  destruct (f_small (py_len lab)) as (f & -> & _); [lia|]. by eexists.
Qed.

(** Any position the loop reaches: the left margin, or a float. *)
Definition reached (L : Z) (lx : pynum) : Prop := lx = PInt L ∨ ∃ x, lx = PFlt x.

Lemma reached_add L lx x : Z.abs L <= 2 ^ 53 → reached L lx → ∃ e, nadd lx (PFlt x) = Ok (PFlt e).
Proof.
  intros HL [-> |(y & ->)]; unfold nadd, arith, to_float; [|by eexists].
  destruct (f_small L HL) as (f & -> & _). by eexists.
Qed.

(** An entry that does not wrap and is not at the margin fits. *)
Lemma wraps_spec L maxx lx w :
  Z.abs L <= 2 ^ 53 → reached L lx →
  ∃ b, wraps L maxx lx (PFlt w) = Ok b ∧
       (b = false → ngt lx (PInt L) = true → ∃ e, nadd lx (PFlt w) = Ok e ∧ ngt e (PInt maxx) = false).
Proof.
  intros HL HR. unfold wraps. destruct (ngt lx (PInt L)); [|by exists false].
  destruct (reached_add L lx w HL HR) as (e & E). rewrite E. cbn [mbind result_bind].
  eexists. split; [done|]. intros Hb _. by exists (PFlt e).
Qed.

(** [legend] moves down a row exactly when [legend_rows] counts one. *)
Lemma legend_loop_spec L maxx items : Z.abs L <= 2 ^ 53 → Forall (λ it : item, py_len it.1 <= 2 ^ 53) items →
  ∀ y rows lx, reached L lx →
  ∃ R ps, legend_rows_loop L maxx items rows lx = Ok R ∧ legend_loop L (Some maxx) items y lx = Ok ps ∧
    entry <$> ps = items ∧ rows <= R ∧
    Forall (λ p, y <= at_y p <= y + 18 * (R - rows)) ps ∧
    default (y + 18 * (R - rows)) (at_y <$> last ps) = y + 18 * (R - rows) ∧
    Forall (λ p, ngt (at_x p) (PInt L) = false ∨ within L maxx p) ps.
Proof.
  intros HL. induction 1 as [|[lab c] items Hlab H IH]; intros y rows lx HR.
  - exists rows, []. cbn. split_and!; done || lia.
  - cbn [legend_rows_loop legend_loop fst]. destruct (legend_w_ok lab Hlab) as (w & Ew). rewrite Ew.
    cbn [mbind result_bind]. destruct (wraps_spec L maxx lx w HL HR) as (b & Eb & Hb). rewrite Eb.
    cbn [mbind result_bind].
    set (y' := if b then y + 18 else y). set (rows' := if b then rows + 1 else rows).
    set (lx' := if b then PInt L else lx).
    assert (reached L lx') as HR' by (subst lx'; destruct b; [by left|done]).
    destruct (reached_add L lx' w HL HR') as (e & Ee). rewrite Ee. cbn [mbind result_bind].
    destruct (IH y' rows' (PFlt e)) as (R & ps & E1 & E2 & E3 & E4 & E5 & E6 & E7); [right; by eexists|].
    exists R, (Placed lx' y' (lab, c) :: ps). rewrite E1, E2. cbn [mbind result_bind].
    assert (y' + 18 * (R - rows') = y + 18 * (R - rows)) as EY by (subst y' rows'; destruct b; lia).
    assert (y <= y' ∧ rows <= rows') as [Hy Hr] by (subst y' rows'; destruct b; lia).
    rewrite EY in E5, E6.
    split_and!; [done|done|by rewrite fmap_cons, E3|lia| | |].
    + constructor; [cbn; lia|]. eapply Forall_impl; [exact E5|]. cbn. lia.
    + rewrite last_cons. destruct (last ps) eqn:El; [done|].
      cbn. cbn in E6. apply last_None in El as ->. destruct items; [|done]. cbn in E1. inv_ok.
      subst. lia.
    + constructor; [|done]. cbn [at_x]. subst lx'. destruct b; [right; left; done|].
      destruct (ngt lx (PInt L)) eqn:G; [|by left]. right. right.
      destruct (Hb eq_refl eq_refl) as (e' & Ee' & He'). exists (PFlt w), e'. done.
Qed.

(** Where the entries of a wrapped legend go. *)
Lemma legend_ok L H items maxx :
  Z.abs L <= 2 ^ 53 → maxx ≠ 0 → Forall (λ it : item, py_len it.1 <= 2 ^ 53) items →
  ∃ R ps, legend_rows items L maxx = Ok R ∧ legend_place L H items (Some maxx) = Ok ps ∧
    entry <$> ps = items ∧ 1 <= R ∧
    Forall (λ p, H - 16 - (R - 1) * 18 <= at_y p <= H - 16) ps ∧
    (∀ p, last ps = Some p → at_y p = H - 16) ∧
    Forall (λ p, ngt (at_x p) (PInt L) = false ∨ within L maxx p) ps.
Proof.
  intros HL Hm Hit.
  destruct (legend_loop_spec L maxx items HL Hit 0 1 (PInt L)) as (R & _ & E & _); [by left|].
  destruct (legend_loop_spec L maxx items HL Hit (H - 16 - (R - 1) * 18) 1 (PInt L))
    as (R' & ps & E1 & E2 & E3 & E4 & E5 & E6 & E7); [by left|].
  assert (R' = R) as -> by congruence. exists R, ps. unfold legend_rows, legend_place, truthy.
  destruct (Z.eqb_spec maxx 0); [done|]. unfold legend_rows. rewrite E1. cbn [mbind result_bind].
  split_and!; [done|done|done|done| |by intros p Hp; rewrite Hp in E6; cbn in E6; lia|done].
  eapply Forall_impl; [exact E5|]. cbn. lia.
Qed.

(** C21 The wrapped legend: every entry is drawn, in order; the rows it uses
    are the ones [legend_rows] told the caller to reserve, the last of them
    16 px above the bottom edge and none above the reserved block; and an
    entry ends inside [maxx] unless it already starts at the left margin. *)
Theorem legend_fits L H items maxx :
  Z.abs L <= 2 ^ 53 → maxx ≠ 0 → Forall (λ it : item, py_len it.1 <= 2 ^ 53) items →
  ∃ R ps, legend_rows items L maxx = Ok R ∧ legend_place L H items (Some maxx) = Ok ps ∧
    entry <$> ps = items ∧ 1 <= R ∧
    Forall (λ p, H - 16 - (R - 1) * 18 <= at_y p <= H - 16) ps ∧
    (∀ p, last ps = Some p → at_y p = H - 16) ∧
    Forall (λ p, ngt (at_x p) (PInt L) = false ∨ within L maxx p) ps.
Proof. apply legend_ok. Qed.

Lemma legend_fits_witness :
  ∃ R ps, legend_rows [("synchronous ack", C1); ("output: WebSocket", C5)] 78 200 = Ok R ∧
    legend_place 78 470 [("synchronous ack", C1); ("output: WebSocket", C5)] (Some 200) = Ok ps ∧
    entry <$> ps = [("synchronous ack", C1); ("output: WebSocket", C5)] ∧ 1 <= R ∧
    Forall (λ p, 470 - 16 - (R - 1) * 18 <= at_y p <= 470 - 16) ps ∧
    (∀ p, last ps = Some p → at_y p = 470 - 16) ∧
    Forall (λ p, ngt (at_x p) (PInt 78) = false ∨ within 78 200 p) ps.
Proof.
  apply (legend_fits 78 470 [("synchronous ack", C1); ("output: WebSocket", C5)] 200); [lia|lia|].
  apply (bool_decide_unpack _). vm_compute. exact I.
Defined.

(** The legend is always drawn. *)
Lemma legend_loop_total L maxx items : Z.abs L <= 2 ^ 53 → Forall (λ it : item, py_len it.1 <= 2 ^ 53) items →
  ∀ y lx, reached L lx →
  ∃ ps, legend_loop L maxx items y lx = Ok ps ∧ Forall (λ p, reached L (at_x p)) ps.
Proof.
  intros HL. induction 1 as [|[lab c] items Hlab H IH]; intros y lx HR; [by exists []|].
  cbn [legend_loop fst]. destruct (legend_w_ok lab Hlab) as (w & Ew). rewrite Ew. cbn [mbind result_bind].
  assert (∃ b : bool, match maxx with Some m => wraps L m lx (PFlt w) | None => Ok false end = Ok b) as (b & ->).
  { destruct maxx as [m|]; [|by exists false]. destruct (wraps_spec L m lx w HL HR) as (b & Eb & _). by exists b. }
  cbn [mbind result_bind]. set (y' := if b then y + 18 else y). set (lx' := if b then PInt L else lx).
  assert (reached L lx') as HR' by (subst lx'; destruct b; [by left|done]).
  destruct (reached_add L lx' w HL HR') as (e & Ee). rewrite Ee. cbn [mbind result_bind].
  destruct (IH y' (PFlt e)) as (ps & E & Hps); [right; by eexists|]. rewrite E. cbn [mbind result_bind].
  eexists. split; [reflexivity|]. by constructor.
Qed.

Lemma legend_entry_total L p : Z.abs L <= 2 ^ 52 → reached L (at_x p) → ∃ l, legend_entry p = Ok l.
Proof.
  intros HL HR. unfold legend_entry.
  assert (∀ z, 0 <= z <= 16 → ∃ x, nadd (at_x p) (PInt z) = Ok x) as G.
  { intros z Hz. destruct HR as [-> |(x & ->)]; unfold nadd, arith, to_float; [by eexists|].
    destruct (f_small z) as (f & -> & _); [lia|]. by eexists. }
  destruct (G 5) as (x & ->); [lia|]. destruct (G 16) as (x' & ->); [lia|]. by eexists.
Qed.

Lemma legend_total L H items maxx :
  Z.abs L <= 2 ^ 52 → Forall (λ it : item, py_len it.1 <= 2 ^ 53) items →
  ∃ o, legend L H items maxx = Ok o.
Proof.
  intros HL Hit. unfold legend, legend_place.
  assert (∃ rows, match truthy maxx with Some m => legend_rows items L m | None => Ok 1 end = Ok rows) as (rows & ->).
  { destruct (truthy maxx) as [m|]; [|by exists 1].
    destruct (legend_loop_spec L m items ltac:(lia) Hit 0 1 (PInt L)) as (R & _ & E & _); [by left|]. by exists R. }
  cbn [mbind result_bind].
  destruct (legend_loop_total L (truthy maxx) items ltac:(lia) Hit (H - 16 - (rows - 1) * 18) (PInt L))
    as (ps & -> & Hps); [by left|]. cbn [mbind result_bind].
  destruct (mapR_total legend_entry ps) as (es & ->); [|by eexists].
  eapply Forall_impl; [exact Hps|]. intros p Hp. by apply (legend_entry_total L).
Qed.

(** ** Subtitles *)

Definition space : ascii := " "%char.

Lemma join_split s : join " " (split_on space s) = s.
Proof.
  induction s as [|c s IH]; [done|]. cbn [split_on]. destruct (Ascii.eqb_spec c space) as [->|Hc].
  - assert (split_on space s ≠ []) by (destruct s; cbn; [done|]; destruct (Ascii.eqb _ _); [done|]; by destruct (split_on space s)).
    destruct (split_on space s) as [|w ws] eqn:E; [done|].
    change (join " " (EmptyString :: w :: ws)) with (String space (join " " (w :: ws))). by rewrite IH.
  - destruct (split_on space s) as [|w ws] eqn:E; [by cbn in *; subst s|].
    destruct ws as [|w2 ws]; cbn [join] in *; [by subst|]. rewrite app_str_cons. by f_equal.
Qed.

Lemma split_no_char c s : Forall (λ w, no_char c w = true) (split_on c s).
Proof.
  induction s as [|a s IH]; cbn [split_on]; [by repeat constructor|].
  destruct (Ascii.eqb a c) eqn:E; [by constructor|].
  destruct (split_on c s) as [|w ws]; inversion IH; subst; constructor; try done.
  - unfold no_char. cbn. by rewrite E.
  - unfold no_char in *. cbn. by rewrite E.
Qed.

Lemma join_merge l a b k : join " " (l ++ (a +:+ " " +:+ b) :: k) = join " " (l ++ a :: b :: k).
Proof.
  induction l as [|x l IH]; cbn [app].
  - destruct k as [|y k]; cbn [join]; [done|]. by rewrite !app_str_assoc.
  - cbn [join]. destruct l; cbn [app] in *; f_equal; f_equal; exact IH.
Qed.

Lemma is_empty_spec s : is_empty s = true ↔ s = EmptyString.
Proof. by destruct s. Qed.

Definition pending (cur : string) : list string := if is_empty cur then [] else [cur].

Lemma wrap_loop_join b words lines cur :
  Forall (λ w, w ≠ EmptyString) words →
  join " " (wrap_loop b words lines cur) = join " " (lines ++ pending cur ++ words).
Proof.
  unfold pending. intros H. revert lines cur.
  induction H as [|w words Hw H IH]; intros lines cur; cbn [wrap_loop].
  - destruct (is_empty cur); by rewrite ?app_nil_r.
  - assert (is_empty w = false) as Ew by by destruct w.
    destruct (is_empty cur) eqn:Ec; cbn [negb andb].
    + rewrite IH, Ew. done.
    + destruct (b <? _); rewrite IH.
      * rewrite Ew, <- app_assoc. done.
      * assert (is_empty (cur +:+ " " +:+ w) = false) as -> by by destruct cur.
        cbn [app]. apply join_merge.
Qed.

(** A line is short enough, or a single word. *)
Definition line_ok (b : Z) (l : string) : Prop := py_len l <= b ∨ no_char space l = true.

Lemma wrap_loop_width b words lines cur :
  Forall (λ w, no_char space w = true) words → Forall (line_ok b) lines → (line_ok b cur ∨ cur = EmptyString) →
  Forall (line_ok b) (wrap_loop b words lines cur).
Proof.
  intros H. revert lines cur. induction H as [|w words Hw H IH]; intros lines cur Hl Hc; cbn [wrap_loop].
  - destruct (is_empty cur) eqn:E; [done|]. apply Forall_app. split; [done|]. constructor; [|done].
    destruct Hc as [| ->]; [done|by cbn in E].
  - destruct (is_empty cur) eqn:E; cbn [negb andb].
    + apply IH; [done|]. left. by right.
    + destruct (Z.ltb_spec b (py_len cur + 1 + py_len w)).
      * apply IH; [|left; by right]. apply Forall_app. split; [done|]. constructor; [|done].
        destruct Hc as [| ->]; [done|by cbn in E].
      * apply IH; [done|]. left. left. rewrite !py_len_app. change (py_len " ") with 1. lia.
Qed.

(** C26 Wrapping a subtitle loses nothing: joined by spaces, the lines are the
    text, and each line is within the budget unless it is one word. *)
Theorem wrap_sub_roundtrip text budget :
  Forall (λ w, w ≠ EmptyString) (split_on space text) →
  join " " (wrap_sub text budget) = text ∧
  Forall (λ l, py_len l <= budget ∨ no_char space l = true) (wrap_sub text budget).
Proof.
  intros H. unfold wrap_sub. split.
  - rewrite wrap_loop_join by done. apply join_split.
  - apply wrap_loop_width; [apply split_no_char|done|by right].
Qed.

Lemma wrap_sub_roundtrip_witness :
  join " " (wrap_sub "At 100k: output: brpc 890 us; FIX (journal) 1,127 us." 30)
  = "At 100k: output: brpc 890 us; FIX (journal) 1,127 us." ∧
  Forall (λ l, py_len l <= 30 ∨ no_char space l = true)
    (wrap_sub "At 100k: output: brpc 890 us; FIX (journal) 1,127 us." 30).
Proof.
  apply (wrap_sub_roundtrip "At 100k: output: brpc 890 us; FIX (journal) 1,127 us." 30).
  apply (bool_decide_unpack _). vm_compute. exact I.
Defined.
