(* ===== verification/KneeCharts.v ===== *)
(** The knee charts of [sweep/mkcharts.py]: the three-way comparison
    ([knee-curves.svg]) and one chart per product the table [CFG] knows
    ([knee-<product>.svg]).

    The functions return the lines of the SVG or the exception the drawing
    code raises; [Mkcharts.v] sequences them with the file writes. *)

From S2P Require Import Prelude PyFloat PyStr PyNum ChartData Svg.
From Stdlib Require Import QArith Qround Qabs Lqa.

Open Scope Z_scope.

Definition anchor_end : string := tmpl " text-anchor=`end`" [].

(** [f"{v//1000} ms" if v>=1000 else f"{v} µs"]. *)
Definition fmt_ms (v : Z) : string :=
  if 1000 <=? v then str_Z (v / 1000) +:+ " ms" else str_Z v +:+ " µs".

(** The canvas of the combined chart and of a product's chart. *)

Module Combined.
Definition W : Z := 900.
Definition H : Z := 500.
Definition L : Z := 78.
Definition R : Z := 150.
Definition T : Z := 78.
Definition B : Z := 74.
Definition PW : Z := W - L - R.
Definition PH : Z := H - T - B.
Definition XMAX : Z := 650000.
Definition YMIN : pynum := lit 420.
Definition YMAX : pynum := lit 16000.
End Combined.

Module Product.
Definition W : Z := 820.
Definition H : Z := 440.
Definition L : Z := 78.
Definition R : Z := 120.
Definition T : Z := 86.
Definition B : Z := 74.
Definition PW : Z := W - L - R.
Definition PH : Z := H - T - B.
End Product.

Section Charts.
Context `{Libm}.

(** ** The combined chart *)

Definition curve_xm : Z → result float := xmap Combined.L Combined.PW Combined.XMAX.

Definition curve_ym (v : Z) : result float :=
  ylo ← math_log10 Combined.YMIN;
  yhi ← math_log10 Combined.YMAX;
  ymap Combined.T Combined.PH ylo yhi v.

(** Where a series gets its direct label: at its last point or at a rate, and
    the offset of the text. *)
Record label_at := LabelAt { at_rate : option Z; dx : Z; dy : Z }.

Definition LABEL_AT (name : string) : option label_at :=
  dget [("aeron", LabelAt None 12 4); ("braft", LabelAt (Some 250000) 12 (-8));
        ("openraft", LabelAt (Some 85000) (-12) 4)] name.

Definition present (d : dataset) : list item :=
  List.filter (λ it : item, in_D d it.1) [("aeron", C1); ("braft", C2); ("openraft", C3)].

(** [next(p for p in pts if p["rate"]==at)]. *)
Fixpoint next_at (rate : Z) (pts : list point) : result point :=
  match pts with
  | [] => Err StopIteration
  | p :: pts => r ← col p "rate"; if r =? rate then Ok p else next_at rate pts
  end.

Definition label_point (la : label_at) (pts : list point) : result point :=
  match at_rate la with
  | None => require IndexError (last pts)
  | Some r => next_at r pts
  end.

Definition curve (d : dataset) (it : item) : result (list string) :=
  let pts := series_of d it.1 in
  s ← series pts it.2 curve_xm curve_ym "p50";
  la ← require (KeyError it.1) (LABEL_AT it.1);
  pt ← label_point la pts;
  r ← col pt "rate"; x ← curve_xm r; x ← plus x (dx la);
  v ← col pt "p50"; y ← curve_ym v; y ← plus y (dy la);
  Ok (s ++ [tmpl "<text x=`{}` y=`{}` font-size=`12`{} font-weight=`600` fill=`{}`>{}</text>"
              [f1 x; f1 y; if dx la <? 0 then anchor_end else EmptyString; INK; it.1]]).

Definition knee_curves (d : dataset) : result (list string) :=
  ax ← axes Combined.L Combined.T Combined.PW Combined.PH Combined.XMAX 100000
         [500; 1000; 2000; 5000; 10000] "p50 latency (log scale)" curve_ym fmt_ms;
  cs ← mapR (curve d) (present d);
  lg ← legend Combined.L Combined.H (present d) None;
  Ok (head Combined.W Combined.H "Flat, then a knee: three raft implementations under open-loop load"
        ["p50 latency vs offered rate, 3-node multi-AZ cluster on EC2. Log latency scale.";
         "Hollow marker = the cluster no longer kept up with the offered rate."]
      ++ ax ++ concat cs ++ lg ++ ["</svg>"]).

(** ** The table of products *)

Record mark := Mark { mrate : Z; mlabel : string; mdy : Z }.

Record cfg := Cfg {
  xmax : Z; xstep : Z; yrange : Z * Z; yticks : list Z; comfort : Z;
  markers : list mark; title : string; line2 : string;
}.

Definition CFG_sweeps : list (string * cfg) :=
  [("braft",
    Cfg 320000 50000 (400, 1000000) [500; 700; 1000; 2000; 5000; 20000; 100000; 500000] 250000 [Mark 265000 "knee" 16]
      "braft — flat to 250k on c7a, then a cliff"
      "p50 641us at 10k to 1291us at 250k; 280k collapses. Earlier c6i fleet turned at ~160k.");
   ("openraft",
    Cfg 150000 25000 (700, 9000) [800; 1000; 1500; 2000; 3000; 5000; 8000] 100000 [Mark 110000 "drops climb" 16]
      "openraft — still no cliff, but a much lower slope on c7a"
      "Latency never cliffs; the dashed line is where the rig's own drops start climbing.");
   ("aeron",
    Cfg 650000 100000 (450, 4000) [500; 600; 800; 1000; 1500; 2000; 3000] 250000 [Mark 270000 "knee" 16]
      "aeron — still the flattest curve, but the ceiling moved down on c7a"
      "A 10x change in offered rate, 25k to 250k, moves p50 by 16 µs; 290k steps to 2.1 ms.");
   ("sequencer",
    Cfg 170000 25000 (400, 3000000) [500; 1000; 2000; 5000; 50000; 500000; 2000000] 130000 [Mark 137000 "knee" 16]
      "sequencer — flat to ~130k once the gateway batches proposals"
      "p50 572us at 10k to 1430us at 130k; 145k is the first rate that breaks.");
   ("sequencer-relay",
    Cfg 200000 25000 (500, 20000000) [1000; 5000; 50000; 200000; 1000000; 5000000; 20000000] 100000 [Mark 112000 "ceiling" 16]
      "sequencer-relay — sub-2ms through 100k, but a lower ceiling than the old design"
      "p50 649us-1.3ms from 10k to 100k, beating phase 1's own ack latency; cliff moved from 130k to 115k.");
   ("sequencer-direct",
    Cfg 260000 50000 (400, 12000) [500; 700; 1000; 2000; 3000; 5000; 10000] 250000 []
      "sequencer-direct — submitting straight to the node, no input gateway"
      "p50 508us at 10k to 727us at 100k, still 1.6ms at 250k; the gateway arm knees at ~55-70k.");
   ("sequencer-output-brpc",
    Cfg 520000 100000 (500, 200000) [500; 1000; 2000; 5000; 10000; 50000; 200000] 150000 [Mark 312000 "knee" 16]
      "sequencer-output-brpc — brpc Streaming RPC, clean to 300k"
      "Five client boxes, one gateway, per-client topics. 300k at 1484us with zero drops; collapses by 325k.");
   ("sequencer-output-grpc",
    Cfg 520000 100000 (500, 200000) [500; 1000; 2000; 5000; 10000; 50000; 200000] 175000 [Mark 312000 "knee" 16]
      "sequencer-output-grpc — real gRPC streaming, clean to 300k"
      "Carries 300k with zero drops at 1489us; by 325k it has gone. Achieved plateaus near 320k however much more is offered.")].

Definition CFG_gateways : list (string * cfg) :=
  [("exchange-fix",
    Cfg 520000 100000 (700, 5000000) [1000; 3000; 10000; 40000; 150000; 600000; 4000000] 150000 [Mark 150000 "last clean" 150; Mark 195000 "ceiling" 40]
      "exchange-fix - a CLOB on sequencer, over FIX 4.4"
      "Full rate to 150k with zero drops, p50 1.4ms / p99 4.5ms. Hollow = offered rate not met.");
   ("sequencer-fix-gen",
    Cfg 520000 100000 (600, 200000) [700; 1000; 2000; 5000; 15000; 50000; 150000] 300000 [Mark 300000 "last clean" 150]
      "sequencer-fix-gen - the counter, 20 sessions across 2 gateways"
      "A deployment variant, not a comparable arm. Full rate to 300k; past it the rig drops.");
   ("sequencer-fix",
    Cfg 520000 100000 (500, 200000) [500; 1000; 2000; 5000; 10000; 50000; 200000] 25000 [Mark 450000 "knee" 16]
      "sequencer-fix - FIX 4.4 from the journal, the furthest-reaching arm"
      "ONE gateway, five sessions, both directions. Zero drops through 400k -- further than any other arm -- and collapses by 500k.");
   ("sequencer-quickfix",
    Cfg 520000 100000 (500, 200000) [500; 1000; 2000; 5000; 10000; 50000; 200000] 100000 [Mark 162000 "knee" 16]
      "sequencer-quickfix - FIX 4.4 on QuickFIX's session layer"
      "Carries 125k at 1127us, collapses by 175k, plateaus near 158k -- against 250k+ on the hffix arm.");
   ("braft-multi",
    Cfg 520000 100000 (500, 200000) [500; 1000; 2000; 5000; 10000; 50000; 200000] 125000 [Mark 212000 "knee" 16]
      "braft-multi - bare braft, no sequencer, five client boxes"
      "One raft op per request, unbatched: 200k at 1.7ms, collapsing by 225k. The gateways pass it because they batch.");
   ("sequencer-fix-inline",
    Cfg 520000 100000 (500, 200000) [500; 1000; 2000; 5000; 10000; 50000; 200000] 75000 [Mark 312000 "knee" 16]
      "sequencer-fix-inline - FIX 4.4, answered from the propose receipt"
      "Faster below ~100k and worse above, and it knees at 300k where the journal path runs to 400k: one send per reply, uncoalesced.");
   ("sequencer-output-websocket",
    Cfg 520000 100000 (500, 200000) [500; 1000; 2000; 5000; 10000; 50000; 200000] 150000 [Mark 312000 "knee" 16]
      "sequencer-output-websocket — Boost.Beast WebSocket, clean to 300k"
      "Nagle off (Beast does not set it; brpc and gRPC do). The p90 that used to leave the other two above 150k was that, not the writer thread.")].

Definition CFG : list (string * cfg) := CFG_sweeps ++ CFG_gateways.

(** ** One product's chart *)

Definition knee_xm (c : cfg) : Z → result float := xmap Product.L Product.PW (xmax c).

(** [x - z] for a float and an int. *)
Definition minus (x : float) (z : Z) : result float := y ← nsub (PFlt x) (PInt z); to_float y.

(** One dashed rule. *)
Definition rule (c : cfg) (m : mark) : result (list string) :=
  kx ← knee_xm c (mrate m);
  tx ← plus kx 6;
  Ok [tmpl "<line x1=`{}` y1=`{}` x2=`{}` y2=`{}` stroke=`{}` stroke-width=`1` stroke-dasharray=`4 4`/>"
        [f1 kx; str_Z Product.T; f1 kx; str_Z (Product.T + Product.PH); MUTED];
      tmpl "<text x=`{}` y=`{}` font-size=`11` font-weight=`600` fill=`{}`>{}</text>"
        [f1 tx; str_Z (Product.T + mdy m); INK2; mlabel m]].

Definition kMinLabelGap : pynum := lit 14.

(** The vertical position of an end label, clamped to the plot. *)
Definition clamp (y : float) : pynum :=
  nmin (nmax (PFlt y) (PInt Product.T)) (PInt (Product.T + Product.PH)).

(** The two end labels, pushed apart when they are too close. *)
Definition separate (p99 p50 : pynum) : result (pynum * pynum) :=
  d ← nsub p99 p50;
  if nlt (nabs d) kMinLabelGap then
    s ← nadd p99 p50;
    mid ← ndiv s (lit 2);
    half ← ndiv kMinLabelGap (lit 2);
    up ← nsub (PFlt mid) (PFlt half);
    down ← nadd (PFlt mid) (PFlt half);
    Ok (if nle p99 p50 then (up, down) else (down, up))
  else Ok (p99, p50).

(** [f"{pos[key]+4:.1f}"]. *)
Definition label_y (p : pynum) : result string :=
  y ← nadd p (PInt 4); x ← to_float y; Ok (f1 x).

Definition end_label (xl : float) (key : string) (pos : pynum) : result string :=
  y ← label_y pos;
  Ok (tmpl "<text x=`{}` y=`{}` font-size=`12` font-weight=`600` fill=`{}`>{}</text>" [f1 xl; y; INK; key]).

Definition end_labels (c : cfg) (ym : Z → result float) (pts : list point) : result (list string) :=
  lst ← require IndexError (last pts);
  v99 ← col lst "p99"; y99 ← ym v99;
  v50 ← col lst "p50"; y50 ← ym v50;
  pos ← separate (clamp y99) (clamp y50);
  r ← col lst "rate"; x ← knee_xm c r; xl ← plus x 12;
  l99 ← end_label xl "p99" pos.1;
  l50 ← end_label xl "p50" pos.2;
  Ok [l99; l50].

Definition knee_chart (c : cfg) (pts : list point) : result (list string) :=
  ylo ← math_log10 (PInt (yrange c).1);
  yhi ← math_log10 (PInt (yrange c).2);
  let ym := ymap Product.T Product.PH ylo yhi in
  xc ← knee_xm c (comfort c); band ← minus xc Product.L;
  rules ← mapR (rule c) (markers c);
  ax ← axes Product.L Product.T Product.PW Product.PH (xmax c) (xstep c) (yticks c)
         "latency (µs), log scale" ym comma;
  s99 ← series pts C2 (knee_xm c) ym "p99";
  s50 ← series pts C1 (knee_xm c) ym "p50";
  ls ← end_labels c ym pts;
  lg ← legend Product.L Product.H [("p50", C1); ("p99", C2)] None;
  Ok (head Product.W Product.H (title c)
        [line2 c; "p50 and p99 latency, open loop. Hollow marker = the cluster fell behind the offered rate."]
      ++ [tmpl "<rect x=`{}` y=`{}` width=`{}` height=`{}` fill=`{}`/>"
            [str_Z Product.L; str_Z Product.T; f1 band; str_Z Product.PH; BAND];
          tmpl "<text x=`{}` y=`{}` font-size=`11` fill=`{}`>comfort zone</text>"
            [str_Z (Product.L + 8); str_Z (Product.T + 16); MUTED]]
      ++ concat rules ++ ax
      ++ [tmpl "<defs><clipPath id=`plot`><rect x=`{}` y=`{}` width=`{}` height=`{}`/></clipPath></defs>"
            [str_Z (Product.L - 6); str_Z (Product.T - 6); str_Z (Product.PW + 12); str_Z (Product.PH + 12)];
          tmpl "<g clip-path=`url(#plot)`>" []]
      ++ s99 ++ s50 ++ ["</g>"] ++ ls ++ lg ++ ["</svg>"]).
End Charts.

(** ** The table is consistent *)

(** Everything the table places on a chart lies on its axes. *)
Definition cfg_ok (c : cfg) : Prop :=
  0 < xmax c <= 2 ^ 33 ∧ 0 < xstep c ∧
  1 <= (yrange c).1 ∧ 2 * (yrange c).1 <= (yrange c).2 ∧ (yrange c).2 <= 2 ^ 40 ∧
  Forall (λ v, (yrange c).1 <= v <= (yrange c).2) (yticks c) ∧
  0 <= comfort c <= xmax c ∧
  Forall (λ m, 0 <= mrate m <= xmax c) (markers c).

#[export] Instance cfg_ok_dec c : Decision (cfg_ok c).
Proof. unfold cfg_ok. apply _. Defined.

Lemma CFG_ok : Forall (λ nc : string * cfg, cfg_ok nc.2) CFG.
Proof. apply (bool_decide_unpack _). vm_compute. exact I. Qed.

Lemma CFG_NoDup : NoDup CFG.*1.
Proof. apply (bool_decide_unpack _). vm_compute. exact I. Qed.

Lemma product_margins_x : margins Product.L Product.PW.
Proof. unfold margins, Product.L, Product.PW, Product.W, Product.L, Product.R. lia. Qed.
Lemma product_margins_y : margins Product.T Product.PH.
Proof. unfold margins, Product.PH, Product.H, Product.T, Product.B. lia. Qed.

Section Facts.
Context `{LL : LibmLaws}.

Lemma int_axis lo hi : 1 <= lo → 2 * lo <= hi → hi <= 2 ^ 40 → axis (inject_Z lo) (inject_Z hi).
Proof.
  intros H1 H2 H3. split_and!.
  - change 1%Q with (inject_Z 1). by apply inject_Z_le.
  - change 2%Q with (inject_Z 2). rewrite <- inject_Z_mult. by apply inject_Z_le.
  - apply int_lt_pow. lia.
Qed.

Lemma cfg_axis c : cfg_ok c → axis (inject_Z (yrange c).1) (inject_Z (yrange c).2).
Proof. intros (_ & _ & H1 & H2 & H3 & _). by apply int_axis. Qed.

(** The latency axis of a product's chart. *)
Definition knee_ym (c : cfg) : Z → result float :=
  ymap Product.T Product.PH (log10 (inject_Z (yrange c).1)) (log10 (inject_Z (yrange c).2)).

(** For every product of the table, the latency ticks, the comfort band's
    edge and the knee rules are drawn inside the plot. *)
Theorem cfg_in_plot name c :
  (name, c) ∈ CFG →
  Forall (λ v, ∃ y, knee_ym c v = Ok y ∧
     (inject_Z Product.T <= fval y <= inject_Z (Product.T + Product.PH))%Q) (yticks c) ∧
  Forall (λ v, ∃ x, knee_xm c v = Ok x ∧
     (inject_Z Product.L <= fval x <= inject_Z (Product.L + Product.PW))%Q) (comfort c :: (mrate <$> markers c)).
Proof.
  intros Hin. pose proof CFG_ok as K. rewrite Forall_forall in K. apply K in Hin. cbn in Hin.
  pose proof (cfg_axis _ Hin) as Ax. destruct Hin as (X1 & X2 & Y1 & Y2 & Y3 & Yt & Cf & Mk).
  assert (∀ v, 0 <= v <= xmax c → ∃ x, knee_xm c v = Ok x ∧
     (inject_Z Product.L <= fval x <= inject_Z (Product.L + Product.PW))%Q) as Gx.
  { intros v Hv. by apply xmap_range; [apply product_margins_x| |]. }
  split.
  - eapply Forall_impl; [exact Yt|]. intros v Hv. cbn in Hv.
    destruct (ymap_range Product.T Product.PH _ _ v product_margins_y Ax) as (y & Ey & By); [lia| |by exists y].
    split; apply inject_Z_le; lia.
  - constructor; [by apply Gx|]. apply Forall_fmap. eapply Forall_impl; [exact Mk|]. intros m Hm. by apply Gx.
Qed.
End Facts.

Lemma cfg_in_plot_witness :
  Forall (λ v, ∃ y, @knee_ym demo_log10 (Cfg 150000 25000 (700, 9000) [800; 1000; 1500; 2000; 3000; 5000; 8000] 100000
       [Mark 110000 "drops climb" 16] "openraft — still no cliff, but a much lower slope on c7a"
       "Latency never cliffs; the dashed line is where the rig's own drops start climbing.") v = Ok y ∧
     (inject_Z Product.T <= fval y <= inject_Z (Product.T + Product.PH))%Q) [800; 1000; 1500; 2000; 3000; 5000; 8000] ∧
  Forall (λ v, ∃ x, knee_xm (Cfg 150000 25000 (700, 9000) [800; 1000; 1500; 2000; 3000; 5000; 8000] 100000
       [Mark 110000 "drops climb" 16] "openraft — still no cliff, but a much lower slope on c7a"
       "Latency never cliffs; the dashed line is where the rig's own drops start climbing.") v = Ok x ∧
     (inject_Z Product.L <= fval x <= inject_Z (Product.L + Product.PW))%Q) [100000; 110000].
Proof.
  apply (@cfg_in_plot demo_log10 demo_laws "openraft"). right. left.
Defined.

(** ** End labels *)

Definition top : Q := inject_Z Product.T.
Definition bottom : Q := inject_Z (Product.T + Product.PH).

Lemma clamp_range y q :
  isf y q → ∃ c, nis (clamp y) c ∧ (top <= c <= bottom)%Q.
Proof.
  intros I. unfold clamp. assert (top <= bottom)%Q as TB by (by vm_compute).
  assert (nis (PInt Product.T) top) as It by (cbn; reflexivity).
  assert (nis (PInt (Product.T + Product.PH)) bottom) as Ib by (cbn; reflexivity).
  assert (∃ m, nis (nmax (PFlt y) (PInt Product.T)) m ∧ (top <= m)%Q) as (m & Im & Hm).
  { unfold nmax. destruct (ngt (PInt Product.T) (PFlt y)) eqn:G.
    - exists top. split; [done|lra].
    - exists q. split; [done|]. destruct (Qlt_le_dec q top) as [C|]; [|done].
      apply (ngt_nis _ _ _ _ It (I : nis (PFlt y) q)) in C. congruence. }
  unfold nmin. destruct (nlt (PInt (Product.T + Product.PH)) _) eqn:G.
  - exists bottom. split; [done|lra].
  - exists m. split; [done|]. split; [done|]. destruct (Qlt_le_dec bottom m) as [C|]; [|done].
    apply (nlt_nis _ _ _ _ Ib Im) in C. congruence.
Qed.

Lemma lit_int z : (Z.abs z <= 2 ^ 53)%Z → nis (lit (inject_Z z)) (inject_Z z).
Proof.
  intros H. cbn. rewrite <- (rnd_Z z) at 2 by done. apply isf_of_Q, small_lt_pow.
  change (Qabs (inject_Z z)) with (inject_Z (Z.abs z)). apply inject_Z_le. lia.
Qed.

Lemma small_range q : (0 <= q)%Q → (q <= 1000)%Q → small q.
Proof. intros H1 H2. unfold small. rewrite Qabs_pos by done. eapply Qle_trans; [exact H2|]. by vm_compute. Qed.

(** Halving a small sum. *)
Lemma half_sum s q : nis s q → small q → ∃ m, ndiv s (lit 2) = Ok m ∧ isf m (rndQ (q / 2)).
Proof.
  intros Hs Sq. destruct (to_float_nis s q Sq Hs) as (x & Ex & Ix).
  assert (isf (of_Q 2) 2) as I2 by (apply (lit_int 2); lia).
  assert (is_zero (of_Q 2) = false) as Z2 by (by vm_compute).
  assert (ndiv s (lit 2) = Ok (fdiv x (of_Q 2))) as ->.
  { unfold ndiv, lit. destruct s; cbn [to_float mbind result_bind] in *; rewrite ?Ex;
      cbn [mbind result_bind]; rewrite Z2; [done|by injection Ex as ->]. }
  eexists. split; [done|]. apply isf_div; [done|done|discriminate|].
  apply small_lt_pow. unfold small in Sq. apply div_le_abs; [discriminate|].
  eapply Qle_trans; [exact Sq|]. by apply inject_Z_le.
Qed.

(** Closes the easy parts of a conjunction about positions. *)
Ltac qside :=
  lazymatch goal with
  | |- nis _ _ => assumption
  | |- @eq (result _) _ _ => reflexivity
  | |- (_ <= Qabs _)%Q => idtac
  | |- (Qabs _ <= _)%Q => idtac
  | |- (_ <= _)%Q => lra
  | |- _ => idtac
  end.

(** The rounded values used below differ little from the exact ones. *)
Lemma near q e : small q → rndQ q = e → (q - (1 # 1000000) <= e <= q + (1 # 1000000))%Q.
Proof. intros S <-. pose proof (rnd_small q S) as E. apply Qabs_Qle_condition in E. lra. Qed.

Lemma separate_close a b c d :
  nis a c → nis b d → (86 <= c <= 366)%Q → (86 <= d <= 366)%Q →
  ∃ up down qu qd mid,
    (s ← nadd a b; mid ← ndiv s (lit 2); half ← ndiv kMinLabelGap (lit 2);
     up ← nsub (PFlt mid) (PFlt half); down ← nadd (PFlt mid) (PFlt half);
     Ok (if nle a b then (up, down) else (down, up)))
    = Ok (if nle a b then (up, down) else (down, up)) ∧
    nis up qu ∧ nis down qd ∧ (85 <= mid <= 367)%Q ∧ (Qabs (mid - (c + d) / 2) <= 1 # 100000)%Q ∧
    (mid - 7 - (1 # 100000) <= qu <= mid - 7 + (1 # 100000))%Q ∧
    (mid + 7 - (1 # 100000) <= qd <= mid + 7 + (1 # 100000))%Q.
Proof.
  intros Ha Hb [C1 C2] [D1 D2].
  destruct (nadd_nis a b c d Ha Hb) as (s & Es & Is); [apply small_range; lra..|].
  pose proof (near (c + d) _ (small_range (c + d) ltac:(lra) ltac:(lra)) eq_refl) as Ns.
  destruct (half_sum s _ Is) as (m & Em & Im); [apply small_range; lra|].
  assert (rndQ (c + d) / 2 == rndQ (c + d) * (1 # 2))%Q as H2 by reflexivity.
  pose proof (near (rndQ (c + d) / 2) _ (small_range (rndQ (c + d) / 2) ltac:(lra) ltac:(lra)) eq_refl) as Nm.
  destruct (half_sum kMinLabelGap 14) as (h & Eh & Ih); [apply (lit_int 14); lia|by apply small_range|].
  assert (rndQ (14 / 2) == 7)%Q as E7 by (by vm_compute). rewrite E7 in Ih.
  set (mid := rndQ (rndQ (c + d) / 2)) in *.
  destruct (nsub_nis (PFlt m) (PFlt h) mid 7 Im Ih) as (up & Eu & Iu); [apply small_range; lra|by apply small_range|].
  destruct (nadd_nis (PFlt m) (PFlt h) mid 7 Im Ih) as (down & Ed & Id); [apply small_range; lra|by apply small_range|].
  pose proof (near (mid - 7) _ (small_range (mid - 7) ltac:(lra) ltac:(lra)) eq_refl) as Nu.
  pose proof (near (mid + 7) _ (small_range (mid + 7) ltac:(lra) ltac:(lra)) eq_refl) as Nd.
  exists up, down, (rndQ (mid - 7)), (rndQ (mid + 7)), mid.
  rewrite Es. cbn [mbind result_bind]. rewrite Em. cbn [mbind result_bind]. rewrite Eh.
  cbn [mbind result_bind]. rewrite Eu. cbn [mbind result_bind]. rewrite Ed. cbn [mbind result_bind].
  assert ((c + d) / 2 == (c + d) * (1 # 2))%Q as H3 by reflexivity.
  split_and!; qside. apply Qabs_Qle_condition. lra.
Qed.

Lemma separate_ok a b c d :
  nis a c → nis b d → (86 <= c <= 366)%Q → (86 <= d <= 366)%Q →
  ∃ a' b' qa qb, separate a b = Ok (a', b') ∧ nis a' qa ∧ nis b' qb ∧
    (13999 # 1000 <= Qabs (qa - qb))%Q ∧ (nle a b = true ↔ (qa < qb)%Q) ∧
    (86 - (7001 # 1000) <= qa <= 366 + (7001 # 1000))%Q ∧
    (86 - (7001 # 1000) <= qb <= 366 + (7001 # 1000))%Q.
Proof.
  intros Ha Hb Hc Hd. unfold separate.
  destruct (nsub_nis a b c d Ha Hb) as (df & Ed & Idf); [apply small_range; lra..|].
  rewrite Ed. cbn [mbind result_bind]. pose proof (nle_nis a b c d Ha Hb) as Le.
  assert (small (c - d)) as Sd.
  { unfold small. apply Qabs_Qle_condition. change (inject_Z (2 ^ 30)) with 1073741824%Q. lra. }
  pose proof (near _ _ Sd eq_refl) as Nd.
  destruct (nlt (nabs df) kMinLabelGap) eqn:G.
  - destruct (separate_close a b c d Ha Hb Hc Hd) as (up & down & qu & qd & mid & E & Iu & Idn & Bm & Nm & Bu & Bd).
    rewrite E. apply Qabs_Qle_condition in Nm. assert ((c + d) / 2 == (c + d) * (1 # 2))%Q as H3 by reflexivity.
    destruct (nle a b).
    + exists up, down, qu, qd. split_and!; qside.
      * rewrite Qabs_neg by lra. lra.
      * split; [lra|done].
    + exists down, up, qd, qu. split_and!; qside.
      * rewrite Qabs_pos by lra. lra.
      * split; [done|lra].
  - exists a, b, c, d. assert (nis kMinLabelGap 14) as I14 by (apply (lit_int 14); lia).
    assert (14 <= Qabs (rndQ (c - d)))%Q as B.
    { destruct (Qlt_le_dec (Qabs (rndQ (c - d))) 14) as [C|]; [|done].
      apply (nlt_nis _ _ _ _ (nabs_nis _ _ Idf) I14) in C. congruence. }
    assert (13999 # 1000 <= Qabs (c - d))%Q as K.
    { destruct (Qlt_le_dec (rndQ (c - d)) 0) as [N|N].
      - rewrite Qabs_neg in B by lra. rewrite Qabs_neg by lra. lra.
      - rewrite Qabs_pos in B by lra. rewrite Qabs_pos by lra. lra. }
    split_and!; qside; [exact K|]. rewrite Le. split; [|lra].
    intros Hle. destruct (Qlt_le_dec c d) as [|Hge]; [done|].
    assert (Qabs (c - d) == 0)%Q as Z0 by (rewrite Qabs_pos by lra; lra). lra.
Qed.

(** C30 The end labels of p50 and p99 never print over each other: whatever the
    two curves do, the labels are 14 px apart (up to float rounding), the
    label of the curve that ends higher stays on top, and neither leaves the
    plot by more than 7 px. *)
Theorem labels_apart y99 y50 q99 q50 :
  isf y99 q99 → isf y50 q50 →
  ∃ a b qa qb, separate (clamp y99) (clamp y50) = Ok (a, b) ∧ nis a qa ∧ nis b qb ∧
    (13999 # 1000 <= Qabs (qa - qb))%Q ∧
    (nle (clamp y99) (clamp y50) = true ↔ (qa < qb)%Q) ∧
    (top - (7001 # 1000) <= qa <= bottom + (7001 # 1000))%Q ∧
    (top - (7001 # 1000) <= qb <= bottom + (7001 # 1000))%Q.
Proof.
  intros I99 I50. destruct (clamp_range _ _ I99) as (c & Ic & [C1 C2]).
  destruct (clamp_range _ _ I50) as (d & Id & [D1 D2]).
  generalize dependent (clamp y99). generalize dependent (clamp y50). intros b Ib a Ia.
  change top with 86%Q in *. change bottom with 366%Q in *.
  apply (separate_ok a b c d); done || lra.
Qed.

Lemma labels_apart_witness :
  ∃ a b qa qb, separate (clamp (of_Q 200)) (clamp (of_Q 201)) = Ok (a, b) ∧ nis a qa ∧ nis b qb ∧
    (13999 # 1000 <= Qabs (qa - qb))%Q ∧
    (nle (clamp (of_Q 200)) (clamp (of_Q 201)) = true ↔ (qa < qb)%Q) ∧
    (top - (7001 # 1000) <= qa <= bottom + (7001 # 1000))%Q ∧
    (top - (7001 # 1000) <= qb <= bottom + (7001 # 1000))%Q.
Proof.
  apply (labels_apart (of_Q 200) (of_Q 201) 200 201); [apply (lit_int 200)|apply (lit_int 201)]; lia.
Defined.

(** ** The charts are drawn *)

(** A point as a sweep measures it: every column the charts read, in range. *)
Record chartable (p : point) : Prop := {
  ch_rate : ∃ r, col p "rate" = Ok r ∧ 1 <= r <= 2 ^ 31;
  ch_ach : ∃ a, col p "achieved" = Ok a ∧ 0 <= a <= 2 ^ 53;
  ch_p50 : ∃ v, col p "p50" = Ok v ∧ 1 <= v <= 2 ^ 31;
  ch_p99 : ∃ v, col p "p99" = Ok v ∧ 1 <= v <= 2 ^ 31;
}.

Lemma chartable_sat p : chartable p → ∃ b, sat p = Ok b.
Proof.
  intros [(r & Er & Hr) (a & Ea & Ha) _ _]. eexists. apply (sat_ok p a r Ea Er); lia.
Qed.

Lemma chartable_latency p key : chartable p → key = "p50" ∨ key = "p99" → ∃ v, col p key = Ok v ∧ 1 <= v <= 2 ^ 31.
Proof. intros [_ _ H1 H2] [-> | ->]; assumption. Qed.

(** Axes that place every rate and every latency. *)
Definition places (xm ym : Z → result float) : Prop :=
  (∀ r, 0 <= r <= 2 ^ 31 → ∃ x, xm r = Ok x) ∧ (∀ v, 1 <= v <= 2 ^ 31 → ∃ y, ym v = Ok y).

Lemma chartable_series xm ym key c pts :
  places xm ym → key = "p50" ∨ key = "p99" → Forall chartable pts → ∃ o, series pts c xm ym key = Ok o.
Proof.
  intros [Hx Hy] Hk Hp. apply series_total. eapply Forall_impl; [exact Hp|]. intros p Hc.
  split; [|by apply chartable_sat]. destruct (chartable_latency p key Hc Hk) as (v & Ev & Hv).
  destruct Hc as [(r & Er & Hr) _ _ _]. destruct (Hx r ltac:(lia)) as (x & Ex). destruct (Hy v Hv) as (y & Ey).
  exists (x, y). unfold xy. rewrite Er. cbn [mbind result_bind]. rewrite Ex. cbn [mbind result_bind].
  rewrite Ev. cbn [mbind result_bind]. by rewrite Ey.
Qed.

Lemma plus_ok x z : Z.abs z <= 2 ^ 53 → ∃ y, plus x z = Ok y.
Proof.
  intros Hz. unfold plus, nadd, arith, to_float. destruct (f_small z Hz) as (f & -> & _). by eexists.
Qed.

Lemma minus_ok x z : Z.abs z <= 2 ^ 53 → ∃ y, minus x z = Ok y.
Proof.
  intros Hz. unfold minus, nsub, arith, to_float. destruct (f_small z Hz) as (f & -> & _). by eexists.
Qed.

Lemma xmap_places L PW xmax r : margins L PW → 0 < xmax <= 2 ^ 33 → 0 <= r <= 2 ^ 33 → ∃ x, xmap L PW xmax r = Ok x.
Proof. intros Hm Hx Hr. destruct (xmap_val L PW xmax r Hm Hx) as (x & E & _); [lia|]. by exists x. Qed.

Section Total.
Context `{LL : LibmLaws}.

Lemma ymap_places T PH lo hi v : margins T PH → axis lo hi → 1 <= v <= 2 ^ 31 →
  ∃ y, ymap T PH (log10 lo) (log10 hi) v = Ok y.
Proof. intros Hm Ha Hv. destruct (ymap_val T PH lo hi v Hm Ha) as (y & E & _); [lia|]. by exists y. Qed.

Lemma knee_places c : cfg_ok c → places (knee_xm c) (knee_ym c).
Proof.
  intros Hc. pose proof (cfg_axis c Hc) as Ax. destruct Hc as (X & _). split.
  - intros r Hr. apply xmap_places; [apply product_margins_x|done|lia].
  - intros v Hv. by apply ymap_places; [apply product_margins_y| |].
Qed.

Lemma rules_ok c : cfg_ok c → ∃ rs, mapR (rule c) (markers c) = Ok rs.
Proof.
  intros (X & _ & _ & _ & _ & _ & _ & Hm). apply mapR_total. eapply Forall_impl; [exact Hm|].
  intros m Hr. cbn in Hr. unfold rule.
  destruct (xmap_places Product.L Product.PW (xmax c) (mrate m) product_margins_x X) as (x & Ex); [lia|].
  unfold knee_xm. rewrite Ex. cbn [mbind result_bind]. destruct (plus_ok x 6) as (y & ->); [lia|]. by eexists.
Qed.

Lemma label_ok xl key p q : nis p q → (0 <= q <= 900)%Q → ∃ l, end_label xl key p = Ok l.
Proof.
  intros Hp Hq. unfold end_label, label_y.
  destruct (nadd_nis p (PInt 4) q 4 Hp) as (s & -> & Is); [reflexivity|apply small_range; lra|by apply small_range|].
  cbn [mbind result_bind]. pose proof (near (q + 4) _ (small_range (q + 4) ltac:(lra) ltac:(lra)) eq_refl) as N.
  assert (small (rndQ (q + 4))) as S.
  { unfold small. apply Qabs_Qle_condition. change (inject_Z (2 ^ 30)) with 1073741824%Q. lra. }
  destruct (to_float_nis s _ S Is) as (f & -> & _). by eexists.
Qed.

Lemma end_labels_ok c pts : cfg_ok c → pts ≠ [] → Forall chartable pts → ∃ ls, end_labels c (knee_ym c) pts = Ok ls.
Proof.
  intros Hc Hne Hp. destruct (last pts) as [lst|] eqn:El; [|by apply last_None in El].
  assert (chartable lst) as Hl.
  { rewrite Forall_forall in Hp. apply Hp. by apply last_Some_elem_of. }
  pose proof (cfg_axis c Hc) as Ax. destruct Hl as [(r & Er & Hr) _ (v & Ev & Hv) (w & Ew & Hw)].
  destruct (ymap_val Product.T Product.PH _ _ w product_margins_y Ax) as (y99 & E99 & I99); [lia|].
  destruct (ymap_val Product.T Product.PH _ _ v product_margins_y Ax) as (y50 & E50 & I50); [lia|].
  fold (knee_ym c w) in E99. fold (knee_ym c v) in E50.
  destruct (xmap_places Product.L Product.PW (xmax c) r product_margins_x) as (x & Ex); [by destruct Hc|lia|].
  destruct (plus_ok x 12) as (xl & Exl); [lia|].
  destruct (clamp_range _ _ I99) as (q & Iq & Hq). destruct (clamp_range _ _ I50) as (q' & Iq' & Hq').
  change top with 86%Q in *. change bottom with 366%Q in *.
  destruct (separate_ok _ _ _ _ Iq Iq' Hq Hq') as (a & b & qa & qb & Es & Ia & Ib & _ & _ & Ba & Bb).
  destruct (label_ok xl "p99" a qa Ia) as (l1 & E1); [lra|]. destruct (label_ok xl "p50" b qb Ib) as (l2 & E2); [lra|].
  exists [l1; l2]. unfold end_labels. rewrite El. cbn [require mbind result_bind]. rewrite Ew.
  cbn [mbind result_bind]. rewrite E99. cbn [mbind result_bind]. rewrite Ev. cbn [mbind result_bind].
  rewrite E50. cbn [mbind result_bind]. rewrite Es. cbn [mbind result_bind fst snd]. rewrite Er.
  cbn [mbind result_bind]. unfold knee_xm. rewrite Ex. cbn [mbind result_bind]. rewrite Exl.
  cbn [mbind result_bind]. rewrite E1. cbn [mbind result_bind]. by rewrite E2.
Qed.

Lemma knee_log z : 1 <= z → math_log10 (PInt z) = Ok (log10 (inject_Z z)).
Proof. intros Hz. unfold math_log10. destruct (Z.leb_spec z 0); [lia|done]. Qed.

Lemma knee_chart_ok c pts : cfg_ok c → pts ≠ [] → Forall chartable pts → ∃ o, knee_chart c pts = Ok o.
Proof.
  intros Hc Hne Hp. pose proof (knee_places c Hc) as Pl. pose proof Hc as (X & Xs & Y1 & Y2 & Y3 & Yt & Cf & _).
  unfold knee_chart. rewrite !knee_log by lia. cbn [mbind result_bind]. fold (knee_ym c).
  destruct (xmap_places Product.L Product.PW (xmax c) (comfort c) product_margins_x X) as (x & Ex); [lia|].
  fold (knee_xm c (comfort c)) in Ex. rewrite Ex. cbn [mbind result_bind].
  destruct (minus_ok x Product.L) as (b & ->); [done|]. cbn [mbind result_bind].
  destruct (rules_ok c Hc) as (rs & ->). cbn [mbind result_bind].
  destruct (axes_ok Product.L Product.T Product.PW Product.PH (xmax c) (xstep c) (yticks c) "latency (µs), log scale"
              (knee_ym c) comma product_margins_x product_margins_y X Xs) as (? & ? & ? & ? & ? & _ & _ & -> & _).
  { pose proof (cfg_axis c Hc) as Ax. eapply Forall_impl; [exact Yt|]. intros v Hv. cbn in Hv.
    destruct (ymap_val Product.T Product.PH _ _ v product_margins_y Ax) as (y & E & _); [lia|]. by exists y. }
  cbn [mbind result_bind].
  destruct (chartable_series _ _ "p99" C2 pts Pl ltac:(by right) Hp) as (s99 & ->). cbn [mbind result_bind].
  destruct (chartable_series _ _ "p50" C1 pts Pl ltac:(by left) Hp) as (s50 & ->). cbn [mbind result_bind].
  destruct (end_labels_ok c pts Hc Hne Hp) as (ls & ->). cbn [mbind result_bind].
  destruct (legend_total Product.L Product.H [("p50", C1); ("p99", C2)] None) as (lg & ->).
  - done.
  - apply (bool_decide_unpack _). vm_compute. exact I.
  - by eexists.
Qed.

(** The combined chart. *)
Lemma curve_ym_eq v : curve_ym v = ymap Combined.T Combined.PH (log10 420) (log10 16000) v.
Proof.
  unfold curve_ym. replace (math_log10 Combined.YMIN) with (Ok (log10 420)) by (vm_compute; reflexivity).
  by replace (math_log10 Combined.YMAX) with (Ok (log10 16000)) by (vm_compute; reflexivity).
Qed.

Lemma combined_places : places curve_xm curve_ym.
Proof.
  split.
  - intros r Hr. apply xmap_places; [unfold margins, Combined.L, Combined.PW, Combined.W, Combined.R, Combined.L; lia|done|lia].
  - intros v Hv. rewrite curve_ym_eq. apply ymap_places; [|by apply (int_axis 420 16000)|done].
    unfold margins, Combined.T, Combined.PH, Combined.H, Combined.B, Combined.T. lia.
Qed.

(** A dataset the charts can be drawn from. *)
Definition dataset_ok (d : dataset) : Prop :=
  Forall (λ s : product * list point, s.2 ≠ [] ∧ Forall chartable s.2) d.

Lemma series_of_ok d name :
  dataset_ok d → in_D d name = true → series_of d name ≠ [] ∧ Forall chartable (series_of d name).
Proof.
  intros Hd Hin. apply bool_decide_eq_true in Hin. unfold series_of.
  destruct (dget d (Some name)) as [ps|] eqn:E; [|by apply dget_None in E].
  apply dget_In in E. unfold dataset_ok in Hd. rewrite Forall_forall in Hd. by apply Hd in E.
Qed.

(** The rates the direct labels of the combined chart refer to. *)
Definition labelled (d : dataset) (name : string) : Prop :=
  ∀ la r, LABEL_AT name = Some la → at_rate la = Some r →
  ∃ p, p ∈ series_of d name ∧ col p "rate" = Ok r.

Lemma next_at_ok r pts :
  Forall chartable pts → (∃ p, p ∈ pts ∧ col p "rate" = Ok r) → ∃ pt, next_at r pts = Ok pt ∧ pt ∈ pts.
Proof.
  induction 1 as [|p pts Hp Hps IH]; intros (q & Hq & Er); [by apply not_elem_of_nil in Hq|].
  cbn [next_at]. destruct Hp as [(z & Ez & _) _ _ _]. rewrite Ez. cbn [mbind result_bind].
  destruct (Z.eqb_spec z r) as [->|Hne]; [exists p; split; [done|by left]|].
  apply elem_of_cons in Hq as [->|Hq]; [congruence|].
  destruct IH as (pt & E & Hpt); [by exists q|]. exists pt. split; [done|by right].
Qed.

Lemma next_at_missing r pts :
  Forall chartable pts → (∀ p, p ∈ pts → col p "rate" ≠ Ok r) → next_at r pts = Err StopIteration.
Proof.
  induction 1 as [|p pts Hp Hps IH]; intros Hn; [done|]. cbn [next_at].
  destruct Hp as [(z & Ez & _) _ _ _]. rewrite Ez. cbn [mbind result_bind].
  destruct (Z.eqb_spec z r) as [->|_]; [by destruct (Hn p ltac:(by left))|].
  apply IH. intros q Hq. apply Hn. by right.
Qed.

Lemma label_point_ok d name la :
  dataset_ok d → in_D d name = true → LABEL_AT name = Some la → labelled d name →
  ∃ pt, label_point la (series_of d name) = Ok pt ∧ chartable pt.
Proof.
  intros Hd Hin Hla Hl. destruct (series_of_ok d name Hd Hin) as [Hne Hp].
  unfold label_point. destruct (at_rate la) as [r|] eqn:Er.
  - destruct (next_at_ok r _ Hp (Hl la r Hla Er)) as (pt & E & Hin'). exists pt. split; [done|].
    rewrite Forall_forall in Hp. by apply Hp.
  - destruct (last (series_of d name)) as [pt|] eqn:E; [|by apply last_None in E].
    exists pt. split; [done|]. rewrite Forall_forall in Hp. by apply Hp, last_Some_elem_of.
Qed.

Lemma curve_ok d it :
  dataset_ok d → it ∈ present d → labelled d it.1 → ∃ o, curve d it = Ok o.
Proof.
  intros Hd Hit Hl. unfold present in Hit. apply list_elem_of_In, filter_In in Hit as [Hit Hin].
  destruct (series_of_ok d it.1 Hd Hin) as [Hne Hp].
  assert (∃ la, LABEL_AT it.1 = Some la ∧ Z.abs (dx la) <= 2 ^ 53 ∧ Z.abs (dy la) <= 2 ^ 53) as (la & Ela & Hdx & Hdy).
  { destruct Hit as [<-|[<-|[<-|[]]]]; eexists; (split; [reflexivity|cbn; lia]). }
  destruct (label_point_ok d it.1 la Hd Hin Ela Hl) as (pt & Ept & [(r & Er & Hr) _ (v & Ev & Hv) _]).
  destruct combined_places as [Px Py]. unfold curve.
  destruct (chartable_series curve_xm curve_ym "p50" it.2 _ (conj Px Py) ltac:(by left) Hp) as (s & ->).
  cbn [mbind result_bind]. rewrite Ela. cbn [require mbind result_bind]. rewrite Ept. cbn [mbind result_bind].
  rewrite Er. cbn [mbind result_bind]. destruct (Px r ltac:(lia)) as (x & ->). cbn [mbind result_bind].
  destruct (plus_ok x (dx la) Hdx) as (x' & ->). cbn [mbind result_bind]. rewrite Ev. cbn [mbind result_bind].
  destruct (Py v Hv) as (y & ->). cbn [mbind result_bind].
  destruct (plus_ok y (dy la) Hdy) as (y' & ->). by eexists.
Qed.

Lemma present_short d : Forall (λ it : item, py_len it.1 <= 2 ^ 53) (present d).
Proof.
  apply Forall_forall. intros it Hit. unfold present in Hit. apply list_elem_of_In, filter_In in Hit as [Hit _].
  destruct Hit as [<-|[<-|[<-|[]]]]; vm_compute; discriminate.
Qed.

Lemma combined_axes :
  ∃ ax, axes Combined.L Combined.T Combined.PW Combined.PH Combined.XMAX 100000
         [500; 1000; 2000; 5000; 10000] "p50 latency (log scale)" curve_ym fmt_ms = Ok ax.
Proof.
  destruct (axes_ok Combined.L Combined.T Combined.PW Combined.PH Combined.XMAX 100000
         [500; 1000; 2000; 5000; 10000] "p50 latency (log scale)" curve_ym fmt_ms)
    as (? & ? & ? & ? & ? & _ & _ & E & _); [..|eexists; exact E];
    try (unfold margins, Combined.L, Combined.PW, Combined.W, Combined.R, Combined.L, Combined.T,
      Combined.PH, Combined.H, Combined.B, Combined.T, Combined.XMAX; lia).
  destruct combined_places as [_ Py]. repeat constructor; apply Py; lia.
Qed.

Lemma knee_curves_ok d :
  dataset_ok d → Forall (λ it : item, labelled d it.1) (present d) → ∃ o, knee_curves d = Ok o.
Proof.
  intros Hd Hl. unfold knee_curves. destruct combined_axes as (ax & ->). cbn [mbind result_bind].
  destruct (mapR_total (curve d) (present d)) as (cs & ->).
  { apply Forall_forall. intros it Hit. apply curve_ok; [done|done|]. rewrite Forall_forall in Hl. by apply Hl. }
  cbn [mbind result_bind].
  destruct (legend_total Combined.L Combined.H (present d) None) as (lg & ->);
    [done|apply present_short|by eexists].
Qed.

(** A label rate that was not measured ends the drawing. *)
Lemma curve_missing d it la r :
  dataset_ok d → in_D d it.1 = true → LABEL_AT it.1 = Some la → at_rate la = Some r →
  (∀ p, p ∈ series_of d it.1 → col p "rate" ≠ Ok r) → curve d it = Err StopIteration.
Proof.
  intros Hd Hin Ela Er Hn. destruct (series_of_ok d it.1 Hd Hin) as [Hne Hp].
  destruct combined_places as [Px Py]. unfold curve.
  destruct (chartable_series curve_xm curve_ym "p50" it.2 _ (conj Px Py) ltac:(by left) Hp) as (s & ->).
  cbn [mbind result_bind]. rewrite Ela. cbn [require mbind result_bind]. unfold label_point. rewrite Er.
  by rewrite next_at_missing.
Qed.
End Total.
