(* ===== verification/RoundTrips.v ===== *)
(** The cross-round-trip charts of [sweep/mkcharts.py]: the palette guard, the
    small multiples ([round-trips.svg]) and the p50 overlay
    ([round-trips-p50.svg]). *)

From Stdlib Require Import Ascii.
From S2P Require Import Prelude PyFloat PyStr PyNum ChartData Svg KneeCharts.
From Stdlib Require Import QArith Qround Qabs Lqa.

Open Scope Z_scope.

(** ** The round trips and their colours *)

Record trip := Trip { tname : string; tlabel : string; tcolour : string }.

Definition RT : list trip :=
  [Trip "sequencer" "synchronous ack" C1;
   Trip "sequencer-direct" "direct to node" C4;
   Trip "sequencer-relay" "relay (gRPC)" C2;
   Trip "sequencer-output-brpc" "output: brpc" C3;
   Trip "sequencer-output-grpc" "output: gRPC" C4;
   Trip "sequencer-output-websocket" "output: WebSocket" C5;
   Trip "sequencer-fix" "FIX (journal)" C1;
   Trip "sequencer-fix-inline" "FIX (inline)" C2;
   Trip "sequencer-quickfix" "FIX (QuickFIX)" C6;
   Trip "braft-multi" "braft (raw ops)" INK2].

Definition rt_present (d : dataset) : list trip := List.filter (λ t, in_D d (tname t)) RT.

(** The labels drawn in each colour, in order. *)
Definition _by_colour (ts : list trip) : list (string * list string) :=
  foldl (λ bc t, dappend bc (tcolour t) (tlabel t)) [] ts.

Definition _clashes (ts : list trip) : list (string * list string) :=
  List.filter (λ cl : string * list string, 1 <? Z.of_nat (length cl.2)) (_by_colour ts).

Definition clash_message (cs : list (string * list string)) : string :=
  "palette clash: these series would be drawn in one colour -- "
  +:+ join "; " ((λ cl : string * list string, cl.1 +:+ ": " +:+ join ", " cl.2) <$> cs)
  +:+ String newline EmptyString +:+ "Give one of them a new hue and re-run validate_palette.py.".

Section Charts.
Context `{Libm}.

(** ** Shared axis *)

(** [max((q["rate"] ...), default=130000)]. *)
Definition all_rates (d : dataset) (ts : list trip) : result (list Z) :=
  rs ← mapR (λ t, mapR (λ q, col q "rate") (series_of d (tname t))) ts; Ok (concat rs).

Definition _maxrate (d : dataset) (ts : list trip) : result Z :=
  rs ← all_rates d ts;
  Ok match rs with [] => 130000 | r :: rs => foldl Z.max r rs end.

(** [int(math.ceil(_maxrate / 25000.0) * 25000)]. *)
Definition round_up (m : Z) : result Z :=
  q ← ndiv (PInt m) (lit 25000);
  c ← require OverflowError (fceil q);
  Ok (c * 25000).

Definition XSTEP (XMAX : Z) : Z := if 150000 <? XMAX then 50000 else 25000.

(** [[p for p in pts if p[key]>0]]. *)
Fixpoint positive (key : string) (pts : list point) : result (list point) :=
  match pts with
  | [] => Ok []
  | p :: pts => v ← col p key; ps ← positive key pts; Ok (if 0 <? v then p :: ps else ps)
  end.

(** ** The small multiples *)

Definition COLS : Z := 3.
Definition ROWS (n : nat) : Z := Z.max 1 (- (- Z.of_nat n / COLS)).
Definition PANW : Z := 268.
Definition PANH : Z := 196.
Definition GX : Z := 26.
Definition GY : Z := 58.
Definition ML : Z := 62.
Definition MT : Z := 124.
Definition pan_W : Z := ML + COLS * PANW + (COLS - 1) * GX + 24.
Definition pan_H (n : nat) : Z := MT + ROWS n * PANH + (ROWS n - 1) * GY + 86.

(** The origin of panel [i]. *)
Definition pan_L (i : nat) : Z := ML + (Z.of_nat i mod COLS) * (PANW + GX).
Definition pan_T (i : nat) : Z := MT + (Z.of_nat i / COLS) * (PANH + GY).

Definition count_word (n : nat) : string :=
  match n with
  | 2%nat => "two" | 3%nat => "three" | 4%nat => "four" | 5%nat => "five" | 6%nat => "six"
  | _ => str_Z (Z.of_nat n)
  end.

Definition pan_sub (d : dataset) : list string :=
  ["Every hop this repo measures, same fleet and same sweep. Identical axes across panels; log latency scale.";
   "FIX arms are FIX 4.4 throughout; they differ in delivery path, not protocol version.";
   "Hollow marker = the cluster fell behind the offered rate. Shaded band = at or below 1 ms.";
   "Past the knee, latency runs to whole seconds; those points clip at the panel top."]
  ++ (if in_D d "sequencer-direct"
      then ["The direct-to-node arm was swept further than these shared axes show — see its own chart."] else []).

Definition pan_clip (i : nat) : string :=
  tmpl "<clipPath id=`pan{}`><rect x=`{}` y=`{}` width=`{}` height=`{}`/></clipPath>"
    [str_Z (Z.of_nat i); str_Z (pan_L i - 6); str_Z (pan_T i - 6); str_Z (PANW + 12); str_Z (PANH + 12)].

(** [f"{A-y:.1f}"]. *)
Definition from_y (A : Z) (y : float) : result string :=
  h ← nsub (PInt A) (PFlt y); x ← to_float h; Ok (f1 x).

Definition pan_grid (i : nat) (ym : Z → result float) (v : Z) : result (list string) :=
  yy ← ym v;
  yt ← plus yy 4;
  Ok (tmpl "<line x1=`{}` y1=`{}` x2=`{}` y2=`{}` stroke=`{}` stroke-width=`1`/>"
        [str_Z (pan_L i); f1 yy; str_Z (pan_L i + PANW); f1 yy; GRID]
      :: if Z.of_nat i mod COLS =? 0 then
           [tmpl "<text x=`{}` y=`{}` font-size=`10` fill=`{}` text-anchor=`end`>{}</text>"
              [str_Z (pan_L i - 8); f1 yt; MUTED; fmt_ms v]]
         else []).

Definition pan_tick (i : nat) (XMAX v : Z) : result (list string) :=
  xx ← xmap (pan_L i) PANW XMAX v;
  Ok [tmpl "<line x1=`{}` y1=`{}` x2=`{}` y2=`{}` stroke=`{}` stroke-width=`1`/>"
        [f1 xx; str_Z (pan_T i + PANH); f1 xx; str_Z (pan_T i + PANH + 4); AXIS];
      tmpl "<text x=`{}` y=`{}` font-size=`10` fill=`{}` text-anchor=`middle`>{}k</text>"
        [f1 xx; str_Z (pan_T i + PANH + 17); MUTED; str_Z (v / 1000)]].

(** The series of a panel or of the overlay: only points with a positive
    value, and nothing at all when there is none. *)
Definition positive_series (pts : list point) (c : string) (xm ym : Z → result float) (key : string)
  : result (list string) :=
  ps ← positive key pts;
  match ps with [] => Ok [] | _ => series ps c xm ym key end.

(** The title of panel [i], above its plot. *)
Definition pan_title_y (i : nat) : Z := pan_T i - 8.
Definition pan_title (i : nat) (t : trip) : string :=
  tmpl "<text x=`{}` y=`{}` font-size=`12` font-weight=`600` fill=`{}`>{}</text>"
    [str_Z (pan_L i); str_Z (pan_title_y i); INK; tlabel t].

Definition panel (d : dataset) (XMAX : Z) (ylo yhi : float) (it : nat * trip) : result (list string) :=
  let i := it.1 in
  let pts := series_of d (tname it.2) in
  let xm := xmap (pan_L i) PANW XMAX in
  let ym := ymap (pan_T i) PANH ylo yhi in
  y1ms ← ym 1000;
  bh ← from_y (pan_T i + PANH) y1ms;
  gs ← mapR (pan_grid i ym) [1000; 10000; 100000];
  ts ← while_ticks (tick_fuel XMAX (XSTEP XMAX)) (pan_tick i XMAX) XMAX (XSTEP XMAX) 0;
  s99 ← positive_series pts C2 xm ym "p99";
  s50 ← positive_series pts C1 xm ym "p50";
  Ok ([tmpl "<rect x=`{}` y=`{}` width=`{}` height=`{}` fill=`{}`/>"
         [str_Z (pan_L i); f1 y1ms; str_Z PANW; bh; BAND]]
      ++ concat gs
      ++ [tmpl "<line x1=`{}` y1=`{}` x2=`{}` y2=`{}` stroke=`{}` stroke-width=`1`/>"
            [str_Z (pan_L i); str_Z (pan_T i + PANH); str_Z (pan_L i + PANW); str_Z (pan_T i + PANH); AXIS]]
      ++ ts
      ++ [pan_title i it.2;
          tmpl "<g clip-path=`url(#pan{})`>" [str_Z (Z.of_nat i)]]
      ++ s99 ++ s50 ++ ["</g>"]).

Definition round_trips (d : dataset) (ts : list trip) (XMAX : Z) : result (list string) :=
  let n := length ts in
  ylo ← math_log10 (lit 500);
  yhi ← math_log10 (lit 200000);
  ps ← mapR (panel d XMAX ylo yhi) (enumerate ts);
  ymid ← mid0 MT (ROWS n * PANH + (ROWS n - 1) * GY);
  xmid ← mid0 ML (COLS * PANW + (COLS - 1) * GX);
  lg ← legend ML (pan_H n) [("p50", C1); ("p99", C2)] None;
  Ok (head pan_W (pan_H n) ("sequencer: " +:+ count_word n +:+ " round trips, p50 and p99") (pan_sub d)
      ++ ["<defs>"] ++ (pan_clip <$> seq 0 n) ++ ["</defs>"]
      ++ concat ps
      ++ [tmpl "<text x=`20` y=`{}` font-size=`11` fill=`{}` text-anchor=`middle` transform=`rotate(-90 20 {})`>latency, log scale</text>"
            [ymid; INK2; ymid];
          tmpl "<text x=`{}` y=`{}` font-size=`11` fill=`{}` text-anchor=`middle`>offered rate (requests/sec)</text>"
            [xmid; str_Z (pan_H n - 46); INK2]]
      ++ lg ++ ["</svg>"]).

(** ** The overlay *)

Definition ov_W : Z := 900.
Definition ov_L : Z := 78.
Definition ov_R : Z := 40.
Definition ov_PW : Z := ov_W - ov_L - ov_R.
Definition ov_B (rows : Z) : Z := 74 + (rows - 1) * 18.
Definition ov_T (sublines : list string) : Z := 46 + 16 * Z.of_nat (length sublines) + 2.
Definition ov_H (sublines : list string) (rows : Z) : Z := ov_T sublines + (470 - 96 - 74) + ov_B rows.
Definition ov_PH (sublines : list string) (rows : Z) : Z := ov_H sublines rows - ov_T sublines - ov_B rows.

Definition _legend_items (ts : list trip) : list item := (λ t, (tlabel t, tcolour t)) <$> ts.

(** [next((q for q in pts if q["rate"] == 100000 and q["p50"] > 0), None)],
    and the text it contributes. *)
Fixpoint at100k (pts : list point) : result (option Z) :=
  match pts with
  | [] => Ok None
  | q :: pts =>
      r ← col q "rate";
      if r =? 100000 then
        v ← col q "p50";
        if 0 <? v then Ok (Some v) else at100k pts
      else at100k pts
  end.

Definition at100k_text (d : dataset) (t : trip) : result (list string) :=
  v ← at100k (series_of d (tname t));
  Ok match v with Some v => [tlabel t +:+ " " +:+ comma v +:+ " µs"] | None => [] end.

Definition _at100k (d : dataset) (ts : list trip) : result (list string) :=
  vs ← mapR (at100k_text d) ts; Ok (concat vs).

Definition _sub (at100k : list string) : string :=
  match at100k with
  | [] => "No 100k point in this dataset."
  | _ => "At 100k: " +:+ join "; " at100k +:+ "."
  end.

Definition _sublines (sub : string) : list string :=
  ["p50 latency vs offered rate, same fleet and sweep as the panels above. Log latency scale. FIX arms are FIX 4.4 throughout."]
  ++ wrap_sub sub wrap_budget
  ++ ["Hollow marker = the cluster fell behind the offered rate. Shaded band = at or below 1 ms."].

Definition overlay (d : dataset) (ts : list trip) (XMAX : Z) : result (list string) :=
  let items := _legend_items ts in
  rows ← legend_rows items ov_L (ov_W - 20);
  ylo ← math_log10 (lit 600);
  yhi ← math_log10 (lit 200000);
  a ← _at100k d ts;
  let sl := _sublines (_sub a) in
  let T := ov_T sl in
  let H := ov_H sl rows in
  let PH := ov_PH sl rows in
  let xm := xmap ov_L ov_PW XMAX in
  let ym := ymap T PH ylo yhi in
  y1ms ← ym 1000;
  bh ← from_y (T + PH) y1ms;
  yl ← plus y1ms 15;
  ax ← axes ov_L T ov_PW PH XMAX (XSTEP XMAX) [1000; 2000; 5000; 10000; 50000; 200000]
         "p50 latency, log scale" ym fmt_ms;
  ss ← mapR (λ t, positive_series (series_of d (tname t)) (tcolour t) xm ym "p50") ts;
  lg ← legend ov_L H items (Some (ov_W - 20));
  Ok (head ov_W H "sequencer: gateway round trips, p50 vs offered rate" sl
      ++ [tmpl "<rect x=`{}` y=`{}` width=`{}` height=`{}` fill=`{}`/>"
            [str_Z ov_L; f1 y1ms; str_Z ov_PW; bh; BAND];
          tmpl "<text x=`{}` y=`{}` font-size=`11` fill=`{}` text-anchor=`end`>at or below 1 ms</text>"
            [str_Z (ov_L + ov_PW - 8); f1 yl; MUTED]]
      ++ ax ++ concat ss ++ lg ++ ["</svg>"]).
End Charts.

(** ** The palette guard *)

Lemma values_cons_eq {K V} `{EqDecision K} (k : K) (v : V) kvs : values k ((k, v) :: kvs) = v :: values k kvs.
Proof. unfold values. rewrite filter_cons. cbn [fst]. by rewrite decide_True. Qed.

Lemma values_cons_ne {K V} `{EqDecision K} (k k' : K) (v : V) kvs :
  k' ≠ k → values k ((k', v) :: kvs) = values k kvs.
Proof. intros Hne. unfold values. rewrite filter_cons. cbn [fst]. by rewrite decide_False. Qed.

Lemma values_NoDup {K V} `{EqDecision K} (kvs : list (K * V)) :
  NoDup kvs.*1 ↔ ∀ k, (length (values k kvs) <= 1)%nat.
Proof.
  induction kvs as [|[k v] kvs IH].
  - split; [intros _ k; cbn; lia|constructor].
  - rewrite fmap_cons, NoDup_cons, IH. cbn [fst]. split.
    + intros [Hn Hl] k'. destruct (decide (k = k')) as [<-|Hne]; [|by rewrite values_cons_ne].
      rewrite values_cons_eq. destruct (values k kvs) as [|x l] eqn:E; [cbn; lia|].
      destruct Hn. apply list_elem_of_fmap. exists (k, x). split; [done|]. apply values_In. rewrite E. by left.
    + intros Hl. split.
      * intros Hin. apply list_elem_of_fmap in Hin as ([k' x] & E & Hin). cbn in E. subst k'.
        apply values_In in Hin. specialize (Hl k). rewrite values_cons_eq in Hl.
        destruct (values k kvs); [by apply not_elem_of_nil in Hin|]. cbn in Hl. lia.
      * intros k'. specialize (Hl k'). destruct (decide (k = k')) as [<-|Hne].
        -- rewrite values_cons_eq in Hl. cbn in Hl. lia.
        -- by rewrite values_cons_ne in Hl.
Qed.

Lemma NoDup_fmap_elem {A B} (f : A → B) l x y :
  NoDup (f <$> l) → x ∈ l → y ∈ l → f x = f y → x = y.
Proof.
  induction l as [|z l IH]; [by intros _ []%not_elem_of_nil|]. rewrite fmap_cons, NoDup_cons.
  intros [Hz Hl] [->|Hx]%elem_of_cons [->|Hy]%elem_of_cons E; try done.
  - destruct Hz. rewrite E. by apply list_elem_of_fmap_2.
  - destruct Hz. rewrite <- E. by apply list_elem_of_fmap_2.
  - by apply IH.
Qed.

#[export] Instance trip_eq_dec : EqDecision trip.
Proof. solve_decision. Defined.

Lemma by_colour_dgroup ts : _by_colour ts = dgroup ((λ t, (tcolour t, tlabel t)) <$> ts).
Proof.
  unfold _by_colour, dgroup. generalize (@nil (string * list string)).
  induction ts as [|t ts IH]; intros d; [done|]. rewrite fmap_cons. cbn [foldl fst snd]. apply IH.
Qed.

Lemma clashes_iff ts : _clashes ts = [] ↔ NoDup (tcolour <$> ts).
Proof.
  assert (tcolour <$> ts = ((λ t, (tcolour t, tlabel t)) <$> ts).*1) as -> by (by rewrite <- list_fmap_compose).
  rewrite values_NoDup. unfold _clashes. rewrite by_colour_dgroup.
  set (kvs := (λ t, (tcolour t, tlabel t)) <$> ts). split.
  - intros E k. destruct (values k kvs) as [|v l] eqn:Ev; [cbn; lia|]. rewrite <- Ev.
    assert ((k, values k kvs) ∈ dgroup kvs) as Hin by (apply dgroup_In; split; [done|by rewrite Ev]).
    destruct (Z.ltb_spec 1 (Z.of_nat (length (values k kvs)))) as [Hlt|]; [|lia].
    assert ((k, values k kvs) ∈ ([] : list (string * list string))) as []%not_elem_of_nil.
    rewrite <- E. apply list_elem_of_In, filter_In. split; [by apply list_elem_of_In|]. cbn. by apply Z.ltb_lt.
  - intros Hl. destruct (List.filter _ _) as [|[c labs] l] eqn:E; [done|].
    assert ((c, labs) ∈ (c, labs) :: l) as Hin by by left. rewrite <- E in Hin.
    apply list_elem_of_In, filter_In in Hin as [Hin Hlt]. apply list_elem_of_In, dgroup_In in Hin as [-> _].
    cbn in Hlt. apply Z.ltb_lt in Hlt. specialize (Hl c). lia.
Qed.

(** C10 The palette guard lets the series through exactly when they are all
    drawn in different colours; and two of them clash as soon as the sweeps
    hold both the direct arm and the gRPC output, whatever else they hold. *)
Theorem guard_exact d :
  (_clashes (rt_present d) = [] ↔ NoDup (tcolour <$> rt_present d)) ∧
  (in_D d "sequencer-direct" = true → in_D d "sequencer-output-grpc" = true → _clashes (rt_present d) ≠ []).
Proof.
  split; [apply clashes_iff|]. intros H1 H2. rewrite clashes_iff. unfold rt_present.
  intros N.
  assert (∀ t, t ∈ RT → in_D d (tname t) = true → t ∈ List.filter (λ t, in_D d (tname t)) RT) as In.
  { intros t Ht Hd. apply list_elem_of_In, filter_In. split; [by apply list_elem_of_In|done]. }
  assert (Trip "sequencer-direct" "direct to node" C4 = Trip "sequencer-output-grpc" "output: gRPC" C4) as E;
    [|discriminate E].
  apply (NoDup_fmap_elem tcolour _ _ _ N); [apply In; [|done]..|done]; apply (bool_decide_unpack _); vm_compute; exact I.
Qed.

Lemma guard_exact_witness :
  (_clashes (rt_present [(Some "sequencer-direct", []); (Some "sequencer-output-grpc", [])]) = []
   ↔ NoDup (tcolour <$> rt_present [(Some "sequencer-direct", []); (Some "sequencer-output-grpc", [])])) ∧
  _clashes (rt_present [(Some "sequencer-direct", []); (Some "sequencer-output-grpc", [])]) ≠ [].
Proof.
  destruct (guard_exact [(Some "sequencer-direct", []); (Some "sequencer-output-grpc", [])]) as [A B].
  split; [exact A|]. apply B; vm_compute; reflexivity.
Defined.

(** ** The shared axis *)

Lemma Qceiling_unique x k : (inject_Z k - 1 < x)%Q → (x <= inject_Z k)%Q → Qceiling x = k.
Proof.
  intros H1 H2. pose proof (Qceiling_lt x) as A. pose proof (Qle_ceiling x) as B.
  rewrite inject_Z_minus in A. change (inject_Z 1) with 1%Q in A.
  destruct (Z.lt_trichotomy (Qceiling x) k) as [C|[C|C]]; [|done|]; apply inject_Z_lt_1 in C; lra.
Qed.

(** [ceil] of the float quotient is the integer one. *)
Lemma ceil_div m : 0 <= m <= 2 ^ 33 →
  ∃ q k, ndiv (PInt m) (lit 25000) = Ok q ∧ fceil q = Some k ∧ 25000 * (k - 1) < m <= 25000 * k.
Proof.
  intros Hm. destruct (f_small m) as (f & Ef & If); [lia|].
  assert (isf (of_Q 25000) 25000) as I25 by (apply (lit_int 25000); lia).
  set (x := (inject_Z m / 25000)%Q). set (k := Qceiling x).
  assert (x * 25000 == inject_Z m)%Q as Ex by (unfold x; field).
  assert (0 <= inject_Z m)%Q as M0 by (apply inject_Z_nonneg; lia).
  assert (inject_Z m <= inject_Z (2 ^ 33))%Q as M1 by (apply inject_Z_le; lia).
  assert (isf (fdiv f (of_Q 25000)) (rndQ x)) as Iq.
  { apply isf_div; [done|done|discriminate|]. apply small_lt_pow. apply div_le_abs; [discriminate|].
    rewrite Qabs_pos by done. eapply Qle_trans; [exact M1|]. by apply inject_Z_le. }
  pose proof (Qle_ceiling x) as K1. pose proof (Qceiling_lt x) as K2. fold k in K1, K2.
  rewrite inject_Z_minus in K2. change (inject_Z 1) with 1%Q in K2.
  assert (25000 * (k - 1) < m <= 25000 * k) as B.
  { split; [rewrite Zlt_Qlt|rewrite Zle_Qle]; rewrite inject_Z_mult, ?inject_Z_minus;
      change (inject_Z 25000) with 25000%Q; change (inject_Z 1) with 1%Q; lra. }
  exists (fdiv f (of_Q 25000)), k. split; [|split; [|exact B]].
  - unfold ndiv, lit, to_float. rewrite Ef. cbn [require mbind result_bind].
    by assert (is_zero (of_Q 25000) = false) as -> by (by vm_compute).
  - unfold fceil. destruct Iq as (F & _ & V). rewrite F. f_equal. rewrite V. apply Qceiling_unique.
    + destruct B as [B1 B2]. pose proof (inject_Z_lt_1 _ _ B1) as G. rewrite inject_Z_mult, inject_Z_minus in G.
      change (inject_Z 25000) with 25000%Q in G. change (inject_Z 1) with 1%Q in G.
      pose proof (rnd_error x) as E. rewrite (Qabs_pos x) in E by lra. apply Qabs_Qle_condition in E as [E _].
      assert (x * pow2 (-53) <= inject_Z (2 ^ 33) * pow2 (-53))%Q by (apply Qmult_pow2_le; lra).
      assert (inject_Z (2 ^ 33) * pow2 (-53) + pow2 (-1075) <= 1 # 100000)%Q by (apply Qle_bool_iff; vm_compute; reflexivity).
      lra.
    + apply rnd_le_Z; [lia|exact K1].
Qed.

Lemma round_up_ok m : 0 <= m <= 2 ^ 33 →
  ∃ X, round_up m = Ok X ∧ m <= X < m + 25000 ∧ X mod 25000 = 0.
Proof.
  intros Hm. destruct (ceil_div m Hm) as (q & k & Eq & Ek & B). exists (k * 25000).
  unfold round_up. rewrite Eq. cbn [mbind result_bind]. rewrite Ek. cbn. split; [done|].
  split; [lia|]. apply Z.mod_mul. lia.
Qed.

Lemma foldl_max_ge r rs : r <= foldl Z.max r rs ∧ Forall (λ z, z <= foldl Z.max r rs) rs.
Proof.
  revert r. induction rs as [|z rs IH]; intros r; cbn; [split; [lia|constructor]|].
  destruct (IH (Z.max r z)) as [H1 H2]. split; [lia|]. constructor; [lia|done].
Qed.

Lemma foldl_max_In r rs : foldl Z.max r rs ∈ r :: rs.
Proof.
  revert r. induction rs as [|z rs IH]; intros r; cbn; [by left|].
  specialize (IH (Z.max r z)). apply elem_of_cons in IH as [E|Hin]; [|by right; right].
  rewrite E. destruct (Z.max_spec r z) as [[_ ->]|[_ ->]]; [right; left|left].
Qed.

Section Axis.
Context (d : dataset) (ts : list trip).
Hypothesis Hd : dataset_ok d.
Hypothesis Hts : Forall (λ t, in_D d (tname t) = true) ts.

Lemma rates_ok t : t ∈ ts →
  ∃ rs, mapR (λ q, col q "rate") (series_of d (tname t)) = Ok rs ∧ Forall (λ r, 1 <= r <= 2 ^ 31) rs.
Proof.
  intros Ht. rewrite Forall_forall in Hts. apply Hts in Ht. destruct (series_of_ok d _ Hd Ht) as [_ Hp].
  induction Hp as [|p ps [(r & Er & Hr) _ _ _] Hps (rs & E & Hrs)]; [by exists []|].
  exists (r :: rs). cbn [mapR]. rewrite Er, E. by split; [|constructor].
Qed.

Lemma maxrate_ok :
  ∃ m, _maxrate d ts = Ok m ∧ 1 <= m <= 2 ^ 31 ∧
  (∀ t p r, t ∈ ts → p ∈ series_of d (tname t) → col p "rate" = Ok r → r <= m) ∧
  (ts = [] → m = 130000) ∧
  (ts ≠ [] → ∃ t p, t ∈ ts ∧ p ∈ series_of d (tname t) ∧ col p "rate" = Ok m).
Proof.
  destruct (mapR_total (λ t, mapR (λ q, col q "rate") (series_of d (tname t))) ts) as (rss & E).
  { apply Forall_forall. intros t Ht. destruct (rates_ok t Ht) as (rs & -> & _). by exists rs. }
  assert (Forall (λ r, 1 <= r <= 2 ^ 31) (concat rss)) as Hr.
  { apply mapR_Ok in E. apply Forall_concat. apply Forall_forall. intros rs Hrs.
    apply list_elem_of_lookup in Hrs as (i & Hi). destruct (Forall2_lookup_r _ _ _ _ _ E Hi) as (t & Ht & Et).
    apply list_elem_of_lookup_2 in Ht. destruct (rates_ok t Ht) as (rs' & E' & H). congruence. }
  assert (∀ t p r, t ∈ ts → p ∈ series_of d (tname t) → col p "rate" = Ok r → r ∈ concat rss) as Hin.
  { intros t p r Ht Hp Er. apply mapR_Ok in E. apply list_elem_of_lookup in Ht as (i & Ht).
    destruct (Forall2_lookup_l _ _ _ _ _ E Ht) as (rs & Hi & Et). apply list_elem_of_In, in_concat.
    exists rs. split; apply list_elem_of_In; [by eapply list_elem_of_lookup_2|].
    apply mapR_Ok in Et. apply list_elem_of_lookup in Hp as (j & Hp).
    destruct (Forall2_lookup_l _ _ _ _ _ Et Hp) as (r' & Hj & Er'). rewrite Er in Er'. injection Er' as <-.
    by eapply list_elem_of_lookup_2. }
  assert (∀ r, r ∈ concat rss → ∃ t p, t ∈ ts ∧ p ∈ series_of d (tname t) ∧ col p "rate" = Ok r) as Hout.
  { intros r Hin'. apply mapR_Ok in E. apply list_elem_of_In, in_concat in Hin' as (rs & Hrs & Hr').
    apply list_elem_of_In, list_elem_of_lookup in Hrs as (i & Hi).
    destruct (Forall2_lookup_r _ _ _ _ _ E Hi) as (t & Ht & Et). apply mapR_Ok in Et.
    apply list_elem_of_In, list_elem_of_lookup in Hr' as (j & Hj).
    destruct (Forall2_lookup_r _ _ _ _ _ Et Hj) as (p & Hp & Ep).
    exists t, p. eauto using list_elem_of_lookup_2. }
  unfold _maxrate, all_rates. rewrite E. cbn [mbind result_bind].
  eexists. split; [reflexivity|]. destruct (concat rss) as [|r0 rs0] eqn:Ec.
  - split; [lia|]. split; [intros t p r Ht Hp Er; by apply (Hin t p r) in Er as []%not_elem_of_nil|].
    split; [done|]. intros Hne. destruct ts as [|t ts']; [done|]. exfalso.
    apply Forall_cons in Hts as [Ht _]. destruct (series_of_ok d _ Hd Ht) as [Hs Hp].
    destruct (series_of d (tname t)) as [|p ps] eqn:Es; [done|]. apply Forall_cons in Hp as [[(r & Er & _) _ _ _] _].
    apply (Hin t p r) in Er as []%not_elem_of_nil; [by left|rewrite Es; by left].
  - destruct (foldl_max_ge r0 rs0) as [G1 G2]. pose proof (foldl_max_In r0 rs0) as G3. split_and!.
    + rewrite Forall_forall in Hr. by apply Hr.
    + rewrite Forall_forall in Hr. by apply Hr.
    + intros t p r Ht Hp Er. apply (Hin t p r) in Er; [|done|done].
      apply elem_of_cons in Er as [->|Er]; [done|]. rewrite Forall_forall in G2. by apply G2.
    + intros Hn. rewrite Hn in E. cbn in E. injection E as <-. discriminate Ec.
    + intros _. by apply Hout.
Qed.
End Axis.

Lemma rt_present_in d : Forall (λ t, in_D d (tname t) = true) (rt_present d).
Proof.
  apply Forall_forall. intros t Ht. unfold rt_present in Ht.
  by apply list_elem_of_In, filter_In in Ht as [_ Ht].
Qed.


Definition demo_trips : dataset :=
  [(Some "sequencer", [[("rate", 130000); ("achieved", 129000); ("p50", 800); ("p99", 1500)];
                       [("rate", 145000); ("achieved", 126000); ("p50", 900); ("p99", 2000)]])].

Lemma demo_trips_ok : dataset_ok demo_trips.
Proof.
  constructor; [|constructor]. split; [discriminate|].
  repeat (constructor; [split; eexists; (split; [reflexivity|lia])|]). constructor.
Qed.


(** ** Layout of the comparison charts *)

(** C33 The small multiples: two panels never touch (their clip regions, the
    tick labels under one and the title above the other included), and each
    panel with its tick labels lies inside the canvas and above the caption,
    for any number of panels. *)
Theorem panels_apart (i j n : nat) :
  (i < j)%nat → (j < n)%nat →
  (pan_L i + PANW + 6 < pan_L j - 6 ∨ pan_L j + PANW + 6 < pan_L i - 6 ∨
   pan_T i + PANH + 17 < pan_T j - 20) ∧
  (∀ k, (k < n)%nat → 6 <= pan_L k - 6 ∧ pan_L k + PANW + 6 <= pan_W ∧ MT <= pan_T k ∧
     pan_T k + PANH + 17 < pan_H n - 46 - 11 ∧ pan_H n - 46 < pan_H n - 16 - 11).
Proof.
  intros Hij Hjn. unfold pan_L, pan_T, pan_W, pan_H, ROWS, COLS, PANW, PANH, GX, GY, ML, MT. split.
  - pose proof (Z.div_mod (Z.of_nat i) 3 ltac:(lia)). pose proof (Z.div_mod (Z.of_nat j) 3 ltac:(lia)).
    pose proof (Z.mod_pos_bound (Z.of_nat i) 3 ltac:(lia)). pose proof (Z.mod_pos_bound (Z.of_nat j) 3 ltac:(lia)).
    assert (Z.of_nat i / 3 = Z.of_nat j / 3 ∨ Z.of_nat i / 3 < Z.of_nat j / 3) as [E|E] by lia; lia.
  - intros k Hk. pose proof (Z.mod_pos_bound (Z.of_nat k) 3 ltac:(lia)).
    pose proof (Z.div_mod (Z.of_nat k) 3 ltac:(lia)). pose proof (Z.div_pos (Z.of_nat k) 3 ltac:(lia) ltac:(lia)).
    pose proof (Z.div_mod (- Z.of_nat n) 3 ltac:(lia)). pose proof (Z.mod_pos_bound (- Z.of_nat n) 3 ltac:(lia)).
    lia.
Qed.

Lemma panels_apart_witness :
  (pan_L 0 + PANW + 6 < pan_L 1 - 6 ∨ pan_L 1 + PANW + 6 < pan_L 0 - 6 ∨
   pan_T 0 + PANH + 17 < pan_T 1 - 20) ∧
  (∀ k, (k < 7)%nat → 6 <= pan_L k - 6 ∧ pan_L k + PANW + 6 <= pan_W ∧ MT <= pan_T k ∧
     pan_T k + PANH + 17 < pan_H 7 - 46 - 11 ∧ pan_H 7 - 46 < pan_H 7 - 16 - 11).
Proof. apply (panels_apart 0 1 7); lia. Defined.

(** The baseline of the last subtitle line. *)
Definition last_baseline (sub : list string) : Z := sub_y (Z.of_nat (length sub) - 1).

(** What the small multiples consist of, as far as their top is concerned. *)
Lemma round_trips_parts `{Libm} d ts X o : round_trips d ts X = Ok o →
  ∃ ylo yhi ps tl, mapR (panel d X ylo yhi) (enumerate ts) = Ok ps ∧
    o = head pan_W (pan_H (length ts)) ("sequencer: " +:+ count_word (length ts) +:+ " round trips, p50 and p99")
          (pan_sub d) ++ ["<defs>"] ++ (pan_clip <$> seq 0 (length ts)) ++ ["</defs>"] ++ concat ps ++ tl.
Proof.
  unfold round_trips. intros E. apply bind_Ok in E as (ylo & _ & E). apply bind_Ok in E as (yhi & _ & E).
  apply bind_Ok in E as (ps & Ep & E). apply bind_Ok in E as (ymid & _ & E). apply bind_Ok in E as (xmid & _ & E).
  apply bind_Ok in E as (lg & _ & E). apply Ok_inj in E. exists ylo, yhi, ps. eexists.
  split; [exact Ep|symmetry; exact E].
Qed.

Lemma panel_title `{Libm} d X ylo yhi it o : panel d X ylo yhi it = Ok o → pan_title it.1 it.2 ∈ o.
Proof.
  unfold panel. intros E. apply bind_Ok in E as (y & _ & E). apply bind_Ok in E as (bh & _ & E).
  apply bind_Ok in E as (gs & _ & E). apply bind_Ok in E as (tk & _ & E). apply bind_Ok in E as (s99 & _ & E).
  apply bind_Ok in E as (s50 & _ & E). apply Ok_inj in E as <-. do 4 (apply elem_of_app; right). by left.
Qed.

(** C34 In the drawing of the small multiples every subtitle line and the
    title of the first panel are where [sub_line] and [pan_title] put them;
    all subtitle lines end above the top of that title, whose letters are 12
    px high, exactly when the direct arm is not charted: the line added for
    that arm runs into the titles. *)
Theorem subtitle_room `{Libm} d t ts X o :
  round_trips d (t :: ts) X = Ok o →
  (∀ i l, pan_sub d !! i = Some l → sub_line i l ∈ o) ∧ pan_title 0 t ∈ o ∧
  ((∀ i, (i < length (pan_sub d))%nat → sub_y (Z.of_nat i) < pan_title_y 0 - 12) ↔ in_D d "sequencer-direct" = false).
Proof.
  intros E. destruct (round_trips_parts _ _ _ _ E) as (ylo & yhi & ps & tl & Ep & ->). split_and!.
  - intros i l Hi. apply elem_of_app. left. unfold head. apply elem_of_app. right.
    apply list_elem_of_lookup. exists i. by rewrite list_lookup_imap, Hi.
  - destruct ps as [|p ps]; [by apply mapR_Ok, Forall2_length in Ep|].
    apply mapR_Ok in Ep. unfold enumerate in Ep. rewrite imap_cons in Ep. apply Forall2_cons in Ep as [Ep _].
    apply panel_title in Ep. do 4 (apply elem_of_app; right). apply elem_of_app. left. cbn [concat].
    apply elem_of_app. by left.
  - unfold pan_sub. destruct (in_D d "sequencer-direct"); cbn [app length]; split; try done.
    + intros C. specialize (C 4%nat ltac:(lia)). vm_compute in C. discriminate C.
    + intros _ i Hi. change (pan_title_y 0) with 116. unfold sub_y. lia.
Qed.

Lemma subtitle_room_witness :
  let t := Trip "sequencer" "synchronous ack" C1 in
  match @round_trips demo_log10 demo_trips [t] 150000 with
  | Ok o =>
      (∀ i l, pan_sub demo_trips !! i = Some l → sub_line i l ∈ o) ∧ pan_title 0 t ∈ o ∧
      ((∀ i, (i < length (pan_sub demo_trips))%nat → sub_y (Z.of_nat i) < pan_title_y 0 - 12)
       ↔ in_D demo_trips "sequencer-direct" = false)
  | Err _ => False
  end.
Proof.
  intros t. destruct (@round_trips demo_log10 demo_trips [t] 150000) as [o|e] eqn:E.
  - exact (@subtitle_room demo_log10 demo_trips t [] 150000 o E).
  - apply (f_equal (λ r : result (list string), match r with Ok _ => true | Err _ => false end)) in E.
    vm_compute in E. discriminate E.
Defined.

Lemma RT_short ts : Forall (λ t, t ∈ RT) ts → Forall (λ it : item, py_len it.1 <= 2 ^ 53) (_legend_items ts).
Proof.
  intros H. unfold _legend_items. apply Forall_fmap. eapply Forall_impl; [exact H|]. intros t Ht.
  assert (Forall (λ t, py_len (tlabel t) <= 2 ^ 53) RT) as K by (apply (bool_decide_unpack _); vm_compute; exact I).
  rewrite Forall_forall in K. by apply K.
Qed.

(** C32 The overlay's canvas grows with its content: whatever the number of
    series and subtitle lines, the plot keeps its 300 px, starts 18 px under
    the last subtitle line, and every legend entry lies below the axis
    caption and above the bottom edge, inside the right margin unless it
    starts a row. *)
Theorem overlay_fits ts sl :
  Forall (λ t, t ∈ RT) ts →
  ∃ R ps, legend_rows (_legend_items ts) ov_L (ov_W - 20) = Ok R ∧
    legend_place ov_L (ov_H sl R) (_legend_items ts) (Some (ov_W - 20)) = Ok ps ∧
    entry <$> ps = _legend_items ts ∧
    ov_PH sl R = 300 ∧ ov_T sl = last_baseline sl + 18 ∧
    Forall (λ p, ov_T sl + ov_PH sl R + 44 + 14 <= at_y p <= ov_H sl R - 16) ps ∧
    Forall (λ p, ngt (at_x p) (PInt ov_L) = false ∨ within ov_L (ov_W - 20) p) ps.
Proof.
  intros Hts.
  destruct (legend_ok ov_L 0 (_legend_items ts) (ov_W - 20) ltac:(done) ltac:(done) (RT_short ts Hts))
    as (R & _ & ER & _).
  destruct (legend_ok ov_L (ov_H sl R) (_legend_items ts) (ov_W - 20) ltac:(done) ltac:(done) (RT_short ts Hts))
    as (R' & ps & ER' & Eps & Eit & HR & Hy & _ & Hw).
  rewrite ER in ER'. injection ER' as <-. exists R, ps. split_and!; try done.
  - unfold ov_PH, ov_H. lia.
  - unfold ov_T, last_baseline, sub_y. lia.
  - eapply Forall_impl; [exact Hy|]. intros p Hp. cbn in Hp. unfold ov_PH, ov_H, ov_B in *. lia.
Qed.

Lemma overlay_fits_witness :
  ∃ R ps, legend_rows (_legend_items RT) ov_L (ov_W - 20) = Ok R ∧
    legend_place ov_L (ov_H ["a"; "b"; "c"] R) (_legend_items RT) (Some (ov_W - 20)) = Ok ps ∧
    entry <$> ps = _legend_items RT ∧
    ov_PH ["a"; "b"; "c"] R = 300 ∧ ov_T ["a"; "b"; "c"] = last_baseline ["a"; "b"; "c"] + 18 ∧
    Forall (λ p, ov_T ["a"; "b"; "c"] + ov_PH ["a"; "b"; "c"] R + 44 + 14 <= at_y p <= ov_H ["a"; "b"; "c"] R - 16) ps ∧
    Forall (λ p, ngt (at_x p) (PInt ov_L) = false ∨ within ov_L (ov_W - 20) p) ps.
Proof. apply (overlay_fits RT ["a"; "b"; "c"]). apply Forall_forall. done. Defined.

(** *** How many subtitle lines there can be *)

Fixpoint count_spaces (s : string) : nat :=
  match s with EmptyString => 0 | String c s => (if Ascii.eqb c space then 1 else 0) + count_spaces s end.

Lemma split_spaces s : length (split_on space s) = S (count_spaces s).
Proof.
  induction s as [|c s IH]; [done|]. cbn [split_on count_spaces].
  destruct (Ascii.eqb c space); cbn [length]; [by rewrite IH|].
  destruct (split_on space s); cbn [length] in *; [lia|done].
Qed.

Lemma count_spaces_app a b : count_spaces (a +:+ b) = (count_spaces a + count_spaces b)%nat.
Proof. induction a as [|c a IH]; [done|]. rewrite app_str_cons. cbn [count_spaces]. rewrite IH. lia. Qed.

Lemma count_spaces_none s : no_char space s = true → count_spaces s = 0%nat.
Proof.
  unfold no_char. induction s as [|c s IH]; cbn; [done|]. intros [Hc Hs]%andb_true_iff.
  apply negb_true_iff in Hc as ->. by rewrite IH.
Qed.

Lemma wrap_loop_length b words lines cur :
  (length (wrap_loop b words lines cur) <= length lines + length words + 1)%nat.
Proof.
  revert lines cur. induction words as [|w words IH]; intros lines cur; cbn [wrap_loop].
  - destruct (is_empty cur); [lia|]. rewrite length_app. cbn. lia.
  - destruct (_ && _); (etrans; [apply IH|]); rewrite ?length_app; cbn [length]; lia.
Qed.

Definition digit_or_comma (c : ascii) : bool := is_digit c || Ascii.eqb c ","%char.

Lemma dec_no_space n : 0 <= n → no_char space (dec n) = true.
Proof.
  intros Hn. eapply all_chars_impl; [|by apply dec_digits]. intros c Hc. cbn.
  destruct (Ascii.eqb_spec c space) as [->|]; [by vm_compute in Hc|done].
Qed.

Lemma no_char_app c a b : no_char c (a +:+ b) = no_char c a && no_char c b.
Proof. apply all_chars_app. Qed.

Lemma zeros_no_space n : no_char space (zeros n) = true.
Proof. unfold no_char. by induction n. Qed.

Lemma comma_no_space v : 0 <= v → no_char space (comma v) = true.
Proof.
  intros Hv. unfold comma. destruct (Z.ltb_spec v 0); [lia|].
  assert (∀ fuel n, 0 <= n → no_char space (comma_fuel fuel n) = true) as G; [|apply G; lia].
  induction fuel as [|fuel IH]; intros n Hn; cbn [comma_fuel]; [by apply dec_no_space|].
  destruct (n <? 1000); [by apply dec_no_space|]. rewrite !no_char_app, IH by (apply Z.div_pos; lia).
  unfold dec_pad. rewrite no_char_app, zeros_no_space, dec_no_space; [done|].
  apply Z.mod_pos_bound. lia.
Qed.

Lemma count_spaces_join n l :
  Forall (λ s, (count_spaces s <= n)%nat) l → (count_spaces (join "; " l) <= length l * (n + 1))%nat.
Proof.
  induction 1 as [|s l Hs Hl IH]; [done|]. destruct l as [|s2 l]; [cbn; lia|].
  change (join "; " (s :: s2 :: l)) with (s +:+ "; " +:+ join "; " (s2 :: l)).
  rewrite !count_spaces_app. change (count_spaces "; ") with 1%nat. cbn [length] in *. lia.
Qed.

(** ** The comparison charts are drawn *)

Lemma positive_all key pts :
  key = "p50" ∨ key = "p99" → Forall chartable pts → positive key pts = Ok pts.
Proof.
  intros Hk. induction 1 as [|p pts Hp Hps IH]; [done|]. cbn [positive].
  destruct (chartable_latency p key Hp Hk) as (v & -> & Hv). cbn [mbind result_bind]. rewrite IH.
  cbn [mbind result_bind]. by destruct (Z.ltb_spec 0 v); [|lia].
Qed.

Lemma positive_series_ok xm ym key c pts :
  places xm ym → key = "p50" ∨ key = "p99" → Forall chartable pts →
  ∃ o, positive_series pts c xm ym key = Ok o.
Proof.
  intros Hpl Hk Hp. unfold positive_series. rewrite positive_all by done. cbn [mbind result_bind].
  destruct pts; [by eexists|]. by apply chartable_series.
Qed.

Lemma from_y_ok A y : Z.abs A <= 2 ^ 53 → ∃ s, from_y A y = Ok s.
Proof.
  intros HA. unfold from_y, nsub, arith, to_float. destruct (f_small A HA) as (f & -> & _). by eexists.
Qed.

Lemma XSTEP_pos X : 0 < XSTEP X.
Proof. unfold XSTEP. destruct (_ <? _); lia. Qed.

Section Total.
Context `{LL : LibmLaws}.

Lemma log_500 : math_log10 (lit 500) = Ok (log10 500).
Proof. vm_compute. reflexivity. Qed.
Lemma log_600 : math_log10 (lit 600) = Ok (log10 600).
Proof. vm_compute. reflexivity. Qed.
Lemma log_200000 : math_log10 (lit 200000) = Ok (log10 200000).
Proof. vm_compute. reflexivity. Qed.

Lemma lit_axis : axis 500 200000 ∧ axis 600 200000.
Proof. split; [apply (int_axis 500 200000)|apply (int_axis 600 200000)]; lia. Qed.

Section Trips.
Context (d : dataset) (ts : list trip) (X : Z).
Hypothesis Hd : dataset_ok d.
Hypothesis Hts : Forall (λ t, t ∈ RT ∧ in_D d (tname t) = true) ts.
Hypothesis Hlen : (length ts <= 10)%nat.
Hypothesis HX : 0 < X <= 2 ^ 33.

Lemma trip_chartable t : t ∈ ts → Forall chartable (series_of d (tname t)).
Proof.
  intros Ht. rewrite Forall_forall in Hts. apply Hts in Ht as [_ Ht].
  by apply series_of_ok in Ht as [_ Ht].
Qed.

Lemma panel_places i : (i < 10)%nat →
  places (xmap (pan_L i) PANW X) (ymap (pan_T i) PANH (log10 500) (log10 200000)).
Proof.
  intros Hi. pose proof (Z.mod_pos_bound (Z.of_nat i) 3 ltac:(lia)).
  pose proof (Z.div_pos (Z.of_nat i) 3 ltac:(lia) ltac:(lia)). pose proof (Z.div_mod (Z.of_nat i) 3 ltac:(lia)).
  split.
  - intros r Hr. apply xmap_places; [|done|lia]. unfold margins, pan_L, PANW, ML, GX, COLS. unfold PANW. lia.
  - intros v Hv. apply ymap_places; [|apply lit_axis|done].
    unfold margins, pan_T, PANH, MT, GY, COLS. unfold PANH. lia.
Qed.

Lemma panel_ticks i : (i < 10)%nat →
  ∃ o, while_ticks (tick_fuel X (XSTEP X)) (pan_tick i X) X (XSTEP X) 0 = Ok o.
Proof.
  intros Hi. pose proof (XSTEP_pos X) as Hs. rewrite while_ticks_multiples by lia.
  destruct (mapR_total (pan_tick i X) (multiples X (XSTEP X))) as (o & ->); [|by eexists].
  destruct (panel_places i Hi) as [Px _]. apply Forall_forall. intros v Hv. unfold multiples in Hv.
  apply list_elem_of_fmap in Hv as (k & -> & Hk). apply elem_of_seqZ in Hk.
  pose proof (Z.mul_div_le X (XSTEP X) Hs). unfold pan_tick.
  destruct (xmap_places (pan_L i) PANW X (k * XSTEP X)) as (x & ->); [|done|nia|by eexists].
  unfold margins, pan_L, PANW, ML, GX, COLS. unfold PANW.
  pose proof (Z.mod_pos_bound (Z.of_nat i) 3 ltac:(lia)). lia.
Qed.

Lemma panel_ok i t : t ∈ ts → (i < 10)%nat → ∃ o, panel d X (log10 500) (log10 200000) (i, t) = Ok o.
Proof.
  intros Ht Hi. pose proof (panel_places i Hi) as Pl. pose proof (trip_chartable t Ht) as Hp.
  unfold panel. cbn [fst snd]. destruct Pl as [Px Py] eqn:EPl. clear EPl.
  destruct (Py 1000) as (y & Ey); [lia|]. rewrite Ey. cbn [mbind result_bind].
  destruct (from_y_ok (pan_T i + PANH) y) as (bh & ->).
  { unfold pan_T, PANH, MT, GY, COLS. pose proof (Z.div_mod (Z.of_nat i) 3 ltac:(lia)).
    pose proof (Z.mod_pos_bound (Z.of_nat i) 3 ltac:(lia)). unfold PANH. lia. }
  cbn [mbind result_bind].
  destruct (mapR_total (pan_grid i (ymap (pan_T i) PANH (log10 500) (log10 200000))) [1000; 10000; 100000]) as (gs & ->).
  { repeat constructor; unfold pan_grid;
      match goal with |- context [ymap _ _ _ _ ?v] => destruct (Py v) as (z & ->); [lia|] end;
      cbn [mbind result_bind]; destruct (plus_ok z 4) as (z' & ->); [lia| |lia| |lia|]; by eexists. }
  cbn [mbind result_bind]. destruct (panel_ticks i Hi) as (tk & ->). cbn [mbind result_bind].
  destruct (positive_series_ok _ _ "p99" C2 _ (conj Px Py) ltac:(by right) Hp) as (s99 & ->). cbn [mbind result_bind].
  destruct (positive_series_ok _ _ "p50" C1 _ (conj Px Py) ltac:(by left) Hp) as (s50 & ->). by eexists.
Qed.

Lemma rows_bound : 1 <= ROWS (length ts) <= 4.
Proof.
  unfold ROWS, COLS. pose proof (Z.div_mod (- Z.of_nat (length ts)) 3 ltac:(lia)).
  pose proof (Z.mod_pos_bound (- Z.of_nat (length ts)) 3 ltac:(lia)). lia.
Qed.

Lemma round_trips_ok : ∃ o, round_trips d ts X = Ok o.
Proof.
  unfold round_trips.
  rewrite log_500, log_200000. cbn [mbind result_bind].
  destruct (mapR_total (panel d X (log10 500) (log10 200000)) (enumerate ts)) as (ps & ->).
  { unfold enumerate. apply Forall_forall. intros [i t] Hit. apply list_elem_of_lookup in Hit as (j & Hj).
    rewrite list_lookup_imap in Hj. destruct (ts !! j) as [t'|] eqn:E; [|done]. injection Hj as -> ->.
    apply panel_ok; [by eapply list_elem_of_lookup_2|]. apply lookup_lt_Some in E. lia. }
  cbn [mbind result_bind]. pose proof rows_bound as HR.
  destruct (mid0_ok MT (ROWS (length ts) * PANH + (ROWS (length ts) - 1) * GY)) as (a & ->);
    [done|unfold PANH, GY; lia|]. cbn [mbind result_bind].
  destruct (mid0_ok ML (COLS * PANW + (COLS - 1) * GX)) as (b & ->); [done|done|]. cbn [mbind result_bind].
  destruct (legend_total ML (pan_H (length ts)) [("p50", C1); ("p99", C2)] None) as (lg & ->);
    [done|apply (bool_decide_unpack _); vm_compute; exact I|by eexists].
Qed.

Lemma at100k_ok pts : Forall chartable pts → ∃ o, at100k pts = Ok o.
Proof.
  induction 1 as [|p pts [(r & Er & _) _ (v & Ev & _) _] Hps IH]; [by eexists|]. cbn [at100k]. rewrite Er.
  cbn [mbind result_bind]. destruct (r =? 100000); [|done]. rewrite Ev. cbn [mbind result_bind].
  destruct (0 <? v); [by eexists|done].
Qed.

Lemma overlay_places sl R : (length sl <= 1000)%nat → 1 <= R <= 11 →
  places (xmap ov_L ov_PW X) (ymap (ov_T sl) (ov_PH sl R) (log10 600) (log10 200000)).
Proof.
  intros Hsl HR. split.
  - intros r Hr. apply xmap_places; [|done|lia]. unfold margins, ov_L, ov_PW, ov_W, ov_L, ov_R. lia.
  - intros v Hv. apply ymap_places; [|apply lit_axis|done]. unfold margins, ov_PH, ov_H, ov_T. lia.
Qed.

Lemma at100k_texts :
  ∃ a, _at100k d ts = Ok a ∧ Forall (λ s, (count_spaces s <= 4)%nat) a ∧ (length a <= 10)%nat.
Proof.
  unfold _at100k.
  assert (∀ l, (∀ t, t ∈ l → t ∈ ts) → ∃ vs, mapR (at100k_text d) l = Ok vs ∧
     Forall (λ s, (count_spaces s <= 4)%nat) (concat vs) ∧ (length (concat vs) <= length l)%nat) as G.
  { induction l as [|t l IH]; intros Hl; [by exists []|]. destruct IH as (vs & E & Hs & Hn); [set_solver|].
    assert (t ∈ ts) as Ht by (apply Hl; by left). pose proof (trip_chartable t Ht) as Hp.
    cbn [mapR]. rewrite E. unfold at100k_text. destruct (at100k_ok _ Hp) as (o & Eo). rewrite Eo. cbn [mbind result_bind].
    eexists. split; [reflexivity|]. cbn [concat]. destruct o as [v|]; cbn [app length]; [|split; [done|lia]].
    split; [|lia]. constructor; [|done]. rewrite !count_spaces_app.
    assert (Forall (λ t, (count_spaces (tlabel t) <= 2)%nat) RT) as K by (apply (bool_decide_unpack _); vm_compute; exact I).
    rewrite Forall_forall in K. assert (t ∈ RT) as Hrt by (rewrite Forall_forall in Hts; by apply Hts).
    specialize (K t Hrt). cbn beta in K. rewrite (count_spaces_none (comma v)).
    - change (count_spaces " ") with 1%nat. change (count_spaces " µs") with 1%nat. lia.
    - apply comma_no_space. clear -Eo Hp. induction Hp as [|p ps [(r & Er & _) _ (w & Ew & Hw) _] Hps IH]; [done|].
      cbn [at100k] in Eo. rewrite Er in Eo. cbn [mbind result_bind] in Eo.
      destruct (r =? 100000); [|by apply IH]. rewrite Ew in Eo. cbn [mbind result_bind] in Eo.
      destruct (0 <? w); [injection Eo as <-; lia|by apply IH]. }
  destruct (G ts) as (vs & -> & Hs & Hn); [done|]. eexists. split; [reflexivity|]. split; [done|lia].
Qed.

Lemma sublines_length a :
  Forall (λ s, (count_spaces s <= 4)%nat) a → (length a <= 10)%nat → (length (_sublines (_sub a)) <= 1000)%nat.
Proof.
  intros Ha Hn. unfold _sublines. rewrite !length_app. cbn [length].
  pose proof (wrap_loop_length wrap_budget (split_on space (_sub a)) [] EmptyString) as W.
  change (wrap_loop _ _ _ _) with (wrap_sub (_sub a) wrap_budget) in W. rewrite split_spaces in W. cbn [length] in W.
  assert (count_spaces (_sub a) <= 60)%nat; [|lia].
  unfold _sub. destruct a as [|s a]; [vm_compute; lia|]. rewrite !count_spaces_app.
  pose proof (count_spaces_join 4 (s :: a) Ha). change (count_spaces "At 100k: ") with 2%nat.
  change (count_spaces ".") with 0%nat. cbn [length] in *. lia.
Qed.

Lemma legend_rows_bound L maxx items rows lx R :
  legend_rows_loop L maxx items rows lx = Ok R → R <= rows + Z.of_nat (length items).
Proof.
  revert rows lx. induction items as [|[lab c] items IH]; intros rows lx E; cbn [legend_rows_loop] in E.
  - inv_ok. cbn. lia.
  - inv_ok. apply IH in E. cbn [length]. destruct x0; lia.
Qed.

Lemma overlay_axes sl R : (length sl <= 1000)%nat → 1 <= R <= 11 →
  ∃ ax, axes ov_L (ov_T sl) ov_PW (ov_PH sl R) X (XSTEP X) [1000; 2000; 5000; 10000; 50000; 200000]
         "p50 latency, log scale" (ymap (ov_T sl) (ov_PH sl R) (log10 600) (log10 200000)) fmt_ms = Ok ax.
Proof.
  intros Hsl HR.
  destruct (axes_ok ov_L (ov_T sl) ov_PW (ov_PH sl R) X (XSTEP X) [1000; 2000; 5000; 10000; 50000; 200000]
         "p50 latency, log scale" (ymap (ov_T sl) (ov_PH sl R) (log10 600) (log10 200000)) fmt_ms)
    as (? & ? & ? & ? & ? & _ & _ & E & _); [..|eexists; exact E].
  - unfold margins, ov_L, ov_PW, ov_W, ov_L, ov_R. lia.
  - unfold margins, ov_PH, ov_H, ov_T. lia.
  - done.
  - apply XSTEP_pos.
  - destruct (overlay_places sl R Hsl HR) as [_ Py]. repeat constructor; apply Py; lia.
Qed.

Lemma overlay_ok : ∃ o, overlay d ts X = Ok o.
Proof.
  assert (Forall (λ t, t ∈ RT) ts) as Hrt by (eapply Forall_impl; [exact Hts|]; by intros t []).
  destruct (legend_ok ov_L 0 (_legend_items ts) (ov_W - 20) ltac:(done) ltac:(done) (RT_short ts Hrt))
    as (R & _ & ER & _ & _ & HR1 & _).
  assert (1 <= R <= 11) as HR.
  { split; [done|]. unfold legend_rows in ER. apply legend_rows_bound in ER. unfold _legend_items in ER.
    rewrite length_fmap in ER. lia. }
  unfold overlay. rewrite ER. cbn [mbind result_bind].
  rewrite log_600, log_200000. cbn [mbind result_bind]. destruct at100k_texts as (a & Ea & Ha & Hn). rewrite Ea. cbn [mbind result_bind].
  pose proof (sublines_length a Ha Hn) as Hsl. set (sl := _sublines (_sub a)) in *.
  destruct (overlay_places sl R Hsl HR) as [Px Py].
  destruct (Py 1000) as (y & ->); [lia|]. cbn [mbind result_bind].
  destruct (from_y_ok (ov_T sl + ov_PH sl R) y) as (bh & ->); [unfold ov_PH, ov_H, ov_T; lia|]. cbn [mbind result_bind].
  destruct (plus_ok y 15) as (yl & ->); [lia|]. cbn [mbind result_bind].
  destruct (overlay_axes sl R Hsl HR) as (ax & ->). cbn [mbind result_bind].
  destruct (mapR_total (λ t, positive_series (series_of d (tname t)) (tcolour t) (xmap ov_L ov_PW X)
     (ymap (ov_T sl) (ov_PH sl R) (log10 600) (log10 200000)) "p50") ts) as (ss & ->).
  { apply Forall_forall. intros t Ht. apply positive_series_ok; [done|by left|by apply trip_chartable]. }
  cbn [mbind result_bind].
  destruct (legend_total ov_L (ov_H sl R) (_legend_items ts) (Some (ov_W - 20))) as (lg & ->);
    [done|by apply RT_short|by eexists].
Qed.
End Trips.
End Total.
