(* ===== verification/Mkcharts.v ===== *)
(** [sweep/mkcharts.py] as a program: from the command line and the files it
    reads to the charts it writes, the line it prints and the exit status. *)

From S2P Require Import Prelude PyFloat PyStr PyNum PyCsv ChartData Svg KneeCharts RoundTrips.
From Stdlib Require Import QArith.

Open Scope Z_scope.

Section Main.
Context `{Libm}.

Definition svg_text (o : list string) : string := join (String newline EmptyString) o.

(** The combined chart is always drawn, and written when it has a series. *)
Definition main_combined (out : string) (d : dataset) : M unit :=
  o ← lift (knee_curves d);
  match present d with
  | [] => mret tt
  | _ => write_file (out +:+ "/knee-curves.svg") (svg_text o)
  end.

(** One turn of the loop over [CFG]. *)
Definition main_product (out : string) (d : dataset) (nc : string * cfg) : M unit :=
  if in_D d nc.1 then
    o ← lift (knee_chart nc.2 (series_of d nc.1));
    write_file (out +:+ "/knee-" +:+ nc.1 +:+ ".svg") (svg_text o)
  else mret tt.

(** The palette guard. *)
Definition main_guard (d : dataset) : M unit :=
  match _clashes (rt_present d) with
  | [] => mret tt
  | cs => raise (SystemExitMsg (clash_message cs))
  end.

Definition two_or_more (ts : list trip) : bool := 2 <=? Z.of_nat (length ts).

Definition main_round_trips (out : string) (d : dataset) : M unit :=
  let ts := rt_present d in
  m ← lift (_maxrate d ts);
  XMAX ← lift (round_up m);
  o ← lift (round_trips d ts XMAX);
  write_file (out +:+ "/round-trips.svg") (svg_text o);;
  o ← lift (overlay d ts XMAX);
  write_file (out +:+ "/round-trips-p50.svg") (svg_text o).

Definition _written (d : dataset) : list string := List.filter (in_D d) CFG.*1.

Definition summary (combined : bool) (out : string) (d : dataset) : string :=
  let n := str_Z (Z.of_nat (length (rt_present d))) in
  let rt :=
    if combined then
      if two_or_more (rt_present d)
      then ", round-trips.svg + round-trips-p50.svg (" +:+ n +:+ " round trips)" else EmptyString
    else if two_or_more (rt_present d)
    then " (skipped the " +:+ n +:+ "-series round-trips overlay: pass --combined to write it, and only from a target that hands over EVERY gateway CSV)"
    else EmptyString in
  "wrote " +:+ (match present d with [] => EmptyString | _ => "knee-curves.svg and " end)
  +:+ str_Z (Z.of_nat (length (_written d))) +:+ " per-product chart(s) (" +:+ join ", " (_written d) +:+ ")"
  +:+ rt +:+ " to " +:+ out.

(** Everything after the dataset is built. *)
Definition main_charts (combined : bool) (out : string) (d : dataset) : M unit :=
  main_combined out d;;
  mapM_ (main_product out d) CFG;;
  main_guard d;;
  (if combined && two_or_more (rt_present d) then main_round_trips out d else mret tt);;
  print (summary combined out d).

Definition script (HERE : string) (args : list string) : M unit :=
  rows ← read_rows (CSVS HERE args);
  d ← lift (D rows);
  main_charts (COMBINED args) (OUT HERE args) d.
End Main.

(** A run that reads its files and builds its dataset. *)
Lemma script_charts `{Libm} HERE args w rows w' d :
  read_rows (CSVS HERE args) w = (Ok rows, w') → D rows = Ok d →
  script HERE args w = main_charts (COMBINED args) (OUT HERE args) d w'.
Proof.
  intros E1 E2. unfold script. rewrite (M_bind_Ok _ _ _ _ _ E1). apply M_bind_Ok. unfold lift. by rewrite E2.
Qed.

(** ** Which files a run writes *)

Definition knee_path (out name : string) : string := out +:+ "/knee-" +:+ name +:+ ".svg".
Definition is_knee (out path : string) : Prop := ∃ s, path = out +:+ "/knee-" +:+ s.
Definition rt_path (out : string) : string := out +:+ "/round-trips.svg".
Definition rt50_path (out : string) : string := out +:+ "/round-trips-p50.svg".

Lemma app_str_inj a b c : a +:+ b = a +:+ c → b = c.
Proof.
  induction a as [|x a IH]; [done|]. rewrite !app_str_cons. intros [= H]. by apply IH.
Qed.

Lemma rt_not_knee out : ¬ is_knee out (rt_path out) ∧ ¬ is_knee out (rt50_path out).
Proof. split; intros (s & E); by apply app_str_inj in E. Qed.

Section Frame.
Context `{Libm}.

Lemma combined_writes out d : only_writes (is_knee out) (main_combined out d).
Proof.
  unfold main_combined. apply only_writes_bind; [apply only_writes_lift|]. intros o.
  destruct (present d); [apply only_writes_ret|].
  apply only_writes_write. by exists "curves.svg".
Qed.

Lemma products_write out d : only_writes (is_knee out) (mapM_ (main_product out d) CFG).
Proof.
  apply only_writes_mapM. apply Forall_forall. intros [name c] _. unfold main_product.
  destruct (in_D d _); auto with py. apply only_writes_bind; [apply only_writes_lift|]. intros o.
  apply only_writes_write. by exists (name +:+ ".svg").
Qed.

Lemma guard_writes out d : only_writes (is_knee out) (main_guard d).
Proof. unfold main_guard. destruct (_clashes _); auto with py. Qed.

(** The prefix of a run that draws the knee charts and checks the palette. *)
Lemma guard_passes out d w r w' :
  (main_combined out d;; mapM_ (main_product out d) CFG;; main_guard d) w = (Ok r, w') →
  NoDup (tcolour <$> rt_present d).
Proof.
  intros E. apply clashes_iff. unfold mbind, M_bind in E.
  destruct (main_combined out d w) as [[] w1]; [|done].
  destruct (mapM_ _ CFG w1) as [[] w2]; [|done]. unfold main_guard in E.
  by destruct (_clashes (rt_present d)).
Qed.
End Frame.

(** C6 The comparison charts are overwritten by nobody but a run that means
    it: whatever the data, and however the run ends, a change to
    round-trips.svg or round-trips-p50.svg implies that [--combined] was
    given, that there were at least two round trips to compare, and that no
    two of them share a colour. *)
Theorem overlay_opt_in `{Libm} HERE args w :
  let w' := (script HERE args w).2 in
  let out := OUT HERE args in
  (files w' !! rt_path out ≠ files w !! rt_path out ∨ files w' !! rt50_path out ≠ files w !! rt50_path out) →
  COMBINED args = true ∧
  ∃ rows d, (read_rows (CSVS HERE args) w).1 = Ok rows ∧ D rows = Ok d ∧
    two_or_more (rt_present d) = true ∧ NoDup (tcolour <$> rt_present d).
Proof.
  intros w' out Hch. subst w'. unfold script in Hch.
  assert (only_writes (is_knee out) (read_rows (CSVS HERE args))) as Hr.
  { apply only_writes_bind; [|auto with py]. apply only_writes_mapMM. intros p. unfold read_csv. auto with py. }
  destruct (rt_not_knee out) as [N1 N2].
  pose proof (Hr w _ N1) as R1. pose proof (Hr w _ N2) as R2. unfold mbind, M_bind in Hch.
  destruct (read_rows (CSVS HERE args) w) as [[rows|e] w1] eqn:Er; cbn in Hch, R1, R2; [|by destruct Hch].
  unfold lift in Hch. destruct (D rows) as [d|e] eqn:Ed; [|by cbn in Hch; destruct Hch].
  rewrite <- R1, <- R2 in Hch. fold out in Hch. clear R1 R2.
  assert (∀ m : M unit, only_writes (is_knee out) m →
    ¬ (files (m w1).2 !! rt_path out ≠ files w1 !! rt_path out ∨ files (m w1).2 !! rt50_path out ≠ files w1 !! rt50_path out)) as Q.
  { intros m Hm [C|C]; apply C; by apply Hm. }
  unfold main_charts in Hch.
  destruct (COMBINED args && two_or_more (rt_present d)) eqn:Ec.
  - apply andb_true_iff in Ec as [E1 E2]. split; [done|]. exists rows, d. split_and!; [done|done|done|].
    destruct ((main_combined out d;; mapM_ (main_product out d) CFG;; main_guard d) w1) as [[u|e] w2] eqn:Eg;
      [by eapply guard_passes|]. exfalso.
    eapply (Q (main_combined out d;; mapM_ (main_product out d) CFG;; main_guard d));
      [auto using only_writes_bind, combined_writes, products_write, guard_writes|].
    rewrite Eg. unfold mbind, M_bind in Eg, Hch.
    destruct (main_combined out d w1) as [[] w3]; [|by inversion Eg; subst].
    destruct (mapM_ _ CFG w3) as [[] w4]; [|by inversion Eg; subst].
    destruct (main_guard d w4) as [[] w5]; [done|by inversion Eg; subst].
  - exfalso. eapply Q; [|exact Hch].
    repeat (apply only_writes_bind; [auto using combined_writes, products_write, guard_writes with py|intros _]).
    auto with py.
Qed.

(** ** A run that completes *)

Lemma app_str_inj_r a b c : a +:+ c = b +:+ c → a = b.
Proof.
  intros E. apply (f_equal String.list_ascii_of_string) in E. rewrite !list_ascii_app in E.
  apply app_inv_tail, (f_equal String.string_of_list_ascii) in E.
  by rewrite !String.string_of_list_ascii_of_string in E.
Qed.

Lemma knee_path_inj out a b : knee_path out a = knee_path out b → a = b.
Proof. unfold knee_path. intros E. by apply app_str_inj, app_str_inj, app_str_inj_r in E. Qed.

(** Only files change. *)
Definition same_streams (w w' : world) : Prop := out w' = out w ∧ err w' = err w.

Section Runs.
Context `{LL : LibmLaws}.

Lemma product_run outd d name c w :
  dataset_ok d → cfg_ok c → in_D d name = true →
  ∃ o, knee_chart c (series_of d name) = Ok o ∧
    main_product outd d (name, c) w
    = (Ok tt, World (<[knee_path outd name := svg_text o]> (files w)) (out w) (err w)).
Proof.
  intros Hd Hc Hin. destruct (series_of_ok d name Hd Hin) as [Hne Hp].
  destruct (knee_chart_ok c _ Hc Hne Hp) as (o & Eo). exists o. split; [done|].
  unfold main_product. cbn [fst snd]. rewrite Hin. unfold mbind, M_bind, lift. by rewrite Eo.
Qed.

(** What the loop over the table leaves behind. *)
Definition charts_done (outd : string) (d : dataset) (l : list (string * cfg)) (w w' : world) : Prop :=
  same_streams w w' ∧
  (∀ name c, (name, c) ∈ l → in_D d name = true →
     ∃ o, knee_chart c (series_of d name) = Ok o ∧ files w' !! knee_path outd name = Some (svg_text o)) ∧
  (∀ path, (∀ name, name ∈ l.*1 → path ≠ knee_path outd name) → files w' !! path = files w !! path).

Lemma products_run outd d l w :
  dataset_ok d → Forall (λ nc : string * cfg, cfg_ok nc.2) l → NoDup l.*1 →
  ∃ w', mapM_ (main_product outd d) l w = (Ok tt, w') ∧ charts_done outd d l w w'.
Proof.
  intros Hd. revert w. induction l as [|[name c] l IH]; intros w Hc Hn.
  - exists w. split; [done|]. split; [done|]. split; [|done]. intros name c Hin. by apply not_elem_of_nil in Hin.
  - apply Forall_cons in Hc as [Hc Hcs]. rewrite fmap_cons in Hn. apply NoDup_cons in Hn as [Hn Hnd].
    cbn [fst snd] in *. cbn [mapM_]. destruct (in_D d name) eqn:Hin.
    + destruct (product_run outd d name c w Hd Hc Hin) as (o & Eo & E).
      rewrite (M_bind_Ok _ _ _ _ _ E).
      match goal with |- context [mapM_ _ l ?w1] => destruct (IH w1 Hcs Hnd) as (w' & Ew & [S1 S2] & Hf & Hu) end.
      exists w'. split; [done|]. split; [by cbn in S1, S2|]. split.
      * intros n c' Hin' Hd'. apply elem_of_cons in Hin' as [[= -> ->]|Hin']; [|by apply (Hf n c')].
        exists o. split; [done|]. rewrite Hu; [cbn; by rewrite lookup_insert_eq|].
        intros n Hn' En. apply knee_path_inj in En. by subst n.
      * intros path Hp. rewrite Hu; [cbn; apply lookup_insert_ne|]; rewrite fmap_cons in Hp.
        -- intros E'. apply (Hp name); [by left|done].
        -- intros n Hn'. apply Hp. by right.
    + assert (main_product outd d (name, c) w = (Ok tt, w)) as E
        by (unfold main_product; cbn [fst]; by rewrite Hin).
      rewrite (M_bind_Ok _ _ _ _ _ E). destruct (IH w Hcs Hnd) as (w' & Ew & Hs & Hf & Hu).
      exists w'. split; [done|]. split; [done|]. split.
      * intros n c' Hin' Hd'. apply elem_of_cons in Hin' as [[= -> ->]|Hin']; [congruence|]. by apply (Hf n c').
      * intros path Hp. apply Hu. intros n Hn'. apply Hp. rewrite fmap_cons. by right.
Qed.

Definition curves_path (outd : string) : string := knee_path outd "curves".

(** A dataset all of whose charts can be drawn. *)
Definition drawable_dataset (d : dataset) : Prop :=
  dataset_ok d ∧ Forall (λ it : item, labelled d it.1) (present d).

Lemma combined_run outd d w :
  drawable_dataset d →
  ∃ o w', knee_curves d = Ok o ∧ main_combined outd d w = (Ok tt, w') ∧ same_streams w w' ∧
    (present d ≠ [] → files w' !! curves_path outd = Some (svg_text o)) ∧
    (∀ path, path ≠ curves_path outd → files w' !! path = files w !! path).
Proof.
  intros [Hd Hl]. destruct (knee_curves_ok d Hd Hl) as (o & Eo). exists o.
  unfold main_combined, mbind, M_bind, lift. rewrite Eo. destruct (present d) as [|it l].
  - exists w. split; [reflexivity|]. split; [reflexivity|]. split; [split; reflexivity|].
    split; [intros C; by destruct C|reflexivity].
  - eexists. split; [reflexivity|]. split; [reflexivity|]. split; [split; reflexivity|]. split.
    + intros _. cbn [files]. apply lookup_insert_eq.
    + intros path Hp. cbn [files]. apply lookup_insert_ne. intros E. by apply Hp.
Qed.

(** Everything up to the palette guard. *)
Lemma knee_run outd d w :
  drawable_dataset d →
  ∃ w', (main_combined outd d;; mapM_ (main_product outd d) CFG) w = (Ok tt, w') ∧ same_streams w w' ∧
    (present d ≠ [] → ∃ o, knee_curves d = Ok o ∧ files w' !! curves_path outd = Some (svg_text o)) ∧
    (∀ name c, (name, c) ∈ CFG → in_D d name = true →
      ∃ o, knee_chart c (series_of d name) = Ok o ∧ files w' !! knee_path outd name = Some (svg_text o)).
Proof.
  intros Hd. destruct (combined_run outd d w Hd) as (o & w1 & Eo & E1 & [S1 S1'] & Hc & _).
  destruct Hd as [Hd _]. destruct (products_run outd d CFG w1 Hd CFG_ok CFG_NoDup) as (w2 & E2 & [S2 S2'] & Hf & Hu).
  exists w2. rewrite (M_bind_Ok _ _ _ _ _ E1). split; [done|]. split; [split; congruence|]. split; [|done].
  intros Hp. exists o. split; [done|]. rewrite Hu; [by apply Hc|].
  intros name Hn E. apply knee_path_inj in E. subst name. revert Hn.
  apply (bool_decide_unpack _). vm_compute. exact I.
Qed.

Lemma rt_present_RT d : Forall (λ t, t ∈ RT ∧ in_D d (tname t) = true) (rt_present d).
Proof.
  apply Forall_forall. intros t Ht. unfold rt_present in Ht.
  apply list_elem_of_In, filter_In in Ht as [Ht Hd]. split; [by apply list_elem_of_In|done].
Qed.

Lemma rt_present_length d : (length (rt_present d) <= 10)%nat.
Proof. unfold rt_present. etrans; [apply List.filter_length_le|]. vm_compute. lia. Qed.

Lemma round_trips_run outd d w :
  dataset_ok d →
  ∃ X o o' w', round_trips d (rt_present d) X = Ok o ∧ overlay d (rt_present d) X = Ok o' ∧
    main_round_trips outd d w = (Ok tt, w') ∧ same_streams w w' ∧
    files w' = <[rt50_path outd := svg_text o']> (<[rt_path outd := svg_text o]> (files w)).
Proof.
  intros Hd. destruct (maxrate_ok d _ Hd (rt_present_in d)) as (m & Em & Hm & _).
  destruct (round_up_ok m) as (X & EX & HX & _); [lia|].
  assert (0 < X <= 2 ^ 33) as HX' by lia.
  destruct (round_trips_ok d _ X Hd (rt_present_RT d) (rt_present_length d) HX') as (o & Eo).
  destruct (overlay_ok d _ X Hd (rt_present_RT d) (rt_present_length d) HX') as (o' & Eo').
  exists X, o, o'. eexists. split; [exact Eo|]. split; [exact Eo'|]. split.
  { unfold main_round_trips.
    rewrite (M_bind_Ok _ _ w m w) by (unfold lift; by rewrite Em).
    rewrite (M_bind_Ok _ _ w X w) by (unfold lift; by rewrite EX).
    rewrite (M_bind_Ok _ _ w o w) by (unfold lift; by rewrite Eo).
    erewrite M_bind_Ok by reflexivity.
    erewrite M_bind_Ok by (unfold lift; by rewrite Eo'). reflexivity. }
  split; [split; reflexivity|reflexivity].
Qed.
End Runs.

(** ** Theorems on whole runs *)

Lemma bind_assoc {A B C} (m : M A) (f : A → M B) (g : B → M C) w :
  ((m ≫= f) ≫= g) w = (m ≫= λ a, f a ≫= g) w.
Proof. unfold mbind, M_bind. by destruct (m w) as [[] ?]. Qed.

(** What a complete run leaves behind. *)
Lemma run_ok `{LibmLaws} combined outd d w :
  drawable_dataset d → NoDup (tcolour <$> rt_present d) →
  ∃ w', main_charts combined outd d w = (Ok tt, w') ∧
    out w' = out w ++ [summary combined outd d] ∧ err w' = err w ∧
    (present d ≠ [] → ∃ o, knee_curves d = Ok o ∧ files w' !! curves_path outd = Some (svg_text o)) ∧
    (∀ name c, (name, c) ∈ CFG → in_D d name = true →
      ∃ o, knee_chart c (series_of d name) = Ok o ∧ files w' !! knee_path outd name = Some (svg_text o)) ∧
    (combined = true → two_or_more (rt_present d) = true →
      ∃ X o o', round_trips d (rt_present d) X = Ok o ∧ overlay d (rt_present d) X = Ok o' ∧
        files w' !! rt_path outd = Some (svg_text o) ∧ files w' !! rt50_path outd = Some (svg_text o')).
Proof.
  intros Hd Hnd. destruct (knee_run outd d w Hd) as (w1 & E1 & [S1 S1'] & Hcur & Hprod).
  assert (main_guard d w1 = (Ok tt, w1)) as E2.
  { unfold main_guard. apply clashes_iff in Hnd. by rewrite Hnd. }
  unfold main_charts. rewrite <- bind_assoc, (M_bind_Ok _ _ _ _ _ E1), (M_bind_Ok _ _ _ _ _ E2).
  destruct (rt_not_knee outd) as [N1 N2].
  destruct (combined && two_or_more (rt_present d)) eqn:Ec.
  - destruct (round_trips_run outd d w1 (proj1 Hd)) as (X & o & o' & w2 & Eo & Eo' & E3 & [S2 S2'] & Hf).
    rewrite (M_bind_Ok _ _ _ _ _ E3). eexists. split; [reflexivity|]. cbn [out err files].
    split; [by rewrite S2, S1|]. split; [congruence|].
    assert (∀ path, is_knee outd path → files w2 !! path = files w1 !! path) as Keep.
    { intros path Hk. rewrite Hf, !lookup_insert_ne; [reflexivity| |]; intros <-; contradiction. }
    split; [|split].
    + intros Hp. destruct (Hcur Hp) as (oc & Ec' & Ef). exists oc. split; [done|].
      rewrite Keep; [done|]. by exists "curves.svg".
    + intros name c Hin Hn. destruct (Hprod name c Hin Hn) as (op & Ep & Ef). exists op. split; [done|].
      rewrite Keep; [done|]. by exists (name +:+ ".svg").
    + intros _ _. exists X, o, o'. split; [done|]. split; [done|]. rewrite Hf. split; [|by rewrite lookup_insert_eq].
      rewrite lookup_insert_ne; [by rewrite lookup_insert_eq|]. intros C. by apply app_str_inj in C.
  - rewrite (M_bind_Ok _ _ w1 tt w1) by done. eexists. split; [reflexivity|].
    cbn [out err files]. split; [by rewrite S1|]. split; [done|]. split; [done|]. split; [done|].
    intros -> E. by rewrite E in Ec.
Qed.

(** C5 On a dataset whose points carry the columns the charts read, with the
    label rates measured and no colour clash, the run completes: it prints its
    summary and nothing else, and leaves behind the combined chart (when one
    of its three products is there), the chart of every product it knows, and
    with [--combined] and two or more round trips both comparison charts. *)
Theorem run_completes `{LibmLaws} combined outd d w :
  drawable_dataset d → NoDup (tcolour <$> rt_present d) →
  ∃ w', main_charts combined outd d w = (Ok tt, w') ∧
    out w' = out w ++ [summary combined outd d] ∧ err w' = err w ∧
    (present d ≠ [] → ∃ o, knee_curves d = Ok o ∧ files w' !! curves_path outd = Some (svg_text o)) ∧
    (∀ name c, (name, c) ∈ CFG → in_D d name = true →
      ∃ o, knee_chart c (series_of d name) = Ok o ∧ files w' !! knee_path outd name = Some (svg_text o)) ∧
    (combined = true → two_or_more (rt_present d) = true →
      ∃ X o o', round_trips d (rt_present d) X = Ok o ∧ overlay d (rt_present d) X = Ok o' ∧
        files w' !! rt_path outd = Some (svg_text o) ∧ files w' !! rt50_path outd = Some (svg_text o')).
Proof. apply run_ok. Qed.

(** C28 Two round trips in one colour end the run with status 1 and the names
    of the clashing series, with or without [--combined]; the knee charts have
    been written by then, the comparison charts have not. *)
Theorem clash_stops `{LibmLaws} combined outd d w :
  drawable_dataset d → ¬ NoDup (tcolour <$> rt_present d) →
  ∃ w', main_charts combined outd d w = (Err (SystemExitMsg (clash_message (_clashes (rt_present d)))), w') ∧
    out w' = out w ∧
    (∀ name c, (name, c) ∈ CFG → in_D d name = true →
      ∃ o, knee_chart c (series_of d name) = Ok o ∧ files w' !! knee_path outd name = Some (svg_text o)) ∧
    files w' !! rt_path outd = files w !! rt_path outd ∧ files w' !! rt50_path outd = files w !! rt50_path outd.
Proof.
  intros Hd Hnd. destruct (knee_run outd d w Hd) as (w1 & E1 & [S1 S1'] & _ & Hprod). exists w1.
  assert (main_guard d w1 = (Err (SystemExitMsg (clash_message (_clashes (rt_present d)))), w1)) as E2.
  { unfold main_guard. destruct (_clashes (rt_present d)) eqn:E; [|reflexivity].
    apply clashes_iff in E. contradiction. }
  unfold main_charts. rewrite <- bind_assoc, (M_bind_Ok _ _ _ _ _ E1), (M_bind_Err _ _ _ _ _ E2).
  destruct (rt_not_knee outd) as [N1 N2].
  assert (only_writes (is_knee outd) (main_combined outd d;; mapM_ (main_product outd d) CFG)) as Hw
    by auto using only_writes_bind, combined_writes, products_write.
  pose proof (Hw w _ N1) as R1. pose proof (Hw w _ N2) as R2. rewrite E1 in R1, R2.
  split; [reflexivity|]. split; [exact S1|]. split; [exact Hprod|]. split; [exact R1|exact R2].
Qed.

Section Missing.
Context `{LL : LibmLaws}.

Lemma next_at_cases r pts :
  Forall chartable pts → (∃ p, p ∈ pts ∧ col p "rate" = Ok r) ∨ (∀ p, p ∈ pts → col p "rate" ≠ Ok r).
Proof.
  induction 1 as [|p pts [(z & Ez & _) _ _ _] Hps [(q & Hq & Eq)|IH]].
  - right. intros p Hp. by apply not_elem_of_nil in Hp.
  - left. exists q. split; [by right|done].
  - destruct (decide (z = r)) as [->|Hne]; [left; exists p; split; [by left|done]|]. right.
    intros q Hq. apply elem_of_cons in Hq as [->|Hq]; [congruence|by apply IH].
Qed.

(** A curve is drawn, or its label rate was not measured. *)
Lemma curve_cases d it :
  dataset_ok d → it ∈ present d → (∃ o, curve d it = Ok o) ∧ labelled d it.1 ∨ curve d it = Err StopIteration.
Proof.
  intros Hd Hit. pose proof Hit as Hit'. unfold present in Hit'. apply list_elem_of_In, filter_In in Hit' as [_ Hin].
  destruct (series_of_ok d it.1 Hd Hin) as [_ Hp].
  destruct (LABEL_AT it.1) as [la|] eqn:Ela.
  - destruct (at_rate la) as [r|] eqn:Er.
    + destruct (next_at_cases r _ Hp) as [Hl|Hl]; [left|right; by eapply curve_missing].
      assert (labelled d it.1) as Hlab.
      { intros la' r' E1 E2. rewrite Ela in E1. injection E1 as <-. rewrite Er in E2. by injection E2 as <-. }
      split; [by apply curve_ok|done].
    + left. assert (labelled d it.1) as Hlab.
      { intros la' r' E1 E2. rewrite Ela in E1. injection E1 as <-. by rewrite Er in E2. }
      split; [by apply curve_ok|done].
  - left. assert (labelled d it.1) as Hlab by (intros la' r' E1 E2; congruence).
    split; [by apply curve_ok|done].
Qed.

Lemma curves_stop d l :
  dataset_ok d → (∀ it, it ∈ l → it ∈ present d) → Exists (λ it : item, ¬ labelled d it.1) l →
  mapR (curve d) l = Err StopIteration.
Proof.
  intros Hd. induction l as [|it l IH]; intros Hl He; [by apply Exists_nil in He|]. cbn [mapR].
  destruct (curve_cases d it Hd) as [[(o & ->) Hlab] | ->]; [apply Hl; by left| |done].
  cbn [mbind result_bind]. rewrite IH; [done|set_solver|]. apply Exists_cons in He as [Hn|He]; done.
Qed.
End Missing.

(** C29 A sweep of braft or openraft that never offered the rate its label is
    pinned to (250000 and 85000) ends the run with StopIteration before any
    chart is written, whatever else could have been drawn. *)
Theorem unmeasured_label_stops `{LibmLaws} combined outd d w :
  dataset_ok d → Exists (λ it : item, ¬ labelled d it.1) (present d) →
  main_charts combined outd d w = (Err StopIteration, w).
Proof.
  intros Hd He. unfold main_charts. apply M_bind_Err. unfold main_combined. apply M_bind_Err. unfold lift, knee_curves.
  destruct combined_axes as (ax & ->). cbn [mbind result_bind].
  by rewrite (curves_stop d (present d) Hd).
Qed.

(** ** Witnesses *)

Definition demo_point (rate : Z) : point := [("rate", rate); ("achieved", rate); ("p50", 900); ("p99", 2000)].
Definition demo_dataset (names : list string) (rate : Z) : dataset :=
  (λ n, (Some n, [demo_point rate])) <$> names.
Definition empty_world : world := World ∅ [] [].

Lemma demo_dataset_ok names rate : 1 <= rate <= 2 ^ 31 → dataset_ok (demo_dataset names rate).
Proof.
  intros Hr. unfold dataset_ok, demo_dataset. apply Forall_fmap, Forall_forall. intros n _. cbn.
  split; [done|]. constructor; [|constructor]. split; eexists; (split; [reflexivity|lia]).
Qed.

Lemma demo_drawable names rate :
  1 <= rate <= 2 ^ 31 → present (demo_dataset names rate) = [] → drawable_dataset (demo_dataset names rate).
Proof. intros Hr Hp. split; [by apply demo_dataset_ok|]. by rewrite Hp. Qed.

Definition trips_demo : dataset := demo_dataset ["sequencer-output-brpc"; "sequencer-fix"] 100000.

Lemma run_completes_witness :
  ∃ w', @main_charts demo_log10 true "charts" trips_demo empty_world = (Ok tt, w') ∧
    out w' = [] ++ [summary true "charts" trips_demo] ∧ err w' = [] ∧
    (present trips_demo ≠ [] → ∃ o, @knee_curves demo_log10 trips_demo = Ok o ∧
       files w' !! curves_path "charts" = Some (svg_text o)) ∧
    (∀ name c, (name, c) ∈ CFG → in_D trips_demo name = true →
      ∃ o, @knee_chart demo_log10 c (series_of trips_demo name) = Ok o ∧
        files w' !! knee_path "charts" name = Some (svg_text o)) ∧
    (true = true → two_or_more (rt_present trips_demo) = true →
      ∃ X o o', @round_trips demo_log10 trips_demo (rt_present trips_demo) X = Ok o ∧
        @overlay demo_log10 trips_demo (rt_present trips_demo) X = Ok o' ∧
        files w' !! rt_path "charts" = Some (svg_text o) ∧ files w' !! rt50_path "charts" = Some (svg_text o')).
Proof.
  apply (@run_completes demo_log10 demo_laws true "charts" trips_demo empty_world).
  - apply demo_drawable; [lia|reflexivity].
  - apply (bool_decide_unpack _). vm_compute. exact I.
Defined.

Definition clash_demo : dataset := demo_dataset ["sequencer-direct"; "sequencer-output-grpc"] 100000.

Lemma clash_stops_witness :
  ∃ w', @main_charts demo_log10 false "charts" clash_demo empty_world
      = (Err (SystemExitMsg (clash_message (_clashes (rt_present clash_demo)))), w') ∧
    out w' = [] ∧
    (∀ name c, (name, c) ∈ CFG → in_D clash_demo name = true →
      ∃ o, @knee_chart demo_log10 c (series_of clash_demo name) = Ok o ∧
        files w' !! knee_path "charts" name = Some (svg_text o)) ∧
    files w' !! rt_path "charts" = (∅ : gmap string string) !! rt_path "charts" ∧
    files w' !! rt50_path "charts" = (∅ : gmap string string) !! rt50_path "charts".
Proof.
  apply (@clash_stops demo_log10 demo_laws false "charts" clash_demo empty_world).
  - apply demo_drawable; [lia|reflexivity].
  - apply (bool_decide_unpack _). vm_compute. exact I.
Defined.

Definition c6i_demo : dataset := demo_dataset ["aeron"; "braft"] 165000.

Lemma unmeasured_label_stops_witness :
  @main_charts demo_log10 false "charts" c6i_demo empty_world = (Err StopIteration, empty_world).
Proof.
  apply (@unmeasured_label_stops demo_log10 demo_laws false "charts" c6i_demo empty_world).
  - apply demo_dataset_ok. lia.
  - replace (present c6i_demo) with [("aeron", C1); ("braft", C2)] by reflexivity.
    right. left. intros Hl.
    destruct (Hl (LabelAt (Some 250000) 12 (-8)) 250000 eq_refl eq_refl) as (p & Hp & E).
    change (series_of c6i_demo "braft") with [demo_point 165000] in Hp.
    apply elem_of_cons in Hp as [->|Hp]; [discriminate|by apply not_elem_of_nil in Hp].
Defined.

Definition trips_sheet : sheet :=
  Sheet ["product"; "rate"; "achieved"; "p50"; "p99"]
    [["sequencer-output-brpc"; "100000"; "100000"; "900"; "2000"];
     ["sequencer-fix"; "100000"; "100000"; "900"; "2000"]].

Definition trips_world : world := World {[ "t.csv" := sheet_text trips_sheet ]} [] [].

Lemma overlay_opt_in_witness :
  COMBINED ["--combined"; "t.csv"; "charts"] = true ∧
  ∃ rows d, (read_rows (CSVS "sweep" ["--combined"; "t.csv"; "charts"]) trips_world).1 = Ok rows ∧ D rows = Ok d ∧
    two_or_more (rt_present d) = true ∧ NoDup (tcolour <$> rt_present d).
Proof.
  apply (@overlay_opt_in demo_log10 "sweep" ["--combined"; "t.csv"; "charts"] trips_world). left.
  assert (read_rows (CSVS "sweep" ["--combined"; "t.csv"; "charts"]) trips_world = (Ok (sheet_rows trips_sheet), trips_world)) as E1
    by (vm_compute; reflexivity).
  assert (D (sheet_rows trips_sheet) = Ok trips_demo) as E2 by (vm_compute; reflexivity).
  rewrite (@script_charts demo_log10 "sweep" ["--combined"; "t.csv"; "charts"] trips_world _ _ _ E1 E2).
  change (OUT "sweep" ["--combined"; "t.csv"; "charts"]) with "charts".
  change (COMBINED ["--combined"; "t.csv"; "charts"]) with true.
  destruct (@run_ok demo_log10 demo_laws true "charts" trips_demo trips_world) as (w' & Ew & _ & _ & _ & _ & Hrt).
  - apply demo_drawable; [lia|reflexivity].
  - apply (bool_decide_unpack _). vm_compute. exact I.
  - destruct (Hrt eq_refl eq_refl) as (X & o & o' & _ & _ & F & _). rewrite Ew. cbn [snd]. rewrite F. discriminate.
Defined.
