(* ===== verification/MultiCharts.v ===== *)
(** [sweep/mkcharts-multi.py]: one input gateway against five.

    [load] reads one percentile column of one product from a CSV, averaging
    repeats of a rate; [chart] draws up to four such series; [script] is the
    program.  The pieces [chart] is made of ([lanes], [legend_flow] and the
    like) are shared with [sweep/mkcharts-fleets.py], whose drawing code is
    the same text. *)

From Stdlib Require Import Ascii.
From S2P Require Import Prelude PyFloat PyStr PyNum PyCsv ChartData Svg KneeCharts.
From Stdlib Require Import QArith Qround Qabs Lqa.

Open Scope Z_scope.

(** ** Loading *)

(** rate -> (value, achieved). *)
Definition table := list (Z * (Z * Z)).

(** The mean by floor division. *)
Definition floor_mean (l : list Z) : Z := zsum l / Z.of_nat (length l).

Definition means (acc : list (Z * list (Z * Z))) : table :=
  (λ kv : Z * list (Z * Z), (kv.1, (floor_mean kv.2.*1, floor_mean kv.2.*2))) <$> acc.

(** An empty cell, or none: no latency was measured. *)
Definition falsy (v : option string) : bool :=
  match v with Some s => is_empty s | None => true end.

(** One row of the file. *)
Definition load_row (product column : string) (acc : list (Z * list (Z * Z))) (row : drow)
  : result (list (Z * list (Z * Z))) :=
  p ← row_get row "product";
  if bool_decide (p ≠ Some product) then Ok acc
  else
    v ← row_get row column;
    if falsy v then Ok acc
    else
      c ← row_get row "rate"; rate ← int_cell c;
      val ← int_cell v;
      a ← row_get row "achieved"; ach ← int_cell a;
      Ok (dappend acc rate (val, ach)).

Definition load (path product column : string) : M table :=
  ex ← exists_file path;
  if ex : bool then
    text ← read_file path;
    rows ← lift (dict_reader text);
    acc ← lift (foldR (load_row product column) [] rows);
    mret (means acc)
  else mret [].

(** ** Drawing *)

Definition COLS : list string := ["#2a78d6"; "#eb6834"; "#1baf7a"; "#b5179e"].

Record canvas := Canvas { cW : Z; cH : Z; cL : Z; cR : Z; cT : Z; cB : Z }.
Definition cPW (c : canvas) : Z := cW c - cL c - cR c.
Definition cPH (c : canvas) : Z := cH c - cT c - cB c.

(** The canvas of [chart] for a subtitle of so many lines. *)
Definition multi_canvas (sub : list string) : canvas :=
  Canvas 940 516 84 44 (50 + Z.of_nat (length sub) * 16 + 14) 112.

Section Drawing.
Context `{Libm}.

(** [T + PH * (1 - (math.log10(max(v, 1)) - ylo) / (yhi - ylo))]. *)
Definition ym_floor (c : canvas) (ylo yhi : float) (v : Z) : result float :=
  ymap (cT c) (cPH c) ylo yhi (Z.max v 1).
Definition lane_xm (c : canvas) (xmax : Z) : Z → result float := xmap (cL c) (cPW c) xmax.

Definition page_head (c : canvas) (title : string) (sub : list string) : list string :=
  [tmpl "<svg xmlns=`http://www.w3.org/2000/svg` width=`{}` height=`{}` viewBox=`0 0 {} {}` font-family='{}' role=`img` aria-label=`{}`>"
     [str_Z (cW c); str_Z (cH c); str_Z (cW c); str_Z (cH c); FONT; title];
   tmpl "<rect width=`{}` height=`{}` fill=`{}`/>" [str_Z (cW c); str_Z (cH c); SURF];
   tmpl "<text x=`84` y=`30` font-size=`16` font-weight=`600` fill=`{}`>{}</text>" [INK; title]]
  ++ imap (λ i l, tmpl "<text x=`84` y=`{}` font-size=`12` fill=`{}`>{}</text>"
                    [str_Z (50 + Z.of_nat i * 16); INK2; l]) sub.

(** The shaded band, when there is one. *)
Definition band (c : canvas) (ym : Z → result float) (fmt : Z → string)
    (band_at : option Z) (band_label : option string) : result (list string) :=
  match truthy band_at with
  | None => Ok []
  | Some b =>
      yb ← ym b;
      h ← nsub (PInt (cT c + cPH c)) (PFlt yb); hf ← to_float h;
      yt ← plus yb 15;
      let lab := match band_label with
                 | Some s => if is_empty s then fmt b else s
                 | None => fmt b
                 end in
      Ok [tmpl "<rect x=`{}` y=`{}` width=`{}` height=`{}` fill=`{}`/>"
            [str_Z (cL c); f1 yb; str_Z (cPW c); f1 hf; BAND];
          tmpl "<text x=`{}` y=`{}` font-size=`11` fill=`{}`>at or below {}</text>"
            [str_Z (cL c + 8); f1 yt; MUTED; lab]]
  end.

Definition grid_line (c : canvas) (ym : Z → result float) (fmt : Z → string) (v : Z) : result (list string) :=
  yy ← ym v;
  yt ← plus yy 4;
  Ok [tmpl "<line x1=`{}` y1=`{}` x2=`{}` y2=`{}` stroke=`{}`/>"
        [str_Z (cL c); f1 yy; str_Z (cL c + cPW c); f1 yy; GRID];
      tmpl "<text x=`{}` y=`{}` font-size=`11` fill=`{}` text-anchor=`end`>{}</text>"
        [str_Z (cL c - 10); f1 yt; MUTED; fmt v]].

Definition rate_tick (c : canvas) (xmax v : Z) : result (list string) :=
  xx ← lane_xm c xmax v;
  Ok [tmpl "<line x1=`{}` y1=`{}` x2=`{}` y2=`{}` stroke=`{}`/>"
        [f1 xx; str_Z (cT c + cPH c); f1 xx; str_Z (cT c + cPH c + 5); AXIS];
      tmpl "<text x=`{}` y=`{}` font-size=`11` fill=`{}` text-anchor=`middle`>{}k</text>"
        [f1 xx; str_Z (cT c + cPH c + 20); MUTED; str_Z (v / 1000)]].

Definition lane_rule (c : canvas) (xmax : Z) (m : mark) : result (list string) :=
  kx ← lane_xm c xmax (mrate m);
  tx ← plus kx 6;
  Ok [tmpl "<line x1=`{}` y1=`{}` x2=`{}` y2=`{}` stroke=`{}` stroke-width=`1` stroke-dasharray=`4 4`/>"
        [f1 kx; str_Z (cT c); f1 kx; str_Z (cT c + cPH c); MUTED];
      tmpl "<text x=`{}` y=`{}` font-size=`11` font-weight=`600` fill=`{}`>{}</text>"
        [f1 tx; str_Z (cT c + mdy m); INK2; mlabel m]].

(** [sorted(k for k in data if k <= xmax)]. *)
Definition shown (data : table) (xmax : Z) : list Z := foldr insZ [] (List.filter (λ k, k <=? xmax) data.*1).

(** [data[k]]. *)
Definition at_key (data : table) (k : Z) : result (Z * Z) := require (KeyError (str_Z k)) (dget data k).

Definition lane_xy (c : canvas) (xmax : Z) (ym : Z → result float) (data : table) (k : Z) : result (float * float) :=
  x ← lane_xm c xmax k; d ← at_key data k; y ← ym d.1; Ok (x, y).

Definition lane_step (c : canvas) (xmax : Z) (ym : Z → result float) (data : table) (ik : nat * Z) : result string :=
  pos ← lane_xy c xmax ym data ik.2;
  Ok ((match ik.1 with O => "M" | _ => "L" end) +:+ f1 pos.1 +:+ "," +:+ f1 pos.2).

(** [ach < 0.99 * k]. *)
Definition behind (ach k : Z) : result bool :=
  t ← nmul (lit (99 # 100)) (PInt k); Ok (nlt (PInt ach) t).

Definition lane_marker (c : canvas) (xmax : Z) (ym : Z → result float) (data : table) (colour : string) (k : Z)
  : result string :=
  d ← at_key data k;
  s ← behind d.2 k;
  pos ← lane_xy c xmax ym data k;
  Ok (circle colour pos.1 pos.2 s).

(** One series: nothing when no point lies on the axis. *)
Definition lane (c : canvas) (xmax : Z) (ym : Z → result float) (sc : (string * table) * string) : result (list string) :=
  let data := sc.1.2 in
  match shown data xmax with
  | [] => Ok []
  | pts =>
      d ← mapR (lane_step c xmax ym data) (enumerate pts);
      ms ← mapR (lane_marker c xmax ym data sc.2) pts;
      Ok (tmpl "<path d=`{}` fill=`none` stroke=`{}` stroke-width=`2` stroke-linejoin=`round`/>"
            [join " " d; sc.2] :: ms)
  end.

(** The legend: entries flow to the right and wrap at [W - 10]. *)
Definition flow_w (lab : string) : result pynum :=
  w ← nmul (PInt (py_len lab)) (lit (63 # 10)); nadd (PInt 28) w.

Fixpoint legend_flow (L W : Z) (items : list item) (lx : pynum) (ly : Z) : result (list placed) :=
  match items with
  | [] => Ok []
  | it :: items =>
      w ← flow_w it.1;
      e ← nadd lx w;
      let b := ngt e (PInt (W - 10)) in
      let lx := if b then PInt L else lx in
      let ly := if b then ly + 17 else ly in
      lx' ← nadd lx w;
      ps ← legend_flow L W items lx' ly;
      Ok (Placed lx ly it :: ps)
  end.

(** [zip(series, COLS)]. *)
Definition lanes (series : list (string * table)) : list ((string * table) * string) := zip series COLS.

Definition lane_items (series : list (string * table)) : list item := (λ sc, (sc.1.1, sc.2)) <$> lanes series.

(** The caption of the rate axis. *)
Definition caption_line (x : string) (y : Z) (text : string) : string :=
  tmpl "<text x=`{}` y=`{}` font-size=`11` fill=`{}` text-anchor=`middle`>{}</text>" [x; str_Z y; INK2; text].

(** The body both scripts share, between the head and the end of the page:
    the offset of the caption, its text and the height of the legend differ. *)
Definition plot_body (c : canvas) (series : list (string * table)) (xmax xstep : Z) (yrange : pynum * pynum)
    (yticks : list Z) (fmt : Z → string) (band_at : option Z) (band_label : option string) (markers : list mark)
    (caption_dy : Z) (caption : string) (legend_dy : Z) : result (list string) :=
  ylo ← math_log10 yrange.1;
  yhi ← math_log10 yrange.2;
  let ym := ym_floor c ylo yhi in
  bd ← band c ym fmt band_at band_label;
  gs ← mapR (grid_line c ym fmt) yticks;
  ts ← while_ticks (tick_fuel xmax xstep) (rate_tick c xmax) xmax xstep 0;
  xmid ← mid0 (cL c) (cPW c);
  rs ← mapR (lane_rule c xmax) markers;
  ls ← mapR (lane c xmax ym) (lanes series);
  ps ← legend_flow (cL c) (cW c) (lane_items series) (PInt (cL c)) (cH c - legend_dy);
  lg ← mapR legend_entry ps;
  Ok (bd ++ concat gs
      ++ [tmpl "<line x1=`{}` y1=`{}` x2=`{}` y2=`{}` stroke=`{}`/>"
            [str_Z (cL c); str_Z (cT c + cPH c); str_Z (cL c + cPW c); str_Z (cT c + cPH c); AXIS]]
      ++ ts
      ++ [caption_line xmid (cT c + cPH c + caption_dy) caption]
      ++ concat rs
      ++ [tmpl "<defs><clipPath id=`p`><rect x=`{}` y=`{}` width=`{}` height=`{}`/></clipPath></defs>"
            [str_Z (cL c - 6); str_Z (cT c - 6); str_Z (cPW c + 12); str_Z (cPH c + 12)];
          tmpl "<g clip-path=`url(#p)`>" []]
      ++ concat ls ++ ["</g>"] ++ concat lg).

(** [chart] of this script. *)
Definition chart (title : string) (sub : list string) (series : list (string * table)) (xmax xstep : Z)
    (yrange : pynum * pynum) (yticks : list Z) (fmt : Z → string) (band_at : option Z)
    (band_label : option string) (markers : list mark) : result (list string) :=
  let c := multi_canvas sub in
  body ← plot_body c series xmax xstep yrange yticks fmt band_at band_label markers
           42 "offered rate across the whole fleet (requests/sec)" 46;
  Ok (page_head c title sub ++ body ++ ["</svg>"]).

(** ** The program *)

Definition us : Z → string := fmt_ms.

Definition SUB : list string :=
  ["One fleet, one leader (pinned to the node the clients share an AZ and placement group";
   "with), identical rig settings and the same 100 sender threads in total throughout.";
   "Percentiles come from merging every client's raw histogram, not from averaging theirs.";
   "Hollow marker = the cluster fell behind the offered rate."].

Definition markers : list mark := [Mark 137000 "1-gateway knee" 16; Mark 360000 "5-gateway knee" 32].

(** The four series of a chart, in the order they are loaded. *)
Definition load_series (SEQ column : string) : M (list (string * table)) :=
  b ← load (SEQ +:+ "/seq-multi-baseline.csv") "sequencer-multi1" column;
  m ← load (SEQ +:+ "/seq-multi.csv") "sequencer-multi" column;
  f ← load (SEQ +:+ "/seq-multi-4core.csv") "sequencer-multi-4c" column;
  g ← load (SEQ +:+ "/seq-multi-bignode.csv") "sequencer-multi-16c" column;
  mret [("1 gateway - 8-vCPU clients, 8-vCPU nodes", b);
        ("5 gateways - 8-vCPU clients, 8-vCPU nodes", m);
        ("5 gateways - 4-vCPU clients, 8-vCPU nodes", f);
        ("5 gateways - 8-vCPU clients, 16-vCPU nodes", g)].

Definition write_svg (path : string) (o : result (list string)) : M unit :=
  l ← lift o; write_file path (join (String newline EmptyString) l).

(** [HERE] is the directory of the script. *)
Definition SEQ (HERE : string) : string := path_join (dirname HERE) "sequencer".
Definition OUT (HERE : string) (args : list string) : string :=
  match args with [] => SEQ HERE | a :: _ => a end.

Definition p50_chart (series : list (string * table)) : result (list string) :=
  chart "Gateway count moves the knee; node size moves the tail" SUB series 470000 50000
    (lit 500, lit 60000) [600; 800; 1000; 2000; 5000; 20000] us (Some 1000) (Some "1 ms") markers.

Definition p99_chart (series : list (string * table)) : result (list string) :=
  chart "The same split, at p99" SUB series 470000 50000
    (lit 600, lit 200000) [1000; 2000; 5000; 20000; 100000] us None None markers.

Definition script (HERE : string) (args : list string) : M unit :=
  let out := OUT HERE args in
  s50 ← load_series (SEQ HERE) "p50";
  write_svg (out +:+ "/multi-gateway-p50.svg") (p50_chart s50);;
  s99 ← load_series (SEQ HERE) "p99";
  write_svg (out +:+ "/multi-gateway-p99.svg") (p99_chart s99);;
  print ("wrote multi-gateway-p50.svg, multi-gateway-p99.svg to " +:+ out).
End Drawing.

(** ** What [load] returns *)

(** A file that pairs rates with readings: each rate once, and the floor of
    the mean of its readings. *)
Definition averages (kvs : list (Z * (Z * Z))) (t : table) : Prop :=
  NoDup t.*1 ∧
  ∀ k, dget t k = match values k kvs with
                  | [] => None
                  | l => Some (zsum l.*1 / Z.of_nat (length l), zsum l.*2 / Z.of_nat (length l))
                  end.

Lemma dget_fmap {K V W} `{EqDecision K} (f : V → W) (d : list (K * V)) k :
  dget ((λ kv, (kv.1, f kv.2)) <$> d) k = f <$> dget d k.
Proof. induction d as [|[k' v] d IH]; [done|]. rewrite fmap_cons. cbn. by case_decide. Qed.

Lemma means_averages kvs : averages kvs (means (dgroup kvs)).
Proof.
  unfold means. split.
  - rewrite <- list_fmap_compose. apply dgroup_NoDup.
  - intros k. rewrite (dget_fmap (λ l, (floor_mean l.*1, floor_mean l.*2))), dget_dgroup.
    destruct (values k kvs); [done|]. cbn [fmap option_fmap option_map]. unfold floor_mean.
    by rewrite !length_fmap.
Qed.

(** A floor mean lies between the least and the greatest reading. *)
Lemma floor_mean_range lo hi l :
  l ≠ [] → Forall (λ x, lo <= x <= hi) l → lo <= zsum l / Z.of_nat (length l) <= hi.
Proof.
  intros Hne H. apply zsum_bounds in H. assert (0 < Z.of_nat (length l)) by (destruct l; [done|cbn; lia]).
  split; [apply Z.div_le_lower_bound; lia|apply Z.div_le_upper_bound; lia].
Qed.

(** What a row of the CSV says about a product and a percentile: another
    product's row and a run without a latency say nothing. *)
Inductive measures (product column : string) (row : drow) : option (Z * (Z * Z)) → Prop :=
| other p : dget (cols row) "product" = Some p → p ≠ Some product → measures product column row None
| failed v : dget (cols row) "product" = Some (Some product) → dget (cols row) column = Some v →
    v = None ∨ v = Some EmptyString → measures product column row None
| measured c r s v b a :
    dget (cols row) "product" = Some (Some product) → dget (cols row) column = Some (Some s) →
    int_of_str s = Some v → dget (cols row) "rate" = Some (Some c) → int_of_str c = Some r →
    dget (cols row) "achieved" = Some (Some b) → int_of_str b = Some a →
    measures product column row (Some (r, (v, a))).

Definition file_reading (acc : list (Z * list (Z * Z))) (m : option (Z * (Z * Z))) : list (Z * list (Z * Z)) :=
  match m with Some kv => dappend acc kv.1 kv.2 | None => acc end.

Lemma load_row_ok product column acc row m :
  measures product column row m → load_row product column acc row = Ok (file_reading acc m).
Proof.
  unfold load_row, row_get. intros H. destruct H as [p Hp Hne|v Hp Hv Hf|c r s v b a Hp Hs Ev Hc Er Hb Ea].
  - rewrite Hp. cbn [require mbind result_bind]. by rewrite bool_decide_eq_true_2.
  - rewrite Hp. cbn [require mbind result_bind]. rewrite bool_decide_eq_false_2 by (intros C; by apply C).
    rewrite Hv. cbn [require mbind result_bind]. by destruct Hf as [-> | ->].
  - rewrite Hp. cbn [require mbind result_bind]. rewrite bool_decide_eq_false_2 by (intros C; by apply C).
    rewrite Hs. cbn [require mbind result_bind falsy]. destruct s as [|x s]; [by vm_compute in Ev|].
    cbn [is_empty]. rewrite Hc. cbn [require mbind result_bind int_cell]. rewrite Er.
    cbn [require mbind result_bind]. rewrite Ev. cbn [require mbind result_bind]. rewrite Hb.
    cbn [require mbind result_bind int_cell]. by rewrite Ea.
Qed.

Lemma foldl_readings acc ms :
  foldl file_reading acc ms = foldl (λ d kv, dappend d kv.1 kv.2) acc (omap id ms).
Proof. revert acc. induction ms as [|[kv|] ms IH]; intros acc; cbn; [done|apply IH|apply IH]. Qed.

Lemma fold_readings {A} (step : list (Z * list (Z * Z)) → A → result (list (Z * list (Z * Z))))
    (R : A → option (Z * (Z * Z)) → Prop) rows ms :
  (∀ acc row m, R row m → step acc row = Ok (file_reading acc m)) →
  Forall2 R rows ms → foldR step [] rows = Ok (dgroup (omap id ms)).
Proof.
  intros Hstep H. unfold dgroup. rewrite <- foldl_readings. generalize (@nil (Z * list (Z * Z))).
  induction H as [|row m rows ms Hr H IH]; intros acc; [done|]. cbn [foldR foldl].
  rewrite (Hstep _ _ _ Hr). apply IH.
Qed.

(** A file [load] can read: none at all, or a sheet every row of which says
    something or nothing about the product. *)
Inductive readable (product column : string) : option string → list (Z * (Z * Z)) → Prop :=
| no_file : readable product column None []
| a_sheet s ms : sheet_ok s → Forall2 (measures product column) (sheet_rows s) ms →
    readable product column (Some (sheet_text s)) (omap id ms).

Lemma load_ok path product column kvs w :
  readable product column (files w !! path) kvs →
  load path product column w = (Ok (means (dgroup kvs)), w).
Proof.
  intros H. unfold load.
  rewrite (M_bind_Ok (exists_file path) _ w (bool_decide (is_Some (files w !! path))) w eq_refl).
  destruct (files w !! path) as [text|] eqn:Ef; inversion H as [|s ms (Hh & Hd & Hr) Hm]; subst.
  - rewrite bool_decide_eq_true_2 by by eexists.
    rewrite (M_bind_Ok _ _ w (sheet_text s) w) by (unfold read_file; by rewrite Ef).
    rewrite (M_bind_Ok _ _ w (sheet_rows s) w) by (unfold lift, sheet_text; by rewrite dict_reader_plain).
    rewrite (M_bind_Ok _ _ w (dgroup (omap id ms)) w); [done|].
    unfold lift. f_equal. apply (fold_readings _ (measures product column)); [|done].
    intros. by apply load_row_ok.
  - by rewrite bool_decide_eq_false_2 by (by intros [? ?]).
Qed.

Lemma averages_In kvs t k v a :
  averages kvs t → (k, (v, a)) ∈ t →
  ∃ l, l ≠ [] ∧ (∀ x, x ∈ l → (k, x) ∈ kvs) ∧
       v = zsum l.*1 / Z.of_nat (length l.*1) ∧ a = zsum l.*2 / Z.of_nat (length l.*2).
Proof.
  intros [Hn Ha] Hin. apply (In_dget _ _ _ Hn) in Hin. rewrite Ha in Hin.
  destruct (values k kvs) as [|x l] eqn:E; [done|]. injection Hin as <- <-. exists (x :: l).
  rewrite !length_fmap. split; [done|]. split; [|done]. intros y Hy. apply values_In. by rewrite E.
Qed.

(** Bounds on the readings are bounds on the table. *)
Lemma averages_bound (P : Z → Prop) lo hi lo' hi' kvs t :
  averages kvs t →
  Forall (λ kv : Z * (Z * Z), P kv.1 ∧ lo <= kv.2.1 <= hi ∧ lo' <= kv.2.2 <= hi') kvs →
  Forall (λ kv : Z * (Z * Z), P kv.1 ∧ lo <= kv.2.1 <= hi ∧ lo' <= kv.2.2 <= hi') t.
Proof.
  intros Ha H. rewrite Forall_forall in H |- *. intros [k [v a]] Hin.
  destruct (averages_In kvs t k v a Ha Hin) as (l & Hne & Hl & -> & ->). cbn [fst snd].
  split; [destruct l as [|x l]; [done|]; by apply (H (k, x)), Hl; left|].
  split; (apply floor_mean_range; [by destruct l|]); apply Forall_fmap, Forall_forall;
    intros x Hx; by apply Hl, H in Hx as (_ & ? & ?).
Qed.

(** C8 Loading a series: on a sheet as the sweeps write it the table has an
    entry for exactly the rates the product has a latency for, each once: the
    floor of the mean of the repeats, so between the least and the greatest of
    them.  Rows of other products and runs without a latency leave no trace,
    a missing file gives the empty table, and nothing is written. *)
Theorem load_refines path product column kvs w :
  readable product column (files w !! path) kvs →
  ∃ t, load path product column w = (Ok t, w) ∧ averages kvs t ∧
    ∀ lo hi, Forall (λ kv : Z * (Z * Z), lo <= kv.2.1 <= hi) kvs → Forall (λ e : Z * (Z * Z), lo <= e.2.1 <= hi) t.
Proof.
  intros H. pose proof (means_averages kvs) as Ha. exists (means (dgroup kvs)).
  split; [by apply load_ok|]. split; [done|]. generalize dependent (means (dgroup kvs)). intros t Ha lo hi Hb. rewrite Forall_forall in Hb |- *. intros [k [v a]] Hin.
  destruct (averages_In kvs t k v a Ha Hin) as (l & Hne & Hl & -> & _). cbn [fst snd].
  apply floor_mean_range; [by destruct l|]. apply Forall_fmap, Forall_forall.
  intros x Hx. by apply Hl, Hb in Hx.
Qed.

(** Two runs at 300k, one without a latency, and a row of another product. *)
Definition multi_sheet : sheet :=
  Sheet ["product"; "rate"; "achieved"; "p50"; "p99"]
    [["sequencer-multi"; "300000"; "299800"; "811"; "1900"];
     ["sequencer-multi"; "300000"; "299901"; "818"; "2011"];
     ["sequencer-multi"; "470000"; "0"; ""; ""];
     ["sequencer-multi1"; "100000"; "99990"; "760"; "1400"]].

Ltac tell_row :=
  first [ eapply measured; reflexivity
        | eapply failed; [reflexivity|reflexivity|by right]
        | eapply other; [reflexivity|discriminate] ].

Lemma multi_readable : readable "sequencer-multi" "p50" (Some (sheet_text multi_sheet))
  [(300000, (811, 299800)); (300000, (818, 299901))].
Proof.
  apply (a_sheet _ _ multi_sheet [Some (300000, (811, 299800)); Some (300000, (818, 299901)); None; None]).
  - repeat constructor; apply (bool_decide_unpack _); vm_compute; exact I.
  - repeat constructor; tell_row.
Qed.

Definition multi_world : world := World {[ "seq-multi.csv" := sheet_text multi_sheet ]} [] [].

Lemma load_refines_witness :
  ∃ t, load "seq-multi.csv" "sequencer-multi" "p50" multi_world = (Ok t, multi_world) ∧
    averages [(300000, (811, 299800)); (300000, (818, 299901))] t ∧
    ∀ lo hi, Forall (λ kv : Z * (Z * Z), lo <= kv.2.1 <= hi) [(300000, (811, 299800)); (300000, (818, 299901))] →
      Forall (λ e : Z * (Z * Z), lo <= e.2.1 <= hi) t.
Proof.
  apply (load_refines "seq-multi.csv" "sequencer-multi" "p50" [(300000, (811, 299800)); (300000, (818, 299901))] multi_world).
  exact multi_readable.
Defined.

Example multi_loaded : load "seq-multi.csv" "sequencer-multi" "p50" multi_world
  = (Ok [(300000, (814, 299850))], multi_world).
Proof. vm_compute. reflexivity. Qed.

(** ** What a series looks like *)

(** A table within the range of the machine that measured it. *)
Definition table_ok (t : table) : Prop :=
  NoDup t.*1 ∧
  Forall (λ kv : Z * (Z * Z), 0 <= kv.1 <= 2 ^ 31 ∧ - 2 ^ 31 <= kv.2.1 <= 2 ^ 31 ∧ 0 <= kv.2.2 <= 2 ^ 31) t.

Lemma shown_elem t xmax k : k ∈ shown t xmax ↔ k ∈ t.*1 ∧ k <= xmax.
Proof.
  unfold shown. rewrite isort_spec, merge_sort_Permutation, list_elem_of_In, filter_In, <- list_elem_of_In.
  by rewrite Z.leb_le.
Qed.

Lemma sorted_strict l : StronglySorted Z.le l → NoDup l → StronglySorted Z.lt l.
Proof.
  induction 1 as [|z l Hl IH Hz]; intros N; [constructor|]. apply NoDup_cons in N as [N1 N2].
  constructor; [auto|]. rewrite Forall_forall in Hz |- *. intros y Hy. specialize (Hz y Hy).
  destruct (decide (y = z)); [by subst|lia].
Qed.

Lemma NoDup_List_filter {A} (f : A → bool) (l : list A) : NoDup l → NoDup (List.filter f l).
Proof. rewrite !NoDup_ListNoDup. apply List.NoDup_filter. Qed.

Lemma shown_sorted t xmax : NoDup t.*1 → StronglySorted Z.lt (shown t xmax).
Proof.
  intros Hn. unfold shown. rewrite isort_spec. apply sorted_strict; [apply (StronglySorted_merge_sort Z.le)|].
  rewrite merge_sort_Permutation. by apply NoDup_List_filter.
Qed.

Section Lanes.
Context `{LL : LibmLaws} (c : canvas) (lo hi : Q) (xmax : Z).
Hypothesis Hx : margins (cL c) (cPW c).
Hypothesis Hy : margins (cT c) (cPH c).
Hypothesis Hax : axis lo hi.
Hypothesis Hxm : 0 < xmax <= 2 ^ 33.

Abbreviation ym := (ym_floor c (log10 lo) (log10 hi)).

Lemma ym_floor_ok v : v <= 2 ^ 64 → ∃ y, ym v = Ok y.
Proof. intros Hv. destruct (ymap_val (cT c) (cPH c) lo hi (Z.max v 1) Hy Hax) as (y & E & _); [lia|]. by exists y. Qed.

(** A point that is on the axis: its position, then its achieved and its
    offered rate. *)
Definition lane_at (t : table) (k : Z) (q : (float * float) * (Z * Z)) : Prop :=
  ∃ v, dget t k = Some (v, q.2.1) ∧ q.2.2 = k ∧ lane_xm c xmax k = Ok q.1.1 ∧ ym v = Ok q.1.2 ∧
    (inject_Z (cL c) <= fval q.1.1 <= inject_Z (cL c + cPW c))%Q.

Lemma lane_point t k : table_ok t → k ∈ shown t xmax →
  ∃ v a x y, at_key t k = Ok (v, a) ∧ dget t k = Some (v, a) ∧ 0 <= a <= 2 ^ 31 ∧ 0 <= k <= 2 ^ 31 ∧
    lane_xm c xmax k = Ok x ∧ ym v = Ok y ∧ lane_xy c xmax ym t k = Ok (x, y) ∧
    (inject_Z (cL c) <= fval x <= inject_Z (cL c + cPW c))%Q.
Proof.
  intros [Hn Ht] [Hk Hle]%shown_elem. destruct (dget t k) as [[v a]|] eqn:E; [|by apply dget_None in E].
  pose proof (dget_In _ _ _ E) as Hin. rewrite Forall_forall in Ht. apply Ht in Hin as (B1 & B2 & B3).
  cbn [fst snd] in *.
  destruct (xmap_range (cL c) (cPW c) xmax k Hx Hxm) as (x & Ex & Rx); [lia|].
  destruct (ym_floor_ok v) as (y & Ey); [lia|]. exists v, a, x, y.
  assert (at_key t k = Ok (v, a)) as Ek by (unfold at_key; by rewrite E).
  split; [exact Ek|]. split; [done|]. split; [done|]. split; [done|]. split; [exact Ex|]. split; [exact Ey|].
  split; [|exact Rx]. unfold lane_xy. unfold lane_xm. rewrite Ex. cbn [mbind result_bind]. rewrite Ek.
  cbn [mbind result_bind fst]. rewrite Ey. reflexivity.
Qed.

Lemma lane_drawn_at t colour k : table_ok t → k ∈ shown t xmax →
  ∃ q, lane_at t k q ∧ lane_xy c xmax ym t k = Ok q.1 ∧
    lane_marker c xmax ym t colour k = Ok (circle colour q.1.1 q.1.2 (100 * q.2.1 <? 99 * q.2.2)).
Proof.
  intros Ht Hk. destruct (lane_point t k Ht Hk) as (v & a & x & y & Ek & Ed & Ba & Bk & Ex & Ey & Exy & Rx).
  exists ((x, y), (a, k)). split; [by exists v|]. split; [exact Exy|].
  unfold lane_marker. rewrite Ek. cbn [mbind result_bind snd]. unfold behind.
  rewrite (below_99 a k) by lia. cbn [mbind result_bind]. rewrite Exy. reflexivity.
Qed.

Lemma lane_points t colour : table_ok t →
  ∃ qs, Forall2 (lane_at t) (shown t xmax) qs ∧
    mapR (lane_xy c xmax ym t) (shown t xmax) = Ok qs.*1 ∧
    mapR (lane_marker c xmax ym t colour) (shown t xmax)
      = Ok ((λ q : (float * float) * (Z * Z), circle colour q.1.1 q.1.2 (100 * q.2.1 <? 99 * q.2.2)) <$> qs).
Proof.
  intros Ht. assert (∀ k, k ∈ shown t xmax → k ∈ shown t xmax) as Hin by done. revert Hin.
  generalize (shown t xmax) at 1 3 4 5. intros ks Hin.
  induction ks as [|k ks IH]; [exists []; split; [constructor|by split]|].
  destruct IH as (qs & Q1 & Q2 & Q3); [set_solver|].
  destruct (lane_drawn_at t colour k Ht ltac:(apply Hin; by left)) as (q & P1 & P2 & P3).
  exists (q :: qs). split; [by constructor|]. rewrite !fmap_cons. cbn [mapR].
  rewrite P2, Q2, P3, Q3. by split.
Qed.

Lemma lane_ok lab t colour : table_ok t →
  ∃ qs, Forall2 (lane_at t) (shown t xmax) qs ∧
    lane c xmax ym ((lab, t), colour) = Ok match qs with
      | [] => []
      | _ => tmpl "<path d=`{}` fill=`none` stroke=`{}` stroke-width=`2` stroke-linejoin=`round`/>"
               [path_data qs.*1; colour]
             :: ((λ q : (float * float) * (Z * Z), circle colour q.1.1 q.1.2 (100 * q.2.1 <? 99 * q.2.2)) <$> qs)
      end.
Proof.
  intros Ht. destruct (lane_points t colour Ht) as (qs & Q1 & Q2 & Q3). exists qs. split; [exact Q1|].
  destruct (path_through _ _ _ Q2) as (d & Ed & Ej).
  change (mapR (lane_step c xmax ym t) (enumerate (shown t xmax)) = Ok d) in Ed.
  unfold lane. cbn [fst snd]. destruct (shown t xmax) as [|k ks].
  - apply Forall2_nil_inv_l in Q1 as ->. reflexivity.
  - destruct qs as [|q qs]; [by apply Forall2_nil_inv_r in Q1|].
    rewrite Ed. cbn [mbind result_bind]. rewrite Q3, Ej. reflexivity.
Qed.
End Lanes.

(** C35 A series as drawn: its points are the rates of the table up to the
    end of the axis, each once and from left to right; the path starts at the
    first and goes straight to each of the others in that order; every point
    gets a marker at its position, inside the plot's width, hollow exactly
    when the run achieved less than 99% of the rate, and a latency of zero is
    drawn at 1 instead of failing.  A series with no point on the axis draws
    nothing. *)
Theorem lane_drawn `{LibmLaws} c lo hi xmax lab t colour :
  margins (cL c) (cPW c) → margins (cT c) (cPH c) → axis lo hi → 0 < xmax <= 2 ^ 33 → table_ok t →
  StronglySorted Z.lt (shown t xmax) ∧ (∀ k, k ∈ shown t xmax ↔ k ∈ t.*1 ∧ k <= xmax) ∧
  ∃ qs, Forall2 (lane_at c lo hi xmax t) (shown t xmax) qs ∧
    lane c xmax (ym_floor c (log10 lo) (log10 hi)) ((lab, t), colour) = Ok match qs with
      | [] => []
      | _ => tmpl "<path d=`{}` fill=`none` stroke=`{}` stroke-width=`2` stroke-linejoin=`round`/>"
               [path_data qs.*1; colour]
             :: ((λ q : (float * float) * (Z * Z), circle colour q.1.1 q.1.2 (100 * q.2.1 <? 99 * q.2.2)) <$> qs)
      end.
Proof.
  intros Hx Hy Hax Hxm Ht. split; [apply shown_sorted, Ht|]. split; [apply shown_elem|]. by apply lane_ok.
Qed.

Lemma lane_drawn_witness :
  let t := [(300000, (814, 296999)); (100000, (0, 99990)); (500000, (9000, 400000))] in
  let c := multi_canvas SUB in
  StronglySorted Z.lt (shown t 470000) ∧ (∀ k, k ∈ shown t 470000 ↔ k ∈ t.*1 ∧ k <= 470000) ∧
  ∃ qs, Forall2 (@lane_at demo_log10 c 500%Q 60000%Q 470000 t) (shown t 470000) qs ∧
    lane c 470000 (@ym_floor demo_log10 c (demo_log10 500%Q) (demo_log10 60000%Q)) (("5 gateways", t), "#2a78d6")
    = Ok match qs with
      | [] => []
      | _ => tmpl "<path d=`{}` fill=`none` stroke=`{}` stroke-width=`2` stroke-linejoin=`round`/>"
               [path_data qs.*1; "#2a78d6"]
             :: ((λ q : (float * float) * (Z * Z), circle "#2a78d6" q.1.1 q.1.2 (100 * q.2.1 <? 99 * q.2.2)) <$> qs)
      end.
Proof.
  intros t c. apply (@lane_drawn demo_log10 demo_laws c 500%Q 60000%Q 470000 "5 gateways" t "#2a78d6").
  - apply (bool_decide_unpack _). vm_compute. exact I.
  - apply (bool_decide_unpack _). vm_compute. exact I.
  - by apply (int_axis 500 60000).
  - lia.
  - apply (bool_decide_unpack _). vm_compute. exact I.
Defined.

(** ** The legend *)

Lemma flow_w_ok lab : py_len lab <= 2 ^ 53 → ∃ x, flow_w lab = Ok (PFlt x).
Proof.
  intros Hl. pose proof (py_len_nonneg lab). unfold flow_w, nmul, nadd, arith, lit, to_float.
  destruct (f_small (py_len lab)) as (f & -> & _); [lia|]. by eexists.
Qed.

(** Where the entries go: in order, never above the one before, and each
    ends inside the canvas unless it starts at the left margin. *)
Lemma legend_flow_ok L W items : Z.abs L <= 2 ^ 53 → Forall (λ it : item, py_len it.1 <= 2 ^ 53) items →
  ∀ lx ly, reached L lx →
  ∃ ps, legend_flow L W items lx ly = Ok ps ∧ entry <$> ps = items ∧
    Forall (λ p, reached L (at_x p) ∧ ly <= at_y p) ps.
Proof.
  intros HL. induction 1 as [|[lab c] items Hlab H IH]; intros lx ly HR; [by exists []|].
  cbn [legend_flow fst]. destruct (flow_w_ok lab Hlab) as (w & ->). cbn [mbind result_bind].
  destruct (reached_add L lx w HL HR) as (e & ->). cbn [mbind result_bind].
  set (b := ngt _ _). set (lx' := if b then PInt L else lx). set (ly' := if b then ly + 17 else ly).
  assert (reached L lx') as HR' by (subst lx'; destruct b; [by left|done]).
  destruct (reached_add L lx' w HL HR') as (e' & ->). cbn [mbind result_bind].
  destruct (IH (PFlt e') ly') as (ps & E & Hps & Hr); [right; by eexists|]. rewrite E. cbn [mbind result_bind].
  assert (ly <= ly') by (subst ly'; destruct b; lia).
  eexists. split; [reflexivity|]. split; [by rewrite fmap_cons, Hps|].
  constructor; [done|]. eapply Forall_impl; [exact Hr|]. intros p [? ?]. split; [done|lia].
Qed.

(** *** Two rows are enough for four labels of at most 62 characters *)

Definition short_label (it : item) : Prop := py_len it.1 <= 62.

(** An entry ends inside a canvas of width [W], with a margin of 10. *)
Definition ends_inside (W : Z) (p : placed) : Prop :=
  ∃ w e, flow_w (entry p).1 = Ok w ∧ nadd (at_x p) w = Ok e ∧ ngt e (PInt (W - 10)) = false.

Definition two_rows (y : Z) (p : placed) : Prop := at_y p = y ∨ at_y p = y + 17.

(** [flow_w] of a label of [n] characters. *)
Definition width (n : Z) : result pynum := w ← nmul (PInt n) (lit (63 # 10)); nadd (PInt 28) w.

(** Two labels side by side from the left margin, 84, in a canvas of 940. *)
Definition pair_fitsb (a b : Z) : bool :=
  match width a, width b with
  | Ok wa, Ok wb =>
      match nadd (PInt 84) wa with
      | Ok e => negb (ngt e (PInt 930)) &&
                match nadd e wb with Ok e2 => negb (ngt e2 (PInt 930)) | Err _ => false end
      | Err _ => false
      end
  | _, _ => false
  end.

Lemma pairs_checked : forallb (λ a, forallb (pair_fitsb (Z.of_nat a)) (Z.of_nat <$> seq 0 63)) (seq 0 63) = true.
Proof. vm_compute. reflexivity. Qed.

Lemma pair_fits it it2 : short_label it → short_label it2 →
  ∃ w w2 e e2, flow_w it.1 = Ok w ∧ flow_w it2.1 = Ok w2 ∧ nadd (PInt 84) w = Ok e ∧
    ngt e (PInt 930) = false ∧ nadd e w2 = Ok e2 ∧ ngt e2 (PInt 930) = false.
Proof.
  unfold short_label. intros H1 H2. pose proof (py_len_nonneg it.1). pose proof (py_len_nonneg it2.1).
  pose proof pairs_checked as K. rewrite List.forallb_forall in K.
  specialize (K (Z.to_nat (py_len it.1)) ltac:(apply in_seq; lia)). rewrite List.forallb_forall in K.
  specialize (K (py_len it2.1)). rewrite Z2Nat.id in K by lia.
  assert (pair_fitsb (py_len it.1) (py_len it2.1) = true) as F.
  { apply K. apply list_elem_of_In, list_elem_of_fmap. exists (Z.to_nat (py_len it2.1)).
    split; [lia|]. apply list_elem_of_In, in_seq. lia. }
  clear K. unfold pair_fitsb in F. change (width (py_len it.1)) with (flow_w it.1) in F.
  change (width (py_len it2.1)) with (flow_w it2.1) in F.
  destruct (flow_w it.1) as [w|]; [|done]. destruct (flow_w it2.1) as [w2|]; [|done].
  destruct (nadd (PInt 84) w) as [e|] eqn:E; [|done]. apply andb_true_iff in F as [F1 F2].
  destruct (nadd e w2) as [e2|] eqn:E2; [|done]. exists w, w2, e, e2.
  by split_and!; try done; apply negb_true_iff.
Qed.

(** What the flow does with a list of entries from a given place. *)
Definition flows (items : list item) (lx : pynum) (ly : Z) : Prop :=
  ∃ ps, legend_flow 84 940 items lx ly = Ok ps ∧ entry <$> ps = items ∧
    Forall (two_rows ly) ps ∧ Forall (ends_inside 940) ps.

Lemma flows_stay it items lx ly w e :
  flow_w it.1 = Ok w → nadd lx w = Ok e → ngt e (PInt 930) = false → flows items e ly → flows (it :: items) lx ly.
Proof.
  intros Ew Ee Hg (ps & E & Hi & Hr & Hf). exists (Placed lx ly it :: ps). cbn [legend_flow]. rewrite Ew.
  cbn [mbind result_bind]. rewrite Ee. cbn [mbind result_bind]. change (940 - 10) with 930. rewrite Hg.
  cbn iota. rewrite Ee. cbn [mbind result_bind]. rewrite E, fmap_cons, Hi. split_and!; try done.
  - constructor; [by left|done].
  - constructor; [by exists w, e|done].
Qed.

Lemma flows_one it lx ly : short_label it → reached 84 lx → flows [it] lx ly.
Proof.
  intros Hs Hr. destruct (pair_fits it it Hs Hs) as (w & _ & e & _ & Ew & _ & Ee & Hg & _).
  destruct (flow_w_ok it.1) as (x & Ex); [unfold short_label in Hs; lia|]. rewrite Ew in Ex. injection Ex as ->.
  destruct (reached_add 84 lx x ltac:(lia) Hr) as (f & Ef). destruct (ngt (PFlt f) (PInt 930)) eqn:G; cycle 1.
  { apply (flows_stay _ _ _ _ _ _ Ew Ef G). exists []. by split_and!. }
  exists [Placed (PInt 84) (ly + 17) it]. cbn [legend_flow]. rewrite Ew. cbn [mbind result_bind]. rewrite Ef.
  cbn [mbind result_bind]. change (940 - 10) with 930. rewrite G. cbn iota. rewrite Ee.
  split_and!; [done|done|constructor; [by right|constructor]|constructor; [|constructor]]. by exists (PFlt x), e.
Qed.

Lemma flows_two it it2 lx ly : short_label it → short_label it2 → reached 84 lx → flows [it; it2] lx ly.
Proof.
  intros Hs Hs2 Hr. destruct (pair_fits it it2 Hs Hs2) as (w & w2 & e & e2 & Ew & Ew2 & Ee & Hg & Ee2 & Hg2).
  destruct (flow_w_ok it.1) as (x & Ex); [unfold short_label in Hs; lia|]. rewrite Ew in Ex. injection Ex as ->.
  destruct (reached_add 84 lx x ltac:(lia) Hr) as (f & Ef). destruct (ngt (PFlt f) (PInt 930)) eqn:G; cycle 1.
  { apply (flows_stay _ _ _ _ _ _ Ew Ef G), flows_one; [done|]. right. by eexists. }
  exists [Placed (PInt 84) (ly + 17) it; Placed e (ly + 17) it2].
  cbn [legend_flow]. rewrite Ew. cbn [mbind result_bind]. rewrite Ef.
  cbn [mbind result_bind]. change (940 - 10) with 930. rewrite G. cbn iota. rewrite Ee. cbn [mbind result_bind].
  rewrite Ew2. cbn [mbind result_bind]. rewrite Ee2. cbn [mbind result_bind]. rewrite Hg2. cbn iota. rewrite Ee2.
  split_and!; [done|done|repeat (constructor; [by right|]); constructor|].
  constructor; [by exists (PFlt x), e|]. constructor; [by exists w2, e2|constructor].
Qed.

Lemma flows_start items ly : (length items <= 4)%nat → Forall short_label items → flows items (PInt 84) ly.
Proof.
  destruct items as [|a [|b items]]; intros Hn Hs; [exists []; by split_and!|..].
  { apply Forall_cons in Hs as [Ha _]. apply flows_one; [done|by left]. }
  apply Forall_cons in Hs as [Ha Hs]. apply Forall_cons in Hs as [Hb Hs].
  destruct (pair_fits a b Ha Hb) as (w & w2 & e & e2 & Ew & Ew2 & Ee & Hg & Ee2 & Hg2).
  apply (flows_stay _ _ _ _ _ _ Ew Ee Hg), (flows_stay _ _ _ _ _ _ Ew2 Ee2 Hg2).
  assert (reached 84 e2) as Hr.
  { destruct (flow_w_ok a.1) as (x & Ex); [unfold short_label in Ha; lia|]. rewrite Ew in Ex. injection Ex as ->.
    destruct (flow_w_ok b.1) as (y & Ey); [unfold short_label in Hb; lia|]. rewrite Ew2 in Ey. injection Ey as ->.
    destruct (reached_add 84 (PInt 84) x ltac:(lia) ltac:(by left)) as (f & Ef). rewrite Ee in Ef. injection Ef as ->.
    destruct (reached_add 84 (PFlt f) y ltac:(lia) ltac:(right; by eexists)) as (g & Eg). rewrite Ee2 in Eg.
    injection Eg as ->. right. by eexists. }
  destruct items as [|c [|d [|? items]]]; [exists []; by split_and!|..|cbn in Hn; lia].
  - apply Forall_cons in Hs as [Hc _]. by apply flows_one.
  - apply Forall_cons in Hs as [Hc Hs]. apply Forall_cons in Hs as [Hd _]. by apply flows_two.
Qed.

(** *** The legend of a chart *)

(** The legend depends on the labels alone. *)
Lemma lane_items_labels series : lane_items series = zip series.*1 COLS.
Proof.
  unfold lane_items, lanes. generalize COLS. induction series as [|s series IH]; intros [|c cs]; try done.
  rewrite fmap_cons. cbn [zip zip_with]. rewrite fmap_cons. f_equal. apply IH.
Qed.

(** Series a legend has room for. *)
Definition short_series (series : list (string * table)) : Prop :=
  (length series <= 4)%nat ∧ Forall (λ s : string * table, py_len s.1 <= 62) series.

(** The page [o] ends with a legend that shows the label of every series: in
    at most two rows, under the caption of the axis, which is under the plot,
    and every entry inside the canvas. *)
Definition legend_shown (c : canvas) (caption : string) (series : list (string * table)) (o : list string) : Prop :=
  ∃ pre mid x ycap ps lg ytop,
    o = pre ++ [caption_line x ycap caption] ++ mid ++ concat lg ++ ["</svg>"] ∧
    mapR legend_entry ps = Ok lg ∧ (λ p, (entry p).1) <$> ps = series.*1 ∧
    cT c + cPH c < ycap ∧ ycap + 11 <= ytop ∧
    Forall (two_rows ytop) ps ∧ Forall (ends_inside (cW c)) ps ∧ Forall (λ p, at_y p + 5 <= cH c) ps.

Lemma plot_body_parts `{Libm} c series xmax xstep yrange yticks fmt band_at band_label markers dy caption ldy o :
  plot_body c series xmax xstep yrange yticks fmt band_at band_label markers dy caption ldy = Ok o →
  ∃ pre mid x ps lg, o = pre ++ [caption_line x (cT c + cPH c + dy) caption] ++ mid ++ concat lg ∧
    legend_flow (cL c) (cW c) (lane_items series) (PInt (cL c)) (cH c - ldy) = Ok ps ∧ mapR legend_entry ps = Ok lg.
Proof.
  unfold plot_body. intros E. apply bind_Ok in E as (ylo & _ & E). apply bind_Ok in E as (yhi & _ & E).
  cbn zeta in E. apply bind_Ok in E as (bd & _ & E). apply bind_Ok in E as (gs & _ & E).
  apply bind_Ok in E as (ts & _ & E). apply bind_Ok in E as (x & _ & E). apply bind_Ok in E as (rs & _ & E).
  apply bind_Ok in E as (ls & _ & E). apply bind_Ok in E as (ps & Ep & E). apply bind_Ok in E as (lg & El & E).
  apply Ok_inj in E. eexists (bd ++ concat gs ++ [_] ++ ts), (concat rs ++ [_; _] ++ concat ls ++ ["</g>"]), x, ps, lg.
  split; [|by split]. rewrite <- E. by rewrite <- !app_assoc.
Qed.

(** A body drawn on a canvas of this size and with the legend this far up. *)
Lemma legend_fits_page `{Libm} c series xmax xstep yrange yticks fmt band_at band_label markers dy caption ldy o hd :
  cL c = 84 → cW c = 940 → 0 < dy → cT c + cPH c + dy + 11 <= cH c - ldy → 22 <= ldy → short_series series →
  plot_body c series xmax xstep yrange yticks fmt band_at band_label markers dy caption ldy = Ok o →
  legend_shown c caption series (hd ++ o ++ ["</svg>"]).
Proof.
  intros EL EW Hdy Hc Hl [Hn Hs] E. apply plot_body_parts in E as (pre & mid & x & ps & lg & -> & Ef & El).
  rewrite EL, EW, lane_items_labels in Ef.
  destruct (flows_start (zip series.*1 COLS) (cH c - ldy)) as (ps' & Ef' & Hi & Hr & Hin).
  { rewrite length_zip_with, length_fmap. lia. }
  { apply Forall_forall. intros it Hit. destruct it as [lab col].
    apply elem_of_zip_l, list_elem_of_fmap in Hit as (s & -> & Hin). unfold short_label. cbn [fst].
    rewrite Forall_forall in Hs. by apply Hs. }
  rewrite Ef in Ef'. injection Ef' as <-.
  exists (hd ++ pre), mid, x, (cT c + cPH c + dy), ps, lg, (cH c - ldy). split; [by rewrite <- !app_assoc|].
  split; [exact El|]. split.
  { rewrite <- (fst_zip series.*1 COLS), <- Hi, <- list_fmap_compose; [done|].
    rewrite length_fmap. unfold COLS. cbn. lia. }
  rewrite EW. split; [lia|]. split; [lia|]. split; [done|]. split; [done|].
  eapply Forall_impl; [exact Hr|]. intros p [-> | ->]; lia.
Qed.

(** ** A chart is always drawn *)

Section Total.
Context `{LL : LibmLaws}.

(** What a chart asks of its canvas, its axes and its decoration. *)
Record plot_ok (c : canvas) (lo hi : Q) (xmax xstep : Z) (yticks : list Z) (band_at : option Z) (markers : list mark)
  : Prop := {
  po_x : margins (cL c) (cPW c);
  po_y : margins (cT c) (cPH c);
  po_axis : axis lo hi;
  po_xmax : 0 < xmax <= 2 ^ 33;
  po_xstep : 0 < xstep;
  po_yticks : Forall (λ v, v <= 2 ^ 64) yticks;
  po_band : Forall (λ v, v <= 2 ^ 64) (option_list band_at);
  po_markers : Forall (λ m, 0 <= mrate m <= 2 ^ 33) markers;
}.

Definition series_ready (series : list (string * table)) : Prop :=
  Forall (λ s : string * table, py_len s.1 <= 2 ^ 53 ∧ table_ok s.2) series.

Lemma band_ok c ym fmt band_at lab :
  margins (cT c) (cPH c) → Forall (λ v, ∃ y, ym v = Ok y) (option_list band_at) → ∃ o, band c ym fmt band_at lab = Ok o.
Proof.
  intros [HT HP] Hb. unfold band. destruct band_at as [v|]; [|by eexists]. cbn [truthy].
  destruct (v =? 0); [by eexists|]. apply Forall_cons in Hb as [(y & ->) _]. cbn [mbind result_bind].
  unfold nsub, arith, to_float. destruct (f_small (cT c + cPH c)) as (f & -> & _); [lia|].
  cbn [require mbind result_bind]. destruct (plus_ok y 15) as (y' & ->); [lia|]. by eexists.
Qed.

Lemma lanes_elem s col series : (s, col) ∈ lanes series → s ∈ series.
Proof. unfold lanes. intros H1. by apply elem_of_zip_l in H1. Qed.

Lemma plot_body_ok c series xmax xstep yr lo hi yticks fmt band_at lab marks dy cap ldy :
  plot_ok c lo hi xmax xstep yticks band_at marks → series_ready series →
  math_log10 yr.1 = Ok (log10 lo) → math_log10 yr.2 = Ok (log10 hi) →
  ∃ o, plot_body c series xmax xstep yr yticks fmt band_at lab marks dy cap ldy = Ok o.
Proof.
  intros [Px Py Pa Pm Ps Pt Pb Pk] Hs El Eh. unfold plot_body. rewrite El, Eh. cbn [mbind result_bind].
  set (ym := ym_floor c (log10 lo) (log10 hi)).
  assert (∀ v, v <= 2 ^ 64 → ∃ y, ym v = Ok y) as Hym by (intros v Hv; by apply ym_floor_ok).
  destruct (band_ok c ym fmt band_at lab Py) as (bd & ->); [eapply Forall_impl; [exact Pb|exact Hym]|].
  cbn [mbind result_bind].
  destruct (mapR_total (grid_line c ym fmt) yticks) as (gs & ->).
  { eapply Forall_impl; [exact Pt|]. intros v Hv. unfold grid_line. destruct (Hym v Hv) as (y & ->).
    cbn [mbind result_bind]. destruct (plus_ok y 4) as (y' & ->); [lia|]. by eexists. }
  cbn [mbind result_bind]. rewrite while_ticks_multiples by lia.
  destruct (mapR_total (rate_tick c xmax) (multiples xmax xstep)) as (ts & ->).
  { apply Forall_forall. intros v Hv. unfold multiples in Hv. apply list_elem_of_fmap in Hv as (i & -> & Hi).
    apply elem_of_seqZ in Hi. unfold rate_tick, lane_xm.
    destruct (xmap_val (cL c) (cPW c) xmax (i * xstep)) as (x & -> & _); [exact Px|exact Pm| |by eexists].
    pose proof (Z.mul_div_le xmax xstep Ps). nia. }
  cbn [mbind result_bind]. destruct (mid0_ok (cL c) (cPW c)) as (xmid & ->); [destruct Px; lia..|].
  cbn [mbind result_bind].
  destruct (mapR_total (lane_rule c xmax) marks) as (rs & ->).
  { eapply Forall_impl; [exact Pk|]. intros m Hm. unfold lane_rule, lane_xm.
    destruct (xmap_places (cL c) (cPW c) xmax (mrate m) Px Pm Hm) as (x & ->). cbn [mbind result_bind].
    destruct (plus_ok x 6) as (x' & ->); [lia|]. by eexists. }
  cbn [mbind result_bind]. unfold series_ready in Hs. rewrite Forall_forall in Hs.
  destruct (mapR_total (lane c xmax ym) (lanes series)) as (ls & ->).
  { apply Forall_forall. intros [[l t] col] Hin. apply lanes_elem, Hs in Hin as [_ Ht].
    destruct (lane_ok c lo hi xmax Px Py Pa Pm l t col Ht) as (qs & _ & E). by eexists. }
  cbn [mbind result_bind].
  destruct (legend_flow_ok (cL c) (cW c) (lane_items series)) with (lx := PInt (cL c)) (ly := cH c - ldy)
    as (ps & -> & _ & Hps); [destruct Px; lia| |by left|].
  { apply Forall_fmap, Forall_forall. intros [s col] Hin. by apply lanes_elem, Hs in Hin as [? _]. }
  cbn [mbind result_bind]. destruct (mapR_total legend_entry ps) as (lg & ->); [|by eexists].
  eapply Forall_impl; [exact Hps|]. intros p [Hp _]. apply (legend_entry_total (cL c)); [destruct Px; lia|done].
Qed.
End Total.

(** ** A run *)

Lemma last_char a b : b ≠ EmptyString →
  last (String.list_ascii_of_string (a +:+ b)) = last (String.list_ascii_of_string b).
Proof.
  intros Hb. rewrite list_ascii_app, last_app. destruct (last (String.list_ascii_of_string b)) eqn:E; [done|].
  apply last_None in E. by destruct b.
Qed.

(** The text of a chart, as written. *)
Definition page (o : list string) : string := join (String newline EmptyString) o.

(** Writing a chart keeps every CSV. *)
Lemma csv_kept a b text w x y :
  last (String.list_ascii_of_string x) = Some "v"%char → last (String.list_ascii_of_string y) = Some "g"%char →
  <[ b +:+ y := text ]> (files w) !! (a +:+ x) = files w !! (a +:+ x).
Proof.
  intros Hx Hy. apply lookup_insert_ne. intros E.
  apply (f_equal (λ s, last (String.list_ascii_of_string s))) in E.
  rewrite !last_char, Hx, Hy in E by (by intros ->). discriminate.
Qed.

(** The four files, and the product each is read for. *)
Definition sources : list (string * string) :=
  [("/seq-multi-baseline.csv", "sequencer-multi1"); ("/seq-multi.csv", "sequencer-multi");
   ("/seq-multi-4core.csv", "sequencer-multi-4c"); ("/seq-multi-bignode.csv", "sequencer-multi-16c")].

(** A file that is absent, or whose readings are in the machine's range. *)
Definition source_ok (product column : string) (f : option string) : Prop :=
  ∃ kvs, readable product column f kvs ∧
    Forall (λ kv : Z * (Z * Z), 0 <= kv.1 <= 2 ^ 31 ∧ - 2 ^ 31 <= kv.2.1 <= 2 ^ 31 ∧ 0 <= kv.2.2 <= 2 ^ 31) kvs.

Definition multi_ready (SEQ column : string) (w : world) : Prop :=
  Forall (λ s : string * string, source_ok s.2 column (files w !! (SEQ +:+ s.1))) sources.

(** What is loaded depends on the file alone. *)
Lemma load_table path product column f :
  source_ok product column f →
  ∃ t, table_ok t ∧ ∀ w, files w !! path = f → load path product column w = (Ok t, w).
Proof.
  intros (kvs & Hr & Hb). pose proof (means_averages kvs) as Ha. exists (means (dgroup kvs)). split.
  - split; [apply Ha|]. by eapply (averages_bound (λ k, 0 <= k <= 2 ^ 31)).
  - intros w Hf. apply load_ok. by rewrite Hf.
Qed.

(** Two worlds with the same sources. *)
Definition same_sources (SEQ : string) (w w' : world) : Prop :=
  Forall (λ s : string * string, files w' !! (SEQ +:+ s.1) = files w !! (SEQ +:+ s.1)) sources.

Lemma load_series_ok SEQ column w : multi_ready SEQ column w →
  ∃ s, series_ready s ∧ ∀ w', same_sources SEQ w w' → load_series SEQ column w' = (Ok s, w').
Proof.
  unfold multi_ready, same_sources, sources. rewrite !Forall_cons. cbn [fst snd]. intros (H1 & H2 & H3 & H4 & _).
  destruct (load_table (SEQ +:+ "/seq-multi-baseline.csv") _ _ _ H1) as (t1 & T1 & E1).
  destruct (load_table (SEQ +:+ "/seq-multi.csv") _ _ _ H2) as (t2 & T2 & E2).
  destruct (load_table (SEQ +:+ "/seq-multi-4core.csv") _ _ _ H3) as (t3 & T3 & E3).
  destruct (load_table (SEQ +:+ "/seq-multi-bignode.csv") _ _ _ H4) as (t4 & T4 & E4).
  eexists. split.
  2:{ intros w'. rewrite !Forall_cons. cbn [fst]. intros (S1 & S2 & S3 & S4 & _).
      unfold load_series. rewrite (M_bind_Ok _ _ _ _ _ (E1 w' S1)), (M_bind_Ok _ _ _ _ _ (E2 w' S2)),
        (M_bind_Ok _ _ _ _ _ (E3 w' S3)), (M_bind_Ok _ _ _ _ _ (E4 w' S4)). reflexivity. }
  unfold series_ready. repeat (apply Forall_cons; split; [split; [vm_compute; discriminate|assumption]|]).
  constructor.
Qed.

Lemma same_sources_refl SEQ w : same_sources SEQ w w.
Proof. by apply Forall_forall. Qed.

Lemma same_sources_svg SEQ w outd name text :
  last (String.list_ascii_of_string name) = Some "g"%char →
  same_sources SEQ w (World (<[outd +:+ name := text]> (files w)) (out w) (err w)).
Proof.
  intros Hn. unfold same_sources, sources. rewrite !Forall_cons. cbn [fst files].
  rewrite !csv_kept by (exact Hn || reflexivity). split_and!; [reflexivity..|constructor].
Qed.

Section Run.
Context `{LL : LibmLaws}.

Lemma plot_p50 : plot_ok (multi_canvas SUB) 500 60000 470000 50000 [600; 800; 1000; 2000; 5000; 20000] (Some 1000) markers.
Proof.
  split; try (apply (bool_decide_unpack _); vm_compute; exact I). by apply (int_axis 500 60000).
Qed.

Lemma plot_p99 : plot_ok (multi_canvas SUB) 600 200000 470000 50000 [1000; 2000; 5000; 20000; 100000] None markers.
Proof.
  split; try (apply (bool_decide_unpack _); vm_compute; exact I). by apply (int_axis 600 200000).
Qed.

Lemma p50_chart_ok s : series_ready s → ∃ o, p50_chart s = Ok o.
Proof.
  intros Hs. unfold p50_chart, chart.
  destruct (plot_body_ok (multi_canvas SUB) s 470000 50000 (lit 500, lit 60000) 500 60000
    [600; 800; 1000; 2000; 5000; 20000] us (Some 1000) (Some "1 ms") markers 42
    "offered rate across the whole fleet (requests/sec)" 46 plot_p50 Hs) as (o & ->); [..|by eexists];
    vm_compute; reflexivity.
Qed.

Lemma p99_chart_ok s : series_ready s → ∃ o, p99_chart s = Ok o.
Proof.
  intros Hs. unfold p99_chart, chart.
  destruct (plot_body_ok (multi_canvas SUB) s 470000 50000 (lit 600, lit 200000) 600 200000
    [1000; 2000; 5000; 20000; 100000] us None None markers 42
    "offered rate across the whole fleet (requests/sec)" 46 plot_p99 Hs) as (o & ->); [..|by eexists];
    vm_compute; reflexivity.
Qed.
End Run.

Lemma write_svg_run path o w : write_svg path (Ok o) w = (Ok tt, World (<[path := page o]> (files w)) (out w) (err w)).
Proof. reflexivity. Qed.

(** C36 The run completes: when each of the four files is absent or a sheet
    whose readings are in range, both charts are drawn from the same files
    (writing the first does not disturb the second), exactly those two files
    change, and the run prints its one line. *)
Theorem multi_run_completes `{LibmLaws} HERE args w :
  let p50 := OUT HERE args +:+ "/multi-gateway-p50.svg" in
  let p99 := OUT HERE args +:+ "/multi-gateway-p99.svg" in
  multi_ready (SEQ HERE) "p50" w → multi_ready (SEQ HERE) "p99" w →
  ∃ s50 s99 o50 o99,
    load_series (SEQ HERE) "p50" w = (Ok s50, w) ∧ p50_chart s50 = Ok o50 ∧
    load_series (SEQ HERE) "p99" w = (Ok s99, w) ∧ p99_chart s99 = Ok o99 ∧
    script HERE args w =
      (Ok tt, World (<[p99 := page o99]> (<[p50 := page o50]> (files w)))
                    (out w ++ ["wrote multi-gateway-p50.svg, multi-gateway-p99.svg to " +:+ OUT HERE args]) (err w)).
Proof.
  intros p50 p99 R50 R99. destruct (load_series_ok _ _ _ R50) as (s50 & S50 & E50).
  destruct (p50_chart_ok s50 S50) as (o50 & C50).
  destruct (load_series_ok _ _ _ R99) as (s99 & S99 & E99). destruct (p99_chart_ok s99 S99) as (o99 & C99).
  exists s50, s99, o50, o99. split; [apply E50, same_sources_refl|]. split; [done|].
  split; [apply E99, same_sources_refl|]. split; [done|].
  unfold script. rewrite (M_bind_Ok _ _ _ _ _ (E50 w (same_sources_refl _ _))), C50,
    (M_bind_Ok _ _ _ _ _ (write_svg_run _ o50 w)).
  rewrite (M_bind_Ok _ _ _ _ _ (E99 _ (same_sources_svg _ w (OUT HERE args) "/multi-gateway-p50.svg" (page o50) eq_refl))).
  rewrite C99, (M_bind_Ok _ _ _ _ _ (write_svg_run _ o99 _)). reflexivity.
Qed.

(** A directory with one of the four files. *)
Definition seq_world : world := World {[ "rig/sequencer/seq-multi.csv" := sheet_text multi_sheet ]} [] [].

Lemma seq_world_ready column : column = "p50" ∨ column = "p99" → multi_ready "rig/sequencer" column seq_world.
Proof.
  intros Hc. unfold multi_ready, sources. rewrite !Forall_cons. cbn [fst snd].
  split_and!; [| | | |constructor].
  all: lazymatch goal with
       | |- source_ok "sequencer-multi" _ _ => idtac
       | _ => exists []; split; [apply no_file|constructor]
       end.
  destruct Hc as [-> | ->].
  - exists [(300000, (811, 299800)); (300000, (818, 299901))]. split; [exact multi_readable|].
    apply (bool_decide_unpack _). vm_compute. exact I.
  - exists [(300000, (1900, 299800)); (300000, (2011, 299901))]. split.
    + apply (a_sheet _ _ multi_sheet [Some (300000, (1900, 299800)); Some (300000, (2011, 299901)); None; None]).
      * repeat constructor; apply (bool_decide_unpack _); vm_compute; exact I.
      * repeat constructor; tell_row.
    + apply (bool_decide_unpack _). vm_compute. exact I.
Qed.

Lemma multi_run_completes_witness :
  ∃ s50 s99 o50 o99,
    load_series "rig/sequencer" "p50" seq_world = (Ok s50, seq_world) ∧ @p50_chart demo_log10 s50 = Ok o50 ∧
    load_series "rig/sequencer" "p99" seq_world = (Ok s99, seq_world) ∧ @p99_chart demo_log10 s99 = Ok o99 ∧
    @script demo_log10 "rig/sweep" [] seq_world =
      (Ok tt, World (<["rig/sequencer/multi-gateway-p99.svg" := page o99]>
                      (<["rig/sequencer/multi-gateway-p50.svg" := page o50]> (files seq_world)))
                    ["wrote multi-gateway-p50.svg, multi-gateway-p99.svg to rig/sequencer"] []).
Proof.
  apply (@multi_run_completes demo_log10 demo_laws "rig/sweep" [] seq_world); apply seq_world_ready; [by left|by right].
Defined.
