(* ===== verification/FleetCharts.v ===== *)
(** [sweep/mkcharts-fleets.py]: the same product on different hardware.

    The drawing code is that of [sweep/mkcharts-multi.py] with another canvas,
    one optional marker and another legend height; the loader reads records
    by position, and one chart pairs two latencies measured in the same runs. *)

From Stdlib Require Import Ascii.
From S2P Require Import Prelude PyFloat PyStr PyNum PyCsv ChartData Svg KneeCharts MultiCharts.
From Stdlib Require Import QArith Qround Qabs Lqa.

Open Scope Z_scope.

(** ** Loading *)

(** [row[i]]. *)
Definition cell (row : list string) (i : nat) : result Z :=
  s ← require IndexError (row !! i); require ValueError (int_of_str s).

(** One record: [len(row) < 10 or row[0] != product] is skipped. *)
Definition load_record (product : string) (acc : list (Z * list (Z * Z))) (row : list string)
  : result (list (Z * list (Z * Z))) :=
  if Z.of_nat (length row) <? 10 then Ok acc
  else
    name ← require IndexError (row !! 0%nat);
    if String.eqb name product then
      rate ← cell row 1; p50 ← cell row 3; ach ← cell row 2;
      Ok (dappend acc rate (p50, ach))
    else Ok acc.

Definition load (path product : string) : M table :=
  ex ← exists_file path;
  if ex : bool then
    text ← read_file path;
    rows ← lift (reader text);
    acc ← lift (foldR (load_record product) [] rows);
    mret (means acc)
  else mret [].

(** ** Drawing *)

Definition fleet_canvas (sub : list string) : canvas :=
  Canvas 940 496 84 44 (50 + Z.of_nat (length sub) * 16 + 14) 104.

Section Drawing.
Context `{Libm}.

Definition head (W H : Z) (title : string) (sub : list string) : list string :=
  [tmpl "<svg xmlns=`http://www.w3.org/2000/svg` width=`{}` height=`{}` viewBox=`0 0 {} {}` font-family='{}' role=`img` aria-label=`{}`>"
     [str_Z W; str_Z H; str_Z W; str_Z H; FONT; title];
   tmpl "<rect width=`{}` height=`{}` fill=`{}`/>" [str_Z W; str_Z H; SURF];
   tmpl "<text x=`84` y=`30` font-size=`16` font-weight=`600` fill=`{}`>{}</text>" [INK; title]]
  ++ imap (λ i l, tmpl "<text x=`84` y=`{}` font-size=`12` fill=`{}`>{}</text>"
                    [str_Z (50 + Z.of_nat i * 16); INK2; l]) sub.

(** [marker] is a rate and its label. *)
Definition chart (title : string) (sub : list string) (series : list (string * table)) (xmax xstep : Z)
    (yrange : pynum * pynum) (yticks : list Z) (fmt : Z → string) (band_at : option Z)
    (marker : option (Z * string)) (band_label : option string) : result (list string) :=
  let c := fleet_canvas sub in
  let marks := match marker with Some (mx, mlabel) => [Mark mx mlabel 16] | None => [] end in
  body ← plot_body c series xmax xstep yrange yticks fmt band_at band_label marks
           44 "offered rate (requests/sec)" 34;
  Ok (head (cW c) (cH c) title sub ++ body ++ ["</svg>"]).

(** ** The paired runs *)

(** One row of the paired file: both latencies, when both were measured. *)
Definition pair_row (paired : table) (row : drow) : result table :=
  a ← row_get row "ack_p50";
  if falsy a then Ok paired
  else
    d ← row_get row "diss_p50";
    if falsy d then Ok paired
    else
      av ← int_cell a; dv ← int_cell d;
      c ← row_get row "rate"; rate ← int_cell c;
      Ok (dset paired rate (av, dv)).

(** [ach.get(k, (0, k))[1]]: a rate the dissemination file does not have
    counts as achieved. *)
Definition achieved_at (ach : table) (k : Z) : Z := (default (0, k) (dget ach k)).2.

Definition ack_s (paired ach : table) : table :=
  (λ kv : Z * (Z * Z), (kv.1, (kv.2.1, achieved_at ach kv.1))) <$> paired.
Definition dis_s (paired ach : table) : table :=
  (λ kv : Z * (Z * Z), (kv.1, (kv.2.2, achieved_at ach kv.1))) <$> paired.

(** ** The program *)

Definition ROOT (HERE : string) : string := dirname HERE.
Definition FLEETS (HERE : string) : string := path_join (path_join (ROOT HERE) "sequencer") "fleets".
Definition OUT (HERE : string) (args : list string) : string :=
  match args with [] => path_join (ROOT HERE) "sequencer" | a :: _ => a end.

Definition fmt_plain_us (v : Z) : string := str_Z v +:+ " us".
Definition fmt_ms_us (v : Z) : string :=
  if 1000 <=? v then str_Z (v / 1000) +:+ " ms" else str_Z v +:+ " us".

(** *** The ack path across instance types *)

(** A label, the file of the series and the product to read from it. *)
Definition input : Type := string * string * string.

(** [(label, load(path, product))]. *)
Definition load_labelled (i : input) : M (string * table) := t ← load i.1.2 i.2; mret (i.1.1, t).

Definition instance_inputs (HERE : string) : list input :=
  let F := FLEETS HERE in
  [("c7a.2xlarge (AMD Genoa, 8 vCPU)", F +:+ "/ack-c7a-2xlarge.csv", "sequencer");
   ("c7a.4xlarge (AMD Genoa, 16 vCPU)", F +:+ "/ack-c7a-4xlarge.csv", "sequencer");
   ("c6in.4xlarge (Intel Ice Lake, network-optimised)", F +:+ "/ack-c6in-4xlarge.csv", "sequencer");
   ("c7i.4xlarge (Intel Sapphire Rapids)", F +:+ "/ack-c7i-4xlarge.csv", "sequencer")].

Definition instance_series (HERE : string) : M (list (string * table)) := mapMM load_labelled (instance_inputs HERE).

Definition instance_sub : list string :=
  ["p50 vs offered rate, 3-node multi-AZ, identical code and sweep throughout. Log scale.";
   "No instance type broke the ~1 ms floor. c7i reaches the highest rate, c6in the lowest,";
   "and 16 vCPU is no better than 8 - at the knee the raft leader measured 99.6% idle.";
   "Hollow marker = the cluster fell behind the offered rate."].

Definition instance_chart (series : list (string * table)) : result (list string) :=
  chart "sequencer ack path across four instance types" instance_sub series
    210000 50000 (lit 600, lit 300000) [1000; 2000; 5000; 20000; 100000] us (Some 1000) None None.

(** *** Ack against dissemination *)

Definition paired_series (HERE : string) : M (list (string * table)) :=
  let F := FLEETS HERE in
  text ← read_file (F +:+ "/paired-c7a-2xlarge-brpc.csv");
  rows ← lift (dict_reader text);
  paired ← lift (foldR pair_row [] rows);
  ach ← load (F +:+ "/paired-c7a-2xlarge-brpc-dissemination.csv") "sequencer-output-brpc";
  mret [("synchronous ack", ack_s paired ach); ("dissemination (brpc output gateway)", dis_s paired ach)].

Definition paired_sub : list string :=
  ["c7a.2xlarge (AMD Genoa, 8 vCPU), brpc output gateway. Leader-to-faster-follower RTT 535 us.";
   "Both p50s come from one load-generator run per rate, so this carries no observer-effect confound.";
   "Below ~85k the ack wins: dissemination pays a journal tail plus a hop, and the gateway is unloaded.";
   "Above it the ack pays the loaded gateway twice, inbound and outbound. Both collapse together at 140k."].

Definition paired_chart (series : list (string * table)) : result (list string) :=
  chart "Ack vs dissemination, measured in the same runs - they cross over near 85k" paired_sub series
    145000 25000 (lit 560, lit 4000) [600; 800; 1000; 1500; 2000; 3000] fmt_plain_us
    (Some 1000) (Some (87000, "crossover")) (Some "1 ms").

(** *** Aeron *)

Definition aeron_inputs (HERE : string) : list input :=
  let F := FLEETS HERE in
  [("c6i.2xlarge (Intel Ice Lake, 8 vCPU)", ROOT HERE +:+ "/sweep/knee-sweep-c6i.csv", "aeron");
   ("c7a.2xlarge (AMD Genoa, 8 vCPU)", ROOT HERE +:+ "/aeron/aeron.csv", "aeron");
   ("c6in.4xlarge (Intel Ice Lake, network-optimised)", F +:+ "/aeron-c6in-4xlarge.csv", "aeron");
   ("c7i.4xlarge (Intel Sapphire Rapids)", F +:+ "/aeron-c7i-4xlarge.csv", "aeron")].

Definition aeron_series (HERE : string) : M (list (string * table)) := mapMM load_labelled (aeron_inputs HERE).

Definition aeron_sub : list string :=
  ["p50 vs offered rate, same Aeron Cluster build and 3-node multi-AZ layout throughout. Log scale.";
   "AMD Genoa steps up at 290k and never recovers; both Intel fleets stay flat past 400k.";
   "Hollow marker = the cluster fell behind the offered rate."].

Definition aeron_chart (series : list (string * table)) : result (list string) :=
  chart "Aeron regressed on AMD and recovers on Intel" aeron_sub series
    720000 100000 (lit 420, lit 6000) [500; 700; 1000; 2000; 5000] fmt_ms_us None None None.

(** *** The script *)

Definition script (HERE : string) (args : list string) : M unit :=
  let out := OUT HERE args in
  a ← instance_series HERE;
  write_svg (path_join out "fleet-instance-types.svg") (instance_chart a);;
  p ← paired_series HERE;
  write_svg (path_join out "fleet-ack-vs-dissemination.svg") (paired_chart p);;
  v ← aeron_series HERE;
  write_svg (path_join out "fleet-aeron-vendor.svg") (aeron_chart v);;
  print ("wrote fleet-instance-types.svg, fleet-ack-vs-dissemination.svg, fleet-aeron-vendor.svg to " +:+ out).
End Drawing.

(** ** Loading records *)

(** What a record says about a product: one that is too short or another
    product's says nothing. *)
Inductive tells (product : string) (rec : list string) : option (Z * (Z * Z)) → Prop :=
| short : (length rec < 10)%nat → tells product rec None
| another name : (10 <= length rec)%nat → rec !! 0%nat = Some name → name ≠ product → tells product rec None
| told c r b a s v : (10 <= length rec)%nat → rec !! 0%nat = Some product →
    rec !! 1%nat = Some c → int_of_str c = Some r → rec !! 2%nat = Some b → int_of_str b = Some a →
    rec !! 3%nat = Some s → int_of_str s = Some v → tells product rec (Some (r, (v, a))).

Lemma load_record_ok product acc rec m :
  tells product rec m → load_record product acc rec = Ok (file_reading acc m).
Proof.
  unfold load_record, cell. intros H. destruct H as [Hl|name Hl Hn Hne|c r b a s v Hl Hn Hc Er Hb Ea Hs Ev].
  - destruct (Z.ltb_spec (Z.of_nat (length rec)) 10); [done|lia].
  - destruct (Z.ltb_spec (Z.of_nat (length rec)) 10); [lia|]. rewrite Hn. cbn [require mbind result_bind].
    destruct (String.eqb_spec name product); [contradiction|done].
  - destruct (Z.ltb_spec (Z.of_nat (length rec)) 10); [lia|]. rewrite Hn. cbn [require mbind result_bind].
    rewrite String.eqb_refl, Hc. cbn [require mbind result_bind]. rewrite Er. cbn [require mbind result_bind].
    rewrite Hs. cbn [require mbind result_bind]. rewrite Ev. cbn [require mbind result_bind].
    rewrite Hb. cbn [require mbind result_bind]. by rewrite Ea.
Qed.

(** A file the loader can read: none, or plain records that tell something
    or nothing. *)
Inductive recorded (product : string) : option string → list (Z * (Z * Z)) → Prop :=
| no_records : recorded product None []
| some_records recs ms : Forall plain_record recs → Forall2 (tells product) recs ms →
    recorded product (Some (unlines (join "," <$> recs))) (omap id ms).

Lemma fleet_load_ok path product kvs w :
  recorded product (files w !! path) kvs → load path product w = (Ok (means (dgroup kvs)), w).
Proof.
  intros H. unfold load.
  rewrite (M_bind_Ok (exists_file path) _ w (bool_decide (is_Some (files w !! path))) w eq_refl).
  destruct (files w !! path) as [text|] eqn:Ef; inversion H as [|recs ms Hp Hm]; subst.
  - rewrite bool_decide_eq_true_2 by by eexists.
    rewrite (M_bind_Ok _ _ w _ w) by (unfold read_file; by rewrite Ef).
    rewrite (M_bind_Ok _ _ w recs w) by (unfold lift; by rewrite reader_plain).
    rewrite (M_bind_Ok _ _ w (dgroup (omap id ms)) w); [done|].
    unfold lift. f_equal. apply (fold_readings _ (tells product)); [|done]. intros. by apply load_record_ok.
  - by rewrite bool_decide_eq_false_2 by (by intros [? ?]).
Qed.

(** A file that is absent, or whose readings are in the machine's range. *)
Definition records_ok (product : string) (f : option string) : Prop :=
  ∃ kvs, recorded product f kvs ∧
    Forall (λ kv : Z * (Z * Z), 0 <= kv.1 <= 2 ^ 31 ∧ - 2 ^ 31 <= kv.2.1 <= 2 ^ 31 ∧ 0 <= kv.2.2 <= 2 ^ 31) kvs.

Lemma fleet_load_table path product f :
  records_ok product f → ∃ t, table_ok t ∧ ∀ w, files w !! path = f → load path product w = (Ok t, w).
Proof.
  intros (kvs & Hr & Hb). pose proof (means_averages kvs) as Ha. exists (means (dgroup kvs)). split.
  - split; [apply Ha|]. by eapply (averages_bound (λ k, 0 <= k <= 2 ^ 31)).
  - intros w Hf. apply fleet_load_ok. by rewrite Hf.
Qed.

(** ** The paired runs *)

(** What a row of the paired file says: both latencies, or nothing. *)
Inductive pairs (row : drow) : option (Z * (Z * Z)) → Prop :=
| no_ack v : dget (cols row) "ack_p50" = Some v → v = None ∨ v = Some EmptyString → pairs row None
| no_diss s v : dget (cols row) "ack_p50" = Some (Some s) → s ≠ EmptyString →
    dget (cols row) "diss_p50" = Some v → v = None ∨ v = Some EmptyString → pairs row None
| both s a u d c r : dget (cols row) "ack_p50" = Some (Some s) → int_of_str s = Some a →
    dget (cols row) "diss_p50" = Some (Some u) → int_of_str u = Some d →
    dget (cols row) "rate" = Some (Some c) → int_of_str c = Some r → pairs row (Some (r, (a, d))).

Definition put (t : table) (m : option (Z * (Z * Z))) : table :=
  match m with Some kv => dset t kv.1 kv.2 | None => t end.

Lemma pair_row_ok t row m : pairs row m → pair_row t row = Ok (put t m).
Proof.
  unfold pair_row, row_get. intros H.
  destruct H as [v Hv Hf|s v Hs Hne Hv Hf|s a u d c r Hs Ea Hu Ed Hc Er].
  - rewrite Hv. cbn [require mbind result_bind]. by destruct Hf as [-> | ->].
  - rewrite Hs. cbn [require mbind result_bind falsy]. destruct s; [done|]. cbn [is_empty]. rewrite Hv.
    cbn [require mbind result_bind]. by destruct Hf as [-> | ->].
  - rewrite Hs. cbn [require mbind result_bind falsy]. destruct s; [by vm_compute in Ea|]. cbn [is_empty]. rewrite Hu.
    cbn [require mbind result_bind falsy]. destruct u; [by vm_compute in Ed|]. cbn [is_empty int_cell]. rewrite Ea.
    cbn [require mbind result_bind]. rewrite Ed. cbn [require mbind result_bind]. rewrite Hc.
    cbn [require mbind result_bind int_cell]. by rewrite Er.
Qed.

(** The table holds the last pair of every rate. *)
Definition last_of (kvs : list (Z * (Z * Z))) (k : Z) : option (Z * Z) := last (values k kvs).

Lemma values_snoc k kvs (kv : Z * (Z * Z)) :
  values k (kvs ++ [kv]) = if decide (kv.1 = k) then values k kvs ++ [kv.2] else values k kvs.
Proof.
  unfold values. rewrite filter_app, fmap_app, filter_cons, filter_nil.
  case_decide; [done|]. cbn. by rewrite app_nil_r.
Qed.

Lemma paired_ok rows ms : Forall2 pairs rows ms →
  ∃ t, foldR pair_row [] rows = Ok t ∧ NoDup t.*1 ∧ ∀ k, dget t k = last_of (omap id ms) k.
Proof.
  intros H. exists (foldl put [] ms). split; [|split].
  - generalize (@nil (Z * (Z * Z))). induction H as [|row m rows ms Hr H IH]; intros t; [done|].
    cbn [foldR foldl]. rewrite (pair_row_ok t row m Hr). apply IH.
  - clear H. induction ms as [|m ms IH] using rev_ind; [constructor|]. rewrite foldl_app. cbn [foldl].
    destruct m as [kv|]; [by apply dset_NoDup|done].
  - clear H. induction ms as [|m ms IH] using rev_ind; [done|]. intros k. rewrite foldl_app, omap_app. cbn [foldl].
    destruct m as [kv|]; [|cbn; rewrite app_nil_r; apply IH].
    change (omap id [Some kv]) with [kv]. unfold last_of. rewrite values_snoc.
    cbn [put]. rewrite dget_dset, IH. destruct (decide (kv.1 = k)) as [<-|Hne].
    + rewrite decide_True by done. by rewrite last_snoc.
    + by rewrite decide_False by congruence.
Qed.

Lemma dget_keyed {K V W} `{EqDecision K} (f : K → V → W) (d : list (K * V)) k :
  dget ((λ kv, (kv.1, f kv.1 kv.2)) <$> d) k = f k <$> dget d k.
Proof. induction d as [|[k' v] d IH]; [done|]. rewrite fmap_cons. cbn. case_decide; [by subst|done]. Qed.

Lemma achieved_default ach k : 0 <= k <= 2 ^ 45 → dget ach k = None → behind (achieved_at ach k) k = Ok false.
Proof.
  intros Hk E. unfold achieved_at. rewrite E. cbn [default snd]. unfold behind.
  rewrite below_99 by lia. f_equal. apply Z.ltb_ge. lia.
Qed.

(** C37 The two series of the paired chart come from the same runs: they have
    the same rates, those for which a row has both latencies, each once and
    with the pair of its last such row; both take their achieved rate from the
    dissemination records, so their markers agree, and a rate those records do
    not have is never drawn hollow. *)
Theorem paired_together rows ms ach :
  Forall2 pairs rows ms →
  ∃ t, foldR pair_row [] rows = Ok t ∧
    (ack_s t ach).*1 = (dis_s t ach).*1 ∧ NoDup (ack_s t ach).*1 ∧
    (∀ k, dget (ack_s t ach) k = (λ p : Z * Z, (p.1, achieved_at ach k)) <$> last_of (omap id ms) k) ∧
    (∀ k, dget (dis_s t ach) k = (λ p : Z * Z, (p.2, achieved_at ach k)) <$> last_of (omap id ms) k) ∧
    (∀ k v a, dget ach k = Some (v, a) → achieved_at ach k = a) ∧
    (∀ k, 0 <= k <= 2 ^ 45 → dget ach k = None → behind (achieved_at ach k) k = Ok false).
Proof.
  intros H. destruct (paired_ok rows ms H) as (t & E & Hn & Hd). exists t. split; [exact E|].
  unfold ack_s, dis_s. rewrite <- !list_fmap_compose. cbn [compose fst].
  split; [done|]. split; [exact Hn|].
  split_and!.
  - intros k. rewrite (dget_keyed (λ k p, (p.1, achieved_at ach k))), Hd. done.
  - intros k. rewrite (dget_keyed (λ k p, (p.2, achieved_at ach k))), Hd. done.
  - intros k v a Ek. unfold achieved_at. by rewrite Ek.
  - apply achieved_default.
Qed.

Definition paired_sheet : sheet :=
  Sheet ["rate"; "ack_p50"; "diss_p50"]
    [["25000"; "640"; "890"]; ["100000"; "1010"; "905"]; ["140000"; ""; ""]; ["25000"; "652"; "881"]].
Definition paired_says : list (option (Z * (Z * Z))) :=
  [Some (25000, (640, 890)); Some (100000, (1010, 905)); None; Some (25000, (652, 881))].

Lemma paired_sheet_says : Forall2 pairs (sheet_rows paired_sheet) paired_says.
Proof.
  repeat constructor; first [eapply both; reflexivity | eapply no_ack; [reflexivity|by right]].
Qed.

Lemma paired_together_witness :
  ∃ t, foldR pair_row [] (sheet_rows paired_sheet) = Ok t ∧
    (ack_s t [(100000, (905, 98000))]).*1 = (dis_s t [(100000, (905, 98000))]).*1 ∧
    NoDup (ack_s t [(100000, (905, 98000))]).*1 ∧
    (∀ k, dget (ack_s t [(100000, (905, 98000))]) k
      = (λ p : Z * Z, (p.1, achieved_at [(100000, (905, 98000))] k)) <$> last_of (omap id paired_says) k) ∧
    (∀ k, dget (dis_s t [(100000, (905, 98000))]) k
      = (λ p : Z * Z, (p.2, achieved_at [(100000, (905, 98000))] k)) <$> last_of (omap id paired_says) k) ∧
    (∀ k v a, dget [(100000, (905, 98000))] k = Some (v, a) → achieved_at [(100000, (905, 98000))] k = a) ∧
    (∀ k, 0 <= k <= 2 ^ 45 → dget [(100000, (905, 98000))] k = None →
      behind (achieved_at [(100000, (905, 98000))] k) k = Ok false).
Proof.
  apply (paired_together (sheet_rows paired_sheet) paired_says [(100000, (905, 98000))]).
  exact paired_sheet_says.
Defined.

(** ** The legends *)

(** The labels of what a loader returns, whatever the files hold. *)
Lemma load_labels ins w s w' : mapMM load_labelled ins w = (Ok s, w') → s.*1 = (λ i : input, i.1.1) <$> ins.
Proof.
  revert w s. induction ins as [|i ins IH]; intros w s E; cbn [mapMM] in E; [by injection E as <- <-|].
  unfold load_labelled, mbind, M_bind in E. destruct (load i.1.2 i.2 w) as [[t|] w1]; [|discriminate E].
  cbn [mret M_ret] in E. fold load_labelled in E.
  destruct (mapMM _ ins w1) as [[s'|] w2] eqn:E'; [|discriminate E]. injection E as <- <-.
  rewrite !fmap_cons. f_equal. by eapply IH.
Qed.

Lemma paired_labels HERE w s w' : paired_series HERE w = (Ok s, w') →
  s.*1 = ["synchronous ack"; "dissemination (brpc output gateway)"].
Proof.
  unfold paired_series, mbind, M_bind, lift. intros E.
  repeat match type of E with
         | match ?m with Ok _ => _ | Err _ => _ end = _ => destruct m; [|discriminate E]
         | match ?m with _ => _ end = _ => destruct m as [[?|?] ?]; [|discriminate E]
         end.
  by injection E as <- <-.
Qed.

Lemma multi_labels SEQ column w s w' : load_series SEQ column w = (Ok s, w') →
  s.*1 = ["1 gateway - 8-vCPU clients, 8-vCPU nodes"; "5 gateways - 8-vCPU clients, 8-vCPU nodes";
          "5 gateways - 4-vCPU clients, 8-vCPU nodes"; "5 gateways - 8-vCPU clients, 16-vCPU nodes"].
Proof.
  unfold load_series, mbind, M_bind. intros E.
  repeat match type of E with
         | match ?m with _ => _ end = _ => destruct m as [[?|?] ?]; [|discriminate E]
         end.
  by injection E as <- <-.
Qed.

Lemma short_labels (s : list (string * table)) labels :
  s.*1 = labels → bool_decide (length labels <= 4)%nat && forallb (λ l, py_len l <=? 62) labels = true → short_series s.
Proof.
  intros <- [Hn Hl]%andb_true_iff. apply bool_decide_eq_true in Hn. rewrite length_fmap in Hn. split; [done|].
  apply Forall_forall. intros x Hx. rewrite List.forallb_forall in Hl.
  specialize (Hl x.1 ltac:(apply list_elem_of_In, list_elem_of_fmap; by exists x)). lia.
Qed.

(** What the scripts load, whatever the files hold. *)
Lemma loaded_short HERE SEQ column w s w' :
  load_series SEQ column w = (Ok s, w') ∨ instance_series HERE w = (Ok s, w') ∨
  paired_series HERE w = (Ok s, w') ∨ aeron_series HERE w = (Ok s, w') → short_series s.
Proof.
  intros [E|[E|[E|E]]]; [apply multi_labels in E|apply load_labels in E|apply paired_labels in E|apply load_labels in E];
    (eapply short_labels; [exact E|vm_compute; reflexivity]).
Qed.

(** C38 The legends fit: a page drawn by either script's [chart] for up to
    four series with labels of at most 62 characters ends with a legend that
    shows every label, in at most two rows under the caption of the axis, and
    no entry runs past the right edge of the canvas less a margin of 10 or
    below its bottom; and whatever the files hold, the series the scripts
    load are such series. *)
Theorem legends_two_rows `{Libm} :
  (∀ title sub series xmax xstep yrange yticks fmt band_at band_label markers o,
     short_series series →
     MultiCharts.chart title sub series xmax xstep yrange yticks fmt band_at band_label markers = Ok o →
     legend_shown (multi_canvas sub) "offered rate across the whole fleet (requests/sec)" series o) ∧
  (∀ title sub series xmax xstep yrange yticks fmt band_at marker band_label o,
     short_series series →
     chart title sub series xmax xstep yrange yticks fmt band_at marker band_label = Ok o →
     legend_shown (fleet_canvas sub) "offered rate (requests/sec)" series o) ∧
  (∀ HERE SEQ column w s w',
     load_series SEQ column w = (Ok s, w') ∨ instance_series HERE w = (Ok s, w') ∨
     paired_series HERE w = (Ok s, w') ∨ aeron_series HERE w = (Ok s, w') → short_series s).
Proof.
  split_and!.
  - intros * Hs E. unfold MultiCharts.chart in E. cbn zeta in E. apply bind_Ok in E as (body & Eb & E).
    apply Ok_inj in E as <-. eapply legend_fits_page; [done|done|..|exact Hs|exact Eb]; try lia.
    unfold cPH, multi_canvas. cbn [cT cH cB]. lia.
  - intros * Hs E. unfold chart in E. cbn zeta in E. apply bind_Ok in E as (body & Eb & E).
    apply Ok_inj in E as <-. eapply legend_fits_page; [done|done|..|exact Hs|exact Eb]; try lia.
    unfold cPH, fleet_canvas. cbn [cT cH cB]. lia.
  - apply loaded_short.
Qed.

Definition demo_aeron : list (string * table) :=
  [("c6i.2xlarge (Intel Ice Lake, 8 vCPU)", [(100000, (480, 99990)); (300000, (700, 250000))]);
   ("c7a.2xlarge (AMD Genoa, 8 vCPU)", []); ("c6in.4xlarge (Intel Ice Lake, network-optimised)", []);
   ("c7i.4xlarge (Intel Sapphire Rapids)", [])].

Lemma legends_two_rows_witness :
  match @aeron_chart demo_log10 demo_aeron with
  | Ok o => legend_shown (fleet_canvas aeron_sub) "offered rate (requests/sec)" demo_aeron o
  | Err _ => False
  end.
Proof.
  destruct (@aeron_chart demo_log10 demo_aeron) as [o|e] eqn:E.
  - unfold aeron_chart in E. apply (proj1 (proj2 (@legends_two_rows demo_log10))) in E; [exact E|].
    eapply short_labels; [reflexivity|vm_compute; reflexivity].
  - apply (f_equal (λ r : result (list string), match r with Ok _ => true | Err _ => false end)) in E.
    vm_compute in E. discriminate E.
Defined.

(** ** A run *)

Lemma svg_path_last outd name : name ≠ EmptyString →
  last (String.list_ascii_of_string (path_join outd name)) = last (String.list_ascii_of_string name).
Proof.
  intros Hn. unfold path_join. destruct (startswith "/" name); [done|].
  destruct (is_empty outd || endswith "/" outd); rewrite !last_char; done.
Qed.

(** Worlds that agree on every file whose name does not end in g. *)
Definition same_inputs (w w' : world) : Prop :=
  ∀ path, last (String.list_ascii_of_string path) ≠ Some "g"%char → files w' !! path = files w !! path.

Lemma same_inputs_svg w w' outd name text :
  last (String.list_ascii_of_string name) = Some "g"%char → same_inputs w w' →
  same_inputs w (World (<[path_join outd name := text]> (files w')) (out w') (err w')).
Proof.
  intros Hn Hs path Hp. cbn [files]. rewrite lookup_insert_ne; [by apply Hs|]. intros <-.
  apply Hp. by rewrite svg_path_last by (by intros ->).
Qed.

Lemma same_inputs_csv w w' a x :
  last (String.list_ascii_of_string x) = Some "v"%char → same_inputs w w' → files w' !! (a +:+ x) = files w !! (a +:+ x).
Proof. intros Hx Hs. apply Hs. rewrite last_char by (by intros ->). by rewrite Hx. Qed.

(** A chart's inputs: CSV files, absent or in range. *)
Definition inputs_ok (ins : list input) (w : world) : Prop :=
  Forall (λ i : input, records_ok i.2 (files w !! i.1.2)) ins.

Definition well_named (i : input) : Prop :=
  py_len i.1.1 <= 2 ^ 53 ∧ ∃ a x, i.1.2 = a +:+ x ∧ last (String.list_ascii_of_string x) = Some "v"%char.

Lemma load_inputs ins w : Forall well_named ins → inputs_ok ins w →
  ∃ s, series_ready s ∧ ∀ w', same_inputs w w' → mapMM load_labelled ins w' = (Ok s, w').
Proof.
  induction ins as [|i ins IH]; intros Hn Hi; [exists []; split; [constructor|done]|].
  apply Forall_cons in Hn as [[Hl (a & x & Ea & Hx)] Hn]. apply Forall_cons in Hi as [Hi His].
  destruct (IH Hn His) as (s & Hs & Es). destruct (fleet_load_table i.1.2 _ _ Hi) as (t & Ht & Et).
  exists ((i.1.1, t) :: s). split; [by constructor|]. intros w' S. cbn [mapMM].
  rewrite (M_bind_Ok _ _ w' (i.1.1, t) w'); [by rewrite (M_bind_Ok _ _ _ _ _ (Es w' S))|].
  unfold load_labelled. rewrite (M_bind_Ok _ _ _ _ _ (Et w' ltac:(rewrite Ea; by apply same_inputs_csv))). reflexivity.
Qed.

Lemma inputs_named HERE : Forall well_named (instance_inputs HERE) ∧ Forall well_named (aeron_inputs HERE).
Proof.
  split; repeat (apply Forall_cons; split; [split; [vm_compute; discriminate|by do 2 eexists]|]); constructor.
Qed.

Definition dissemination_ok (HERE : string) (w : world) : Prop :=
  records_ok "sequencer-output-brpc" (files w !! (FLEETS HERE +:+ "/paired-c7a-2xlarge-brpc-dissemination.csv")).

(** The paired file: a sheet whose pairs are in range.  It has to exist. *)
Definition pairs_ok (HERE : string) (w : world) : Prop :=
  ∃ s ms, files w !! (FLEETS HERE +:+ "/paired-c7a-2xlarge-brpc.csv") = Some (sheet_text s) ∧ sheet_ok s ∧
    Forall2 pairs (sheet_rows s) ms ∧
    Forall (λ kv : Z * (Z * Z), 0 <= kv.1 <= 2 ^ 31 ∧ - 2 ^ 31 <= kv.2.1 <= 2 ^ 31 ∧ - 2 ^ 31 <= kv.2.2 <= 2 ^ 31)
      (omap id ms).

Lemma last_of_In kvs k p : last_of kvs k = Some p → (k, p) ∈ kvs.
Proof. intros E. apply values_In. by apply last_Some_elem_of. Qed.

Lemma achieved_range ach k : table_ok ach → 0 <= k <= 2 ^ 31 → 0 <= achieved_at ach k <= 2 ^ 31.
Proof.
  intros [_ Ha] Hk. unfold achieved_at. destruct (dget ach k) as [[v a]|] eqn:E; [|done].
  apply dget_In in E. rewrite Forall_forall in Ha. by apply Ha in E as (_ & _ & ?).
Qed.

(** A table made from the pairs with one of the two latencies. *)
Lemma pair_table (f : Z * Z → Z) kvs t ach :
  NoDup t.*1 → (∀ k, dget t k = last_of kvs k) → table_ok ach →
  Forall (λ kv : Z * (Z * Z), 0 <= kv.1 <= 2 ^ 31 ∧ - 2 ^ 31 <= f kv.2 <= 2 ^ 31) kvs →
  table_ok ((λ kv : Z * (Z * Z), (kv.1, (f kv.2, achieved_at ach kv.1))) <$> t).
Proof.
  intros Hn Hd Ha Hb. split; [by rewrite <- list_fmap_compose|]. apply Forall_fmap, Forall_forall.
  intros [k p] Hin. cbn [compose fst snd]. apply (In_dget _ _ _ Hn) in Hin. rewrite Hd in Hin.
  apply last_of_In in Hin. rewrite Forall_forall in Hb. apply Hb in Hin as [B1 B2]. cbn [fst snd] in *.
  split; [done|]. split; [done|]. by apply achieved_range.
Qed.

Lemma paired_series_ok HERE w : pairs_ok HERE w → dissemination_ok HERE w →
  ∃ s, series_ready s ∧ ∀ w', same_inputs w w' → paired_series HERE w' = (Ok s, w').
Proof.
  intros (sh & ms & Hf & (Hh & Hnd & Hr) & Hp & Hb) Hd.
  destruct (paired_ok _ _ Hp) as (t & Et & Hn & Hl).
  destruct (fleet_load_table (FLEETS HERE +:+ "/paired-c7a-2xlarge-brpc-dissemination.csv") _ _ Hd) as (ach & Ha & Each).
  eexists. split.
  2:{ intros w' S. unfold paired_series.
      rewrite (M_bind_Ok _ _ w' (sheet_text sh) w') by (unfold read_file; by rewrite (same_inputs_csv w w'), Hf).
      rewrite (M_bind_Ok _ _ w' (sheet_rows sh) w') by (unfold lift, sheet_text; by rewrite dict_reader_plain).
      rewrite (M_bind_Ok _ _ w' t w') by (unfold lift; by rewrite Et).
      rewrite (M_bind_Ok _ _ _ _ _ (Each w' ltac:(by apply same_inputs_csv))). reflexivity. }
  apply Forall_cons; split; [|apply Forall_cons; split; [|constructor]];
    (split; [vm_compute; discriminate|]); cbn [snd].
  - apply (pair_table fst (omap id ms)); [done..|]. eapply Forall_impl; [exact Hb|]. by intros ? (? & ? & ?).
  - apply (pair_table snd (omap id ms)); [done..|]. eapply Forall_impl; [exact Hb|]. by intros ? (? & ? & ?).
Qed.

Section Run.
Context `{LL : LibmLaws}.

Lemma instance_plot : plot_ok (fleet_canvas instance_sub) 600 300000 210000 50000 [1000; 2000; 5000; 20000; 100000] (Some 1000) [].
Proof. split; try (apply (bool_decide_unpack _); vm_compute; exact I). by apply (int_axis 600 300000). Qed.

Lemma instance_chart_ok s : series_ready s → ∃ o, instance_chart s = Ok o.
Proof.
  intros Hs. unfold instance_chart, chart.
  destruct (plot_body_ok (fleet_canvas instance_sub) s 210000 50000 (lit 600, lit 300000) 600 300000
    [1000; 2000; 5000; 20000; 100000] us (Some 1000) None [] 44 "offered rate (requests/sec)" 34 instance_plot Hs) as (o & ->); [..|by eexists]; vm_compute; reflexivity.
Qed.

Lemma paired_plot : plot_ok (fleet_canvas paired_sub) 560 4000 145000 25000 [600; 800; 1000; 1500; 2000; 3000] (Some 1000) [Mark 87000 "crossover" 16].
Proof. split; try (apply (bool_decide_unpack _); vm_compute; exact I). by apply (int_axis 560 4000). Qed.

Lemma paired_chart_ok s : series_ready s → ∃ o, paired_chart s = Ok o.
Proof.
  intros Hs. unfold paired_chart, chart.
  destruct (plot_body_ok (fleet_canvas paired_sub) s 145000 25000 (lit 560, lit 4000) 560 4000
    [600; 800; 1000; 1500; 2000; 3000] fmt_plain_us (Some 1000) (Some "1 ms") [Mark 87000 "crossover" 16] 44
    "offered rate (requests/sec)" 34 paired_plot Hs) as (o & ->); [..|by eexists]; vm_compute; reflexivity.
Qed.

Lemma aeron_plot : plot_ok (fleet_canvas aeron_sub) 420 6000 720000 100000 [500; 700; 1000; 2000; 5000] None [].
Proof. split; try (apply (bool_decide_unpack _); vm_compute; exact I). by apply (int_axis 420 6000). Qed.

Lemma aeron_chart_ok s : series_ready s → ∃ o, aeron_chart s = Ok o.
Proof.
  intros Hs. unfold aeron_chart, chart.
  destruct (plot_body_ok (fleet_canvas aeron_sub) s 720000 100000 (lit 420, lit 6000) 420 6000
    [500; 700; 1000; 2000; 5000] fmt_ms_us None None [] 44 "offered rate (requests/sec)" 34 aeron_plot Hs) as (o & ->); [..|by eexists]; vm_compute; reflexivity.
Qed.
End Run.

(** C9 The run completes: with the paired file present, every other input
    absent or in range, the three charts are drawn from the files as they were
    before the run, exactly those three files change, and the run prints its
    one line. *)
Theorem fleet_run_completes `{LibmLaws} HERE args w :
  let path := path_join (OUT HERE args) in
  inputs_ok (instance_inputs HERE) w → pairs_ok HERE w → dissemination_ok HERE w → inputs_ok (aeron_inputs HERE) w →
  ∃ a p v oa op ov,
    instance_series HERE w = (Ok a, w) ∧ instance_chart a = Ok oa ∧
    paired_series HERE w = (Ok p, w) ∧ paired_chart p = Ok op ∧
    aeron_series HERE w = (Ok v, w) ∧ aeron_chart v = Ok ov ∧
    script HERE args w =
      (Ok tt, World (<[path "fleet-aeron-vendor.svg" := page ov]>
                      (<[path "fleet-ack-vs-dissemination.svg" := page op]>
                        (<[path "fleet-instance-types.svg" := page oa]> (files w))))
                    (out w ++ ["wrote fleet-instance-types.svg, fleet-ack-vs-dissemination.svg, fleet-aeron-vendor.svg to "
                               +:+ OUT HERE args]) (err w)).
Proof.
  intros path Hi Hp Hd Hv. destruct (inputs_named HERE) as [Ni Nv].
  destruct (load_inputs _ w Ni Hi) as (a & Sa & Ea). destruct (instance_chart_ok a Sa) as (oa & Ca).
  destruct (paired_series_ok HERE w Hp Hd) as (p & Sp & Ep). destruct (paired_chart_ok p Sp) as (op & Cp).
  destruct (load_inputs _ w Nv Hv) as (v & Sv & Ev). destruct (aeron_chart_ok v Sv) as (ov & Cv).
  assert (same_inputs w w) as S0 by (intros ? _; reflexivity).
  pose proof (same_inputs_svg w w (OUT HERE args) "fleet-instance-types.svg" (page oa) eq_refl S0) as S1.
  pose proof (same_inputs_svg w _ (OUT HERE args) "fleet-ack-vs-dissemination.svg" (page op) eq_refl S1) as S2.
  exists a, p, v, oa, op, ov. split; [by apply Ea|]. split; [exact Ca|]. split; [by apply Ep|]. split; [exact Cp|].
  split; [by apply Ev|]. split; [exact Cv|].
  unfold script, instance_series, aeron_series. rewrite (M_bind_Ok _ _ _ _ _ (Ea w S0)), Ca.
  rewrite (M_bind_Ok _ _ _ _ _ (write_svg_run _ oa w)), (M_bind_Ok _ _ _ _ _ (Ep _ S1)), Cp.
  rewrite (M_bind_Ok _ _ _ _ _ (write_svg_run _ op _)), (M_bind_Ok _ _ _ _ _ (Ev _ S2)), Cv.
  rewrite (M_bind_Ok _ _ _ _ _ (write_svg_run _ ov _)). reflexivity.
Qed.

(** A fleet's file: the header and a short line tell nothing. *)
Definition ack_records : list (list string) :=
  [["product"; "rate"; "achieved"; "p50"; "p90"; "p95"; "p99"; "p999"; "max"; "errors"];
   ["sequencer"; "100000"; "99950"; "1012"; "1100"; "1200"; "1500"; "2000"; "9000"; "0"];
   ["sequencer"; "200000"; "150000"; "90000"; "91000"; "92000"; "95000"; "99000"; "120000"; "7"];
   ["note"; "restarted"]].
Definition ack_tells : list (option (Z * (Z * Z))) :=
  [None; Some (100000, (1012, 99950)); Some (200000, (90000, 150000)); None].

Definition fleet_world : world :=
  World (<["rig/sequencer/fleets/paired-c7a-2xlarge-brpc.csv" := sheet_text paired_sheet]>
          {[ "rig/sequencer/fleets/ack-c7a-2xlarge.csv" := unlines (join "," <$> ack_records) ]}) [] [].

Lemma ack_records_ok : records_ok "sequencer" (Some (unlines (join "," <$> ack_records))).
Proof.
  exists (omap id ack_tells). split; [|apply (bool_decide_unpack _); vm_compute; exact I].
  apply some_records; [repeat constructor; apply (bool_decide_unpack _); vm_compute; exact I|].
  do 4 (apply List.Forall2_cons; [shelve|]). constructor. Unshelve.
  - eapply another; [cbn; lia|reflexivity|discriminate].
  - eapply told; [cbn; lia|reflexivity..].
  - eapply told; [cbn; lia|reflexivity..].
  - apply short. cbn. lia.
Qed.

Lemma fleet_run_completes_witness :
  ∃ a p v oa op ov,
    instance_series "rig/sweep" fleet_world = (Ok a, fleet_world) ∧ @instance_chart demo_log10 a = Ok oa ∧
    paired_series "rig/sweep" fleet_world = (Ok p, fleet_world) ∧ @paired_chart demo_log10 p = Ok op ∧
    aeron_series "rig/sweep" fleet_world = (Ok v, fleet_world) ∧ @aeron_chart demo_log10 v = Ok ov ∧
    @script demo_log10 "rig/sweep" ["charts"] fleet_world =
      (Ok tt, World (<["charts/fleet-aeron-vendor.svg" := page ov]>
                      (<["charts/fleet-ack-vs-dissemination.svg" := page op]>
                        (<["charts/fleet-instance-types.svg" := page oa]> (files fleet_world))))
                    ["wrote fleet-instance-types.svg, fleet-ack-vs-dissemination.svg, fleet-aeron-vendor.svg to charts"] []).
Proof.
  apply (@fleet_run_completes demo_log10 demo_laws "rig/sweep" ["charts"] fleet_world).
  - apply Forall_cons; split; [exact ack_records_ok|].
    repeat (apply Forall_cons; split; [exists []; split; [apply no_records|constructor]|]). constructor.
  - exists paired_sheet, paired_says. split; [reflexivity|]. split; [|split; [exact paired_sheet_says|]].
    + repeat constructor; apply (bool_decide_unpack _); vm_compute; exact I.
    + apply (bool_decide_unpack _). vm_compute. exact I.
  - exists []. split; [apply no_records|constructor].
  - repeat (apply Forall_cons; split; [exists []; split; [apply no_records|constructor]|]). constructor.
Defined.
