(* ===== verification/PySum.v ===== *)
(** The built-in [sum] on floats, and bounds on float expressions.

    Up to CPython 3.11 [sum] adds from left to right; from 3.12 on it keeps a
    compensation term (Neumaier's variant of Kahan's summation).  [Summation]
    is the class of such functions, [SummationLaws] what the palette check
    relies on, and both versions are instances: in particular the compensated
    sum of numbers that are not negative is not negative. *)

From S2P Require Import Prelude PyFloat PyNum Svg.
From Stdlib Require Import QArith Qround Qabs Lqa.

Open Scope Z_scope.

(** [sum] of a sequence of floats. *)
Class Summation := fsum : list float → float.

(** Left to right, starting from the int 0. *)
Definition naive_sum : Summation := λ l, foldl fadd (fzero false) l.

(** One step of the compensated sum: the running sum and the compensation. *)
Definition neumaier_step (fc : float * float) (x : float) : float * float :=
  let '(f, c) := fc in
  let t := fadd f x in
  (t, fadd c (if fle (fabs x) (fabs f) then fadd (fsub f t) x else fadd (fsub x t) f)).

(** The first item is added to the int 0 before the compensation starts. *)
Definition compensated_sum : Summation := λ l,
  match l with
  | [] => fzero false
  | x :: l =>
      let '(f, c) := foldl neumaier_step (fadd (fzero false) x, fzero false) l in
      if is_fin c && negb (is_zero c) then fadd f c else f
  end.

(** ** Bounds on floats *)

(** Every float is a multiple of the least positive one. *)
Definition grid (q : Q) : Prop := ∃ n, (q == inject_Z n * pow2 (-1074))%Q.

#[export] Instance grid_proper : Proper (Qeq ==> iff) grid.
Proof. intros x y E. unfold grid. by setoid_rewrite E. Qed.

Lemma grid_Z z : grid (inject_Z z).
Proof.
  exists (z * 2 ^ 1074). rewrite inject_Z_mult, <- (pow2_Z 1074), <- Qmult_assoc, <- pow2_add by lia.
  change (pow2 (1074 + -1074)) with 1%Q. ring.
Qed.
Lemma grid_add p q : grid p → grid q → grid (p + q).
Proof. intros [m Hm] [n Hn]. exists (m + n). rewrite Hm, Hn, inject_Z_plus. ring. Qed.
Lemma grid_opp q : grid q → grid (- q).
Proof. intros [n Hn]. exists (- n). rewrite Hn, inject_Z_opp. ring. Qed.

Lemma grid_rndpos q : grid (rndpos q).
Proof.
  unfold rndpos. assert (-1074 <= cexp q) by (unfold cexp; lia).
  exists (mant q * 2 ^ (cexp q + 1074)). rewrite inject_Z_mult, <- (pow2_Z (cexp q + 1074)) by lia.
  rewrite <- Qmult_assoc, <- pow2_add. by replace (cexp q + 1074 + -1074) with (cexp q) by lia.
Qed.
Lemma grid_rnd q : grid (rndQ q).
Proof.
  unfold rndQ. destruct (Qcompare q 0); [apply (grid_Z 0)|apply grid_opp, grid_rndpos|apply grid_rndpos].
Qed.

(** On the grid the rounding error is relative also for the smallest values. *)
Lemma grid_rel q : grid q → (Qabs (rndQ q - q) <= Qabs q * pow2 (-52))%Q.
Proof.
  intros [n Hn]. destruct (Z_le_gt_dec (Z.abs n) (2 ^ 53)) as [Hs|Hb].
  - rewrite (rnd_exact q n (-1074) Hn Hs ltac:(lia)).
    assert (q - q == 0)%Q as -> by ring. apply Qmult_le_0_compat; [apply Qabs_nonneg|]. by apply Qlt_le_weak, pow2_pos.
  - eapply Qle_trans; [apply rnd_error|].
    assert (pow2 (-1075) <= Qabs q * pow2 (-53))%Q.
    { rewrite Hn, Qabs_Qmult, (Qabs_pos (pow2 _)) by (apply Qlt_le_weak, pow2_pos).
      change (Qabs (inject_Z n)) with (inject_Z (Z.abs n)). rewrite <- Qmult_assoc, <- pow2_add.
      eapply Qle_trans; [|apply Qmult_le_compat_r; [apply (inject_Z_le (2 ^ 53)); lia|apply Qlt_le_weak, pow2_pos]].
      apply Qle_bool_iff. vm_compute. reflexivity. }
    assert (pow2 (-52) == 2 * pow2 (-53))%Q as -> by reflexivity. lra.
Qed.

(** A finite float of magnitude at most [B]. *)
Definition bnd (B : Z) (x : float) : Prop :=
  is_fin x = true ∧ wf x ∧ (Qabs (fval x) <= inject_Z B)%Q ∧ grid (fval x).
Definition nonneg (x : float) : Prop := (0 <= fval x)%Q.

Lemma bnd_isf B x : bnd B x → isf x (fval x).
Proof. intros (F & W & _). by repeat split. Qed.

Lemma isf_bnd x q B : isf x q → (Qabs q <= inject_Z B)%Q → grid q → bnd B x.
Proof. intros (F & W & V) Hq Hg. split; [done|]. split; [done|]. by rewrite V. Qed.

Lemma isf_rnd_bnd x q B : 0 <= B <= 2 ^ 53 → isf x (rndQ q) → (Qabs q <= inject_Z B)%Q → bnd B x.
Proof. intros HB Hx Hq. eapply isf_bnd; [exact Hx|by apply rnd_abs_le|apply grid_rnd]. Qed.

Lemma bnd_le A B x : A <= B → bnd A x → bnd B x.
Proof.
  intros H (F & W & V & G). split; [done|]. split; [done|]. split; [|done].
  eapply Qle_trans; [exact V|]. by apply inject_Z_le.
Qed.

Lemma Qabs_small q B : B <= 2 ^ 64 → (Qabs q <= inject_Z B)%Q → (Qabs q < pow2 1023)%Q.
Proof. intros HB Hq. apply small_lt_pow. eapply Qle_trans; [exact Hq|]. by apply inject_Z_le. Qed.

Lemma bnd_add A B x y : 0 <= A → 0 <= B → A + B <= 2 ^ 53 → bnd A x → bnd B y → bnd (A + B) (fadd x y).
Proof.
  intros HA HB HAB Hx Hy.
  assert (Qabs (fval x + fval y) <= inject_Z (A + B))%Q as Hq.
  { eapply Qle_trans; [apply Qabs_triangle|]. rewrite inject_Z_plus. apply Qplus_le_compat; [apply Hx|apply Hy]. }
  eapply isf_rnd_bnd; [lia| |exact Hq]. apply isf_add; [by eapply bnd_isf..|].
  eapply Qabs_small; [|exact Hq]. lia.
Qed.

Lemma bnd_neg B x : bnd B x → bnd B (fneg x).
Proof.
  intros Hx. eapply isf_bnd; [apply fneg_isf; by eapply bnd_isf|rewrite Qabs_opp; apply Hx|apply grid_opp, Hx].
Qed.

Lemma bnd_sub A B x y : 0 <= A → 0 <= B → A + B <= 2 ^ 53 → bnd A x → bnd B y → bnd (A + B) (fsub x y).
Proof. intros. apply bnd_add; auto using bnd_neg. Qed.

Lemma bnd_mul A B x y : 0 <= A → 0 <= B → A * B <= 2 ^ 53 → bnd A x → bnd B y → bnd (A * B) (fmul x y).
Proof.
  intros HA HB HAB Hx Hy.
  assert (Qabs (fval x * fval y) <= inject_Z (A * B))%Q as Hq.
  { rewrite Qabs_Qmult, inject_Z_mult. apply Qmult_le_compat_nonneg; (split; [apply Qabs_nonneg|]); [apply Hx|apply Hy]. }
  eapply isf_rnd_bnd; [lia| |exact Hq]. apply isf_mul; [by eapply bnd_isf..|].
  eapply Qabs_small; [|exact Hq]. lia.
Qed.

Lemma bnd_lit B q : 0 <= B <= 2 ^ 53 → (Qabs q <= inject_Z B)%Q → bnd B (of_Q q).
Proof. intros HB Hq. eapply isf_rnd_bnd; [exact HB| |exact Hq]. apply isf_of_Q. eapply Qabs_small; [|exact Hq]. lia. Qed.

Lemma bnd_zero B : 0 <= B → bnd B (fzero false).
Proof.
  intros HB. split; [done|]. split; [done|]. apply (inject_Z_le 0) in HB.
  split; [|exists 0; by vm_compute]. eapply Qle_trans; [|exact HB]. apply Qle_bool_iff. vm_compute. reflexivity.
Qed.

(** Dividing by a float that is at least 1. *)
Lemma bnd_div B x d : 0 <= B <= 2 ^ 53 → bnd B x → is_fin d = true → wf d → (1 <= fval d)%Q → bnd B (fdiv x d).
Proof.
  intros HB Hx Fd Wd Hd.
  assert (Qabs (fval x / fval d) <= inject_Z B)%Q as Hq by (apply div_le_abs; [done|apply Hx]).
  eapply isf_rnd_bnd; [exact HB| |exact Hq]. apply isf_div; [by eapply bnd_isf|by repeat split|lra|].
  eapply Qabs_small; [|exact Hq]. lia.
Qed.

Lemma bnd_max B x y : bnd B x → bnd B y → bnd B (fmax x y).
Proof. unfold fmax. by destruct (flt x y). Qed.
Lemma bnd_min B x y : bnd B x → bnd B y → bnd B (fmin x y).
Proof. unfold fmin. by destruct (flt y x). Qed.

Lemma max_nonneg B x : bnd B x → nonneg (fmax x (fzero false)).
Proof.
  intros Hx. unfold fmax, nonneg. destruct (flt x (fzero false)) eqn:E; [done|].
  apply Qnot_lt_le. intros C. assert (isf (fzero false) 0) as Iz by by repeat split.
  apply (flt_isf x (fzero false) (fval x) 0 (bnd_isf B x Hx) Iz) in C. congruence.
Qed.

Lemma fle_isf x y a b : isf x a → isf y b → (fle x y = true ↔ (a <= b)%Q).
Proof.
  intros (F & _ & V) (G & _ & W). destruct x, y; try discriminate. unfold fle, fcmp. rewrite <- V, <- W.
  match goal with |- context [Qcompare ?p ?q] => destruct (Qcompare_spec p q) end;
    split; intros; try discriminate; try reflexivity; lra.
Qed.

Lemma add_nonneg A B x y :
  0 <= A → 0 <= B → A + B <= 2 ^ 53 → bnd A x → bnd B y → nonneg x → nonneg y → nonneg (fadd x y).
Proof.
  intros HA HB HAB Hx Hy Nx Ny. unfold nonneg in *.
  assert (Qabs (fval x + fval y) < pow2 1023)%Q as Hq.
  { eapply (Qabs_small _ (A + B)); [lia|]. eapply Qle_trans; [apply Qabs_triangle|]. rewrite inject_Z_plus.
    apply Qplus_le_compat; [apply Hx|apply Hy]. }
  destruct (isf_add x y _ _ (bnd_isf _ _ Hx) (bnd_isf _ _ Hy) Hq) as (_ & _ & ->). apply rndQ_nonneg. lra.
Qed.

Lemma mul_nonneg A B x y :
  0 <= A → 0 <= B → A * B <= 2 ^ 53 → bnd A x → bnd B y → nonneg x → nonneg y → nonneg (fmul x y).
Proof.
  intros HA HB HAB Hx Hy Nx Ny. unfold nonneg in *.
  assert (Qabs (fval x * fval y) < pow2 1023)%Q as Hq.
  { eapply (Qabs_small _ (A * B)); [lia|]. rewrite Qabs_Qmult, inject_Z_mult.
    apply Qmult_le_compat_nonneg; (split; [apply Qabs_nonneg|]); [apply Hx|apply Hy]. }
  destruct (isf_mul x y _ _ (bnd_isf _ _ Hx) (bnd_isf _ _ Hy) Hq) as (_ & _ & ->). apply rndQ_nonneg.
  by apply Qmult_le_0_compat.
Qed.

Lemma div_nonneg B x d :
  0 <= B <= 2 ^ 53 → bnd B x → nonneg x → is_fin d = true → wf d → (1 <= fval d)%Q → nonneg (fdiv x d).
Proof.
  intros HB Hx Nx Fd Wd Hd. unfold nonneg in *.
  assert (Qabs (fval x / fval d) < pow2 1023)%Q as Hq.
  { eapply (Qabs_small _ B); [lia|]. apply div_le_abs; [done|apply Hx]. }
  destruct (isf_div x d _ (fval d) (bnd_isf _ _ Hx)) as (_ & _ & ->); [by repeat split|lra|exact Hq|].
  apply rndQ_nonneg. apply Qmult_le_0_compat; [done|]. apply Qinv_le_0_compat. lra.
Qed.

(** What the palette check relies on: a sum of at most three moderate floats is
    finite, not negative when they are not, and zero when they are zero. *)
Class SummationLaws `{Summation} : Prop := {
  fsum_bound l B : (length l <= 3)%nat → 0 <= B <= 2 ^ 40 → Forall (bnd B) l → bnd (64 * B) (fsum l);
  fsum_nonneg l B : (length l <= 3)%nat → 0 <= B <= 2 ^ 40 → Forall (bnd B) l → Forall nonneg l → nonneg (fsum l);
  fsum_zeros : fsum [fzero false; fzero false; fzero false] = fzero false;
}.

(** *** Both versions of [sum] *)

Lemma foldl_fadd_bnd l B A x : 0 <= A → 0 <= B → A + B * Z.of_nat (length l) <= 2 ^ 53 → bnd A x → Forall (bnd B) l →
  bnd (A + B * Z.of_nat (length l)) (foldl fadd x l).
Proof.
  intros HA HB Hm Hx Hl. revert A x HA Hm Hx. induction Hl as [|y l Hy Hl IH]; intros A x HA Hm Hx.
  - cbn [length foldl] in *. by replace (A + B * Z.of_nat 0) with A by lia.
  - cbn [length foldl] in *. replace (A + B * Z.of_nat (S (length l))) with ((A + B) + B * Z.of_nat (length l)) by lia.
    apply IH; [lia|lia|]. apply bnd_add; (done || lia).
Qed.

Lemma foldl_fadd_nonneg l B A x : 0 <= A → 0 <= B → A + B * Z.of_nat (length l) <= 2 ^ 53 → bnd A x → Forall (bnd B) l →
  nonneg x → Forall nonneg l → nonneg (foldl fadd x l).
Proof.
  intros HA HB Hm Hx Hl. revert A x HA Hm Hx. induction Hl as [|y l Hy Hl IH]; intros A x HA Hm Hx Nx Nl; [done|].
  cbn [length foldl] in *. apply Forall_cons in Nl as [Ny Nl]. apply (IH (A + B)); try done; try lia.
  - apply bnd_add; (done || lia).
  - apply (add_nonneg A B); (done || lia).
Qed.

#[export] Instance naive_laws : @SummationLaws naive_sum.
Proof.
  split.
  - intros l B Hl HB Hb. unfold fsum, naive_sum.
    pose proof (foldl_fadd_bnd l B 0 (fzero false) ltac:(lia) ltac:(lia) ltac:(nia) (bnd_zero 0 ltac:(lia)) Hb) as K.
    eapply bnd_le; [|exact K]. nia.
  - intros l B Hl HB Hb Hn. unfold fsum, naive_sum.
    apply (foldl_fadd_nonneg l B 0); try done; try lia; [nia|by apply bnd_zero].
  - vm_compute. reflexivity.
Qed.

(** *** The compensated sum *)

(** One addition, as a value: the error is a 2^-52th of the exact sum. *)
Lemma add_rel A B x y : 0 <= A → 0 <= B → A + B <= 2 ^ 53 → bnd A x → bnd B y →
  (Qabs (fval (fadd x y) - (fval x + fval y)) <= Qabs (fval x + fval y) * pow2 (-52))%Q.
Proof.
  intros HA HB HAB Hx Hy.
  assert (Qabs (fval x + fval y) < pow2 1023)%Q as Hq.
  { eapply (Qabs_small _ (A + B)); [lia|]. eapply Qle_trans; [apply Qabs_triangle|]. rewrite inject_Z_plus.
    apply Qplus_le_compat; [apply Hx|apply Hy]. }
  destruct (isf_add x y _ _ (bnd_isf _ _ Hx) (bnd_isf _ _ Hy) Hq) as (_ & _ & ->).
  apply grid_rel, grid_add; [apply Hx|apply Hy].
Qed.

Lemma fval_fneg x : (fval (fneg x) == - fval x)%Q.
Proof. destruct x as [s m e| |]; cbn [fneg]; rewrite ?fval_Fin; [destruct s; cbn; ring|reflexivity..]. Qed.

Lemma sub_rel A B x y : 0 <= A → 0 <= B → A + B <= 2 ^ 53 → bnd A x → bnd B y →
  (Qabs (fval (fsub x y) - (fval x - fval y)) <= Qabs (fval x - fval y) * pow2 (-52))%Q.
Proof. intros HA HB HAB Hx Hy. pose proof (add_rel A B x (fneg y) HA HB HAB Hx (bnd_neg _ _ Hy)) as K. by rewrite fval_fneg in K. Qed.

(** The correction of one addition: crude for any signs, tiny when neither
    summand is negative. *)
Definition correction (f t x : float) : float := if fle (fabs x) (fabs f) then fadd (fsub f t) x else fadd (fsub x t) f.

Lemma correction_bnd A B f x : 0 <= A → 0 <= B → A + B <= 2 ^ 50 → bnd A f → bnd B x →
  bnd (2 * A + 2 * B) (correction f (fadd f x) x).
Proof.
  intros HA HB HAB Hf Hx. pose proof (bnd_add A B f x HA HB ltac:(lia) Hf Hx) as Ht. unfold correction.
  destruct (fle _ _).
  - eapply bnd_le; [|apply (bnd_add (A + (A + B)) B); [lia|lia|lia|by apply bnd_sub; try lia|exact Hx]]. lia.
  - eapply bnd_le; [|apply (bnd_add (B + (A + B)) A); [lia|lia|lia|by apply bnd_sub; try lia|exact Hf]]. lia.
Qed.

Lemma correction_tiny a b p q t d e ε :
  (0 <= ε <= 1 # 1000)%Q → (0 <= p)%Q → (0 <= q)%Q → (a + b == p + q)%Q → (0 <= a)%Q → (0 <= b)%Q →
  (Qabs (t - (a + b)) <= Qabs (a + b) * ε)%Q → (Qabs (d - (p - t)) <= Qabs (p - t) * ε)%Q →
  (Qabs (e - (d + q)) <= Qabs (d + q) * ε)%Q → (Qabs e <= (a + b) * (8 * ε))%Q.
Proof.
  intros He Hp Hq Hpq Ha Hb Ht Hd Hee. rewrite (Qabs_pos (a + b)) in Ht by lra.
  set (u := (a + b)%Q) in *. assert (0 <= u)%Q as Hu by (unfold u; lra).
  assert (0 <= u * ε)%Q as H0 by (apply Qmult_le_0_compat; lra).
  assert (u * ε <= u * (1 # 1000))%Q as H1 by (apply Qmult_le_compat_l'; lra).
  apply Qabs_Qle_condition in Ht.
  assert (Qabs (p - t) <= 2 * u)%Q as Bd by (apply Qabs_Qle_condition; lra).
  assert (Qabs (p - t) * ε <= 2 * u * ε)%Q as Bd2 by (apply Qmult_le_compat_r; lra).
  apply Qabs_Qle_condition in Hd.
  assert (Qabs (d + q) <= 3 * (u * ε))%Q as Be by (apply Qabs_Qle_condition; lra).
  assert (Qabs (d + q) * ε <= 3 * (u * ε) * ε)%Q as Be2 by (apply Qmult_le_compat_r; lra).
  assert (3 * (u * ε) * ε <= 3 * (u * ε) * 1)%Q as Be3 by (apply Qmult_le_compat_l'; lra).
  apply Qabs_Qle_condition in Hee. apply Qabs_Qle_condition in Be. apply Qabs_Qle_condition. lra.
Qed.

Lemma correction_rel A B f x : 0 <= A → 0 <= B → A + B <= 2 ^ 50 → bnd A f → bnd B x → nonneg f → nonneg x →
  (Qabs (fval (correction f (fadd f x) x)) <= (fval f + fval x) * (8 * pow2 (-52)))%Q.
Proof.
  intros HA HB HAB Hf Hx Nf Nx. pose proof (bnd_add A B f x HA HB ltac:(lia) Hf Hx) as Ht.
  pose proof (add_rel A B f x HA HB ltac:(lia) Hf Hx) as Rt.
  assert (0 <= pow2 (-52) <= 1 # 1000)%Q as E52 by (split; apply Qle_bool_iff; vm_compute; reflexivity).
  unfold correction. destruct (fle _ _).
  - pose proof (bnd_sub A (A + B) f (fadd f x) HA ltac:(lia) ltac:(lia) Hf Ht) as Hd.
    apply (correction_tiny (fval f) (fval x) (fval f) (fval x) (fval (fadd f x)) (fval (fsub f (fadd f x))) _ _ E52 Nf Nx); [reflexivity|exact Nf|exact Nx|exact Rt| |].
    + by apply (sub_rel A (A + B)); try lia.
    + by apply (add_rel (A + (A + B)) B); try lia.
  - pose proof (bnd_sub B (A + B) x (fadd f x) HB ltac:(lia) ltac:(lia) Hx Ht) as Hd.
    apply (correction_tiny (fval f) (fval x) (fval x) (fval f) (fval (fadd f x)) (fval (fsub x (fadd f x))) _ _ E52 Nx Nf); [ring|exact Nf|exact Nx|exact Rt| |].
    + by apply (sub_rel B (A + B)); try lia.
    + by apply (add_rel (B + (A + B)) A); try lia.
Qed.

(** The state of the loop: the running sum within [A], the compensation
    within [C]. *)
Lemma step_bnd A C B f c x : 0 <= A → 0 <= B → 0 <= C → 4 * A + 4 * B + C <= 2 ^ 50 → bnd A f → bnd C c → bnd B x →
  bnd (A + B) (neumaier_step (f, c) x).1 ∧ bnd (C + (2 * A + 2 * B)) (neumaier_step (f, c) x).2.
Proof.
  intros HA HB HC Hm Hf Hc Hx. cbn [neumaier_step fst snd]. fold (correction f (fadd f x) x). split.
  - apply bnd_add; (done || lia).
  - apply bnd_add; [lia|lia|lia|done|]. apply correction_bnd; (done || lia).
Qed.

(** On numbers that are not negative the compensation stays a tiny fraction
    [k] of the running sum. *)
Lemma step_rel A C B f c x k : 0 <= A → 0 <= B → 0 <= C → 4 * A + 4 * B + C <= 2 ^ 50 → bnd A f → bnd C c → bnd B x →
  nonneg f → nonneg x → (0 <= k <= 1 # 1000)%Q → (Qabs (fval c) <= fval f * k)%Q →
  nonneg (neumaier_step (f, c) x).1 ∧
  (Qabs (fval (neumaier_step (f, c) x).2) <= fval (neumaier_step (f, c) x).1 * (2 * k + (1 # 10000)))%Q.
Proof.
  intros HA HB HC Hm Hf Hc Hx Nf Nx Hk Hcf. cbn [neumaier_step fst snd]. fold (correction f (fadd f x) x).
  pose proof (correction_rel A B f x HA HB ltac:(lia) Hf Hx Nf Nx) as Re.
  pose proof (correction_bnd A B f x HA HB ltac:(lia) Hf Hx) as Be.
  pose proof (add_rel A B f x HA HB ltac:(lia) Hf Hx) as Rt.
  pose proof (add_rel C (2 * A + 2 * B) c _ HC ltac:(lia) ltac:(lia) Hc Be) as Rc.
  assert (nonneg (fadd f x)) as Nt by (apply (add_nonneg A B); (done || lia)).
  split; [exact Nt|]. unfold nonneg in *.
  assert (pow2 (-52) <= 1 # 1000000)%Q as E52 by (apply Qle_bool_iff; vm_compute; reflexivity).
  pose proof (pow2_pos (-52)) as P52.
  set (e := fval (correction f (fadd f x) x)) in *. set (t := fval (fadd f x)) in *.
  set (c' := fval (fadd c _)) in *. set (ε := pow2 (-52)) in *. set (a := fval f) in *. set (b := fval x) in *.
  rewrite (Qabs_pos (a + b)) in Rt by lra.
  assert ((a + b) * ε <= (a + b) * (1 # 1000000))%Q as G1 by (apply Qmult_le_compat_l'; lra).
  assert (a * k <= (a + b) * k)%Q as G2 by (apply Qmult_le_compat_r; lra).
  apply Qabs_Qle_condition in Rt.
  assert (Qabs (fval c + e) <= (a + b) * k + (a + b) * (8 # 1000000))%Q as G3.
  { eapply Qle_trans; [apply Qabs_triangle|]. lra. }
  assert (Qabs (fval c + e) * ε <= Qabs (fval c + e) * 1)%Q as G4.
  { apply Qmult_le_compat_l'; [apply Qabs_nonneg|lra]. }
  assert (Qabs c' <= 2 * ((a + b) * k + (a + b) * (8 # 1000000)) - ((a + b) * k) * (1 # 10))%Q as G5.
  { assert (Qabs (fval c + e) * ε <= Qabs (fval c + e) * (1 # 1000000))%Q as G6.
    { apply Qmult_le_compat_l'; [apply Qabs_nonneg|lra]. }
    assert (Qabs c' <= Qabs (fval c + e) + Qabs (c' - (fval c + e)))%Q as G7.
    { eapply Qle_trans; [|apply Qabs_triangle].
      assert (c' == fval c + e + (c' - (fval c + e)))%Q as <- by ring. apply Qle_refl. }
    assert (0 <= (a + b) * k)%Q by (apply Qmult_le_0_compat; lra). lra. }
  assert ((a + b) * k <= t * k + (a + b) * (1 # 1000000) * k)%Q as G8.
  { assert (0 <= (t - (a + b) + (a + b) * (1 # 1000000)) * k)%Q by (apply Qmult_le_0_compat; lra). lra. }
  assert ((a + b) * (1 # 1000000) * k <= (a + b) * (1 # 1000000) * (1 # 1000))%Q as G9.
  { apply Qmult_le_compat_l'; [|lra]. assert (0 <= a + b)%Q by lra. lra. }
  assert (0 <= t * k)%Q by (apply Qmult_le_0_compat; lra). lra.
Qed.

(** The loop over what is left after the first item. *)
Lemma neumaier_bnd l B A C fc : 0 <= A → 0 <= B → 0 <= C → (length l <= 2)%nat → 16 * A + 32 * B + C <= 2 ^ 50 →
  bnd A fc.1 → bnd C fc.2 → Forall (bnd B) l →
  bnd (A + 2 * B) (foldl neumaier_step fc l).1 ∧ bnd (C + 4 * A + 6 * B) (foldl neumaier_step fc l).2.
Proof.
  intros HA HB HC Hl Hm Hf Hc Hb. destruct fc as [f c]. cbn [fst snd] in *.
  destruct l as [|x [|y [|? ?]]]; cbn [foldl length] in *; [..|lia].
  - split; (eapply bnd_le; [|done]); lia.
  - apply Forall_cons in Hb as [Hx _].
    destruct (step_bnd A C B f c x HA HB HC ltac:(lia) Hf Hc Hx) as [H1 H2].
    split; (eapply bnd_le; [|done]); lia.
  - apply Forall_cons in Hb as [Hx Hb]. apply Forall_cons in Hb as [Hy _].
    destruct (step_bnd A C B f c x HA HB HC ltac:(lia) Hf Hc Hx) as [H1 H2].
    destruct (neumaier_step (f, c) x) as [f' c']. cbn [fst snd] in *.
    destruct (step_bnd (A + B) (C + (2 * A + 2 * B)) B f' c' y) as [H3 H4]; try done; try lia.
    split; (eapply bnd_le; [|done]); lia.
Qed.

Lemma neumaier_rel l B A f : 0 <= A → 0 <= B → (length l <= 2)%nat → 16 * A + 32 * B <= 2 ^ 50 →
  bnd A f → nonneg f → Forall (bnd B) l → Forall nonneg l →
  nonneg (foldl neumaier_step (f, fzero false) l).1 ∧
  (Qabs (fval (foldl neumaier_step (f, fzero false) l).2) <= fval (foldl neumaier_step (f, fzero false) l).1 * (1 # 1000))%Q.
Proof.
  intros HA HB Hl Hm Hf Nf Hb Hn. pose proof (bnd_zero 0 ltac:(lia)) as Hz. unfold nonneg in *.
  assert (Qabs (fval (fzero false)) <= fval f * 0)%Q as H0.
  { rewrite Qmult_0_r. apply Qle_bool_iff. vm_compute. reflexivity. }
  destruct l as [|x [|y [|? ?]]]; cbn [foldl length] in *; [..|lia].
  - cbn [fst snd]. split; [done|]. eapply Qle_trans; [exact H0|]. lra.
  - apply Forall_cons in Hb as [Hx _]. apply Forall_cons in Hn as [Nx _].
    destruct (step_rel A 0 B f (fzero false) x 0 HA HB ltac:(lia) ltac:(lia) Hf Hz Hx Nf Nx ltac:(lra) H0) as [H1 H2].
    split; [done|]. unfold nonneg in *. lra.
  - apply Forall_cons in Hb as [Hx Hb]. apply Forall_cons in Hb as [Hy _].
    apply Forall_cons in Hn as [Nx Hn]. apply Forall_cons in Hn as [Ny _].
    destruct (step_rel A 0 B f (fzero false) x 0 HA HB ltac:(lia) ltac:(lia) Hf Hz Hx Nf Nx ltac:(lra) H0) as [H1 H2].
    destruct (step_bnd A 0 B f (fzero false) x HA HB ltac:(lia) ltac:(lia) Hf Hz Hx) as [B1 B2].
    destruct (neumaier_step (f, fzero false) x) as [f' c']. cbn [fst snd] in *.
    destruct (step_rel (A + B) (0 + (2 * A + 2 * B)) B f' c' y (2 * 0 + (1 # 10000))
      ltac:(lia) HB ltac:(lia) ltac:(lia) B1 B2 Hy H1 Ny ltac:(lra) H2) as [H3 H4].
    split; [done|]. unfold nonneg in *. lra.
Qed.

#[export] Instance compensated_laws : @SummationLaws compensated_sum.
Proof.
  split.
  - intros l B Hl HB Hb. unfold fsum, compensated_sum. destruct l as [|x l]; [apply bnd_zero; lia|].
    apply Forall_cons in Hb as [Hx Hb]. cbn [length] in Hl.
    pose proof (bnd_add 0 B (fzero false) x ltac:(lia) ltac:(lia) ltac:(lia) (bnd_zero 0 ltac:(lia)) Hx) as Hf.
    destruct (neumaier_bnd l B (0 + B) 0 (fadd (fzero false) x, fzero false)) as [H1 H2];
      try done; try lia; [apply bnd_zero; lia|].
    destruct (foldl _ _ l) as [f c]. cbn [fst snd] in *. destruct (is_fin c && negb (is_zero c)).
    + eapply bnd_le; [|apply (bnd_add (0 + B + 2 * B) (0 + 4 * (0 + B) + 6 * B)); try done; lia]. lia.
    + eapply bnd_le; [|exact H1]. lia.
  - intros l B Hl HB Hb Hn. unfold fsum, compensated_sum. destruct l as [|x l]; [done|].
    apply Forall_cons in Hb as [Hx Hb]. apply Forall_cons in Hn as [Nx Hn]. cbn [length] in Hl.
    pose proof (bnd_add 0 B (fzero false) x ltac:(lia) ltac:(lia) ltac:(lia) (bnd_zero 0 ltac:(lia)) Hx) as Hf.
    assert (nonneg (fadd (fzero false) x)) as Nf.
    { apply (add_nonneg 0 B); try done; try lia. apply bnd_zero. lia. }
    destruct (neumaier_rel l B (0 + B) (fadd (fzero false) x)) as [H1 H2]; try done; try lia.
    destruct (neumaier_bnd l B (0 + B) 0 (fadd (fzero false) x, fzero false)) as [H3 H4];
      try done; try lia; [apply bnd_zero; lia|].
    destruct (foldl _ _ l) as [f c]. cbn [fst snd] in *. destruct (is_fin c && negb (is_zero c)); [|done].
    pose proof (add_rel (0 + B + 2 * B) (0 + 4 * (0 + B) + 6 * B) f c ltac:(lia) ltac:(lia) ltac:(lia) H3 H4) as R. unfold nonneg in *.
    apply Qabs_Qle_condition in H2. rewrite (Qabs_pos (fval f + fval c)) in R by lra.
    assert ((fval f + fval c) * pow2 (-52) <= (fval f + fval c) * 1)%Q.
    { apply Qmult_le_compat_l'; [lra|]. apply Qle_bool_iff. vm_compute. reflexivity. }
    apply Qabs_Qle_condition in R. lra.
  - vm_compute. reflexivity.
Qed.
