(* ===== verification/Palette.v ===== *)
(** [sweep/validate_palette.py]: the colour-vision check of a palette.

    Colours go from hexadecimal sRGB to linear light and to OKLab; every pair
    is measured as seen by normal vision and by three simulated dichromats,
    and the worst verdict is the exit status.

    The power operator on floats is the C library's [pow], a parameter
    ([Pow]); [PowLaws] states what the theorems use of it.  The built-in [sum]
    is the class [Summation] of PySum, so the theorems hold for the plain and
    for the compensated version. *)

From Stdlib Require Import Ascii.
From S2P Require Import Prelude PyFloat PyStr PyNum PySum Svg.
From Stdlib Require Import QArith Qround Qabs Lqa.

Open Scope Z_scope.

(** ** Hexadecimal *)

Definition hex_val (c : ascii) : option Z :=
  let n := code c in
  if (48 <=? n) && (n <=? 57) then Some (n - 48)
  else if (65 <=? n) && (n <=? 70) then Some (n - 55)
  else if (97 <=? n) && (n <=? 102) then Some (n - 87)
  else None.

Fixpoint hex_digits (s : string) (acc : Z) (after_digit : bool) : option Z :=
  match s with
  | EmptyString => if after_digit then Some acc else None
  | String c s =>
      match hex_val c with
      | Some d => hex_digits s (16 * acc + d) true
      | None => if Ascii.eqb c "_"%char && after_digit then hex_digits s acc false else None
      end
  end.

(** The optional prefix [0x], after which one underscore may stand. *)
Definition hex_body (s : string) : option Z :=
  match s with
  | String "0" (String x s') =>
      if Ascii.eqb x "x"%char || Ascii.eqb x "X"%char
      then hex_digits (match s' with String "_" s2 => s2 | _ => s' end) 0 false
      else hex_digits s 0 false
  | _ => hex_digits s 0 false
  end.

(** [int(s, 16)]; [None] is ValueError. *)
Definition hex_of_str (s : string) : option Z :=
  match rstrip is_space_int (lstrip is_space_int s) with
  | String c s' =>
      if Ascii.eqb c "-"%char then Z.opp <$> hex_body s'
      else if Ascii.eqb c "+"%char then hex_body s'
      else hex_body (String c s')
  | EmptyString => None
  end.

(** The code points of a string, and the slice [h[i:i + 2]]. *)
Fixpoint chars (s : string) : list string :=
  match s with
  | EmptyString => []
  | String c s' =>
      match chars s' with
      | String c2 t :: l => if is_cont c2 then String c (String c2 t) :: l else String c EmptyString :: String c2 t :: l
      | l => String c EmptyString :: l
      end
  end.
Definition slice2 (h : string) (i : nat) : string := join EmptyString (take 2 (drop i (chars h))).

(** ** Powers of floats *)

(** [x ** y] where Python returns a float. *)
Class Pow := fpow : float → float → float.

Section Colours.
Context `{Pow} `{Summation}.

Definition NORMAL_FLOOR : float := of_Q 15.
Definition CVD_TARGET : float := of_Q 8.
Definition CVD_FLOOR : float := of_Q 6.

Definition vec : Type := float * float * float.

(** ** From a hexadecimal colour to linear light *)

Definition channel (h : string) (i : nat) : result Z := require ValueError (hex_of_str (slice2 h i)).

(** The three integers of [h]. *)
Definition channels (h : string) : result (Z * Z * Z) :=
  let h := lstrip (λ c, Ascii.eqb c "#"%char) h in
  r ← channel h 0; g ← channel h 2; b ← channel h 4; Ok (r, g, b).

(** [n / 255.0]. *)
Definition srgb (n : Z) : result float := f ← require OverflowError (f_of_Z n); Ok (fdiv f (of_Q 255)).

Definition to_linear (c : float) : float :=
  if fle c (of_Q (4045 # 100000)) then fdiv c (of_Q (1292 # 100))
  else fpow (fdiv (fadd c (of_Q (55 # 1000))) (of_Q (1055 # 1000))) (of_Q (24 # 10)).

Definition hex_to_linear (h : string) : result vec :=
  ns ← channels h;
  r ← srgb ns.1.1; g ← srgb ns.1.2; b ← srgb ns.2;
  Ok (to_linear r, to_linear g, to_linear b).

(** ** OKLab *)

(** [x * v + y * w + z * u], from left to right. *)
Definition lin3 (x y z : Q) (v w u : float) : float :=
  fadd (fadd (fmul (of_Q x) v) (fmul (of_Q y) w)) (fmul (of_Q z) u).

Definition cbrt (v : float) : float := fpow (fmax v (fzero false)) (of_Q (1 # 3)).

Definition linear_to_oklab (rgb : vec) : vec :=
  let '(r, g, b) := rgb in
  let l := lin3 (4122214708 # 10000000000) (5363325363 # 10000000000) (514459929 # 10000000000) r g b in
  let m := lin3 (2119034982 # 10000000000) (6806995451 # 10000000000) (1073969566 # 10000000000) r g b in
  let s := lin3 (883024619 # 10000000000) (2817188376 # 10000000000) (6299787005 # 10000000000) r g b in
  let l_ := cbrt l in let m_ := cbrt m in let s_ := cbrt s in
  (fsub (fadd (fmul (of_Q (2104542553 # 10000000000)) l_) (fmul (of_Q (7936177850 # 10000000000)) m_))
        (fmul (of_Q (40720468 # 10000000000)) s_),
   fadd (fsub (fmul (of_Q (19779984951 # 10000000000)) l_) (fmul (of_Q (24285922050 # 10000000000)) m_))
        (fmul (of_Q (4505937099 # 10000000000)) s_),
   fsub (fadd (fmul (of_Q (259040371 # 10000000000)) l_) (fmul (of_Q (7827717662 # 10000000000)) m_))
        (fmul (of_Q (8086757660 # 10000000000)) s_)).

(** ** Dichromats *)

Definition row3 : Type := Q * Q * Q.
Definition matrix : Type := row3 * row3 * row3.

Definition CVD : list (string * matrix) :=
  [("protan", ((11238 # 100000, 88762 # 100000, 0%Q), (11238 # 100000, 88762 # 100000, 0%Q),
               (401 # 100000, -401 # 100000, 1%Q)));
   ("deutan", ((29275 # 100000, 70725 # 100000, 0%Q), (29275 # 100000, 70725 # 100000, 0%Q),
               (-2234 # 100000, 2234 # 100000, 1%Q)));
   ("tritan", ((1%Q, 14461 # 100000, -14461 # 100000), (0%Q, 1%Q, 0%Q), (0%Q, 15594 # 100000, 84406 # 100000)))].

(** [sum(m[i][j] * rgb[j] for j in range(3))]. *)
Definition dot (m : row3) (rgb : vec) : float :=
  fsum [fmul (of_Q m.1.1) rgb.1.1; fmul (of_Q m.1.2) rgb.1.2; fmul (of_Q m.2) rgb.2].

Definition simulate (rgb : vec) (kind : string) : result vec :=
  m ← require (KeyError kind) (dget CVD kind);
  Ok (dot m.1.1 rgb, dot m.1.2 rgb, dot m.2 rgb).

(** ** Distances *)

Definition sq_diff (x y : float) : float := fpow (fsub x y) (of_Q 2).

Definition delta_e (a b : vec) : float :=
  let la := linear_to_oklab a in
  let lb := linear_to_oklab b in
  fmul (of_Q 100)
    (fpow (fsum [sq_diff la.1.1 lb.1.1; sq_diff la.1.2 lb.1.2; sq_diff la.2 lb.2]) (of_Q (1 # 2))).

Definition relative_luminance (rgb : vec) : float :=
  lin3 (2126 # 10000) (7152 # 10000) (722 # 10000) rgb.1.1 rgb.1.2 rgb.2.

Definition contrast (a b : vec) : result float :=
  let la := relative_luminance a in
  let lb := relative_luminance b in
  let hi := fmax la lb in
  let lo := fmin la lb in
  let d := fadd lo (of_Q (5 # 100)) in
  if is_zero d then Err ZeroDivisionError else Ok (fdiv (fadd hi (of_Q (5 # 100))) d).

(** ** Verdicts *)

(** [min] of a non-empty sequence: the first of the least. *)
Definition min_of (l : list float) : result float :=
  match l with [] => Err ValueError | x :: l => Ok (foldl fmin x l) end.

Definition verdict (normal worst_cvd : float) : string * Z :=
  if flt normal NORMAL_FLOOR then ("FAIL normal-vision floor", 2)
  else if flt worst_cvd CVD_FLOOR then ("FAIL cvd", 2)
  else if flt worst_cvd CVD_TARGET then ("warn: needs labels", 1)
  else ("pass", 0).

(** The distances of a pair: normal vision, and each dichromat by name. *)
Definition distances (a b : vec) : result (float * list (string * float)) :=
  sims ← mapR (λ k, sa ← simulate a k; sb ← simulate b k; Ok (k, delta_e sa sb)) CVD.*1;
  Ok (delta_e a b, sims).

Definition colour : Type := string * string.   (* name and hexadecimal *)

Definition lin_row (d : list (string * vec)) (c : colour) : result (list (string * vec)) :=
  v ← hex_to_linear c.2; Ok (dset d c.1 v).
Definition lin_table (colours : list colour) : result (list (string * vec)) := foldR lin_row [] colours.

(** [itertools.combinations(colours, 2)]. *)
Fixpoint combinations {A} (l : list A) : list (A * A) :=
  match l with
  | [] => []
  | x :: l => ((λ y, (x, y)) <$> l) ++ combinations l
  end.

Definition f8 (x : float) : string := rjust 8 (fixed 1 x).

(** A pair's line and severity. *)
Definition pair_report (lin : list (string * vec)) (na nb : string) : result (string * Z) :=
  a ← require (KeyError na) (dget lin na);
  b ← require (KeyError nb) (dget lin nb);
  d ← distances a b;
  worst ← min_of d.2.*2;
  p ← require (KeyError "protan") (dget d.2 "protan");
  de ← require (KeyError "deutan") (dget d.2 "deutan");
  t ← require (KeyError "tritan") (dget d.2 "tritan");
  let v := verdict d.1 worst in
  Ok (ljust 44 (na +:+ " / " +:+ nb) +:+ f8 d.1 +:+ f8 p +:+ f8 de +:+ f8 t +:+ "  " +:+ v.1, v.2).

(** The loop over the pairs; [worst_fail] is carried along. *)
Fixpoint check_pairs (lin : list (string * vec)) (ps : list (colour * colour)) (worst_fail : Z) : M Z :=
  match ps with
  | [] => mret worst_fail
  | (ca, cb) :: ps =>
      r ← lift (pair_report lin ca.1 cb.1);
      print r.1;;
      check_pairs lin ps (Z.max worst_fail r.2)
  end.

Definition contrast_line (lin : list (string * vec)) (surf : vec) (c : colour) : result string :=
  v ← require (KeyError c.1) (dget lin c.1);
  k ← contrast v surf;
  Ok ("  " +:+ ljust 28 c.1 +:+ c.2 +:+ "  " +:+ rjust 5 (fixed 2 k) +:+ ":1"
      +:+ (if fle (of_Q 3) k then EmptyString else "  WARN: needs a visible label")).

Definition nl : string := String newline EmptyString.

Definition check (colours : list colour) (surface : string) : M Z :=
  lin ← lift (lin_table colours);
  let n := Z.of_nat (length colours) in
  print (str_Z n +:+ " colours, all " +:+ str_Z (n * (n - 1) / 2) +:+ " pairs" +:+ nl);;
  print (ljust 44 "pair" +:+ rjust 8 "normal" +:+ rjust 8 "protan" +:+ rjust 8 "deutan" +:+ rjust 8 "tritan"
         +:+ "  verdict");;
  worst_fail ← check_pairs lin (combinations colours) 0;
  print (nl +:+ "contrast against surface " +:+ surface);;
  surf ← lift (hex_to_linear surface);
  mapM_ (λ c, l ← lift (contrast_line lin surf c); print l) colours;;
  mret worst_fail.

(** ** The program *)

Definition default_entries : list colour :=
  [("C1 ack/fix-journal", "#2a78d6"); ("C2 relay/fix-inline", "#eb6834"); ("C3 output-brpc", "#1baf7a");
   ("C4 direct/output-grpc", "#b5179e"); ("C5 output-websocket", "#6d28d9"); ("quickfix (7th)", "#a16207");
   ("INK2 braft floor", "#52514e")].

Definition entries (args : list string) : list colour :=
  match args with
  | [] => default_entries
  | a :: _ => (λ h, (strip h, strip h)) <$> split_on ","%char a
  end.

Definition surface : string := "#fcfcfb".

(** [sys.exit(check(entries))]. *)
Definition script (args : list string) : M unit :=
  n ← check (entries args) surface;
  raise (SystemExit n).
End Colours.

(** ** What the theorems use of [pow] and [sum] *)

Class PowLaws `{Pow} : Prop := {
  (** For a base in [0, B] and an exponent in [0, k] the result is finite, not
      negative, and at most twice [B ** k]. *)
  fpow_bound x y B k : 1 <= B → 0 <= k → 2 * B ^ k <= 2 ^ 53 → bnd B x → nonneg x →
    is_fin y = true → wf y → (0 <= fval y <= inject_Z k)%Q →
    bnd (2 * B ^ k) (fpow x y) ∧ nonneg (fpow x y);
  (** The square does not see the sign. *)
  fpow_even x : fpow (fneg x) (of_Q 2) = fpow x (of_Q 2);
  (** A positive power of zero is zero. *)
  fpow_zero y : is_fin y = true → (0 < fval y)%Q → fpow (fzero false) y = fzero false;
}.


(** ** Every distance is a finite float *)

Definition vbnd (B : Z) (v : vec) : Prop := bnd B v.1.1 ∧ bnd B v.1.2 ∧ bnd B v.2.
Definition vnonneg (v : vec) : Prop := nonneg v.1.1 ∧ nonneg v.1.2 ∧ nonneg v.2.

(** Three two-digit channels. *)
Definition colour_ok (h : string) : Prop :=
  ∃ r g b, channels h = Ok (r, g, b) ∧ 0 <= r <= 255 ∧ 0 <= g <= 255 ∧ 0 <= b <= 255.

Ltac lit_bound := split; [lia|discriminate].

Lemma lit_bnd B q : 0 <= B <= 2 ^ 53 ∧ (Qabs q <= inject_Z B)%Q → bnd B (of_Q q).
Proof. intros [H1 H2]. by apply bnd_lit. Qed.

Lemma lit_ge1 q : (1 <= q)%Q → (q <= 1000)%Q → is_fin (of_Q q) = true ∧ wf (of_Q q) ∧ (1 <= fval (of_Q q))%Q.
Proof.
  intros H1 H2. destruct (isf_of_Q q) as (F & W & V).
  { eapply (Qabs_small _ 1000); [lia|]. apply Qabs_Qle_condition. change (inject_Z 1000) with 1000%Q. lra. }
  split; [done|]. split; [done|]. rewrite V. change 1%Q with (inject_Z 1). by apply rnd_ge_Z.
Qed.

(** A literal exponent. *)
Lemma lit_range q k : (0 <= q)%Q → (q <= inject_Z k)%Q → k <= 2 ^ 53 →
  is_fin (of_Q q) = true ∧ wf (of_Q q) ∧ (0 <= fval (of_Q q) <= inject_Z k)%Q.
Proof.
  intros H0 H1 Hk. destruct (isf_of_Q q) as (F & W & V).
  { eapply (Qabs_small _ k); [lia|]. by rewrite Qabs_pos. }
  split; [exact F|]. split; [exact W|]. rewrite V. split; [by apply rndQ_nonneg|].
  apply rnd_le_Z; [|exact H1]. assert (0 <= k) by (rewrite Zle_Qle; apply Qle_trans with q; assumption). lia.
Qed.

Lemma srgb_ok n : 0 <= n <= 255 → ∃ x, srgb n = Ok x ∧ bnd 1 x ∧ nonneg x.
Proof.
  intros Hn. destruct (f_small n) as (f & Ef & If); [lia|]. unfold srgb. rewrite Ef. cbn [require mbind result_bind].
  eexists. split; [reflexivity|].
  assert (isf (of_Q 255) 255) as Id.
  { destruct (isf_of_Q 255) as (F & W & V); [apply (Qabs_small _ 255); [lia|discriminate]|].
    split; [exact F|]. split; [exact W|]. rewrite V. apply (rnd_Z 255). lia. }
  assert (0 <= inject_Z n <= 255)%Q as [Q0 Q1].
  { change 255%Q with (inject_Z 255). split; [change 0%Q with (inject_Z 0)|]; apply inject_Z_le; lia. }
  assert (0 <= inject_Z n / 255)%Q as D0 by (apply Qle_shift_div_l; lra).
  assert (Qabs (inject_Z n / 255) <= inject_Z 1)%Q as D1.
  { rewrite Qabs_pos by done. apply Qle_shift_div_r; [done|]. change (inject_Z 1) with 1%Q. lra. }
  assert (isf (fdiv f (of_Q 255)) (rndQ (inject_Z n / 255))) as Iq.
  { apply isf_div; [done|done|discriminate|]. apply (Qabs_small _ 1); [lia|exact D1]. }
  split; [by eapply (isf_rnd_bnd _ _ 1)|]. unfold nonneg. destruct Iq as (_ & _ & ->). by apply rndQ_nonneg.
Qed.

Section Finite.
Context `{PL : PowLaws}.

Lemma to_linear_ok x : bnd 1 x → nonneg x → bnd 16 (to_linear x) ∧ nonneg (to_linear x).
Proof.
  intros Bx Nx. unfold to_linear. destruct (fle x _).
  - destruct (lit_ge1 (1292 # 100)) as (F & W & V); [discriminate..|]. split.
    + apply (bnd_le 1); [lia|]. apply bnd_div; [lia|assumption..].
    + apply (div_nonneg 1); [lia|assumption..].
  - destruct (lit_ge1 (1055 # 1000)) as (F & W & V); [discriminate..|].
    assert (bnd 1 (of_Q (55 # 1000))) as Bl by (apply lit_bnd; lit_bound).
    assert (nonneg (of_Q (55 # 1000))) as Nl by (apply (lit_range (55 # 1000) 1); [discriminate|discriminate|lia]).
    pose proof (bnd_add 1 1 x _ ltac:(lia) ltac:(lia) ltac:(lia) Bx Bl) as Bs.
    pose proof (add_nonneg 1 1 x _ ltac:(lia) ltac:(lia) ltac:(lia) Bx Bl Nx Nl) as Ns.
    destruct (lit_range (24 # 10) 3) as (F' & W' & R); [discriminate|discriminate|lia|].
    change 16 with (2 * 2 ^ 3). apply fpow_bound; try assumption; try lia; [apply bnd_div|apply (div_nonneg 2)]; (assumption || lia).
Qed.

Lemma hex_to_linear_ok h : colour_ok h → ∃ v, hex_to_linear h = Ok v ∧ vbnd 16 v ∧ vnonneg v.
Proof.
  intros (r & g & b & E & Hr & Hg & Hb). unfold hex_to_linear. rewrite E. cbn [mbind result_bind fst snd].
  destruct (srgb_ok r Hr) as (x & -> & Bx & Nx). destruct (srgb_ok g Hg) as (y & -> & By & Ny).
  destruct (srgb_ok b Hb) as (z & -> & Bz & Nz). cbn [mbind result_bind].
  eexists. split; [reflexivity|]. unfold vbnd, vnonneg. cbn [fst snd].
  split; split_and!; by apply to_linear_ok.
Qed.

Lemma lin3_bnd K B x y z v w u : 0 <= K → 0 <= B → 3 * (K * B) <= 2 ^ 53 → K <= 2 ^ 53 →
  (Qabs x <= inject_Z K)%Q → (Qabs y <= inject_Z K)%Q → (Qabs z <= inject_Z K)%Q →
  bnd B v → bnd B w → bnd B u → bnd (3 * (K * B)) (lin3 x y z v w u).
Proof.
  intros HK HB Hm HK2 Hx Hy Hz Hv Hw Hu. assert (0 <= K * B) by nia. unfold lin3.
  replace (3 * (K * B)) with ((K * B + K * B) + K * B) by lia.
  apply bnd_add; [lia|lia|lia| |apply bnd_mul; try done; try lia; by apply bnd_lit].
  apply bnd_add; [lia|lia|lia| |]; (apply bnd_mul; try done; try lia; by apply bnd_lit).
Qed.

Lemma cbrt_bnd B x : 1 <= B → 2 * B <= 2 ^ 53 → bnd B x → bnd (2 * B) (cbrt x).
Proof.
  intros HB Hm Hx. unfold cbrt. replace (2 * B) with (2 * B ^ 1) by lia.
  destruct (lit_range (1 # 3) 1) as (F & W & R); [discriminate|discriminate|lia|].
  apply fpow_bound; [lia|lia|lia|apply bnd_max; [exact Hx|apply bnd_zero; lia]|by eapply max_nonneg|assumption..].
Qed.

Lemma sq_bnd B d : 1 <= B → 2 * B ^ 2 <= 2 ^ 53 → bnd B d →
  bnd (2 * B ^ 2) (fpow d (of_Q 2)) ∧ nonneg (fpow d (of_Q 2)).
Proof.
  intros HB Hm Hd.
  assert (∀ x, bnd B x → nonneg x → bnd (2 * B ^ 2) (fpow x (of_Q 2)) ∧ nonneg (fpow x (of_Q 2))) as G.
  { intros x Hx Nx. destruct (lit_range 2 2) as (F & W & R); [discriminate|discriminate|lia|].
    apply fpow_bound; (lia || assumption). }
  destruct (Qlt_le_dec (fval d) 0) as [C|C]; [|by apply G].
  rewrite <- fpow_even. apply G; [by apply bnd_neg|]. unfold nonneg. rewrite fval_fneg. lra.
Qed.

Ltac side := first [lia | assumption | discriminate].

Lemma oklab_bnd v : vbnd 1024 v → vbnd 55296 (linear_to_oklab v).
Proof.
  destruct v as [[r g] b]. intros (Hr & Hg & Hb). cbn [fst snd] in *. unfold linear_to_oklab.
  set (l := lin3 _ _ _ r g b). set (m := lin3 _ _ _ r g b). set (s := lin3 _ _ _ r g b).
  assert (bnd 6144 (cbrt l)) as Hl by (apply (cbrt_bnd 3072); [lia|lia|]; apply (lin3_bnd 1 1024); side).
  assert (bnd 6144 (cbrt m)) as Hm by (apply (cbrt_bnd 3072); [lia|lia|]; apply (lin3_bnd 1 1024); side).
  assert (bnd 6144 (cbrt s)) as Hs by (apply (cbrt_bnd 3072); [lia|lia|]; apply (lin3_bnd 1 1024); side).
  clearbody l m s.
  assert (∀ q x, (Qabs q <= inject_Z 3)%Q → bnd 6144 x → bnd 18432 (fmul (of_Q q) x)) as G.
  { intros q x Hq Hx. apply (bnd_mul 3 6144); [lia|lia|lia| |done]. by apply bnd_lit. }
  split_and!; cbn [fst snd].
  - apply (bnd_sub 36864 18432); [lia|lia|lia| |apply G; side]. apply (bnd_add 18432 18432); [lia|lia|lia|apply G; side..].
  - apply (bnd_add 36864 18432); [lia|lia|lia| |apply G; side]. apply (bnd_sub 18432 18432); [lia|lia|lia|apply G; side..].
  - apply (bnd_sub 36864 18432); [lia|lia|lia| |apply G; side]. apply (bnd_add 18432 18432); [lia|lia|lia|apply G; side..].
Qed.
End Finite.

(** *** Distances *)

Section Distances.
Context `{PL : PowLaws} `{SL : SummationLaws}.

(** How large a distance can be. *)
Definition far : Z := 100 * (2 * (64 * (2 * 110592 ^ 2))).

Lemma sq_diff_bnd x y : bnd 55296 x → bnd 55296 y →
  bnd (2 * 110592 ^ 2) (sq_diff x y) ∧ nonneg (sq_diff x y).
Proof.
  intros Hx Hy. unfold sq_diff. apply (sq_bnd 110592); [lia|lia|].
  apply (bnd_sub 55296 55296); [lia|lia|lia|assumption..].
Qed.

Lemma delta_e_bnd a b : vbnd 1024 a → vbnd 1024 b → bnd far (delta_e a b).
Proof.
  intros Ha Hb. apply oklab_bnd in Ha as (A1 & A2 & A3). apply oklab_bnd in Hb as (B1 & B2 & B3).
  unfold delta_e. destruct (sq_diff_bnd _ _ A1 B1) as [S1 N1]. destruct (sq_diff_bnd _ _ A2 B2) as [S2 N2].
  destruct (sq_diff_bnd _ _ A3 B3) as [S3 N3]. set (l := [_; _; _]).
  assert (Forall (bnd (2 * 110592 ^ 2)) l) as Hl by (do 3 (constructor; [assumption|]); constructor).
  assert (Forall nonneg l) as Nl by (do 3 (constructor; [assumption|]); constructor).
  assert (length l <= 3)%nat as Ln by (cbn; lia). clearbody l.
  pose proof (fsum_bound l (2 * 110592 ^ 2) Ln ltac:(lia) Hl) as Bs. pose proof (fsum_nonneg l (2 * 110592 ^ 2) Ln ltac:(lia) Hl Nl) as Ns.
  destruct (lit_range (1 # 2) 1) as (F & W & R); [discriminate|discriminate|lia|].
  unfold far. apply bnd_mul; [lia|lia|lia|apply lit_bnd; lit_bound|].
  replace (2 * (64 * (2 * 110592 ^ 2))) with (2 * (64 * (2 * 110592 ^ 2)) ^ 1) by lia.
  apply fpow_bound; (assumption || lia).
Qed.

Definition row_ok (m : row3) : bool := Qle_bool (Qabs m.1.1) 1 && Qle_bool (Qabs m.1.2) 1 && Qle_bool (Qabs m.2) 1.

Lemma dot_bnd m v : row_ok m = true → vbnd 16 v → bnd 1024 (dot m v).
Proof.
  intros Hm (H1 & H2 & H3). unfold row_ok in Hm. rewrite !andb_true_iff, !Qle_bool_iff in Hm.
  destruct Hm as [[M1 M2] M3]. unfold dot. apply (fsum_bound _ 16); [cbn; lia|lia|].
  repeat (apply Forall_cons; split; [apply (bnd_mul 1 16); [lia|lia|lia| |assumption]; apply bnd_lit; [lia|assumption]|]).
  constructor.
Qed.

Lemma simulate_ok v k m : dget CVD k = Some m → vbnd 16 v → ∃ u, simulate v k = Ok u ∧ vbnd 1024 u.
Proof.
  intros E Hv. unfold simulate. rewrite E. cbn [require mbind result_bind]. eexists. split; [reflexivity|].
  assert (row_ok m.1.1 = true ∧ row_ok m.1.2 = true ∧ row_ok m.2 = true) as (R1 & R2 & R3).
  { apply dget_In in E. revert E. clear. intros E.
    assert (Forall (λ km : string * matrix, row_ok km.2.1.1 && row_ok km.2.1.2 && row_ok km.2.2 = true) CVD) as F
      by (repeat constructor).
    rewrite Forall_forall in F. apply F in E. cbn [snd] in E. by rewrite !andb_true_iff in E; destruct E as [[? ?] ?]. }
  split_and!; by apply dot_bnd.
Qed.

Lemma mapR_keyed {A} (f : string → result A) ks :
  (∀ k, k ∈ ks → ∃ y, f k = Ok y) → ∃ l, mapR (λ k, y ← f k; Ok (k, y)) ks = Ok l ∧ l.*1 = ks ∧ ∀ k y, (k, y) ∈ l → f k = Ok y.
Proof.
  induction ks as [|k ks IH]; intros G; [exists []; split_and!; set_solver|].
  destruct (G k) as (y & E); [by left|]. destruct IH as (l & El & Kl & Hl); [set_solver|].
  exists ((k, y) :: l). cbn [mapR]. rewrite E. cbn [mbind result_bind]. rewrite El. split; [done|].
  rewrite fmap_cons, Kl. split; [done|]. intros k' y' Hin. apply elem_of_cons in Hin as [[= -> ->]|Hin]; auto.
Qed.

(** The distances of two colours are finite. *)
Lemma distances_ok a b : vbnd 16 a → vbnd 16 b →
  ∃ normal sims, distances a b = Ok (normal, sims) ∧ sims.*1 = CVD.*1 ∧ bnd far normal ∧ Forall (bnd far) sims.*2.
Proof.
  intros Ha Hb. unfold distances.
  assert (∀ v, vbnd 16 v → vbnd 1024 v) as W by (intros v (? & ? & ?); split_and!; by apply (bnd_le 16)).
  pose (f k := sa ← simulate a k; sb ← simulate b k; Ok (delta_e sa sb)).
  assert (∀ k, k ∈ CVD.*1 → ∃ y, f k = Ok y ∧ bnd far y) as G.
  { intros k Hk. destruct (dget CVD k) as [m|] eqn:E; [|by apply dget_None in E].
    destruct (simulate_ok a k m E Ha) as (sa & Ea & Ba). destruct (simulate_ok b k m E Hb) as (sb & Eb & Bb).
    exists (delta_e sa sb). unfold f. rewrite Ea. cbn [mbind result_bind]. rewrite Eb. cbn [mbind result_bind].
    split; [reflexivity|by apply delta_e_bnd]. }
  destruct (mapR_keyed f CVD.*1) as (l & El & Kl & Hl); [intros k Hk; destruct (G k Hk) as (y & ? & _); by exists y|].
  exists (delta_e a b), l.
  assert (mapR (λ k, sa ← simulate a k; sb ← simulate b k; Ok (k, delta_e sa sb)) CVD.*1 = Ok l) as ->.
  { rewrite <- El. unfold f. clear. generalize CVD.*1. intros ks. induction ks as [|k ks IH]; [reflexivity|].
    cbn [mapR]. rewrite IH. destruct (simulate a k); [|reflexivity]. cbn [mbind result_bind].
    destruct (simulate b k); reflexivity. }
  cbn [mbind result_bind]. split; [reflexivity|]. split; [exact Kl|]. split; [apply delta_e_bnd; by apply W|].
  apply Forall_forall. intros y Hy. apply list_elem_of_fmap in Hy as ([k y'] & -> & Hin). cbn [snd].
  assert (k ∈ CVD.*1) as Hk by (rewrite <- Kl; apply list_elem_of_fmap; by exists (k, y')).
  destruct (G k Hk) as (y & E & B). apply Hl in Hin. rewrite E in Hin. by injection Hin as <-.
Qed.
End Distances.

(** ** The least of the distances *)

Lemma fmin_spec A x y : bnd A x → bnd A y → ∀ q, ((q <= fval (fmin x y)) ↔ (q <= fval x ∧ q <= fval y))%Q.
Proof.
  intros Hx Hy q. unfold fmin. pose proof (flt_isf y x _ _ (bnd_isf _ _ Hy) (bnd_isf _ _ Hx)) as E.
  destruct (flt y x).
  - assert (fval y < fval x)%Q by (by apply E). split; [intros; split; lra|intros [_ ?]; done].
  - assert (fval x <= fval y)%Q by (apply Qnot_lt_le; intros C; by apply E in C).
    split; [intros; split; lra|intros [? _]; done].
Qed.

Lemma min_of_spec A x l : bnd A x → Forall (bnd A) l →
  ∃ m, min_of (x :: l) = Ok m ∧ bnd A m ∧ ∀ q, ((q <= fval m) ↔ Forall (λ y, q <= fval y) (x :: l))%Q.
Proof.
  intros Hx Hl. unfold min_of. eexists. split; [reflexivity|]. revert x Hx.
  induction Hl as [|y l Hy Hl IH]; intros x Hx; cbn [foldl].
  - split; [done|]. intros q. rewrite Forall_cons. split; [intros; split; [done|constructor]|by intros [? _]].
  - destruct (IH (fmin x y)) as [B S]; [by apply bnd_min|]. split; [exact B|]. intros q.
    rewrite S, !Forall_cons, (fmin_spec A x y Hx Hy q). tauto.
Qed.

(** ** Verdicts against the thresholds *)

Lemma lit_value z : Z.abs z <= 2 ^ 53 → isf (of_Q (inject_Z z)) (inject_Z z).
Proof.
  intros Hz. destruct (isf_of_Q (inject_Z z)) as (F & W & V).
  { apply (Qabs_small _ (Z.abs z)); [lia|]. apply Qle_refl. }
  split; [exact F|]. split; [exact W|]. by rewrite V, rnd_Z.
Qed.

Lemma below A x z : bnd A x → Z.abs z <= 2 ^ 53 → flt x (of_Q (inject_Z z)) = false ↔ (inject_Z z <= fval x)%Q.
Proof.
  intros Hx Hz. pose proof (flt_isf x _ _ _ (bnd_isf _ _ Hx) (lit_value z Hz)) as E.
  destruct (flt x _); split; intros C; try done.
  - assert (fval x < inject_Z z)%Q by (by apply E). lra.
  - apply Qnot_lt_le. intros D. by apply E in D.
Qed.

(** A pair that passes, and one that fails: normal vision below 15, or some
    dichromat below 6. *)
Definition passes (normal : float) (sims : list float) : Prop :=
  (15 <= fval normal)%Q ∧ Forall (λ d, 8 <= fval d)%Q sims.
Definition tolerable (normal : float) (sims : list float) : Prop :=
  (15 <= fval normal)%Q ∧ Forall (λ d, 6 <= fval d)%Q sims.

Lemma verdict_spec A normal x sims m : bnd A normal → bnd A x → Forall (bnd A) sims → min_of (x :: sims) = Ok m →
  let sev := (verdict normal m).2 in
  (0 <= sev <= 2) ∧ (sev = 0 ↔ passes normal (x :: sims)) ∧ (sev <= 1 ↔ tolerable normal (x :: sims)).
Proof.
  intros Hn Hx Hs E sev. destruct (min_of_spec A x sims Hx Hs) as (m' & E' & Bm & S).
  rewrite E in E'. injection E' as <-. unfold passes, tolerable. rewrite <- !S.
  pose proof (below A normal 15 Hn ltac:(lia)) as T1. pose proof (below A m 6 Bm ltac:(lia)) as T2.
  pose proof (below A m 8 Bm ltac:(lia)) as T3. change (inject_Z 15) with 15%Q in T1.
  change (inject_Z 6) with 6%Q in T2. change (inject_Z 8) with 8%Q in T3.
  subst sev. unfold verdict, NORMAL_FLOOR, CVD_FLOOR, CVD_TARGET.
  assert (∀ P : Prop, true = false ↔ P → ¬ P) as No by (intros P [_ HP] C; by specialize (HP C)).
  assert (∀ P : Prop, false = false ↔ P → P) as Yes by (intros P [HP _]; by apply HP).
  destruct (flt normal _); [|apply Yes in T1; destruct (flt m (of_Q 6)); [|apply Yes in T2; destruct (flt m (of_Q 8))]].
  - apply No in T1. cbn [snd]. split; [lia|]. split; split; try lia; intros [? ?]; contradiction.
  - apply No in T2. cbn [snd]. split; [lia|]. split; split; try lia; intros [? C]; [|contradiction].
    exfalso. apply T2. lra.
  - apply No in T3. cbn [snd]. split; [lia|]. split; split; try lia; [intros [? ?]; contradiction|done].
  - apply Yes in T3. cbn [snd]. split; [lia|]. split; split; try lia; done.
Qed.

(** ** The loop over the pairs *)

Section Check.
Context `{PL : PowLaws} `{SL : SummationLaws}.

(** What the check sees of a pair of colours. *)
Definition seen (h h' : string) (normal : float) (sims : list float) : Prop :=
  ∃ a b l, hex_to_linear h = Ok a ∧ hex_to_linear h' = Ok b ∧ distances a b = Ok (normal, l) ∧ sims = l.*2.

Lemma seen_finite h h' : colour_ok h → colour_ok h' →
  ∃ normal sims, seen h h' normal sims ∧ is_fin normal = true ∧ Forall (λ d, is_fin d = true) sims.
Proof.
  intros Hh Hh'. destruct (hex_to_linear_ok h Hh) as (a & Ea & Ba & _).
  destruct (hex_to_linear_ok h' Hh') as (b & Eb & Bb & _).
  destruct (distances_ok a b Ba Bb) as (normal & l & Ed & _ & Bn & Bl). exists normal, l.*2.
  split; [by exists a, b, l|]. split; [by apply (bnd_isf far)|]. eapply Forall_impl; [exact Bl|].
  intros d Hd. by apply (bnd_isf far).
Qed.

(** The severity of a pair of hexadecimal colours. *)
Definition severity (h h' : string) : result Z :=
  a ← hex_to_linear h; b ← hex_to_linear h';
  d ← distances a b; m ← min_of d.2.*2; Ok (verdict d.1 m).2.

Lemma severity_ok h h' : colour_ok h → colour_ok h' →
  ∃ normal sims sev, seen h h' normal sims ∧ severity h h' = Ok sev ∧ 0 <= sev <= 2 ∧
    (sev = 0 ↔ passes normal sims) ∧ (sev <= 1 ↔ tolerable normal sims).
Proof.
  intros Hh Hh'. destruct (hex_to_linear_ok h Hh) as (a & Ea & Ba & _).
  destruct (hex_to_linear_ok h' Hh') as (b & Eb & Bb & _).
  destruct (distances_ok a b Ba Bb) as (normal & l & Ed & Kl & Bn & Bl).
  destruct l as [|[k x] l]; [discriminate Kl|]. rewrite fmap_cons in Bl. apply Forall_cons in Bl as [Bx Bl].
  destruct (min_of_spec far x l.*2 Bx Bl) as (m & Em & _ & _).
  destruct (verdict_spec far normal x l.*2 m Bn Bx Bl Em) as (V1 & V2 & V3).
  exists normal, (x :: l.*2), (verdict normal m).2. 
  split; [exists a, b, ((k, x) :: l); split; [exact Ea|split; [exact Eb|split; [exact Ed|reflexivity]]]|].
  split; [|exact (conj V1 (conj V2 V3))]. unfold severity. rewrite Ea. cbn [mbind result_bind]. rewrite Eb. cbn [mbind result_bind].
  rewrite Ed. cbn [mbind result_bind fst snd]. rewrite fmap_cons. cbn [snd]. rewrite Em. reflexivity.
Qed.

(** [lin] holds the linear values of the colours. *)
Definition lin_of (lin : list (string * vec)) (c : colour) : Prop :=
  ∃ v, hex_to_linear c.2 = Ok v ∧ dget lin c.1 = Some v.

Lemma dget_keys {V} (l : list (string * V)) k : k ∈ l.*1 → ∃ v, dget l k = Some v.
Proof. intros Hk. destruct (dget l k) eqn:E; [eauto|]. by apply dget_None in E. Qed.

Lemma pair_report_ok lin c c' : lin_of lin c → lin_of lin c' → colour_ok c.2 → colour_ok c'.2 →
  ∃ line sev, pair_report lin c.1 c'.1 = Ok (line, sev) ∧ severity c.2 c'.2 = Ok sev.
Proof.
  intros (a & Ea & La) (b & Eb & Lb) Hc Hc'.
  destruct (hex_to_linear_ok _ Hc) as (a' & Ea' & Ba & _). destruct (hex_to_linear_ok _ Hc') as (b' & Eb' & Bb & _).
  rewrite Ea in Ea'. injection Ea' as <-. rewrite Eb in Eb'. injection Eb' as <-.
  destruct (distances_ok a b Ba Bb) as (normal & l & Ed & Kl & Bn & Bl).
  assert (∀ k, k ∈ CVD.*1 → ∃ v, dget l k = Some v) as G by (intros k Hk; apply dget_keys; by rewrite Kl).
  destruct (G "protan") as (p & Ep); [by left|]. destruct (G "deutan") as (d & Edd); [right; by left|].
  destruct (G "tritan") as (t & Et); [right; right; by left|].
  destruct l as [|[k x] l]; [discriminate Kl|]. unfold pair_report, severity. rewrite La, Lb, Ea, Eb.
  cbn [require mbind result_bind]. rewrite Ed. cbn [mbind result_bind fst snd]. rewrite fmap_cons.
  cbn [snd min_of mbind result_bind]. rewrite Ep. cbn [require mbind result_bind]. rewrite Edd.
  cbn [require mbind result_bind]. rewrite Et. cbn [require mbind result_bind]. do 2 eexists. split; reflexivity.
Qed.

(** The worst severity of a list of pairs. *)
Definition worst (w : Z) (sevs : list Z) : Z := foldl Z.max w sevs.

Lemma worst_le w sevs n : worst w sevs <= n ↔ w <= n ∧ Forall (λ s, s <= n) sevs.
Proof.
  revert w. induction sevs as [|s sevs IH]; intros w; cbn [worst foldl].
  - split; [intros; split; [done|constructor]|by intros [? _]].
  - fold (worst (Z.max w s) sevs). rewrite IH, Forall_cons, Z.max_lub_iff. tauto.
Qed.

Lemma check_pairs_ok lin ps w :
  Forall (λ p : colour * colour, lin_of lin p.1 ∧ lin_of lin p.2 ∧ colour_ok p.1.2 ∧ colour_ok p.2.2) ps →
  ∃ lines sevs, says (check_pairs lin ps w) (Ok (worst w sevs)) lines [] ∧ length lines = length ps ∧
    Forall2 (λ p s, severity p.1.2 p.2.2 = Ok s) ps sevs.
Proof.
  intros Hp. revert w. induction Hp as [|[c c'] ps (L1 & L2 & C1 & C2) Hp IH]; intros w.
  - exists [], []. split; [apply says_ret|]. split; [done|constructor].
  - cbn [fst snd] in *. destruct (pair_report_ok lin c c' L1 L2 C1 C2) as (line & sev & Er & Es).
    destruct (IH (Z.max w sev)) as (lines & sevs & Hs & Hl & Hf). exists (line :: lines), (sev :: sevs).
    split; [|split; [cbn; by rewrite Hl|by constructor]]. cbn [check_pairs].
    apply (says_bind _ _ (line, sev) _ [] [] (line :: lines) []); [rewrite Er; apply says_lift|]. cbn [fst snd].
    apply (says_bind _ (λ _, check_pairs lin ps (Z.max w sev)) tt _ [line] [] lines []); [apply says_print|exact Hs].
Qed.

(** ** The whole check *)

(** Two-digit channels throughout, and a name stands for one colour. *)
Definition palette_ok (colours : list colour) : Prop :=
  Forall (λ c : colour, colour_ok c.2) colours ∧
  ∀ c c', c ∈ colours → c' ∈ colours → c.1 = c'.1 → c.2 = c'.2.

Lemma lin_rows_ok colours d : Forall (λ c : colour, colour_ok c.2) colours →
  ∃ lin, foldR lin_row d colours = Ok lin ∧
    (∀ name, name ∉ colours.*1 → dget lin name = dget d name) ∧
    (∀ name, name ∈ colours.*1 → ∃ h v, (name, h) ∈ colours ∧ hex_to_linear h = Ok v ∧ dget lin name = Some v).
Proof.
  intros Hc. revert d. induction Hc as [|[n h] colours Hh Hc IH]; intros d.
  - exists d. split; [done|]. split; [done|]. intros name Hin. by apply not_elem_of_nil in Hin.
  - cbn [snd] in Hh. destruct (hex_to_linear_ok h Hh) as (v & Ev & _ & _).
    destruct (IH (dset d n v)) as (lin & El & Ho & Hi). exists lin. split; [|split].
    + cbn [foldR]. assert (lin_row d (n, h) = Ok (dset d n v)) as -> by (unfold lin_row; cbn [fst snd]; rewrite Ev; reflexivity).
      exact El.
    + intros name Hn. rewrite fmap_cons, not_elem_of_cons in Hn. destruct Hn as [Hne Hn]. cbn [fst] in Hne.
      rewrite Ho by done. rewrite dget_dset. by rewrite decide_False.
    + intros name Hin. destruct (decide (name ∈ colours.*1)) as [Hin'|Hn].
      * destruct (Hi name Hin') as (h' & v' & ? & ? & ?). exists h', v'. split; [by right|done].
      * rewrite fmap_cons in Hin. apply elem_of_cons in Hin as [-> |Hin]; [|done]. cbn [fst] in *.
        exists h, v. split; [by left|]. split; [exact Ev|]. rewrite Ho by done. rewrite dget_dset.
        by rewrite decide_True.
Qed.

Lemma lin_table_ok colours : palette_ok colours → ∃ lin, lin_table colours = Ok lin ∧ Forall (lin_of lin) colours.
Proof.
  intros [Hc Hn]. destruct (lin_rows_ok colours [] Hc) as (lin & El & _ & Hi). exists lin. split; [exact El|].
  apply Forall_forall. intros c Hin. destruct (Hi c.1) as (h & v & Hh & Ev & Ed).
  { apply list_elem_of_fmap. by exists c. }
  exists v. split; [|exact Ed]. by rewrite (Hn c (c.1, h) Hin Hh eq_refl).
Qed.

Lemma combinations_elem {A} (l : list A) p : p ∈ combinations l → p.1 ∈ l ∧ p.2 ∈ l.
Proof.
  induction l as [|x l IH]; cbn [combinations]; intros Hp; [by apply not_elem_of_nil in Hp|].
  apply elem_of_app in Hp as [Hp|Hp].
  - apply list_elem_of_fmap in Hp as (y & -> & Hy). cbn [fst snd]. split; [by left|by right].
  - destruct (IH Hp). split; by right.
Qed.

Lemma combinations_length {A} (l : list A) :
  Z.of_nat (length (combinations l)) = Z.of_nat (length l) * (Z.of_nat (length l) - 1) / 2.
Proof.
  enough (2 * Z.of_nat (length (combinations l)) = Z.of_nat (length l) * (Z.of_nat (length l) - 1)) as <-.
  { rewrite Z.mul_comm. by rewrite Z.div_mul. }
  induction l as [|x l IH]; [done|]. cbn [combinations]. rewrite length_app, length_fmap. cbn [length]. lia.
Qed.

Lemma luminance_nonneg v : vbnd 16 v → vnonneg v → bnd 48 (relative_luminance v) ∧ nonneg (relative_luminance v).
Proof.
  intros (B1 & B2 & B3) (N1 & N2 & N3). unfold relative_luminance. split.
  - apply (lin3_bnd 1 16); first [lia|assumption|discriminate].
  - assert (∀ q x, (0 <= q)%Q → (q <= inject_Z 1)%Q → bnd 16 x → nonneg x →
      bnd 16 (fmul (of_Q q) x) ∧ nonneg (fmul (of_Q q) x)) as G.
    { intros q x H1 H2 Bx Nx. assert (bnd 1 (of_Q q)) as Bq by (apply bnd_lit; [lia|]; by rewrite Qabs_pos).
      destruct (lit_range q 1 H1 H2 ltac:(lia)) as (_ & _ & [Nq _]).
      split; [apply (bnd_mul 1 16)|apply (mul_nonneg 1 16)]; (lia || assumption). }
    destruct (G (2126 # 10000) v.1.1) as [X1 Y1]; [discriminate..|assumption|assumption|].
    destruct (G (7152 # 10000) v.1.2) as [X2 Y2]; [discriminate..|assumption|assumption|].
    destruct (G (722 # 10000) v.2) as [X3 Y3]; [discriminate..|assumption|assumption|].
    unfold lin3. apply (add_nonneg 32 16); [lia|lia|lia|apply (bnd_add 16 16); (lia || assumption)|assumption| |assumption].
    apply (add_nonneg 16 16); (lia || assumption).
Qed.

Lemma min_nonneg x y : nonneg x → nonneg y → nonneg (fmin x y).
Proof. unfold fmin. by destruct (flt y x). Qed.

(** The denominator of the contrast is at least 1/20 in size. *)
Lemma contrast_ok a b : vbnd 16 a → vnonneg a → vbnd 16 b → vnonneg b → ∃ k, contrast a b = Ok k.
Proof.
  intros Ba Na Bb Nb. destruct (luminance_nonneg a Ba Na) as [La Pa]. destruct (luminance_nonneg b Bb Nb) as [Lb Pb].
  unfold contrast. set (lo := fmin _ _). assert (bnd 48 lo) as Blo by by apply bnd_min.
  assert (nonneg lo) as Nlo by by apply min_nonneg. clearbody lo.
  assert (bnd 1 (of_Q (5 # 100))) as Bl by (apply lit_bnd; lit_bound).
  pose proof (bnd_add 48 1 lo _ ltac:(lia) ltac:(lia) ltac:(lia) Blo Bl) as Bd.
  rewrite (isf_not_zero _ _ (bnd_isf _ _ Bd)); [by eexists|].
  pose proof (add_rel 48 1 lo _ ltac:(lia) ltac:(lia) ltac:(lia) Blo Bl) as R. unfold nonneg in Nlo.
  assert ((1 # 100) <= fval (of_Q (5 # 100)))%Q as Hl by (apply Qle_bool_iff; vm_compute; reflexivity).
  assert (pow2 (-52) <= 1 # 2)%Q as E52 by (apply Qle_bool_iff; vm_compute; reflexivity).
  set (u := (fval lo + fval (of_Q (5 # 100)))%Q) in *. assert ((1 # 100) <= u)%Q as Hu by (unfold u; lra).
  rewrite (Qabs_pos u) in R by lra. assert (u * pow2 (-52) <= u * (1 # 2))%Q by (apply Qmult_le_compat_l'; lra).
  apply Qabs_Qle_condition in R. intros C. lra.
Qed.

Lemma contrast_lines_ok lin surf colours :
  vbnd 16 surf → vnonneg surf → Forall (lin_of lin) colours → Forall (λ c : colour, colour_ok c.2) colours →
  ∃ lines, says (mapM_ (λ c, l ← lift (contrast_line lin surf c); print l) colours) (Ok tt) lines [] ∧
    length lines = length colours.
Proof.
  intros Bs Ns Hl Hc. induction Hl as [|c colours (v & Ev & Ed) Hl IH]; [exists []; split; [apply says_ret|done]|].
  apply Forall_cons in Hc as [Hc Hcs]. destruct (IH Hcs) as (lines & S & L).
  destruct (hex_to_linear_ok _ Hc) as (v' & Ev' & Bv & Nv). rewrite Ev in Ev'. injection Ev' as <-.
  destruct (contrast_ok v surf Bv Nv Bs Ns) as (k & Ek).
  assert (∃ line, contrast_line lin surf c = Ok line) as (line & El).
  { unfold contrast_line. rewrite Ed. cbn [require mbind result_bind]. rewrite Ek. by eexists. }
  exists (line :: lines). split; [|cbn; by rewrite L]. cbn [mapM_].
  apply (says_bind _ _ tt _ [line] [] lines []); [|exact S].
  apply (says_bind _ _ line _ [] [] [line] []); [rewrite El; apply says_lift|apply says_print].
Qed.

Lemma says_quiet {A} (m : M A) r l e : says m r l e → e = [] → says m r l [].
Proof. by intros Hs <-. Qed.

(** What a check of a well-formed palette does. *)
Lemma check_ok colours s : palette_ok colours → colour_ok s →
  ∃ lines sevs, says (check colours s) (Ok (worst 0 sevs)) lines [] ∧
    length lines = (3 + length (combinations colours) + length colours)%nat ∧
    Forall2 (λ p z, severity p.1.2 p.2.2 = Ok z) (combinations colours) sevs.
Proof.
  intros Hp Hs. destruct (lin_table_ok colours Hp) as (lin & El & Hl). destruct Hp as [Hc Hn].
  destruct (hex_to_linear_ok s Hs) as (surf & Es & Bs & Ns).
  destruct (check_pairs_ok lin (combinations colours) 0) as (l1 & sevs & S1 & L1 & F1).
  { apply Forall_forall. intros p Hin. apply combinations_elem in Hin as [H1 H2].
    rewrite Forall_forall in Hl, Hc. auto. }
  destruct (contrast_lines_ok lin surf colours Bs Ns Hl Hc) as (l2 & S2 & L2).
  eexists _, sevs. split; [|split; [|exact F1]].
  - eapply says_quiet. { unfold check. eapply says_bind; [rewrite El; apply says_lift|]. cbv zeta.
    eapply says_bind; [apply says_print|]. cbv beta. eapply says_bind; [apply says_print|]. cbv beta.
    eapply says_bind; [exact S1|]. cbv beta. eapply says_bind; [apply says_print|]. cbv beta.
    eapply says_bind; [rewrite Es; apply says_lift|]. cbv beta.
    eapply says_bind; [exact S2|]. cbv beta. apply says_ret. }
    reflexivity.
  - rewrite !length_app. cbn [length]. rewrite L1, L2. lia.
Qed.
End Check.

(** ** Theorems on the check *)

(** The exit status, from the severities of the pairs. *)
Lemma Forall2_severity `{PL : PowLaws} `{SL : SummationLaws} (ps : list (colour * colour)) sevs n :
  Forall2 (λ p s, severity p.1.2 p.2.2 = Ok s) ps sevs →
  (Forall (λ s, s <= n) sevs ↔ ∀ p s, p ∈ ps → severity p.1.2 p.2.2 = Ok s → s <= n).
Proof.
  intros F. split.
  - intros Hs p s Hp E. apply list_elem_of_lookup in Hp as (i & Hi).
    destruct (Forall2_lookup_l _ _ _ _ _ F Hi) as (s' & Hi' & E'). rewrite E in E'. injection E' as <-.
    rewrite Forall_forall in Hs. apply Hs. by eapply list_elem_of_lookup_2.
  - intros G. apply Forall_forall. intros s Hs. apply list_elem_of_lookup in Hs as (i & Hi).
    destruct (Forall2_lookup_r _ _ _ _ _ F Hi) as (p & Hi' & E). apply (G p); [by eapply list_elem_of_lookup_2|done].
Qed.

(** What a bound on the severities says of the pairs. *)
Lemma pairs_bounded `{PL : PowLaws} `{SL : SummationLaws} (ps : list (colour * colour)) n (P : float → list float → Prop) :
  (∀ p, p ∈ ps → ∃ normal sims sev, seen p.1.2 p.2.2 normal sims ∧ severity p.1.2 p.2.2 = Ok sev ∧
     (sev <= n ↔ P normal sims)) →
  (∀ p s, p ∈ ps → severity p.1.2 p.2.2 = Ok s → s <= n) ↔
  (∀ p, p ∈ ps → ∃ normal sims, seen p.1.2 p.2.2 normal sims ∧ P normal sims).
Proof.
  intros G. split; intros K p.
  - intros Hp. destruct (G p Hp) as (normal & sims & sev & S & E & V). exists normal, sims. split; [exact S|].
    apply V. by apply (K p).
  - intros s Hp E. destruct (G p Hp) as (normal & sims & sev & S & E' & V). rewrite E in E'. injection E' as <-.
    apply V. destruct (K p Hp) as (normal' & sims' & S' & HP).
    destruct S as (a & b & l & E1 & E2 & E3 & ->). destruct S' as (a' & b' & l' & E1' & E2' & E3' & ->).
    rewrite E1 in E1'. injection E1' as <-. rewrite E2 in E2'. injection E2' as <-.
    rewrite E3 in E3'. injection E3' as <- <-. exact HP.
Qed.

(** C4 The exit status says exactly what the thresholds say, for every
    palette of two-digit hexadecimal colours: the check completes, prints one
    line per pair and one per colour, and returns 0 if and only if every pair
    is at least 15 apart for normal vision and 8 for each dichromat, and less
    than 2 if and only if every pair is at least 15 and 6 apart.  All
    distances are finite floats, with either version of [sum]. *)
Theorem status_exact `{PowLaws} `{SummationLaws} colours s :
  palette_ok colours → colour_ok s →
  ∃ n lines, says (check colours s) (Ok n) lines [] ∧ 0 <= n <= 2 ∧
    Z.of_nat (length lines) =
      3 + Z.of_nat (length colours) * (Z.of_nat (length colours) - 1) / 2 + Z.of_nat (length colours) ∧
    (∀ p, p ∈ combinations colours → ∃ normal sims, seen p.1.2 p.2.2 normal sims ∧
       is_fin normal = true ∧ Forall (λ d, is_fin d = true) sims) ∧
    (n = 0 ↔ ∀ p, p ∈ combinations colours → ∃ normal sims, seen p.1.2 p.2.2 normal sims ∧ passes normal sims) ∧
    (n <= 1 ↔ ∀ p, p ∈ combinations colours → ∃ normal sims, seen p.1.2 p.2.2 normal sims ∧ tolerable normal sims).
Proof.
  intros Hp Hs. destruct (check_ok colours s Hp Hs) as (lines & sevs & S & L & F). destruct Hp as [Hc _].
  exists (worst 0 sevs), lines. split; [exact S|].
  assert (∀ p, p ∈ combinations colours → ∃ normal sims sev, seen p.1.2 p.2.2 normal sims ∧
    severity p.1.2 p.2.2 = Ok sev ∧ 0 <= sev <= 2 ∧ (sev = 0 ↔ passes normal sims) ∧ (sev <= 1 ↔ tolerable normal sims)) as G.
  { intros p Hin. apply combinations_elem in Hin as [Hi1 Hi2]. rewrite Forall_forall in Hc. by apply severity_ok; apply Hc. }
  assert (0 <= worst 0 sevs) as W0 by (apply (worst_le 0 sevs (worst 0 sevs)); lia).
  split; [split; [exact W0|]|split; [rewrite L, <- combinations_length; lia|split; [|split]]].
  - apply worst_le. split; [lia|]. apply (Forall2_severity _ _ _ F). intros p z Hin E.
    destruct (G p Hin) as (_ & _ & sev & _ & E' & B & _). rewrite E in E'. injection E' as <-. lia.
  - intros p Hin. apply combinations_elem in Hin as [Hi1 Hi2]. rewrite Forall_forall in Hc. by apply seen_finite; apply Hc.
  - rewrite <- (pairs_bounded (combinations colours) 0).
    + rewrite <- (Forall2_severity _ _ 0 F). split.
      * intros E. apply (worst_le 0 sevs 0). lia.
      * intros E. assert (worst 0 sevs <= 0) by (apply worst_le; split; [lia|done]). lia.
    + intros p Hin. destruct (G p Hin) as (normal & sims & sev & Hse & E & B & V & _). exists normal, sims, sev.
      split; [exact Hse|]. split; [exact E|]. rewrite <- V. lia.
  - rewrite <- (pairs_bounded (combinations colours) 1).
    + rewrite <- (Forall2_severity _ _ 1 F), worst_le. split; [by intros [_ ?]|intros; split; [lia|done]].
    + intros p Hin. destruct (G p Hin) as (normal & sims & sev & Hse & E & B & _ & V). by exists normal, sims, sev.
Qed.

(** ** The order of the colours *)

Lemma frnd_comp s p q : (0 <= p)%Q → (p == q)%Q → frnd s p = frnd s q.
Proof.
  intros Hp E. unfold frnd. destruct (Qeq_bool p 0) eqn:Ep, (Qeq_bool q 0) eqn:Eq; try done.
  - apply Qeq_bool_eq in Ep. apply Qeq_bool_neq in Eq. rewrite E in Ep. contradiction.
  - apply Qeq_bool_eq in Eq. apply Qeq_bool_neq in Ep. rewrite E in Ep. contradiction.
  - apply Qeq_bool_neq in Ep. assert (0 < p)%Q as Hp0 by lra.
    assert (mant p = mant q) as -> by (unfold mant; rewrite (cexp_comp p q Hp0 E); apply Z.le_antisymm; apply rne_mono; rewrite E; apply Qle_refl).
    by rewrite (cexp_comp p q Hp0 E).
Qed.

Lemma frnd_negb s q : frnd (negb s) q = fneg (frnd s q).
Proof.
  unfold frnd. destruct (Qeq_bool q 0); [done|]. destruct (mant q =? 2 ^ 53); destruct (971 <? _); done.
Qed.

Lemma of_Q_opp p q : (q == - p)%Q → ~ (p == 0)%Q → of_Q q = fneg (of_Q p).
Proof.
  intros E Hp. unfold of_Q. rewrite (frnd_comp _ (Qabs q) (Qabs p)); [|apply Qabs_nonneg|rewrite E; apply Qabs_opp].
  rewrite <- frnd_negb. f_equal. unfold Qneg. rewrite negb_involutive.
  destruct (Qle_bool 0 q) eqn:Eq, (Qle_bool 0 p) eqn:Ep; try done.
  - apply Qle_bool_iff in Eq, Ep. exfalso. apply Hp. lra.
  - assert (¬ (0 <= q)%Q) as C by (rewrite <- Qle_bool_iff; by rewrite Eq).
    assert (¬ (0 <= p)%Q) as D by (rewrite <- Qle_bool_iff; by rewrite Ep). exfalso.
    apply Qnot_le_lt in C. apply Qnot_le_lt in D. lra.
Qed.

(** Swapping the operands of a subtraction changes at most the sign. *)
Lemma fsub_swap x y : fsub y x = fsub x y ∨ fsub y x = fneg (fsub x y).
Proof.
  unfold fsub. destruct x as [s m e|s|], y as [t n k|t|]; try (left; reflexivity); try (right; reflexivity).
  - cbn [fadd fneg]. set (p := (fval (Fin s m e) + fval (Fin (negb t) n k))%Q).
    set (q := (fval (Fin t n k) + fval (Fin (negb s) m e))%Q).
    assert (q == - p)%Q as E.
    { unfold p, q. rewrite !fval_Fin. destruct s, t; cbn [negb signed]; ring. }
    destruct (Qeq_bool p 0) eqn:Ep, (Qeq_bool q 0) eqn:Eq.
    + destruct s, t; (left; reflexivity) || (right; reflexivity).
    + apply Qeq_bool_eq in Ep. apply Qeq_bool_neq in Eq. exfalso. apply Eq. rewrite E, Ep. reflexivity.
    + apply Qeq_bool_eq in Eq. apply Qeq_bool_neq in Ep. exfalso. apply Ep. rewrite E in Eq. lra.
    + right. apply of_Q_opp; [exact E|]. by apply Qeq_bool_neq.
  - right. cbn. by rewrite negb_involutive.
  - destruct s, t; (left; reflexivity) || (right; reflexivity).
Qed.

Section Order.
Context `{PL : PowLaws} `{SL : SummationLaws}.

Lemma sq_diff_sym x y : sq_diff x y = sq_diff y x.
Proof. unfold sq_diff. destruct (fsub_swap x y) as [-> | ->]; [done|]. by rewrite fpow_even. Qed.

Lemma delta_e_sym a b : delta_e a b = delta_e b a.
Proof. unfold delta_e. by rewrite (sq_diff_sym (linear_to_oklab a).1.1), (sq_diff_sym (linear_to_oklab a).1.2), (sq_diff_sym (linear_to_oklab a).2). Qed.

Lemma simulate_total a b k : (∃ u, simulate a k = Ok u) → ∃ u, simulate b k = Ok u.
Proof. unfold simulate. destruct (dget CVD k); intros (u & E); [by eexists|discriminate E]. Qed.

Lemma distances_sym a b : distances a b = distances b a.
Proof.
  unfold distances. rewrite (delta_e_sym a b).
  enough (∀ ks, mapR (λ k, sa ← simulate a k; sb ← simulate b k; Ok (k, delta_e sa sb)) ks
    = mapR (λ k, sa ← simulate b k; sb ← simulate a k; Ok (k, delta_e sa sb)) ks) as G by (by rewrite G).
  induction ks as [|k ks IH]; [done|]. cbn [mapR]. rewrite IH. unfold simulate.
  destruct (dget CVD k); [|done]. cbn [require mbind result_bind]. by rewrite delta_e_sym.
Qed.

Lemma severity_sym h h' : colour_ok h → colour_ok h' → severity h h' = severity h' h.
Proof.
  intros Hh Hh'. destruct (hex_to_linear_ok h Hh) as (a & Ea & _). destruct (hex_to_linear_ok h' Hh') as (b & Eb & _).
  unfold severity. rewrite Ea, Eb. cbn [mbind result_bind]. by rewrite distances_sym.
Qed.

(** The pairs of a permuted list are the same up to their own order. *)
Lemma combinations_cons {A} (x : A) l p : p ∈ combinations (x :: l) ↔ (p.1 = x ∧ p.2 ∈ l) ∨ p ∈ combinations l.
Proof.
  cbn [combinations]. rewrite elem_of_app, list_elem_of_fmap. destruct p as [u v]. cbn [fst snd]. split.
  - intros [(y & [= -> ->] & Hy)|?]; [by left|by right].
  - intros [[-> Hv]|?]; [left; by exists v|by right].
Qed.

Lemma combinations_perm {A} (l l' : list A) : l ≡ₚ l' → ∀ u v, (u, v) ∈ combinations l →
  (u, v) ∈ combinations l' ∨ (v, u) ∈ combinations l'.
Proof.
  induction 1 as [|x l l' P IH|x y l|l1 l2 l3 P1 IH1 P2 IH2]; intros u v; [by left|..].
  - rewrite !combinations_cons. cbn [fst snd]. intros [[? Hv]|Hin]; [rewrite P in Hv; left; by left|].
    destruct (IH u v Hin); [left|right]; by right.
  - rewrite !combinations_cons. cbn [fst snd]. rewrite !elem_of_cons. intros [[-> [->|?]]|[[-> ?]|?]].
    + right. left. split; [done|by left].
    + left. right. by left.
    + left. left. split; [done|by right].
    + left. right. by right.
  - intros Hin. destruct (IH1 u v Hin) as [Hin'|Hin']; [by apply IH2|]. destruct (IH2 v u Hin'); [by right|by left].
Qed.

Lemma perm_bounded (l l' : list colour) n :
  Forall (λ c : colour, colour_ok c.2) l → l ≡ₚ l' →
  (∀ p s, p ∈ combinations l' → severity p.1.2 p.2.2 = Ok s → s <= n) →
  ∀ p s, p ∈ combinations l → severity p.1.2 p.2.2 = Ok s → s <= n.
Proof.
  intros Hc P K [u v] s Hin E. cbn [fst snd] in E. pose proof (combinations_elem _ _ Hin) as [Hu Hv]. cbn [fst snd] in Hu, Hv.
  rewrite Forall_forall in Hc. destruct (combinations_perm l l' P u v Hin) as [Hin'|Hin'].
  - by apply (K (u, v)).
  - apply (K (v, u)); [done|]. cbn [fst snd]. by rewrite severity_sym by (by apply Hc).
Qed.
End Order.

Lemma palette_perm l l' : l ≡ₚ l' → palette_ok l → palette_ok l'.
Proof.
  intros P [Hc Hn]. split; [by rewrite <- P|]. intros c c' Hin Hin'. rewrite <- P in Hin, Hin'. by apply Hn.
Qed.

(** C39 The verdict does not depend on the order in which the colours are
    listed: the distances are symmetric to the last bit, so any permutation
    of the palette gives the same exit status. *)
Theorem status_order `{PowLaws} `{SummationLaws} colours colours' s :
  palette_ok colours → colour_ok s → colours ≡ₚ colours' →
  ∃ n lines lines', says (check colours s) (Ok n) lines [] ∧ says (check colours' s) (Ok n) lines' [].
Proof.
  intros Hp Hs P. destruct (check_ok colours s Hp Hs) as (lines & sevs & S & _ & F).
  destruct (check_ok colours' s (palette_perm _ _ P Hp) Hs) as (lines' & sevs' & S' & _ & F').
  exists (worst 0 sevs), lines, lines'. split; [exact S|].
  assert (worst 0 sevs = worst 0 sevs') as ->; [|exact S'].
  assert (∀ n, worst 0 sevs <= n ↔ worst 0 sevs' <= n) as G.
  { intros n. rewrite !worst_le, (Forall2_severity _ _ n F), (Forall2_severity _ _ n F').
    split; (intros [? K]; split; [done|]); (eapply perm_bounded; [|..|exact K]).
    - apply (palette_perm _ _ P Hp).
    - by symmetry.
    - apply Hp.
    - exact P. }
  pose proof (proj1 (G (worst 0 sevs)) ltac:(lia)). pose proof (proj2 (G (worst 0 sevs')) ltac:(lia)). lia.
Qed.

(** ** A colour listed twice *)

Lemma fsub_self B x : bnd B x → fsub x x = fzero false.
Proof.
  intros (F & _). destruct x as [s m e| |]; try discriminate F. unfold fsub. cbn [fneg fadd].
  assert (Qeq_bool (fval (Fin s m e) + fval (Fin (negb s) m e)) 0 = true) as ->.
  { apply Qeq_bool_iff. rewrite !fval_Fin. destruct s; cbn [negb signed]; ring. }
  by destruct s.
Qed.

Section Twice.
Context `{PL : PowLaws} `{SL : SummationLaws}.

Lemma delta_e_self a : vbnd 1024 a → delta_e a a = fzero false.
Proof.
  intros Ha. apply oklab_bnd in Ha as (B1 & B2 & B3). unfold delta_e, sq_diff.
  rewrite (fsub_self _ _ B1), (fsub_self _ _ B2), (fsub_self _ _ B3).
  assert (∀ q, (0 < fval (of_Q q))%Q → is_fin (of_Q q) = true → fpow (fzero false) (of_Q q) = fzero false) as Z.
  { intros q Hq Fq. by apply fpow_zero. }
  rewrite (Z 2%Q), fsum_zeros, (Z (1 # 2)); vm_compute; reflexivity.
Qed.

Lemma severity_self h : colour_ok h → severity h h = Ok 2.
Proof.
  intros Hh. destruct (severity_ok h h Hh Hh) as (normal & sims & sev & (a & b & l & Ea & Eb & Ed & ->) & E & B & _ & V).
  rewrite E. f_equal. rewrite Ea in Eb. injection Eb as <-.
  destruct (hex_to_linear_ok h Hh) as (a' & Ea' & Ba & _). rewrite Ea in Ea'. injection Ea' as <-.
  assert (normal = fzero false) as ->.
  { unfold distances in Ed. apply bind_Ok in Ed as (l' & _ & Ed). injection Ed as <- <-. apply delta_e_self.
    destruct Ba as (? & ? & ?). split_and!; by apply (bnd_le 16). }
  destruct (Z_le_gt_dec sev 1) as [C|C]; [|lia]. apply V in C as [C _]. exfalso. revert C. vm_compute. intros C. by apply C.
Qed.

Lemma check_twice l1 l2 l3 (c c' : colour) s : palette_ok (l1 ++ c :: l2 ++ c' :: l3) → colour_ok s → channels c.2 = channels c'.2 →
  ∃ lines, says (check (l1 ++ c :: l2 ++ c' :: l3) s) (Ok 2) lines [].
Proof.
  intros Hp Hs Ecc. destruct (check_ok _ s Hp Hs) as (lines & sevs & S & _ & F). exists lines.
  assert ((c, c') ∈ combinations (l1 ++ c :: l2 ++ c' :: l3)) as Hin.
  { clear. induction l1 as [|x l1 IH]; cbn [app]; apply combinations_cons; cbn [fst snd]; [|by right].
    left. split; [done|]. apply elem_of_app. right. by left. }
  destruct Hp as [Hc _]. pose proof (proj1 (Forall_forall _ _) Hc) as Hc'.
  assert (severity c.2 c'.2 = Ok 2) as E2.
  { assert (hex_to_linear c'.2 = hex_to_linear c.2) as El by (unfold hex_to_linear; by rewrite Ecc).
    assert (severity c.2 c'.2 = severity c.2 c.2) as -> by (unfold severity; by rewrite El).
    apply severity_self, Hc'. apply elem_of_app. right. by left. }
  assert (worst 0 sevs = 2) as <-; [|exact S].
  assert (worst 0 sevs <= 2).
  { apply worst_le. split; [lia|]. apply (Forall2_severity _ _ 2 F). intros p z Hp E.
    apply combinations_elem in Hp as [Hu Hv].
    destruct (severity_ok _ _ (Hc' _ Hu) (Hc' _ Hv)) as (_ & _ & sev & _ & E' & B & _).
    rewrite E in E'. injection E' as <-. lia. }
  assert (¬ worst 0 sevs <= 1); [|lia].
  rewrite worst_le, (Forall2_severity _ _ 1 F). intros [_ K]. specialize (K (c, c') 2 Hin E2). lia.
Qed.
End Twice.

(** C40 A colour listed twice never passes: when two entries of the command
    line have the same channels, however they are spelled, the run ends with
    status 2. *)
Theorem duplicate_fails `{PowLaws} `{SummationLaws} args l1 c l2 c' l3 :
  entries args = l1 ++ c :: l2 ++ c' :: l3 → palette_ok (entries args) → channels c.2 = channels c'.2 →
  ∃ lines, says (script args) (Err (SystemExit 2)) lines [].
Proof.
  intros E Hp Ec. rewrite E in Hp.
  assert (colour_ok surface) as Hs by (exists 252, 252, 251; split; [vm_compute; reflexivity|lia]).
  destruct (check_twice l1 l2 l3 c c' surface Hp Hs Ec) as (lines & S). exists (lines ++ []).
  unfold script. rewrite E. apply (says_bind _ _ 2 _ lines [] [] []); [exact S|]. intros w. unfold raise.
  destruct w as [fs o e]. cbn [files out err]. by rewrite !app_nil_r.
Qed.

(** ** A power function for the witnesses *)

(** Between whole exponents it takes the next one. *)
Definition demo_pow : Pow := λ x y,
  let x := fabs x in
  if Qle_bool (fval y) 0 then of_Q 1
  else if Qle_bool (fval y) 1 then x
  else if Qle_bool (fval y) 2 then fmul x x
  else fmul (fmul x x) x.

Lemma fabs_bnd B x : bnd B x → nonneg x → bnd B (fabs x) ∧ nonneg (fabs x).
Proof.
  intros (F & W & V & G) Nx. destruct x as [s m e| |]; try discriminate F. cbn [fabs].
  assert (fval (Fin false m e) == fval (Fin s m e))%Q as E.
  { unfold nonneg in Nx. rewrite fval_Fin in *. destruct s; [|reflexivity]. cbn [signed] in *.
    assert (0 <= inject_Z m * pow2 e)%Q.
    { apply Qmult_le_0_compat; [by apply inject_Z_nonneg|]. by apply Qlt_le_weak, pow2_pos. }
    rewrite fval_Fin. cbn [signed]. lra. }
  unfold bnd, nonneg. rewrite E. done.
Qed.

#[export] Instance demo_pow_laws : @PowLaws demo_pow.
Proof.
  split.
  - intros x y B k HB Hk Hm Hx Nx Fy Wy [Y0 Y1]. unfold fpow, demo_pow.
    destruct (fabs_bnd B x Hx Nx) as [Bx Px]. generalize dependent (fabs x). intros z Bz Pz.
    assert (∀ j, 0 <= j <= k → B ^ j <= B ^ k) as Mono by (intros j Hj; apply Z.pow_le_mono_r; lia).
    assert (∀ q, Qle_bool (fval y) (inject_Z q) = false → q < k) as Up.
    { intros q E. assert (¬ (fval y <= inject_Z q)%Q) as C by (rewrite <- Qle_bool_iff; by rewrite E).
      apply Qnot_le_lt in C. rewrite Zlt_Qlt. lra. }
    assert (1 <= B ^ k) by (rewrite <- (Z.pow_0_r B) at 1; apply Mono; lia).
    destruct (Qle_bool (fval y) 0) eqn:E0.
    { split; [|vm_compute; discriminate]. apply (bnd_le 1); [lia|]. apply lit_bnd; lit_bound. }
    pose proof (Up 0 E0). pose proof (Mono 1 ltac:(lia)) as M1. rewrite Z.pow_1_r in M1.
    destruct (Qle_bool (fval y) 1) eqn:E1; [split; [apply (bnd_le B); [lia|done]|done]|].
    pose proof (Up 1 E1). pose proof (Mono 2 ltac:(lia)) as M2. replace (B ^ 2) with (B * B) in M2 by lia.
    assert (bnd (B * B) (fmul z z) ∧ nonneg (fmul z z)) as [B2 P2].
    { split; [apply bnd_mul|apply (mul_nonneg B B)]; (lia || assumption). }
    destruct (Qle_bool (fval y) 2) eqn:E2; [split; [apply (bnd_le (B * B)); [lia|done]|done]|].
    pose proof (Up 2 E2). pose proof (Mono 3 ltac:(lia)) as M3. replace (B ^ 3) with (B * B * B) in M3 by lia.
    split; [apply (bnd_le (B * B * B)); [lia|]; apply bnd_mul|apply (mul_nonneg (B * B) B)]; (lia || nia || assumption).
  - intros x. unfold fpow, demo_pow. assert (fabs (fneg x) = fabs x) as -> by (by destruct x). reflexivity.
  - intros y Fy Hy. unfold fpow, demo_pow. cbn [fabs fzero].
    assert (Qle_bool (fval y) 0 = false) as ->.
    { destruct (Qle_bool (fval y) 0) eqn:E; [|done]. apply Qle_bool_iff in E. lra. }
    destruct (Qle_bool (fval y) 1); [done|]. destruct (Qle_bool (fval y) 2); vm_compute; reflexivity.
Qed.

(** ** Colours as they are written *)

Definition hex_digit (d : Z) : ascii := ascii_of_nat (Z.to_nat (if d <? 10 then 48 + d else 87 + d)).
Definition hex2 (n : Z) (s : string) : string := String (hex_digit (n / 16)) (String (hex_digit (n mod 16)) s).
Definition hex_colour (r g b : Z) : string := String "#"%char (hex2 r (hex2 g (hex2 b EmptyString))).

Definition digit_checks (d : Z) : bool :=
  negb (is_cont (hex_digit d)) && negb (Ascii.eqb (hex_digit d) "#"%char).

Lemma digits_checked : Forall (λ d, digit_checks d = true) (seqZ 0 16).
Proof. apply (bool_decide_unpack _). vm_compute. exact I. Qed.
Lemma bytes_checked : Forall (λ n, hex_of_str (hex2 n EmptyString) = Some n) (seqZ 0 256).
Proof. apply (bool_decide_unpack _). vm_compute. exact I. Qed.

Lemma byte_digits n : 0 <= n <= 255 →
  is_cont (hex_digit (n / 16)) = false ∧ is_cont (hex_digit (n mod 16)) = false ∧
  Ascii.eqb (hex_digit (n / 16)) "#"%char = false ∧ hex_of_str (hex2 n EmptyString) = Some n.
Proof.
  intros Hn. pose proof digits_checked as D. pose proof bytes_checked as B. rewrite Forall_forall in D, B.
  assert (0 <= n / 16 < 16) by (split; [apply Z.div_pos; lia|apply Z.div_lt_upper_bound; lia]).
  pose proof (Z.mod_pos_bound n 16 ltac:(lia)).
  pose proof (D (n / 16)) as D1. pose proof (D (n mod 16)) as D2. rewrite elem_of_seqZ in D1, D2.
  specialize (D1 ltac:(lia)). specialize (D2 ltac:(lia)). unfold digit_checks in D1, D2.
  apply andb_true_iff in D1 as [C1 N1]. apply andb_true_iff in D2 as [C2 _]. rewrite negb_true_iff in C1, N1, C2.
  split; [done|]. split; [done|]. split; [done|]. apply B, elem_of_seqZ. lia.
Qed.

Lemma chars_digit c s : is_cont c = false → (∀ c2 t l, chars s = String c2 t :: l → is_cont c2 = false) →
  chars (String c s) = String c EmptyString :: chars s ∧
  ∀ c2 t l, chars (String c s) = String c2 t :: l → is_cont c2 = false.
Proof.
  intros Hc Hs. assert (chars (String c s) = String c EmptyString :: chars s) as E.
  { cbn [chars]. destruct (chars s) as [|[|c2 t] l] eqn:E; [done|done|]. by rewrite (Hs c2 t l). }
  split; [exact E|]. rewrite E. by intros c2 t l [= <- <- <-].
Qed.

(** Every [#rrggbb] is a colour of the check, with the channels it shows. *)
Lemma hex_colour_ok r g b : 0 <= r <= 255 → 0 <= g <= 255 → 0 <= b <= 255 →
  channels (hex_colour r g b) = Ok (r, g, b) ∧ colour_ok (hex_colour r g b).
Proof.
  intros Hr Hg Hb. enough (channels (hex_colour r g b) = Ok (r, g, b)) as E by (split; [exact E|by exists r, g, b]).
  destruct (byte_digits r Hr) as (R1 & R2 & R3 & R4). destruct (byte_digits g Hg) as (G1 & G2 & _ & G4).
  destruct (byte_digits b Hb) as (B1 & B2 & _ & B4). unfold hex2 in R4, G4, B4. unfold channels, hex_colour, hex2.
  revert R1 R2 R3 R4 G1 G2 G4 B1 B2 B4.
  generalize (hex_digit (r / 16)), (hex_digit (r mod 16)), (hex_digit (g / 16)), (hex_digit (g mod 16)),
    (hex_digit (b / 16)), (hex_digit (b mod 16)). intros r1 r2 g1 g2 b1 b2 R1 R2 R3 R4 G1 G2 G4 B1 B2 B4.
  cbn [lstrip Ascii.eqb Bool.eqb]. rewrite R3.
  destruct (chars_digit b2 EmptyString B2) as [C1 D1]; [by intros|]. destruct (chars_digit b1 _ B1 D1) as [C2 D2].
  destruct (chars_digit g2 _ G2 D2) as [C3 D3]. destruct (chars_digit g1 _ G1 D3) as [C4 D4].
  destruct (chars_digit r2 _ R2 D4) as [C5 D5]. destruct (chars_digit r1 _ R1 D5) as [C6 _].
  unfold channel, slice2. rewrite C6, C5, C4, C3, C2, C1.
  cbn [chars drop take join]. change (?x +:+ EmptyString +:+ ?y) with (x +:+ y).
  change (String r1 EmptyString +:+ String r2 EmptyString) with (String r1 (String r2 EmptyString)).
  change (String g1 EmptyString +:+ String g2 EmptyString) with (String g1 (String g2 EmptyString)).
  change (String b1 EmptyString +:+ String b2 EmptyString) with (String b1 (String b2 EmptyString)).
  rewrite R4. cbn [require mbind result_bind]. rewrite G4. cbn [require mbind result_bind]. by rewrite B4.
Qed.

(** ** Witnesses *)

Definition colour_okb (h : string) : bool :=
  match channels h with
  | Ok (r, g, b) => (0 <=? r) && (r <=? 255) && (0 <=? g) && (g <=? 255) && (0 <=? b) && (b <=? 255)
  | Err _ => false
  end.
Definition palette_okb (l : list colour) : bool :=
  forallb (λ c, colour_okb c.2) l &&
  forallb (λ c, forallb (λ c', negb (String.eqb c.1 c'.1) || String.eqb c.2 c'.2) l) l.

Lemma colour_okb_spec h : colour_okb h = true → colour_ok h.
Proof.
  unfold colour_okb, colour_ok. destruct (channels h) as [[[r g] b]|]; [|done].
  rewrite !andb_true_iff, !Z.leb_le. intros ?. exists r, g, b. split; [done|lia].
Qed.

Lemma palette_okb_spec l : palette_okb l = true → palette_ok l.
Proof.
  unfold palette_okb. rewrite andb_true_iff, !List.forallb_forall. intros [Hc Hn]. split.
  - apply Forall_forall. intros c Hin. apply list_elem_of_In, Hc in Hin. by apply colour_okb_spec.
  - intros c c' Hin Hin' E. apply list_elem_of_In in Hin, Hin'. specialize (Hn c Hin).
    rewrite List.forallb_forall in Hn. specialize (Hn c' Hin'). apply orb_true_iff in Hn as [Hn|Hn].
    + rewrite negb_true_iff in Hn. by apply String.eqb_neq in Hn.
    + by apply String.eqb_eq.
Qed.

Lemma status_exact_witness :
  ∃ n lines, says (@check demo_pow compensated_sum default_entries "#fcfcfb") (Ok n) lines [] ∧ 0 <= n <= 2 ∧
    Z.of_nat (length lines) = 3 + 7 * (7 - 1) / 2 + 7 ∧
    (∀ p, p ∈ combinations default_entries → ∃ normal sims, @seen demo_pow compensated_sum p.1.2 p.2.2 normal sims ∧
       is_fin normal = true ∧ Forall (λ d, is_fin d = true) sims) ∧
    (n = 0 ↔ ∀ p, p ∈ combinations default_entries →
      ∃ normal sims, @seen demo_pow compensated_sum p.1.2 p.2.2 normal sims ∧ passes normal sims) ∧
    (n <= 1 ↔ ∀ p, p ∈ combinations default_entries →
      ∃ normal sims, @seen demo_pow compensated_sum p.1.2 p.2.2 normal sims ∧ tolerable normal sims).
Proof.
  apply (@status_exact demo_pow demo_pow_laws compensated_sum compensated_laws default_entries "#fcfcfb").
  - apply palette_okb_spec. vm_compute. reflexivity.
  - apply colour_okb_spec. vm_compute. reflexivity.
Defined.

Lemma status_order_witness :
  ∃ n lines lines', says (@check demo_pow naive_sum default_entries "#fcfcfb") (Ok n) lines [] ∧
    says (@check demo_pow naive_sum (reverse default_entries) "#fcfcfb") (Ok n) lines' [].
Proof.
  apply (@status_order demo_pow demo_pow_laws naive_sum naive_laws default_entries (reverse default_entries) "#fcfcfb").
  - apply palette_okb_spec. vm_compute. reflexivity.
  - apply colour_okb_spec. vm_compute. reflexivity.
  - symmetry. apply reverse_Permutation.
Defined.

Lemma duplicate_fails_witness :
  ∃ lines, says (@script demo_pow naive_sum ["#2a78d6, #eb6834,2A78D6"]) (Err (SystemExit 2)) lines [].
Proof.
  apply (@duplicate_fails demo_pow demo_pow_laws naive_sum naive_laws ["#2a78d6, #eb6834,2A78D6"]
    [] ("#2a78d6", "#2a78d6") [("#eb6834", "#eb6834")] ("2A78D6", "2A78D6") []).
  - vm_compute. reflexivity.
  - apply palette_okb_spec. vm_compute. reflexivity.
  - vm_compute. reflexivity.
Defined.
